(* ===== verification/_CoqProject ===== *)
-Q . S2P
Prelude.v
GoStrings.v
Json.v
Sha256.v
GoValue.v
QualityRules.v
Upload.v
Retry.v
Queue.v
JobModel.v
Schema.v
Sql.v
Outbox.v
JobStore.v
JobValidation.v
ValidationSpec.v
Canonical.v
WorkerRegistry.v
Authz.v
Lease.v
Scheduler.v
Result.v
Dlq.v
Lifecycle.v
Refinement.v
System.v
Logs.v
ResultProps.v
JobProps.v
SchedulerProps.v
Submission.v
JobService.v
ResultReads.v
UploadModel.v
Svc.v
DatasetStore.v
SessionStore.v
UploadSys.v
UploadProps.v
DatasetService.v
MultipartService.v
CompleteService.v
SvcLogic.v
UploadVerify.v
UploadRequests.v
UploadJobs.v
QualityStore.v
QualityProps.v
Base64.v
Passwords.v
Tokens.v
Proc.v
IdentityStore.v
IdentityService.v
IdentityProps.v
IdentityExamples.v
IdentityRequests.v
JsonDecode.v
GoFloat.v
RateLimit.v
Http.v
HttpHandlers.v
HttpRouter.v
HttpApp.v
HttpProps.v
GoTime.v
EnvelopeCodec.v
WorkerEvents.v
MinIO.v
Topology.v
Publisher.v
Config.v
OutboxRuns.v
SchedulerProcess.v
Startup.v
Migrations.v
