(* ===== verification/Prelude.v ===== *)
(** * PipeForge control plane

    A model, and a proof of correctness, of the Go control plane under
    src/go/internal and of its processes under src/go/cmd: the part of PipeForge that
    accepts data-processing jobs, leases them to workers, applies the results workers
    send back, and publishes its commands through a transactional outbox; of the uploads
    that give those jobs their input; and of the accounts and the HTTP API in front.

    ** The program and how its parts interact

    All state is in PostgreSQL; every operation is one transaction of a
    repository, called by a service (API), by the scheduler, by a consumer of
    RabbitMQ messages or by a periodic sweep.

    - [job] submits, cancels, retries and lists jobs, under per-owner quotas and
      idempotency keys, and appends every state change to [job_state_history].
    - [scheduler] picks queued jobs fairly across owners and asks [lease] for
      each; [lease] assigns the newest attempt to a worker chosen by
      [workerregistry], renews leases, and sweeps the expired ones into a retry,
      a dead letter or a cancellation.
    - [result] applies worker events (started, progressed, succeeded, failed,
      cancelled, artifact created) to the attempt they name, once per message,
      and only when they carry the attempt's lease.
    - [dlq] lists and replays dead letters; [outbox] stores messages in the
      transaction that causes them and publishes them later under a lease;
      [queue] defines the envelopes, [retry] the delays, [authz] the scopes.
    - [upload] inspects a stream of CSV or JSON bytes while it is stored;
      [dataset] keeps datasets and their numbered versions, uploads a version in
      one request and fences concurrent uploads with a token; [multipart] does the
      same over several requests, with a session and object-store parts.  A job
      reads its input from a ready version.
    - [quality] keeps the quality rules of datasets and validates them, also those
      in the operations of a job.
    - [identity] and [auth] keep accounts, refresh tokens and API keys and say who a
      request comes from; [httpapi] routes requests through authentication and a rate
      limit to the services and maps their errors to answers.
    - [storage] is the object store over the MinIO client, [queue] also the RabbitMQ
      publisher and topology; [platform] reads the configuration and migrates the schema.
    - cmd/scheduler runs the cycles of dispatch, outbox and maintenance and consumes the
      signals of queued jobs and the events of workers; cmd/api serves the HTTP API.

    ** Files

    - Prelude: sentinel errors, results, the transaction monad [Tx] with its
      weakest preconditions and the tactics [wp_step], [wp_steps], [wp_if].
    - GoStrings: byte strings, [strings.TrimSpace], text of UUIDs.
    - Retry: retry/policy.go.  Queue: queue/envelope.go, queue/worker_routing.go.
    - JobModel: job/models.go.  Schema: the tables of src/go/migrations as
      records and finite maps.  Sql: ORDER BY, LIMIT, OFFSET, INSERT, UPDATE and
      the statements several packages share.
    - Outbox: outbox/models.go, repository.go, publisher.go.
    - JobStore: job/repository*.go.  JobService: job/service.go.
    - WorkerRegistry: workerregistry/models.go, repository.go, selector.go.
    - Authz: authz/policy.go, auth/principal.go.
    - Lease: lease/models.go, repository.go, repository_acquire.go.
    - Scheduler: scheduler/scheduler.go, dispatcher.go.
    - Result: result/validation.go, repository.go, repository_events.go,
      consumer.go.  ResultReads: result/repository_artifacts.go,
      repository_progress.go, service.go.
    - Dlq: dlq/models.go, repository.go, service.go.
    - Lifecycle: the abstract specification, a state machine [step] on jobs,
      attempts, quota counters and history, with its invariant [lifecycle_ok].
    - Refinement: the abstraction [abs] of a database and, for every transaction,
      that it is a sequence of lifecycle steps.
    - System: one type [Command] for all transactions, [exec], the transition
      relation and the reachable databases; the invariants of the system.
    - Logs: the inbox and the idempotency keys.  ResultProps, JobProps,
      SchedulerProps: the theorems about single operations in reachable databases.
    - Json: values of encoding/json, their compact encoding and a parser for it.
      Sha256: crypto/sha256 and encoding/hex.  GoValue: values of Go's [any], float64
      with correct rounding, and the conversions between numbers.
    - JobValidation: job/validation.go, validation_profile.go.  QualityRules:
      quality/models.go, validation.go (module [quality]).  ValidationSpec: the grammar
      of what they accept.  Canonical: the canonical JSON of a request.  Submission:
      [Create] with its validation, in the whole system.
    - QualityStore: quality/repository_rules.go, service.go.  QualityProps: their
      invariant.
    - Upload: upload/validation.go.  UploadModel: the records of dataset/models.go
      and multipart/models.go and the state [UDB] of their tables.
    - DatasetStore: dataset/repository*.go.  SessionStore: multipart/repository*.go.
    - Svc: the monad of services that call both the database and the object store.
      DatasetService: dataset/service*.go.  MultipartService and CompleteService:
      multipart/service*.go.
    - UploadSys: one type [UploadOp] for the upload transactions, their transition
      relation and what each may change.  UploadProps: the invariant [upload_inv]
      and the life of a session.  SvcLogic: a rely and guarantee logic for service
      calls.  UploadVerify, UploadRequests: what the services guarantee.
      UploadJobs: uploads composed with the submission of jobs.
    - Base64: encoding/base64.  Passwords: auth/password.go.  Tokens: auth/opaque.go,
      auth/jwt.go.  Proc: the monad of requests of several transactions.  IdentityStore:
      identity/repository_*.go.  IdentityService: identity/service*.go, validation.go.
      IdentityProps, IdentityRequests: their theorems; IdentityExamples: stand-ins for
      the libraries they use, for witnesses.
    - JsonDecode: encoding/json into structs.  GoFloat: float64 arithmetic and its
      rounding errors.  GoTime: text of durations and instants.
    - RateLimit: httpapi/auth-rate-limit.go.  Http: requests, answers, problems.
      HttpHandlers: the handlers.  HttpRouter: router.go, auth_middleware.go,
      observability.  HttpApp: the router over the services.  HttpProps: its theorems.
    - EnvelopeCodec: the bytes of queue/envelope.go and the decoders of result events.
      WorkerEvents: workerregistry/events.go.  MinIO: storage/minio.go.  Topology:
      queue/topology.go with the exchanges of the broker.  Publisher: queue/rabbitmq.go,
      confirm.go.
    - OutboxRuns: the outbox under the transactions of the scheduler.
    - Config: platform/config/config.go.  SchedulerProcess: cmd/scheduler's loop and
      deliveries.  Startup: the components cmd/api/main.go and
      cmd/scheduler/scheduler_runtime.go build.  Migrations: platform/migrations.

    Interfaces between components are classes: [Enqueuer] (what [job], [lease],
    [result] and [dlq] need of the outbox; the instance is [outbox_Enqueuer]) and
    [WorkerSelector] (what [lease] needs of the registry; the instance is
    [registry_selector]).  The theorems on the clients are proved against them.

    ** What the theorems show

    - The system: the state history replays to the state of every job, quota
      counters are exact, a job has at most one open attempt and a held attempt
      an exclusive lease, jobs keep their request and only move along the transition
      table, and every transaction refines the lifecycle (System).
    - Requests: validation accepts exactly a grammar, on every architecture
      (ValidationSpec); the canonical text decodes to the value it came from and
      decides equality of requests (Canonical); every job stored is valid and carries
      its own fingerprint, and an idempotency key names one request (Submission).
    - Quality rules: every stored rule is one validation accepts on its columns, but for
      those on the number of rows, which cannot be created and which an update leaves with
      columns validation refuses; names are unique (QualityProps).
    - Messages: a result message takes effect once, and only from the holder of
      the lease; an artifact only under the lease of its attempt, in its own row; progress
      never moves backwards (Logs, ResultProps, ResultReads).
    - Leases: what an acquisition grants, and that a sweep closes every expired
      lease it can lock (JobProps); which worker is chosen, and that worker
      events are ordered by incarnation and observation (WorkerRegistry).
    - Scheduling: selection is fair and sound, a dispatch run accounts for every
      job (Scheduler, SchedulerProps).
    - Outbox: claims are exclusive, stale publishers are fenced, delivery is at
      least once, the retry delay has a closed form (Outbox).
    - Access: no user reaches or changes what another owns, listings are complete,
      API keys do not escalate (JobService, ResultReads, Authz).
    - Uploads: version numbers, sizes, checksums and session states stay
      consistent in every reachable database; a session only moves forward; a
      completion with a token that was since replaced is refused (UploadProps).  A
      request that completes recorded what it inspected, its size and SHA-256
      included, and compared it with the session's stored row, whatever ran beside it;
      every request keeps the invariant at every point, and leaves no ready version behind
      when it fails (UploadVerify, UploadRequests).  The input of an accepted job is a finished version that
      later uploads do not change (UploadJobs).
    - Identity: a refresh token is good for one use, and its reuse and a logout end the
      session; an API key is never more than its creator (IdentityProps, IdentityRequests);
      an access token stands for its user as stored until it expires by the request's
      clock; password hashes read back (Passwords).
    - HTTP: no route but the public ones is served without credentials, and a user sees
      and changes only what is theirs, through router, authentication, service and
      repository (HttpProps); the rate limit holds, up to bounded rounding, for every
      admission of a client, and no client is dropped while there are few (RateLimit).
    - Messages on the wire: envelopes up to the size limit read back as written
      (EnvelopeCodec), publishing is
      at least once (Publisher), every message reaches its one consumer and every rejected
      one its dead-letter queue (Topology), worker events keep the worker table within its
      constraints (WorkerEvents).
    - Processes: the scheduler keeps every invariant of jobs and uploads through any run,
      marks no message published that was not sent, and settles a worker event by the first
      attempt that meets no fault, or dead-letters it when there is none or the wait is
      cancelled (SchedulerProcess); no component refuses a configuration that loads, and
      only the MinIO library or the broker can stop the start (Startup); migrations are
      applied in order and once by any number of processes (Migrations); the listing of
      parts is complete (MinIO).
    - Smaller parts: delays of the retry policy are bounded (Retry), the transition table
      and its terminal states (JobModel); dead-letter replay can never succeed (Dlq).

    ** Modelling decisions

    - A transaction body is a function of the database and an oracle that gives
      fresh UUIDs, clock readings, random draws and the rows other transactions
      lock; an error discards its writes.  Transactions run one after the other
      in any order; FOR UPDATE locks make that the behaviour of the statements
      modelled, and SKIP LOCKED is the oracle's set of locked rows.  Where the
      code uses several transactions, the states between them are arbitrary.
    - Errors are sentinels: wrapping with %w keeps the sentinel, and the text is
      dropped.  Failures of the database itself are injected in the services, requests and
      processes of several transactions (refused, or lost at the commit), not inside one.
    - UUIDs are numbers below 2^128 by use, instants and durations are numbers of
      nanoseconds; 64-bit arithmetic wraps where the code can overflow.
    - Primary keys and the UNIQUE constraints the code relies on are checked by
      the inserts; foreign keys and CHECK constraints are not, except in the upload and
      identity tables, and where a theorem says rows satisfy them.
    - Nil receivers and unset dependencies, which the constructors refuse, have no
      branch.  The outbox writer of the result repository is optional in its
      constructor and taken to be present, as in cmd/api and cmd/result-consumer.
    - JSON: payloads are values; the six decoders of result event structs, being
      encoding/json with struct tags, are a record of functions [Decoders], arbitrary in the
      theorems on the system and written out as [result_decoders] in EnvelopeCodec.  [Create]
      takes the answer of [ValidateCreateCommand] as an argument, arbitrary in the
      theorems on the system and the code's own in Submission.  A number in the
      configuration of an operation or a rule is the text json.Marshal gives for it;
      a validator sees the float64 it was decoded to.
    - What the language leaves open is a parameter: the class [GoArch], the result of
      converting a float that is out of range, with the law that it is the least or
      the largest integer, as on amd64 and arm64.  Which patterns [regexp.Compile]
      accepts is the class [Regexp].
    - A nil slice is the SQL value NULL, as pgx encodes it.
    - Services that span several transactions run in an environment [SEnv]: between
      two steps other requests may change the database in any way the upload
      transactions can, and the object store answers anything, errors included;
      every call is logged.  What the theorems need of an answer is a hypothesis on
      the environment, such as that a stored object is what was sent.
    - The order of text columns is a parameter, the class [PgCollation].
    - Libraries outside the repository are classes with the laws the code relies on:
      [UuidParser], [JWT], [Argon2], [MailParser], [UnicodeTables], [PgLower] (the
      functional index on lower(email)), [FloatText], [Chi] (the router); the MinIO and
      AMQP clients answer arbitrarily, and where a theorem needs a contract of theirs
      (pages of ListParts, an acknowledgement means the broker has the message) it is a
      hypothesis or the meaning of the answer.  A topic exchange matches words and
      wildcards as RabbitMQ documents it.
    - On the wire, the text of an instant is written by [GoTime] and a payload is its
      JSON value.  The order in which Go ranges over a map is an argument.
    - The job database of the scheduler process changes between its events by any
      transitions, its upload tables by any steps; within one cycle the transactions on
      jobs follow each other.  No other process publishes from the outbox, as none runs a
      dispatcher.  In the dispatcher publishing fails and leases are lost, the database
      itself answers.
    - Migration scripts are a parameter.  The advisory lock makes a migration one step, and
      the table of versions exists when the processes start.
    - The payload of an outbox row is kept as written and its times to the nanosecond,
      where the columns are JSONB and have microseconds.
    - Fuel: [select_loop] has one round more than there are workers, enough by
      [select_loop_spec]; [fair_loop] one more than there are candidates, enough by
      [FairSelect_rounds] and [all_rounds_Permutation]; the fuel of [retry_loop] is
      the loop's own bound; [trim_while] drops at least a byte per round and has one
      round per byte; [parse_value] has two rounds per byte and one more, enough by
      [parse_fuel], and the decoders of UTF-8 and of JSON strings one per byte; [compress_all]
      has one round per 64-byte block; [duration_loop] takes at least a byte per round and
      [fields_loop] one byte; [find_month] has a round per month; [list_parts] has the number of
      requests it may make as an argument, and [ListMultipartParts_complete] says how many
      are enough.

    ** Not modelled

    Network and operating system: the HTTP server, sockets, signals, logging, the text of
    metrics, the connection pool and its DSN, consumer set-up of the AMQP channel and the
    headers beside a message body.  The rendering of response values to bytes.  The
    transcript of pipectl, a terminal client of the API (flags, files, an HTTP client), and
    the main functions of the result consumer and of migrate, which only connect what is
    modelled.  lease/service.go, which forwards to the repository and which no process
    builds, and [IsRetryable], which nothing calls. *)

From Stdlib Require Export ZArith Lia.
From Corelib Require Export ssreflect.
From stdpp Require Export base tactics list sets gmap strings fin_maps sorting relations.
From stdpp Require Export numbers.

(** Hint databases: the transactions that refine the lifecycle, and those that
    leave the request logs alone. *)
Create HintDb refines.
Create HintDb logs.

#[export] Set Default Goal Selector "!".
#[export] Set Warnings "-clear-no-such-hyp".

(** Identifiers and instants.  A [uuid] is the 128-bit number of the
    identifier, [uuid.Nil] being 0; an instant is a number of nanoseconds since
    Go's zero time, so that [time.IsZero] is equality with 0; a duration is a
    number of nanoseconds. *)
Abbreviation uuid := N (only parsing).
Abbreviation time := Z (only parsing).
Abbreviation duration := Z (only parsing).

Definition uuid_nil : uuid := 0%N.

Definition time_zero : time := 0%Z.

Definition Nanosecond : duration := 1%Z.
Definition Second : duration := 1000000000%Z.
Definition Minute : duration := (60 * Second)%Z.
Definition Hour : duration := (60 * Minute)%Z.

(** Two's-complement wrap-around of Go's [int64]. *)
Definition wrap64 (z : Z) : Z := ((z + 2 ^ 63) mod 2 ^ 64 - 2 ^ 63)%Z.

Definition max_int64 : Z := (2 ^ 63 - 1)%Z.
Definition min_int64 : Z := (- 2 ^ 63)%Z.

Lemma wrap64_small z : (min_int64 <= z <= max_int64 → wrap64 z = z)%Z.
Proof. unfold wrap64, min_int64, max_int64. intros H. rw Z.mod_small; lia. Qed.

(** Sentinel errors.  [fmt.Errorf("%w: ...", sentinel)] keeps the sentinel, so
    an error is modelled by the sentinel [errors.Is] sees; an error built from
    text alone is [ErrText]. *)
Inductive GoError :=
  (* authz *)
  | ErrUnauthenticated | ErrForbidden | ErrInvalidScope
  (* retry *)
  | ErrInvalidPolicy | ErrInvalidAttempt
  (* job *)
  | ErrJobInvalidInput | ErrJobNotFound | ErrVersionNotFound | ErrJobState
  | ErrInvalidTransition | ErrIdempotencyConflict | ErrVersionUnavailable
  | ErrQuotaExceeded
  (* dataset *)
  | ErrDatasetNotFound | ErrDatasetVersionNotFound | ErrDatasetNameUsed | ErrDatasetDeleted
  | ErrDatasetVersionState | ErrDatasetInvalidInput | ErrDatasetUploadTooLarge
  | ErrDatasetUploadSizeMismatch | ErrDatasetChecksumMismatch | ErrObjectStorage
  (* upload *)
  | ErrUnsafeFilename | ErrUnsupportedFormat | ErrInvalidContent | ErrInvalidChecksum
  (* multipart *)
  | ErrMultipartInvalidInput | ErrSessionNotFound | ErrSessionExpired | ErrSessionCompleted
  | ErrSessionInProgress | ErrSessionState | ErrMultipartIdempotencyConflict | ErrPartNotFound
  | ErrPartConflict | ErrRemoteStorage | ErrMultipartChecksumMismatch | ErrMultipartSizeMismatch
  | ErrMultipartUploadTooLarge
  (* outbox *)
  | ErrLeaseLost | ErrInvalidMessage
  (* lease *)
  | ErrLeaseInvalidInput | ErrLeaseNotFound | ErrLeaseExpired | ErrLeaseState
  | ErrLeaseNotReady | ErrWorkerUnavailable
  (* workerregistry, result *)
  | ErrInvalidWorkerEvent | ErrInvalidEvent
  | ErrArtifactNotFound | ErrArtifactUnavailable | ErrArtifactTooLarge
  | ErrProgressNotFound | ErrResultInvalidInput
  (* quality *)
  | ErrQualityInvalidInput | ErrRuleNotFound | ErrRuleNameUsed
  (* storage *)
  | ErrObjectNotFound | ErrMultipartPartNotFound
  (* dlq *)
  | ErrDlqInvalidInput | ErrDlqNotFound | ErrAlreadyReplayed | ErrDlqJobState
  | ErrDlqQuotaExceeded
  (* auth, identity *)
  | ErrInvalidAccessToken | ErrInvalidOpaqueToken | ErrInvalidPasswordHash
  | ErrUserNotFound | ErrEmailAlreadyExists | ErrInvalidCredentials | ErrRefreshTokenInvalid
  | ErrRefreshTokenReplay | ErrRefreshTokenExpired | ErrAPIKeyNotFound | ErrAPIKeyInvalid
  | ErrIdentityInvalidInput | ErrIdentityConfiguration
  (* queue, httpapi *)
  | ErrPublisherNack | ErrPublisherClosed | ErrInvalidAuthRateLimitConfig
  (* PostgreSQL: violations of a uniqueness, a reference and a CHECK; an error
     that carries text only *)
  | ErrUniqueViolation | ErrReferenceViolation | ErrCheckViolation
  | ErrText (msg : string).

#[export] Instance GoError_eq_dec : EqDecision GoError.
Proof. solve_decision. Defined.

(** ** Fallible computations *)

Inductive res (A : Type) := Ok (a : A) | Err (e : GoError).
Arguments Ok {A} _.
Arguments Err {A} _.

Definition res_bind {A B} (m : res A) (f : A → res B) : res B :=
  match m with Ok a => f a | Err e => Err e end.

Definition guard_err (b : bool) (e : GoError) : res unit :=
  if b then Ok tt else Err e.

Definition is_ok {A} (r : res A) : bool :=
  match r with Ok _ => true | Err _ => false end.

Lemma res_bind_Ok {A B} (m : res A) (f : A → res B) b :
  res_bind m f = Ok b → ∃ a, m = Ok a ∧ f a = Ok b.
Proof. destruct m as [a|e]; simpl; [eauto|done]. Qed.

(** [fmt.Errorf] with a sentinel and the text of the error: only the sentinel is
    left of it. *)
Definition wrap_err {A} (e : GoError) (r : res A) : res A :=
  match r with Ok a => Ok a | Err _ => Err e end.

Lemma guard_err_Ok b e u : guard_err b e = Ok u → b = true.
Proof. by destruct b. Qed.

(** Association lists: the first binding of a key (a Go map literal has one),
    and the last one (a decoded JSON object keeps the last). *)
Fixpoint assoc_first {A} (k : string) (l : list (string * A)) : option A :=
  match l with
  | [] => None
  | (k', v) :: l => if bool_decide (k = k') then Some v else assoc_first k l
  end.

Fixpoint assoc_last {A} (k : string) (l : list (string * A)) : option A :=
  match l with
  | [] => None
  | (k', v) :: l =>
      match assoc_last k l with
      | Some v' => Some v'
      | None => if bool_decide (k = k') then Some v else None
      end
  end.

(** Two updates of one row are one update. *)
Lemma alter_alter {K A} `{Countable K} (f g : A → A) k (m : gmap K A) :
  alter f k (alter g k m) = alter (f ∘ g) k m.
Proof.
  apply map_eq. intros i. destruct (decide (k = i)) as [->|Hne].
  - rw !lookup_alter_eq. by destruct (m !! i).
  - by rw !lookup_alter_ne.
Qed.

(** ** Database transactions

    A transaction body is a state and error computation over the database
    state [S].  The values it takes from outside the database (fresh UUIDs,
    readings of [time.Now], the transaction timestamp [NOW()], the rows other
    transactions hold a lock on, draws of the random source) come from an
    oracle; the counter [tick] makes successive readings independent. *)
Record Oracle := {
  o_uuid : nat → uuid;
  o_time : nat → time;
  o_sqlnow : time;
  o_locked : uuid → bool;
  o_rand : nat → Z → Z
}.

Record World (S : Type) := mkWorld { st : S; tick : nat }.
Arguments mkWorld {S} _ _.
Arguments st {S} _.
Arguments tick {S} _.

Definition Tx (S A : Type) := Oracle → World S → res (A * World S).

#[export] Instance res_ret : MRet res := @Ok.
#[export] Instance res_mbind : MBind res := λ A B f m, res_bind m f.
#[export] Instance tx_ret {S} : MRet (Tx S) := λ A a _ w, Ok (a, w).
#[export] Instance tx_bind {S} : MBind (Tx S) := λ A B f m o w,
  match m o w with Ok (a, w') => f a o w' | Err e => Err e end.

Definition fail {S A} (e : GoError) : Tx S A := λ _ _, Err e.
Definition gets {S A} (f : S → A) : Tx S A := λ _ w, Ok (f (st w), w).
Definition modify {S} (f : S → S) : Tx S unit := λ _ w, Ok (tt, mkWorld (f (st w)) (tick w)).
Definition require {S} (b : bool) (e : GoError) : Tx S unit :=
  if b then mret tt else fail e.
Definition lift_res {S A} (r : res A) : Tx S A :=
  match r with Ok a => mret a | Err e => fail e end.
Definition lift_opt {S A} (e : GoError) (r : option A) : Tx S A :=
  match r with Some a => mret a | None => fail e end.

(** [uuid.New], [time.Now().UTC()], SQL [NOW()], the set of rows locked by
    concurrent transactions ([SKIP LOCKED]) and a draw of [Source.Int63n]. *)
Definition uuid_new {S} : Tx S uuid := λ o w, Ok (o_uuid o (tick w), mkWorld (st w) (Datatypes.S (tick w))).
Definition time_now {S} : Tx S time := λ o w, Ok (o_time o (tick w), mkWorld (st w) (Datatypes.S (tick w))).
Definition sql_now {S} : Tx S time := λ o w, Ok (o_sqlnow o, w).
Definition locked_rows {S} : Tx S (uuid → bool) := λ o w, Ok (o_locked o, w).
Definition rand_source {S} : Tx S (Z → Z) := λ o w, Ok (o_rand o (tick w), mkWorld (st w) (Datatypes.S (tick w))).

Fixpoint forM_ {S A} (l : list A) (f : A → Tx S unit) : Tx S unit :=
  match l with
  | [] => mret tt
  | x :: l => f x ≫= λ _, forM_ l f
  end.

(** [pool.Begin] .. [tx.Commit] with the deferred [tx.Rollback]: the state of a
    body that returns an error is discarded. *)
Definition transact {S A} (m : Tx S A) (o : Oracle) (s : S) : res A * S :=
  match m o (mkWorld s 0) with
  | Ok (a, w) => (Ok a, st w)
  | Err e => (Err e, s)
  end.

(** ** Weakest preconditions (partial correctness over the error) *)
Section wp.
Context {S : Type} (o : Oracle).

Definition wp {A} (m : Tx S A) (Q : A → World S → Prop) (w : World S) : Prop :=
  match m o w with Ok (a, w') => Q a w' | Err _ => True end.

Lemma wp_ret {A} (a : A) Q w : Q a w → wp (mret a) Q w.
Proof. done. Qed.

Lemma wp_bind {A B} (m : Tx S A) (f : A → Tx S B) Q w :
  wp m (λ a w', wp (f a) Q w') w → wp (m ≫= f) Q w.
Proof. rw /wp /mbind /tx_bind. by destruct (m o w) as [[a w']|e]. Qed.

Lemma wp_fail {A} e (Q : A → World S → Prop) w : wp (fail e) Q w.
Proof. done. Qed.

Lemma wp_gets {A} (f : S → A) Q w : Q (f (st w)) w → wp (gets f) Q w.
Proof. done. Qed.

Lemma wp_modify f (Q : unit → World S → Prop) w :
  Q tt (mkWorld (f (st w)) (tick w)) → wp (modify f) Q w.
Proof. done. Qed.

Lemma wp_require b e (Q : unit → World S → Prop) w :
  (b = true → Q tt w) → wp (require b e) Q w.
Proof. destruct b; rw /wp /require /=; auto. Qed.

Lemma wp_lift_res {A} (r : res A) Q w :
  (∀ a, r = Ok a → Q a w) → wp (lift_res r) Q w.
Proof. destruct r; rw /wp /lift_res /=; auto. Qed.

Lemma wp_lift_opt {A} e (r : option A) Q w :
  (∀ a, r = Some a → Q a w) → wp (lift_opt e r) Q w.
Proof. destruct r; rw /wp /lift_opt /=; auto. Qed.

(** A reading of the environment changes nothing but the tick. *)
Lemma wp_uuid_new (Q : uuid → World S → Prop) w :
  (∀ u n, Q u (mkWorld (st w) n)) → wp uuid_new Q w.
Proof. rw /wp /uuid_new /=; auto. Qed.

Lemma wp_time_now (Q : time → World S → Prop) w :
  (∀ t n, Q t (mkWorld (st w) n)) → wp time_now Q w.
Proof. rw /wp /time_now /=; auto. Qed.

Lemma wp_time_now_exact (Q : time → World S → Prop) w :
  Q (o_time o (tick w)) (mkWorld (st w) (Datatypes.S (tick w))) → wp time_now Q w.
Proof. done. Qed.

Lemma wp_rand_source (Q : (Z → Z) → World S → Prop) w :
  (∀ f n, Q f (mkWorld (st w) n)) → wp rand_source Q w.
Proof. rw /wp /rand_source /=; auto. Qed.

Lemma wp_sql_now (Q : time → World S → Prop) w :
  Q (o_sqlnow o) w → wp sql_now Q w.
Proof. done. Qed.

Lemma wp_locked_rows (Q : (uuid → bool) → World S → Prop) w :
  Q (o_locked o) w → wp locked_rows Q w.
Proof. done. Qed.

Lemma wp_mono {A} (m : Tx S A) (Q Q' : A → World S → Prop) w :
  (∀ a w', Q a w' → Q' a w') → wp m Q w → wp m Q' w.
Proof. rw /wp. destruct (m o w) as [[a w']|e]; auto. Qed.

Lemma wp_True {A} (m : Tx S A) (Q : A → World S → Prop) w : (∀ a w', Q a w') → wp m Q w.
Proof. rw /wp. destruct (m o w) as [[a w']|e]; auto. Qed.

(** A prefix whose effect does not matter. *)
Lemma wp_skip {A B} (m : Tx S A) (f : A → Tx S B) Q w :
  (∀ a w', wp (f a) Q w') → wp (m ≫= f) Q w.
Proof. intros H. apply wp_bind. rw /wp. destruct (m o w) as [[a w']|e]; [apply H|done]. Qed.

(** A computation that satisfies no postcondition fails. *)
Lemma wp_False {A} (m : Tx S A) w : wp m (λ _ _, False) w → ∃ e, m o w = Err e.
Proof. rw /wp. destruct (m o w) as [[a w']|e]; [done|eauto]. Qed.

(** The loop rule: an invariant of the state kept by every iteration. *)
Lemma wp_forM {A} (l : list A) (f : A → Tx S unit) (I : S → Prop) w :
  (∀ x w', x ∈ l → I (st w') → wp (f x) (λ _ w'', I (st w'')) w') →
  I (st w) → wp (forM_ l f) (λ _ w', I (st w')) w.
Proof.
  revert w. induction l as [|x l IH]; intros w Hf Hw; [done|].
  simpl. apply wp_bind. eapply wp_mono; [|apply Hf; [constructor|done]].
  intros [] w' Hw'. apply IH; [|done]. intros y w'' Hy. apply Hf. by constructor.
Qed.

(** A committed transaction satisfies the postcondition; an aborted one
    leaves the state as it found it. *)
Lemma transact_wp {A} (m : Tx S A) (s : S) (P : res A → S → Prop) :
  (∀ e, P (Err e) s) →
  wp m (λ a w', P (Ok a) (st w')) (mkWorld s 0) →
  P (transact m o s).1 (transact m o s).2.
Proof. rw /wp /transact. intros He Hm. destruct (m o _) as [[a w']|e]; simpl; auto. Qed.

Lemma transact_ok {A} (m : Tx S A) (s s' : S) a (P : A → S → Prop) :
  transact m o s = (Ok a, s') → wp m (λ a w', P a (st w')) (mkWorld s 0) → P a s'.
Proof. rw /wp /transact. destruct (m o _) as [[b w']|e]; intros; by simplify_eq/=. Qed.

(** The same, with the result and the final state named in the goal. *)
Lemma transact_inv {A} (m : Tx S A) (s s' : S) a (G : Prop) :
  transact m o s = (Ok a, s') →
  wp m (λ b w', a = b → s' = st w' → G) (mkWorld s 0) → G.
Proof. intros H Hw. exact (transact_ok m s s' a (λ b s'', a = b → s' = s'' → G) H Hw eq_refl eq_refl). Qed.

(** What a transaction returns, on both branches. *)
Lemma transact_res {A} (m : Tx S A) (s s' : S) r (P : A → S → Prop) :
  transact m o s = (r, s') → wp m (λ a w', P a (st w')) (mkWorld s 0) →
  match r with Ok a => P a s' | Err _ => s' = s end.
Proof. rw /wp /transact. destruct (m o _) as [[a w']|e']; intros; by simplify_eq/=. Qed.

Lemma transact_err {A} (m : Tx S A) (s s' : S) e :
  transact m o s = (Err e, s') → s' = s.
Proof. rw /transact. destruct (m o _) as [[a w']|e']; congruence. Qed.
End wp.

(** Symbolic execution of a transaction body. *)
Ltac wp_step :=
  lazymatch goal with
  | |- wp _ (mbind _ _) _ _ => apply wp_bind
  | |- wp _ (mret _) _ _ => apply wp_ret
  | |- wp _ (fail _) _ _ => apply wp_fail
  | |- wp _ (gets _) _ _ => apply wp_gets
  | |- wp _ (modify _) _ _ => apply wp_modify
  | |- wp _ (require _ _) _ _ => apply wp_require; intros ?
  | |- wp _ (lift_res _) _ _ => apply wp_lift_res; intros ? ?
  | |- wp _ (lift_opt _ _) _ _ => apply wp_lift_opt; intros ? ?
  | |- wp _ uuid_new _ _ => apply wp_uuid_new; intros ? ?
  | |- wp _ time_now _ _ => apply wp_time_now; intros ? ?
  | |- wp _ rand_source _ _ => apply wp_rand_source; intros ? ?
  | |- wp _ sql_now _ _ => apply wp_sql_now
  | |- wp _ locked_rows _ _ => apply wp_locked_rows
  end; cbn [st tick fst snd].

Ltac wp_steps := repeat wp_step.

(** Case analysis on the test at the head of the body. *)
Tactic Notation "wp_if" "as" ident(H) :=
  lazymatch goal with
  | |- wp _ (if bool_decide ?P then _ else _) _ _ => destruct (bool_decide_reflect P) as [H|H]
  | |- wp _ (if ?b then _ else _) _ _ => destruct b eqn:H
  | |- wp _ (match ?x with _ => _ end) _ _ => destruct x eqn:H
  end.

Tactic Notation "wp_if" := let H := fresh "Hif" in wp_if as H.

(** Turn a boolean test of the code into the proposition it decides. *)
Ltac reflect_bool :=
  repeat match goal with
  | H : _ && _ = true |- _ => apply andb_true_iff in H as [? ?]
  | H : negb _ = true |- _ => apply negb_true_iff in H
  | H : negb _ = false |- _ => apply negb_false_iff in H
  | H : bool_decide _ = true |- _ => apply bool_decide_eq_true in H
  | H : bool_decide _ = false |- _ => apply bool_decide_eq_false in H
  | H : _ || _ = false |- _ => apply orb_false_iff in H as [? ?]
  end.
