(* ===== verification/GoStrings.v ===== *)
(** Go strings as the control plane uses them: byte strings with [len],
    slicing, [strings.TrimSpace], and the text form of a UUID. *)

From S2P Require Import Prelude.

Open Scope Z_scope.

(** [len(s)]: the number of bytes. *)
Definition go_len (s : string) : Z := Z.of_nat (String.length s).

(** [s[:n]] for [n <= len(s)]. *)
Definition slice_to (n : nat) (s : string) : string := String.substring 0 n s.

(** [strings.TrimSpace] works on runes: the white space of Unicode, in its
    UTF-8 encoding (one, two or three bytes). *)
Definition byte_of (c : Ascii.ascii) : N := Ascii.N_of_ascii c.

Definition ascii_space (b : N) : bool :=
  bool_decide (b = 32%N ∨ (9 <= b ∧ b <= 13)%N).

Definition wide_space2 (b1 b2 : N) : bool :=
  bool_decide (b1 = 194%N ∧ (b2 = 133%N ∨ b2 = 160%N)).

Definition wide_space3 (b1 b2 b3 : N) : bool :=
  bool_decide ((b1 = 225 ∧ b2 = 154 ∧ b3 = 128)%N
    ∨ (b1 = 226 ∧ b2 = 128 ∧ ((128 <= b3 ∧ b3 <= 138) ∨ b3 = 168 ∨ b3 = 169 ∨ b3 = 175))%N
    ∨ (b1 = 226 ∧ b2 = 129 ∧ b3 = 159)%N
    ∨ (b1 = 227 ∧ b2 = 128 ∧ b3 = 128)%N).

(** Bytes of the white-space rune at the head of [l], 0 when there is none;
    [rev_space_len] reads the bytes of a reversed string. *)
Definition space_len (l : list N) : nat :=
  match l with
  | b1 :: l1 =>
      if ascii_space b1 then 1%nat
      else match l1 with
      | b2 :: l2 =>
          if wide_space2 b1 b2 then 2%nat
          else match l2 with
               | b3 :: _ => if wide_space3 b1 b2 b3 then 3%nat else 0%nat
               | [] => 0%nat
               end
      | [] => 0%nat
      end
  | [] => 0%nat
  end.

Definition rev_space_len (l : list N) : nat :=
  match l with
  | b1 :: l1 =>
      if ascii_space b1 then 1%nat
      else match l1 with
      | b2 :: l2 =>
          if wide_space2 b2 b1 then 2%nat
          else match l2 with
               | b3 :: _ => if wide_space3 b3 b2 b1 then 3%nat else 0%nat
               | [] => 0%nat
               end
      | [] => 0%nat
      end
  | [] => 0%nat
  end.

(** Drop white-space runes while there are some; the length of the list is
    enough fuel since every step drops at least one byte. *)
Fixpoint trim_while (head : list N → nat) (fuel : nat) (l : list N) : list N :=
  match fuel with
  | O => l
  | S fuel =>
      match head l with
      | O => l
      | n => trim_while head fuel (drop n l)
      end
  end.

Fixpoint bytes_of (s : string) : list N :=
  match s with
  | EmptyString => []
  | String c s => byte_of c :: bytes_of s
  end.

Fixpoint string_of_bytes (l : list N) : string :=
  match l with
  | [] => EmptyString
  | b :: l => String (Ascii.ascii_of_N b) (string_of_bytes l)
  end.

Definition trim_bytes (l : list N) : list N :=
  let l := trim_while space_len (length l) l in
  rev (trim_while rev_space_len (length l) (rev l)).

Definition trim_space (s : string) : string := string_of_bytes (trim_bytes (bytes_of s)).

(** [strings.ContainsAny(s, chars)] for ASCII [chars]. *)
Definition contains_any (s : string) (chars : list N) : bool :=
  existsb (λ b, bool_decide (b ∈ chars)) (bytes_of s).

(** Byte-wise comparison, Go's [<] on strings. *)
Fixpoint bytes_ltb (l k : list N) : bool :=
  match l, k with
  | [], [] => false
  | [], _ :: _ => true
  | _ :: _, [] => false
  | x :: l, y :: k => if N.eqb x y then bytes_ltb l k else N.ltb x y
  end.

Definition string_ltb (s t : string) : bool := bytes_ltb (bytes_of s) (bytes_of t).

(** [uuid.UUID.String]: 32 lower-case hexadecimal digits grouped 8-4-4-4-12. *)
Definition hex_digit (d : N) : N := if N.ltb d 10 then (48 + d)%N else (87 + d)%N.

Fixpoint hex_digits (n : nat) (u : N) : list N :=
  match n with
  | O => []
  | S n => hex_digits n (N.div u 16) ++ [hex_digit (N.modulo u 16)]
  end.

Definition dashed (d : list N) : list N :=
  take 8 d ++ [45%N] ++ take 4 (drop 8 d) ++ [45%N] ++ take 4 (drop 12 d) ++ [45%N]
    ++ take 4 (drop 16 d) ++ [45%N] ++ drop 20 d.

Definition uuid_bytes (u : uuid) : list N := dashed (hex_digits 32 u).

Definition uuid_string (u : uuid) : string := string_of_bytes (uuid_bytes u).

(** ** Lemmas *)

Lemma string_of_bytes_of s : string_of_bytes (bytes_of s) = s.
Proof. induction s as [|c s IH]; simpl; [done|]. rw /byte_of Ascii.ascii_N_embedding IH. done. Qed.

Lemma bytes_of_string_of l :
  Forall (λ b, (b < 256)%N) l → bytes_of (string_of_bytes l) = l.
Proof.
  induction 1 as [|b l Hb _ IH]; simpl; [done|].
  rw /byte_of Ascii.N_ascii_embedding //. by f_equal.
Qed.

Lemma bytes_of_app s t : bytes_of (s +:+ t) = bytes_of s ++ bytes_of t.
Proof. induction s as [|c s IH]; simpl; [done|]. by f_equal. Qed.

Lemma length_bytes_of s : length (bytes_of s) = String.length s.
Proof. induction s; simpl; auto. Qed.

Lemma go_len_bytes s : go_len s = Z.of_nat (length (bytes_of s)).
Proof. by rw /go_len length_bytes_of. Qed.

Lemma go_len_nonneg s : 0 <= go_len s.
Proof. rw /go_len. lia. Qed.

Lemma go_len_0 s : go_len s = 0 → s = EmptyString.
Proof. by destruct s. Qed.

Lemma string_length_app s t :
  String.length (s +:+ t) = (String.length s + String.length t)%nat.
Proof. induction s; simpl; auto. Qed.

Lemma go_len_app s t : go_len (s +:+ t) = go_len s + go_len t.
Proof. rw /go_len string_length_app. lia. Qed.

Lemma bytes_of_lt s : Forall (λ b, (b < 256)%N) (bytes_of s).
Proof.
  induction s; simpl; constructor; auto. rw /byte_of. apply Ascii.N_ascii_bounded.
Qed.

Lemma length_string_of_bytes l : String.length (string_of_bytes l) = length l.
Proof. induction l; simpl; auto. Qed.

Lemma length_hex_digits n u : length (hex_digits n u) = n.
Proof. revert u. induction n; intros u; simpl; [done|]. rw length_app IHn /=. lia. Qed.

Lemma length_uuid_bytes u : length (uuid_bytes u) = 36%nat.
Proof.
  rw /uuid_bytes /dashed !length_app !length_take !length_drop length_hex_digits. done.
Qed.

(** A rendered UUID has 36 bytes: it is never empty and fits every bound the
    code puts on trace identifiers. *)
Lemma go_len_uuid_string u : go_len (uuid_string u) = 36.
Proof. by rw /go_len /uuid_string length_string_of_bytes length_uuid_bytes. Qed.

Lemma uuid_string_nonempty u : uuid_string u ≠ "".
Proof. intros H. pose proof (go_len_uuid_string u) as Hl. by rw H in Hl. Qed.

Lemma hex_digit_lt d : (d < 16 → hex_digit d < 256)%N.
Proof. unfold hex_digit. destruct (N.ltb_spec d 10); lia. Qed.

Lemma hex_digit_inj d e : (d < 16 → e < 16 → hex_digit d = hex_digit e → d = e)%N.
Proof. unfold hex_digit. destruct (N.ltb_spec d 10), (N.ltb_spec e 10); lia. Qed.

Lemma hex_digits_lt n u : Forall (λ b, (b < 256)%N) (hex_digits n u).
Proof.
  revert u. induction n as [|n IH]; intros u; simpl; [constructor|].
  apply Forall_app. split; [apply IH|]. constructor; [|constructor].
  apply hex_digit_lt, N.mod_lt. done.
Qed.

Lemma hex_digits_inj n u v :
  (u < 16 ^ N.of_nat n → v < 16 ^ N.of_nat n → hex_digits n u = hex_digits n v → u = v)%N.
Proof.
  revert u v. induction n as [|n IH]; intros u v Hu Hv H; simpl in *; [lia|].
  apply app_inj_2 in H as [H1 H2]; [|done]. injection H2 as H2.
  apply hex_digit_inj in H2; [|apply N.mod_lt; done..].
  rw Nat2N.inj_succ N.pow_succ_r' in Hu Hv.
  apply IH in H1; [|apply N.Div0.div_lt_upper_bound; lia..].
  rw (N.div_mod u 16) // (N.div_mod v 16) // H1 H2 //.
Qed.

Lemma uuid_bytes_lt u : Forall (λ b, (b < 256)%N) (uuid_bytes u).
Proof.
  pose proof (hex_digits_lt 32 u) as H. unfold uuid_bytes, dashed.
  repeat (apply Forall_app; split); auto using Forall_take, Forall_drop;
    repeat constructor; lia.
Qed.

Lemma dashed_inj d e : length d = 32%nat → length e = 32%nat → dashed d = dashed e → d = e.
Proof.
  intros Ld Le H. unfold dashed in H.
  apply app_inj_1 in H as [H1 H]; [|rw !length_take; lia]. injection H as H.
  apply app_inj_1 in H as [H2 H]; [|rw !length_take !length_drop; lia]. injection H as H.
  apply app_inj_1 in H as [H3 H]; [|rw !length_take !length_drop; lia]. injection H as H.
  apply app_inj_1 in H as [H4 H]; [|rw !length_take !length_drop; lia]. injection H as H5.
  rw -(take_drop 8 d) -(take_drop 8 e) H1. f_equal.
  rw -(take_drop 4 (drop 8 d)) -(take_drop 4 (drop 8 e)) H2 !drop_drop. f_equal.
  rw -(take_drop 4 (drop (8 + 4) d)) -(take_drop 4 (drop (8 + 4) e)) H3 !drop_drop. f_equal.
  rw -(take_drop 4 (drop (8 + 4 + 4) d)) -(take_drop 4 (drop (8 + 4 + 4) e)) H4 !drop_drop.
  by f_equal.
Qed.

(** Distinct 128-bit identifiers are rendered differently. *)
Lemma uuid_string_inj u v :
  (u < 2 ^ 128)%N → (v < 2 ^ 128)%N → uuid_string u = uuid_string v → u = v.
Proof.
  intros Hu Hv H. apply (f_equal bytes_of) in H. unfold uuid_string in H.
  rw !bytes_of_string_of in H; [apply uuid_bytes_lt..|].
  apply dashed_inj in H; [|apply length_hex_digits..].
  by apply (hex_digits_inj 32).
Qed.

(** ** Trimming *)

Lemma trim_while_suffix head fuel l : trim_while head fuel l `suffix_of` l.
Proof.
  revert l. induction fuel as [|fuel IH]; intros l; simpl; [done|].
  destruct (head l) as [|n]; [done|]. etrans; [apply IH|]. exists (take (S n) l). by rw take_drop.
Qed.

(** With a byte of fuel per byte of input, what remains starts with no space. *)
Lemma trim_while_head head fuel l :
  head [] = 0%nat → (length l <= fuel)%nat → head (trim_while head fuel l) = 0%nat.
Proof.
  intros H0. revert l. induction fuel as [|fuel IH]; intros l Hl; simpl.
  - destruct l; [done|simpl in Hl; lia].
  - destruct (head l) as [|n] eqn:E; [done|]. apply IH. rw length_drop.
    destruct l; [congruence|simpl in *; lia].
Qed.

Lemma trim_while_id head fuel l : head l = 0%nat → trim_while head fuel l = l.
Proof. destruct fuel; simpl; [done|]. by intros ->. Qed.

(** A prefix starts with no more space than the whole. *)
Lemma space_len_prefix l k : l `prefix_of` k → space_len k = 0%nat → space_len l = 0%nat.
Proof.
  intros [m ->]. destruct l as [|b1 l]; [done|]. simpl. destruct (ascii_space b1); [done|].
  destruct l as [|b2 l]; [done|]. simpl. destruct (wide_space2 b1 b2); [done|].
  destruct l as [|b3 l]; done.
Qed.

Lemma rev_suffix_prefix {A} (l k : list A) : l `suffix_of` rev k → rev l `prefix_of` k.
Proof. intros [m H]. exists (rev m). by rw -rev_app_distr -H rev_involutive. Qed.

Lemma trim_bytes_sub l : ∃ a b, l = a ++ trim_bytes l ++ b.
Proof.
  unfold trim_bytes. destruct (trim_while_suffix space_len (length l) l) as [a Ha].
  set (k := trim_while space_len (length l) l) in *.
  destruct (rev_suffix_prefix _ k (trim_while_suffix rev_space_len (length k) (rev k))) as [b Hb].
  exists a, b. by rw -Hb.
Qed.

Lemma trim_bytes_idem l : trim_bytes (trim_bytes l) = trim_bytes l.
Proof.
  assert (space_len (trim_bytes l) = 0%nat ∧ rev_space_len (rev (trim_bytes l)) = 0%nat) as [Hl Hr].
  { unfold trim_bytes. set (k := trim_while space_len (length l) l). split.
    - eapply space_len_prefix; [apply rev_suffix_prefix, trim_while_suffix|]. by apply trim_while_head.
    - rw rev_involutive. apply trim_while_head; [done|]. by rw length_rev. }
  unfold trim_bytes at 1. rw (trim_while_id space_len) // (trim_while_id rev_space_len) //. apply rev_involutive.
Qed.

Lemma bytes_of_trim_space s : bytes_of (trim_space s) = trim_bytes (bytes_of s).
Proof.
  unfold trim_space. apply bytes_of_string_of. pose proof (bytes_of_lt s) as H.
  destruct (trim_bytes_sub (bytes_of s)) as (a&b&E). rw E !Forall_app in H. tauto.
Qed.

Lemma trim_space_idem s : trim_space (trim_space s) = trim_space s.
Proof. unfold trim_space at 1. by rw bytes_of_trim_space trim_bytes_idem. Qed.
