(* ===== verification/Json.v ===== *)
(** JSON as encoding/json reads and writes it: values, the compact encoding of
    [json.Marshal], the grammar [json.Valid] and [json.Unmarshal] accept, and the
    round trip between the two. *)

From S2P Require Import Prelude GoStrings.
From stdpp Require Import pretty.
From Stdlib Require Import ZifyBool ZifyN.

Set Warnings "-register-all".

Open Scope Z_scope.

(** A value.  A number is its text, as [json.Number]; an object is the list of its
    members in the order of the text. *)
Inductive json :=
  | JNull
  | JBool (b : bool)
  | JNum (text : string)
  | JStr (s : string)
  | JArr (l : list json)
  | JObj (l : list (string * json)).

(** ** UTF-8 *)

Definition in_range (lo hi b : N) : bool := (lo <=? b)%N && (b <=? hi)%N.

(** Bytes of the rune at the head of [l], 0 when it is not valid UTF-8 (the
    tables of unicode/utf8: no overlong forms, no surrogates, nothing above
    U+10FFFF). *)
Definition rune_len (l : list N) : nat :=
  let cont := in_range 128 191 in
  match l with
  | [] => 0%nat
  | b0 :: l1 =>
      if (b0 <? 128)%N then 1%nat
      else match l1 with
      | [] => 0%nat
      | b1 :: l2 =>
          if in_range 194 223 b0 then (if cont b1 then 2%nat else 0%nat)
          else match l2 with
          | [] => 0%nat
          | b2 :: l3 =>
              if in_range 224 239 b0 then
                let lo := if (b0 =? 224)%N then 160%N else 128%N in
                let hi := if (b0 =? 237)%N then 159%N else 191%N in
                if in_range lo hi b1 && cont b2 then 3%nat else 0%nat
              else match l3 with
              | [] => 0%nat
              | b3 :: _ =>
                  if in_range 240 244 b0 then
                    let lo := if (b0 =? 240)%N then 144%N else 128%N in
                    let hi := if (b0 =? 244)%N then 143%N else 191%N in
                    if in_range lo hi b1 && cont b2 && cont b3 then 4%nat else 0%nat
                  else 0%nat
              end
          end
      end
  end.

(** [utf8.Valid]; the length of the input is enough fuel, every rune having at
    least one byte. *)
Fixpoint utf8_runes (fuel : nat) (l : list N) : bool :=
  match fuel, l with
  | _, [] => true
  | O, _ => false
  | S fuel, _ => match rune_len l with O => false | n => utf8_runes fuel (drop n l) end
  end.

Definition utf8_valid (l : list N) : bool := utf8_runes (length l) l.

(** [utf8.EncodeRune] below U+10FFFF. *)
Definition encode_rune (r : N) : list N :=
  if (r <? 128)%N then [r]
  else if (r <? 2048)%N then [192 + r / 64; 128 + r mod 64]%N
  else if (r <? 65536)%N then [224 + r / 4096; 128 + r / 64 mod 64; 128 + r mod 64]%N
  else [240 + r / 262144; 128 + r / 4096 mod 64; 128 + r / 64 mod 64; 128 + r mod 64]%N.

Definition replacement : list N := [239; 191; 189]%N.

(** ** Encoding *)

(** A byte below 128 inside an encoded string: the two-character escapes, the
    [\u00xx] form of the other control characters and of the characters
    [json.Marshal] escapes for HTML, any other byte as it is. *)
Definition escape_byte (b : N) : list N :=
  if bool_decide (b = 34 ∨ b = 92)%N then [92%N; b]
  else if bool_decide (b = 8%N) then [92; 98]%N
  else if bool_decide (b = 9%N) then [92; 116]%N
  else if bool_decide (b = 10%N) then [92; 110]%N
  else if bool_decide (b = 12%N) then [92; 102]%N
  else if bool_decide (b = 13%N) then [92; 114]%N
  else if bool_decide (b < 32 ∨ b = 38 ∨ b = 60 ∨ b = 62)%N then
    [92%N; 117%N; 48%N; 48%N; hex_digit (N.div b 16); hex_digit (N.modulo b 16)]
  else [b].

(** The bytes of a rune: U+2028 and U+2029 are escaped too. *)
Definition escape_rune (r : list N) : list N :=
  match r with
  | [b] => escape_byte b
  | _ =>
      if bool_decide (r = [226; 128; 168]%N) then bytes_of "\u2028"
      else if bool_decide (r = [226; 128; 169]%N) then bytes_of "\u2029"
      else r
  end.

(** A byte that starts no valid rune becomes the replacement character. *)
Fixpoint escape_bytes (fuel : nat) (l : list N) : list N :=
  match fuel, l with
  | _, [] | O, _ => []
  | S fuel, b :: l' =>
      match rune_len l with
      | O => bytes_of "\ufffd" ++ escape_bytes fuel l'
      | n => escape_rune (take n l) ++ escape_bytes fuel (drop n l)
      end
  end.

Definition quote (s : string) : list N :=
  [34%N] ++ escape_bytes (String.length s) (bytes_of s) ++ [34%N].

Fixpoint join (sep : list N) (l : list (list N)) : list N :=
  match l with
  | [] => []
  | [x] => x
  | x :: l => x ++ sep ++ join sep l
  end.

Fixpoint json_marshal (v : json) : list N :=
  match v with
  | JNull => bytes_of "null"
  | JBool true => bytes_of "true"
  | JBool false => bytes_of "false"
  | JNum t => bytes_of t
  | JStr s => quote s
  | JArr l => [91%N] ++ join [44%N] (map json_marshal l) ++ [93%N]
  | JObj l =>
      [123%N] ++ join [44%N] (map (λ kv, quote kv.1 ++ 58%N :: json_marshal kv.2) l) ++ [125%N]
  end.

Definition json_uuid (u : uuid) : json := JStr (uuid_string u).
Definition json_int (z : Z) : json := JNum (pretty z).

(** ** Decoding *)

Definition is_digit (b : N) : bool := in_range 48 57 b.

Definition is_ws (b : N) : bool := bool_decide (b = 32 ∨ b = 9 ∨ b = 10 ∨ b = 13)%N.

Fixpoint skip_ws (l : list N) : list N :=
  match l with b :: l' => if is_ws b then skip_ws l' else l | [] => [] end.

(** The input after the byte [c], if it is next. *)
Definition eat (c : N) (l : list N) : option (list N) :=
  match l with b :: l' => if bool_decide (b = c) then Some l' else None | [] => None end.

(** Digits at the head of the input. *)
Fixpoint span_digits (l : list N) : list N * list N :=
  match l with
  | b :: l' => if is_digit b then let (d, r) := span_digits l' in (b :: d, r) else ([], l)
  | [] => ([], [])
  end.

Definition scan_digits1 (l : list N) : option (list N * list N) :=
  match span_digits l with ([], _) => None | (d, r) => Some (d, r) end.

(** The integer part, [0] or a digit string without leading zero. *)
Definition scan_int (l : list N) : option (list N * list N) :=
  match eat 48 l with
  | Some r => Some ([48%N], r)
  | None => scan_digits1 l
  end.

Definition scan_frac (l : list N) : option (list N * list N) :=
  match eat 46 l with
  | Some r => '(d, r) ← scan_digits1 r; Some (46%N :: d, r)
  | None => Some ([], l)
  end.

Definition scan_sign (l : list N) : list N * list N :=
  match l with
  | b :: r => if bool_decide (b = 43 ∨ b = 45)%N then ([b], r) else ([], l)
  | [] => ([], [])
  end.

Definition scan_exp (l : list N) : option (list N * list N) :=
  match l with
  | b :: r =>
      if bool_decide (b = 69 ∨ b = 101)%N then
        let (s, r) := scan_sign r in
        '(d, r) ← scan_digits1 r; Some (b :: s ++ d, r)
      else Some ([], l)
  | [] => Some ([], [])
  end.

Definition scan_number (l : list N) : option (list N * list N) :=
  let (m, l) := match eat 45 l with Some r => ([45%N], r) | None => ([], l) end in
  '(i, l) ← scan_int l; '(f, l) ← scan_frac l; '(e, l) ← scan_exp l;
  Some (m ++ i ++ f ++ e, l).

Definition hex_val (b : N) : option N :=
  if in_range 48 57 b then Some (b - 48)%N
  else if in_range 97 102 b then Some (b - 87)%N
  else if in_range 65 70 b then Some (b - 55)%N
  else None.

Definition hex4 (l : list N) : option (N * list N) :=
  match l with
  | a :: b :: c :: d :: l =>
      x ← hex_val a; y ← hex_val b; z ← hex_val c; w ← hex_val d;
      Some (((x * 16 + y) * 16 + z) * 16 + w, l)%N
  | _ => None
  end.

(** The runes of [\uXXXX]: a surrogate pair makes one rune, a lone surrogate the
    replacement character. *)
Definition unescape_u (r : N) (l : list N) : list N * list N :=
  if in_range 55296 57343 r then
    match (m ← eat 92 l; m ← eat 117 m; hex4 m) with
    | Some (r', l') =>
        if in_range 55296 56319 r && in_range 56320 57343 r'
        then (encode_rune ((r - 55296) * 1024 + (r' - 56320) + 65536)%N, l')
        else (replacement, l)
    | None => (replacement, l)
    end
  else (encode_rune r, l).

(** An escape, after its backslash. *)
Definition unescape (l : list N) : option (list N * list N) :=
  match l with
  | b :: l =>
      if bool_decide (b = 34 ∨ b = 92 ∨ b = 47)%N then Some ([b], l)
      else if bool_decide (b = 98%N) then Some ([8%N], l)
      else if bool_decide (b = 102%N) then Some ([12%N], l)
      else if bool_decide (b = 110%N) then Some ([10%N], l)
      else if bool_decide (b = 114%N) then Some ([13%N], l)
      else if bool_decide (b = 116%N) then Some ([9%N], l)
      else if bool_decide (b = 117%N) then '(r, l) ← hex4 l; Some (unescape_u r l)
      else None
  | [] => None
  end.

(** The rest of a string after its opening quote: the bytes it denotes. *)
Fixpoint parse_string (fuel : nat) (l : list N) : option (list N * list N) :=
  match fuel with
  | O => None
  | S fuel =>
      match l with
      | [] => None
      | b :: l' =>
          if bool_decide (b = 34%N) then Some ([], l')
          else if (b <? 32)%N then None
          else if bool_decide (b = 92%N) then
            '(x, r) ← unescape l'; '(y, r) ← parse_string fuel r; Some (x ++ y, r)
          else
            match rune_len l with
            | O => '(y, r) ← parse_string fuel l'; Some (replacement ++ y, r)
            | n => '(y, r) ← parse_string fuel (drop n l); Some (take n l ++ y, r)
            end
      end
  end.

Definition parse_str (l : list N) : option (string * list N) :=
  '(b, r) ← parse_string (length l) l; Some (string_of_bytes b, r).

Fixpoint strip (p l : list N) : option (list N) :=
  match p, l with
  | [], _ => Some l
  | a :: p, b :: l => if (a =? b)%N then strip p l else None
  | _, [] => None
  end.

Definition parse_literal (w : string) (v : json) (l : list N) : option (json * list N) :=
  r ← strip (bytes_of w) l; Some (v, r).

Definition maxNestingDepth : Z := 10000.

(** Values, the elements of an array and the members of an object, up to and
    including the closing bracket. *)
Fixpoint parse_value (fuel : nat) (depth : Z) (l : list N) : option (json * list N) :=
  match fuel with
  | O => None
  | S fuel =>
      match skip_ws l with
      | [] => None
      | b :: l' =>
          if bool_decide (b = 34%N) then '(s, r) ← parse_str l'; Some (JStr s, r)
          else if bool_decide (b = 91%N) then
            if maxNestingDepth <=? depth then None
            else match eat 93 (skip_ws l') with
                 | Some r => Some (JArr [], r)
                 | None => '(vs, r) ← parse_elements fuel (depth + 1) l'; Some (JArr vs, r)
                 end
          else if bool_decide (b = 123%N) then
            if maxNestingDepth <=? depth then None
            else match eat 125 (skip_ws l') with
                 | Some r => Some (JObj [], r)
                 | None => '(ms, r) ← parse_members fuel (depth + 1) l'; Some (JObj ms, r)
                 end
          else if bool_decide (b = 110%N) then parse_literal "ull" JNull l'
          else if bool_decide (b = 116%N) then parse_literal "rue" (JBool true) l'
          else if bool_decide (b = 102%N) then parse_literal "alse" (JBool false) l'
          else '(t, r) ← scan_number (b :: l'); Some (JNum (string_of_bytes t), r)
      end
  end
with parse_elements (fuel : nat) (depth : Z) (l : list N) : option (list json * list N) :=
  match fuel with
  | O => None
  | S fuel =>
      '(v, r) ← parse_value fuel depth l;
      match eat 44 (skip_ws r) with
      | Some r => '(vs, r) ← parse_elements fuel depth r; Some (v :: vs, r)
      | None => r ← eat 93 (skip_ws r); Some ([v], r)
      end
  end
with parse_members (fuel : nat) (depth : Z) (l : list N) : option (list (string * json) * list N) :=
  match fuel with
  | O => None
  | S fuel =>
      l ← eat 34 (skip_ws l);
      '(k, r) ← parse_str l;
      r ← eat 58 (skip_ws r);
      '(v, r) ← parse_value fuel depth r;
      match eat 44 (skip_ws r) with
      | Some r => '(ms, r) ← parse_members fuel depth r; Some ((k, v) :: ms, r)
      | None => r ← eat 125 (skip_ws r); Some ([(k, v)], r)
      end
  end.

(** Every byte accounts for at most two calls, so twice the length is enough fuel
    ([parse_fuel]). *)
Definition json_parse (l : list N) : option json :=
  '(v, r) ← parse_value (S (2 * length l)) 0 l;
  match skip_ws r with [] => Some v | _ => None end.

(** [json.Valid]. *)
Definition json_valid (l : list N) : bool := bool_decide (is_Some (json_parse l)).

(** ** Well-formed values *)

Definition number_text (t : string) : bool :=
  match scan_number (bytes_of t) with Some (_, []) => true | _ => false end.

(** Numbers are JSON numbers and strings are UTF-8: what a decoded value is. *)
Fixpoint json_wf (v : json) : bool :=
  match v with
  | JNull | JBool _ => true
  | JNum t => number_text t
  | JStr s => utf8_valid (bytes_of s)
  | JArr l => forallb json_wf l
  | JObj l => forallb (λ kv, utf8_valid (bytes_of kv.1) && json_wf kv.2) l
  end.

Fixpoint json_depth (v : json) : nat :=
  match v with
  | JArr l => S (list_max (map json_depth l))
  | JObj l => S (list_max (map (λ kv, json_depth kv.2) l))
  | _ => 0%nat
  end.

(** Induction over the nested lists. *)
Lemma json_ind' (P : json → Prop) :
  P JNull → (∀ b, P (JBool b)) → (∀ t, P (JNum t)) → (∀ s, P (JStr s)) →
  (∀ l, Forall P l → P (JArr l)) → (∀ l, Forall (λ kv, P kv.2) l → P (JObj l)) → ∀ v, P v.
Proof.
  intros Hnull Hbool Hnum Hstr Harr Hobj. fix IH 1. intros [| | | |l|l]; [done|done|done|done| |].
  - apply Harr. induction l as [|v l IHl]; constructor; [apply IH|apply IHl].
  - apply Hobj. induction l as [|[k v] l IHl]; constructor; [apply IH|apply IHl].
Qed.

(** ** Numbers *)

(** The bytes that cannot continue a number. *)
Definition stops (l : list N) : Prop :=
  match l with
  | [] => True
  | b :: _ => is_digit b = false ∧ ¬ (b = 46 ∨ b = 69 ∨ b = 101 ∨ b = 43 ∨ b = 45)%N
  end.

Lemma span_digits_app l d r rest :
  stops rest → span_digits l = (d, r) → span_digits (l ++ rest) = (d, r ++ rest).
Proof.
  intros Hs. revert d. induction l as [|b l IH]; intros d; simpl.
  - intros [= <- <-]. destruct rest as [|b rest]; [done|]. destruct Hs as [Hd _]. simpl. by rw Hd.
  - destruct (is_digit b); [|by intros [= <- <-]].
    destruct (span_digits l) as [d' r']. intros [= <- <-]. by rw (IH d').
Qed.

Lemma scan_digits1_app l d r rest :
  stops rest → scan_digits1 l = Some (d, r) → scan_digits1 (l ++ rest) = Some (d, r ++ rest).
Proof.
  intros Hs. unfold scan_digits1. destruct (span_digits l) as [d' r'] eqn:E.
  rw (span_digits_app _ _ _ _ Hs E). destruct d'; [done|]. by intros [= <- <-].
Qed.

(** A byte that cannot continue a number is read off neither by it nor before it. *)
Lemma eat_app c l rest :
  (rest ≠ [] → c ∈ [46; 45]%N) → stops rest ∨ l ≠ [] →
  eat c (l ++ rest) = (λ r, r ++ rest) <$> eat c l.
Proof.
  intros Hc Hs. destruct l as [|b l]; simpl; [|by case_bool_decide].
  destruct Hs as [Hs|]; [|done]. destruct rest as [|b rest]; [done|]. simpl.
  rw bool_decide_eq_false_2 //. destruct Hs as [_ Hs]. specialize (Hc ltac:(done)). set_solver.
Qed.

Lemma scan_int_app l d r rest :
  stops rest → scan_int l = Some (d, r) → scan_int (l ++ rest) = Some (d, r ++ rest).
Proof.
  intros Hs. destruct l as [|b l]; [done|]. unfold scan_int. simpl.
  case_bool_decide; [by intros [= <- <-]|]. apply (scan_digits1_app (b :: l)). done.
Qed.

Lemma scan_frac_app l d r rest :
  stops rest → scan_frac l = Some (d, r) → scan_frac (l ++ rest) = Some (d, r ++ rest).
Proof.
  intros Hs. unfold scan_frac. rw eat_app; [set_solver|by left|].
  destruct (eat 46 l) as [l'|]; simpl; [|by intros [= <- <-]].
  intros ([d' r']&E&[= <- <-])%bind_Some. by rw (scan_digits1_app _ _ _ _ Hs E).
Qed.

Lemma scan_exp_app l d r rest :
  stops rest → scan_exp l = Some (d, r) → scan_exp (l ++ rest) = Some (d, r ++ rest).
Proof.
  intros Hs. destruct l as [|b l]; simpl.
  - intros [= <- <-]. destruct rest as [|b rest]; [done|]. simpl. destruct Hs as [_ Hs].
    rw bool_decide_eq_false_2; [tauto|done].
  - case_bool_decide as Hb; [|by intros [= <- <-]].
    assert (scan_sign (l ++ rest) = ((scan_sign l).1, (scan_sign l).2 ++ rest)) as ->.
    { destruct l as [|c l]; simpl; [|by case_bool_decide].
      destruct rest as [|c rest]; [done|]. simpl. destruct Hs as [_ Hs]. rw bool_decide_eq_false_2; [tauto|done]. }
    destruct (scan_sign l) as [sg r']. simpl. intros ([d' r'']&E&[= <- <-])%bind_Some.
    by rw (scan_digits1_app _ _ _ _ Hs E).
Qed.

Lemma scan_number_app l d r rest :
  stops rest → scan_number l = Some (d, r) → scan_number (l ++ rest) = Some (d, r ++ rest).
Proof.
  intros Hs. unfold scan_number.
  rw eat_app; [set_solver|by left|]. destruct (eat 45 l) as [l'|]; simpl; intros H.
  all: apply bind_Some in H as ([i r1]&E1&H); rw (scan_int_app _ _ _ _ Hs E1) /=.
  all: apply bind_Some in H as ([f r2]&E2&H); rw (scan_frac_app _ _ _ _ Hs E2) /=.
  all: apply bind_Some in H as ([e r3]&E3&H); rw (scan_exp_app _ _ _ _ Hs E3) /=; by simplify_eq/=.
Qed.

(** ** Strings *)

Lemma rune_len_le l : (rune_len l <= length l)%nat.
Proof. unfold rune_len. repeat case_match; simpl; lia. Qed.

(** The bytes of a rune determine its length. *)
Lemma rune_len_take l rest : rune_len l ≠ 0%nat → rune_len (take (rune_len l) l ++ rest) = rune_len l.
Proof.
  destruct l as [|b0 l]; [done|]. simpl. destruct (b0 <? 128)%N eqn:E0.
  { simpl. by rw E0. }
  destruct l as [|b1 l]; [done|]. destruct (in_range 194 223 b0) eqn:E1.
  { destruct (in_range 128 191 b1) eqn:E2; [|done]. simpl. by rw E0 E1 E2. }
  destruct l as [|b2 l]; [done|]. destruct (in_range 224 239 b0) eqn:E2.
  { case_match eqn:E3; [|done]. simpl. by rw E0 E1 E2 E3. }
  destruct l as [|b3 l]; [done|]. destruct (in_range 240 244 b0) eqn:E3; [|done].
  case_match eqn:E4; [|done]. simpl. by rw E0 E1 E2 E3 E4.
Qed.

Lemma rune_len_wide b l : rune_len (b :: l) ≠ 0%nat → (128 <= b)%N → (194 <= b)%N.
Proof.
  intros Hn Hb. destruct (decide (b < 194)%N); [|lia]. exfalso. apply Hn.
  unfold rune_len, in_range. replace (b <? 128)%N with false by lia.
  replace (194 <=? b)%N with false by lia. replace (224 <=? b)%N with false by lia.
  replace (240 <=? b)%N with false by lia. simpl. by repeat case_match.
Qed.

Lemma rune_len_1 b l : (b < 128)%N → rune_len (b :: l) = 1%nat.
Proof. intros. simpl. by replace (b <? 128)%N with true by lia. Qed.

Lemma rune_len_ge2 b l : (128 <= b)%N → rune_len (b :: l) ≠ 0%nat → (2 <= rune_len (b :: l))%nat.
Proof.
  intros Hb. unfold rune_len. replace (b <? 128)%N with false by lia. repeat case_match; lia.
Qed.

Lemma hex_val_digit d : (d < 16)%N → hex_val (hex_digit d) = Some d.
Proof.
  intros Hd. unfold hex_digit, hex_val, in_range. destruct (d <? 10)%N eqn:E.
  - replace ((48 <=? 48 + d) && (48 + d <=? 57))%N with true by lia. f_equal. lia.
  - replace ((48 <=? 87 + d) && (87 + d <=? 57))%N with false by lia.
    replace ((97 <=? 87 + d) && (87 + d <=? 102))%N with true by lia. f_equal. lia.
Qed.

(** Reading back one escaped rune. *)
Definition read_rune (fuel : nat) (r rest : list N) : option (list N * list N) :=
  '(y, rest) ← parse_string fuel rest; Some (r ++ y, rest).

Lemma hex_escape (b : N) l :
  (b < 128)%N → (hex4 ([48; 48; hex_digit (b / 16); hex_digit (b mod 16)] ++ l) = Some (b, l))%N.
Proof.
  intros Hb. simpl. rw !hex_val_digit; [by apply N.mod_lt|by apply N.Div0.div_lt_upper_bound; lia|].
  simpl. f_equal. f_equal. pose proof (N.div_mod b 16). lia.
Qed.

Lemma parse_escape_byte fuel b rest :
  (b < 128)%N → parse_string (S fuel) (escape_byte b ++ rest) = read_rune fuel [b] rest.
Proof.
  intros Hb. unfold escape_byte.
  case_bool_decide as H1; [by destruct H1 as [->| ->]|].
  case_bool_decide as H2; [by subst|]. case_bool_decide as H3; [by subst|].
  case_bool_decide as H4; [by subst|]. case_bool_decide as H5; [by subst|].
  case_bool_decide as H6; [by subst|].
  case_bool_decide as H7.
  - pose proof (hex_escape b rest Hb) as Hx. cbn [app] in Hx.
    change (parse_string (S fuel) _) with
      ('(x, r) ← ('(r, l) ← hex4 (48 :: 48 :: hex_digit (b / 16) :: hex_digit (b mod 16) :: rest)%N;
                  Some (unescape_u r l));
       '(y, r) ← parse_string fuel r; Some (x ++ y, r)).
    rw Hx /= /unescape_u /in_range.
    replace (55296 <=? b)%N with false by lia. cbn [andb].
    rw /encode_rune. by replace (b <? 128)%N with true by lia.
  - cbn [parse_string app]. rw bool_decide_eq_false_2; [tauto|].
    replace (b <? 32)%N with false by lia. rw bool_decide_eq_false_2; [tauto|].
    rw rune_len_1 //.
Qed.

Lemma parse_escape_rune fuel l rest :
  rune_len l ≠ 0%nat →
  parse_string (S fuel) (escape_rune (take (rune_len l) l) ++ rest) =
  read_rune fuel (take (rune_len l) l) rest.
Proof.
  intros Hn. destruct l as [|b l]; [done|].
  destruct (decide (b < 128)%N) as [Hb|Hb].
  { rw rune_len_1 //. by apply parse_escape_byte. }
  pose proof (rune_len_wide _ _ Hn ltac:(lia)) as Hw.
  pose proof (rune_len_ge2 b l ltac:(lia) Hn) as H2.
  pose proof (rune_len_le (b :: l)) as Hle.
  assert (∃ c r, take (rune_len (b :: l)) (b :: l) = b :: c :: r) as (c&r&E).
  { destruct (rune_len (b :: l)) as [|[|n]], l as [|c l]; simpl in *; [lia..|by eauto]. }
  assert (escape_rune (b :: c :: r) = b :: c :: r ∨
          (b :: c :: r = [226; 128; 168] ∨ b :: c :: r = [226; 128; 169])%N) as [He|[He|He]].
  { unfold escape_rune. case_bool_decide; [by auto|]. case_bool_decide; by auto. }
  - rw E He. pose proof (rune_len_take (b :: l) rest Hn) as Ht. rw E in Ht.
    cbn [parse_string app]. cbn [app] in Ht. rw bool_decide_eq_false_2; [lia|].
    replace (b <? 32)%N with false by lia. rw bool_decide_eq_false_2; [lia|]. rw Ht.
    assert (length (b :: c :: r) = rune_len (b :: l)) as Hl.
    { rw -E length_take. lia. }
    destruct (rune_len (b :: l)) as [|n]; [done|].
    change (b :: c :: r ++ rest) with ((b :: c :: r) ++ rest). rw -Hl drop_app_length take_app_length //.
  - by rw E He.
  - by rw E He.
Qed.

Lemma escape_rune_length r : r ≠ [] → (1 <= length (escape_rune r))%nat.
Proof.
  intros Hr. unfold escape_rune, escape_byte. repeat case_match; simpl; try lia; done.
Qed.

Lemma escape_bytes_cons n b l :
  rune_len (b :: l) ≠ 0%nat →
  escape_bytes (S n) (b :: l) =
  escape_rune (take (rune_len (b :: l)) (b :: l)) ++ escape_bytes n (drop (rune_len (b :: l)) (b :: l)).
Proof. intros Hn. unfold escape_bytes; fold escape_bytes. by destruct (rune_len (b :: l)). Qed.

Lemma utf8_runes_cons n b l :
  utf8_runes (S n) (b :: l) = true →
  rune_len (b :: l) ≠ 0%nat ∧ utf8_runes n (drop (rune_len (b :: l)) (b :: l)) = true.
Proof. unfold utf8_runes; fold utf8_runes. by destruct (rune_len (b :: l)). Qed.

Lemma parse_escaped n fuel l rest :
  utf8_runes n l = true → (length (escape_bytes n l) < fuel)%nat →
  parse_string fuel (escape_bytes n l ++ 34%N :: rest) = Some (l, rest).
Proof.
  revert fuel l. induction n as [|n IH]; intros [|fuel] l Hv Hf.
  - simpl in Hf. lia.
  - by destruct l.
  - simpl in Hf. lia.
  - destruct l as [|b l]; [done|].
    apply utf8_runes_cons in Hv as [Hn Hv]. rw escape_bytes_cons // in Hf *.
    rw -assoc_L parse_escape_rune // /read_rune. rw length_app in Hf.
    assert (1 <= length (escape_rune (take (rune_len (b :: l)) (b :: l))))%nat as Hr.
    { apply escape_rune_length. by destruct (rune_len (b :: l)). }
    rw IH; [done|lia|]. cbn [mbind option_bind]. by rw take_drop.
Qed.

Lemma parse_str_quoted s rest :
  utf8_valid (bytes_of s) = true →
  parse_str (escape_bytes (String.length s) (bytes_of s) ++ 34%N :: rest) = Some (s, rest).
Proof.
  intros Hv. unfold parse_str. unfold utf8_valid in Hv. rw length_bytes_of in Hv.
  rw parse_escaped //; [rw length_app /=; lia|]. simpl. by rw string_of_bytes_of.
Qed.

(** A number's text is read back as it is, up to a byte that ends it. *)
Lemma span_digits_concat l : (span_digits l).1 ++ (span_digits l).2 = l.
Proof.
  induction l as [|b l IH]; simpl; [done|]. destruct (is_digit b); [|done].
  destruct (span_digits l). simpl in *. by rw IH.
Qed.

Lemma scan_digits1_concat l d r : scan_digits1 l = Some (d, r) → d ++ r = l ∧ d ≠ [].
Proof.
  unfold scan_digits1. pose proof (span_digits_concat l) as H.
  destruct (span_digits l) as [d' r']. destruct d'; [done|]. by intros [= <- <-].
Qed.

Lemma eat_concat c l r : eat c l = Some r → l = c :: r.
Proof. destruct l as [|b l]; simpl; [done|]. case_bool_decide; [|done]. by intros [= <-]; subst. Qed.

Lemma scan_int_concat l d r : scan_int l = Some (d, r) → d ++ r = l ∧ d ≠ [].
Proof.
  unfold scan_int. destruct (eat 48 l) eqn:E; [|apply scan_digits1_concat].
  apply eat_concat in E as ->. by intros [= <- <-].
Qed.

Lemma scan_frac_concat l d r : scan_frac l = Some (d, r) → d ++ r = l.
Proof.
  unfold scan_frac. destruct (eat 46 l) eqn:E; [|by intros [= <- <-]].
  apply eat_concat in E as ->. intros ([d' r']&[<- _]%scan_digits1_concat&[= <- <-])%bind_Some. done.
Qed.

Lemma scan_exp_concat l d r : scan_exp l = Some (d, r) → d ++ r = l.
Proof.
  destruct l as [|b l]; simpl; [by intros [= <- <-]|]. case_bool_decide; [|by intros [= <- <-]].
  assert ((scan_sign l).1 ++ (scan_sign l).2 = l) as Hs.
  { destruct l as [|c l]; simpl; [done|]. by case_bool_decide. }
  destruct (scan_sign l) as [sg r']. simpl in *.
  intros ([d' r'']&[<- _]%scan_digits1_concat&[= <- <-])%bind_Some. by rw -Hs /= -!assoc_L.
Qed.

Lemma scan_number_concat l d r : scan_number l = Some (d, r) → d ++ r = l ∧ d ≠ [].
Proof.
  unfold scan_number. destruct (eat 45 l) eqn:E; intros H.
  all: apply bind_Some in H as ([i r1]&[H1 Hi]%scan_int_concat&H).
  all: apply bind_Some in H as ([f r2]&H2%scan_frac_concat&H).
  all: apply bind_Some in H as ([e r3]&H3%scan_exp_concat&H); simplify_eq/=.
  - apply eat_concat in E as ->. split; [by rw -!assoc_L|done].
  - split; [by rw -!assoc_L|]. by destruct i.
Qed.

(** The bytes a number starts with. *)
Lemma scan_number_head b l d r :
  scan_number (b :: l) = Some (d, r) → b = 45%N ∨ is_digit b = true.
Proof.
  unfold scan_number. simpl. case_bool_decide; [by left|]. intros ([i r1]&Hi&_)%bind_Some.
  right. unfold scan_int in Hi. simpl in Hi. case_bool_decide; [by subst|].
  unfold scan_digits1 in Hi. simpl in Hi. destruct (is_digit b); done.
Qed.

Lemma scan_number_text t rest :
  number_text t = true → stops rest → scan_number (bytes_of t ++ rest) = Some (bytes_of t, rest).
Proof.
  unfold number_text. intros Ht Hs. destruct (scan_number (bytes_of t)) as [[d [|]]|] eqn:E; [|done..].
  pose proof (scan_number_concat _ _ _ E) as [Hd _]. rw app_nil_r in Hd. subst d.
  apply (scan_number_app _ _ _ _ Hs E).
Qed.

(** ** The round trip *)

(** No value starts with white space or a closing bracket. *)
Lemma marshal_head v :
  json_wf v = true → ∃ b l, json_marshal v = b :: l ∧ is_ws b = false ∧ b ≠ 93%N.
Proof.
  destruct v as [|[]|t| | |]; simpl; intros Hw; [by repeat eexists..| |by repeat eexists|by repeat eexists|by repeat eexists].
  unfold number_text in Hw. destruct (bytes_of t) as [|b l]; [done|].
  destruct (scan_number (b :: l)) as [[d r]|] eqn:E; [|done].
  exists b, l. split; [done|]. apply scan_number_head in E. unfold is_digit, in_range in E.
  unfold is_ws. rw bool_decide_eq_false_2; lia.
Qed.

Lemma skip_ws_head b l : is_ws b = false → skip_ws (b :: l) = b :: l.
Proof. intros Hb. simpl. by rw Hb. Qed.

Lemma parse_number_value fuel depth t rest :
  number_text t = true → stops rest →
  parse_value (S fuel) depth (bytes_of t ++ rest) = Some (JNum t, rest).
Proof.
  intros Ht Hs. pose proof (scan_number_text t rest Ht Hs) as E.
  pose proof (marshal_head (JNum t) Ht) as (b&l&Hb&Hws&_). simpl in Hb. rw Hb in E *.
  assert (b = 45%N ∨ is_digit b = true) as Hh by (apply (scan_number_head _ _ _ _ E)).
  unfold is_digit, in_range in Hh. cbn [app] in E. unfold parse_value. cbn [app]. rw skip_ws_head //.
  rw !bool_decide_eq_false_2; [lia..|]. rw E. cbn [mbind option_bind]. by rw -Hb string_of_bytes_of.
Qed.

Lemma join_cons sep x y l : join sep (x :: y :: l) = x ++ sep ++ join sep (y :: l).
Proof. done. Qed.

Lemma stops_punct c l : (c = 44 ∨ c = 93 ∨ c = 125)%N → stops (c :: l).
Proof. intros [->|[->| ->]]; (split; [done|lia]). Qed.

Definition reads_back (v : json) : Prop :=
  json_wf v = true → ∀ fuel depth rest,
  depth + Z.of_nat (json_depth v) <= maxNestingDepth → stops rest →
  (2 * length (json_marshal v) < fuel)%nat →
  parse_value fuel depth (json_marshal v ++ rest) = Some (v, rest).

Lemma parse_marshaled_elements l : Forall reads_back l → l ≠ [] → forallb json_wf l = true →
  ∀ fuel depth rest,
  depth + Z.of_nat (list_max (map json_depth l)) <= maxNestingDepth →
  (2 * length (join [44%N] (map json_marshal l)) + 1 < fuel)%nat →
  parse_elements fuel depth (join [44%N] (map json_marshal l) ++ 93%N :: rest) = Some (l, rest).
Proof.
  induction 1 as [|v l Hv Hl IH]; [done|]. intros _ Hw fuel depth rest Hd Hf.
  cbn [map list_max foldr forallb] in *. apply andb_prop in Hw as [Hwv Hwl].
  destruct fuel as [|fuel]; [lia|]. destruct l as [|v' l].
  - cbn [map join] in *. cbn [parse_elements]. rw Hv; [done|lia|apply stops_punct; lia|lia|done].
  - cbn [map] in *. rw join_cons. rw join_cons !length_app in Hf. cbn [length] in Hf.
    rw -!assoc_L. cbn [parse_elements]. rw Hv; [done|lia|apply stops_punct; lia|lia|].
    cbn [mbind option_bind app]. rw skip_ws_head //. cbn [eat]. rw bool_decide_eq_true_2 //.
    rw IH; [done|done|unfold list_max; lia|lia|done].
Qed.

Lemma parse_marshaled_members l : Forall (λ kv, reads_back kv.2) l → l ≠ [] →
  forallb (λ kv, utf8_valid (bytes_of kv.1) && json_wf kv.2) l = true →
  ∀ fuel depth rest,
  depth + Z.of_nat (list_max (map (λ kv, json_depth kv.2) l)) <= maxNestingDepth →
  (2 * length (join [44%N] (map (λ kv, quote kv.1 ++ 58%N :: json_marshal kv.2) l)) + 1 < fuel)%nat →
  parse_members fuel depth
    (join [44%N] (map (λ kv, quote kv.1 ++ 58%N :: json_marshal kv.2) l) ++ 125%N :: rest) =
  Some (l, rest).
Proof.
  induction 1 as [|[k v] l Hv Hl IH]; [done|]. intros _ Hw fuel depth rest Hd Hf.
  cbn [map list_max foldr forallb fst snd] in *. apply andb_prop in Hw as [[Hk Hwv]%andb_prop Hwl].
  destruct fuel as [|fuel]; [lia|].
  assert (∀ r, parse_members (S fuel) depth ((quote k ++ 58%N :: json_marshal v) ++ r) =
    '(v, r) ← parse_value fuel depth (json_marshal v ++ r);
    match eat 44 (skip_ws r) with
    | Some r => '(ms, r) ← parse_members fuel depth r; Some ((k, v) :: ms, r)
    | None => r ← eat 125 (skip_ws r); Some ([(k, v)], r)
    end) as Hkey.
  { intros r. unfold quote. cbn [app parse_members]. rw skip_ws_head //. cbn [eat].
    rw bool_decide_eq_true_2 //. cbn [mbind option_bind]. rw -!assoc_L. cbn [app].
    rw parse_str_quoted //. }
  destruct l as [|[k' v'] l].
  - cbn [map join] in *. rw Hkey. rw !length_app in Hf. rw Hv; [done|lia|apply stops_punct; lia|simpl in Hf; lia|done].
  - cbn [map fst snd] in *. rw join_cons -assoc_L Hkey. rw join_cons !length_app in Hf.
    rw Hv; [done|lia|apply stops_punct; lia|simpl in Hf; lia|].
    cbn [mbind option_bind app]. rw skip_ws_head //. cbn [eat]. rw bool_decide_eq_true_2 //.
    rw IH; [done|done|unfold list_max; lia| |done]. cbn [length] in Hf. lia.
Qed.

Lemma parse_marshaled v : reads_back v.
Proof.
  induction v as [| | | |l Hl|l Hl] using json_ind'; intros Hw [|fuel] depth rest Hd Hs Hf; try lia.
  - done.
  - by destruct b.
  - by apply parse_number_value.
  - simpl in Hw. unfold quote. cbn [json_marshal quote]. unfold quote. cbn [app parse_value].
    rw skip_ws_head //. rw bool_decide_eq_true_2 //. rw -assoc_L. cbn [app]. by rw parse_str_quoted.
  - cbn [json_wf] in Hw. cbn [json_depth] in Hd. cbn [json_marshal app] in Hf |- *.
    cbn [length] in Hf. rw length_app in Hf. simpl in Hf. rw -assoc_L. cbn [app].
    cbn [parse_value]. rw skip_ws_head //. replace (maxNestingDepth <=? depth) with false by lia.
    destruct l as [|v l]; [done|].
    destruct (marshal_head v) as (b&bs&Hb&Hws&H93); [by apply andb_prop in Hw as [? _]|].
    assert (∃ bs', join [44%N] (map json_marshal (v :: l)) = b :: bs') as [bs' Hj].
    { cbn [map]. destruct (map json_marshal l) as [|x xs]; [by exists bs|]. rw join_cons Hb. eauto. }
    rw (bool_decide_eq_false_2 (91 = 34)%N) // bool_decide_eq_true_2 //.
    pose proof (parse_marshaled_elements (v :: l) Hl ltac:(done) Hw fuel (depth + 1) rest) as He.
    rw Hj in Hf He *. cbn [app] in He |- *. rw skip_ws_head //. cbn [eat].
    rw (bool_decide_eq_false_2 (b = 93)%N) //. rw He; [lia|lia|done].
  - cbn [json_wf] in Hw. cbn [json_depth] in Hd. cbn [json_marshal app] in Hf |- *.
    cbn [length] in Hf. rw length_app in Hf. rw -assoc_L.
    cbn [parse_value]. rw skip_ws_head //. replace (maxNestingDepth <=? depth) with false by lia.
    destruct l as [|[k v] l]; [done|].
    rw (bool_decide_eq_false_2 (123 = 34)%N) // (bool_decide_eq_false_2 (123 = 91)%N) //.
    rw (bool_decide_eq_true_2 (123 = 123)%N) //.
    pose proof (parse_marshaled_members ((k, v) :: l) Hl ltac:(done) Hw fuel (depth + 1) rest) as He.
    assert (∃ bs', join [44%N] (map (λ kv, quote kv.1 ++ 58%N :: json_marshal kv.2) ((k, v) :: l))
      = 34%N :: bs') as [bs' Hj].
    { cbn [map fst snd]. destruct (map _ l) as [|x xs]; [|rw join_cons]; unfold quote; cbn [app]; eauto. }
    rw Hj in Hf He *. cbn [app] in He |- *. rw skip_ws_head //.
    cbn [eat]. rw (bool_decide_eq_false_2 (34 = 125)%N) //. rw He; [lia|simpl in *; lia|done].
Qed.

(** Decoding what [json.Marshal] writes gives the value back. *)
Lemma json_parse_marshal v :
  json_wf v = true → Z.of_nat (json_depth v) <= maxNestingDepth → json_parse (json_marshal v) = Some v.
Proof.
  intros Hw Hd. unfold json_parse. rw -{2}(app_nil_r (json_marshal v)) parse_marshaled //; [lia..].
Qed.

Lemma json_marshal_inj v w :
  json_wf v = true → json_wf w = true →
  Z.of_nat (json_depth v) <= maxNestingDepth → Z.of_nat (json_depth w) <= maxNestingDepth →
  json_marshal v = json_marshal w → v = w.
Proof.
  intros Hv Hw Hdv Hdw E. apply (f_equal json_parse) in E.
  rw !json_parse_marshal // in E. by simplify_eq.
Qed.

(** ** The fuel is enough *)

Lemma skip_ws_length l : (length (skip_ws l) <= length l)%nat.
Proof. induction l as [|b l IH]; simpl; [done|]. destruct (is_ws b); simpl; lia. Qed.

Lemma eat_length c l r : eat c (skip_ws l) = Some r → (length r < length l)%nat.
Proof. intros E%eat_concat. pose proof (skip_ws_length l) as H. rw E in H. simpl in H. lia. Qed.

Lemma hex4_length l c r : hex4 l = Some (c, r) → (length r < length l)%nat.
Proof.
  destruct l as [|? [|? [|? [|? l]]]]; try done. simpl. intros E. simplify_option_eq. lia.
Qed.

Lemma unescape_u_length r l : (length (unescape_u r l).2 <= length l)%nat.
Proof.
  unfold unescape_u. case_match; [|done]. case_match eqn:E; [|done]. case_match. case_match; [|done]. subst.
  apply bind_Some in E as (m&->%eat_concat&E). apply bind_Some in E as (m'&->%eat_concat&E).
  apply hex4_length in E. simpl. lia.
Qed.

Lemma unescape_length l x r : unescape l = Some (x, r) → (length r < length l)%nat.
Proof.
  destruct l as [|b l]; [done|]. cbn [unescape length].
  repeat (case_bool_decide; [intros [= _ <-]; lia|]).
  case_bool_decide; [|done]. intros ([c m]&E%hex4_length&[= Hu])%bind_Some.
  pose proof (unescape_u_length c m) as Hl. rw Hu in Hl. simpl in Hl. lia.
Qed.

Lemma parse_string_length fuel l x r : parse_string fuel l = Some (x, r) → (length r < length l)%nat.
Proof.
  revert l x r. induction fuel as [|fuel IH]; [done|]. intros [|b l] x r; [done|].
  cbn [parse_string]. case_bool_decide; [intros [= _ <-]; simpl; lia|].
  case_match; [done|]. case_bool_decide.
  - intros ([c m]&E%unescape_length&E')%bind_Some. apply bind_Some in E' as ([d m']&E'%IH&[= _ <-]). simpl. lia.
  - destruct (rune_len (b :: l)) as [|n]; intros ([d m']&E%IH&[= _ <-])%bind_Some.
    + simpl. lia.
    + rw length_drop in E. lia.
Qed.

Lemma parse_str_length l s r : parse_str l = Some (s, r) → (length r < length l)%nat.
Proof. intros ([b m]&E%parse_string_length&[= _ <-])%bind_Some. done. Qed.

(** Any more fuel reads the same string. *)
Lemma parse_string_fuel f1 f2 l :
  (length l <= f1)%nat → (length l <= f2)%nat → parse_string f1 l = parse_string f2 l.
Proof.
  revert f2 l. induction f1 as [|f1 IH]; intros [|f2] l H1 H2; [by destruct l; simpl in *; try lia..|].
  cbn [parse_string].
  destruct l as [|b l]; [done|]. simpl in H1, H2.
  case_bool_decide; [done|]. case_match; [done|]. case_bool_decide.
  - destruct (unescape l) as [[c m]|] eqn:E; [|done]. apply unescape_length in E.
    cbn [mbind option_bind]. by rw (IH f2 m); [lia|lia|].
  - destruct (rune_len (b :: l)) as [|n].
    + by rw (IH f2 l); [lia|lia|].
    + assert (length (drop (S n) (b :: l)) <= length l)%nat by (rw length_drop; simpl; lia).
      by rw (IH f2 (drop (S n) (b :: l))); [lia|lia|].
Qed.

Lemma strip_length p l r : strip p l = Some r → (length r <= length l)%nat.
Proof.
  revert l. induction p as [|a p IH]; intros [|b l]; simpl; [by intros [= <-]|by intros [= <-]|done|].
  case_match; [|done]. intros E%IH. lia.
Qed.

(** A value, and the elements and members that follow a bracket, are not empty. *)
Lemma parse_length fuel :
  (∀ depth l v r, parse_value fuel depth l = Some (v, r) → (length r < length l)%nat) ∧
  (∀ depth l v r, parse_elements fuel depth l = Some (v, r) → (length r < length l)%nat) ∧
  (∀ depth l v r, parse_members fuel depth l = Some (v, r) → (length r < length l)%nat).
Proof.
  induction fuel as [|fuel (IHv&IHe&IHm)]; [done|]. split_and!; intros depth l v r.
  - cbn [parse_value]. pose proof (skip_ws_length l) as Hl.
    destruct (skip_ws l) as [|b l']; [done|]. simpl in Hl.
    case_bool_decide; [intros ([s m]&E%parse_str_length&[= _ <-])%bind_Some; lia|].
    case_bool_decide.
    { case_match; [done|]. case_match eqn:E; [apply eat_length in E; intros [= _ <-]; lia|].
      intros ([s m]&E'%IHe&[= _ <-])%bind_Some. lia. }
    case_bool_decide.
    { case_match; [done|]. case_match eqn:E; [apply eat_length in E; intros [= _ <-]; lia|].
      intros ([s m]&E'%IHm&[= _ <-])%bind_Some. lia. }
    do 3 (case_bool_decide; [intros (m&E%strip_length&[= _ <-])%bind_Some; lia|]).
    intros ([d m]&[Hc Hd]%scan_number_concat&[= _ <-])%bind_Some.
    apply (f_equal length) in Hc. rw length_app in Hc. destruct d; [done|]. simpl in *. lia.
  - cbn [parse_elements]. intros ([w m]&E%IHv&H)%bind_Some. destruct (eat 44 (skip_ws m)) eqn:E'; apply bind_Some in H.
    + destruct H as ([ws m']&E''%IHe&[= _ <-]). apply eat_length in E'. lia.
    + destruct H as (m'&E''%eat_length&[= _ <-]). lia.
  - cbn [parse_members]. intros (l1&E1%eat_length&H)%bind_Some.
    apply bind_Some in H as ([k l2]&E2%parse_str_length&H).
    apply bind_Some in H as (l3&E3%eat_length&H).
    apply bind_Some in H as ([w m]&E%IHv&H). destruct (eat 44 (skip_ws m)) eqn:E'; apply bind_Some in H.
    + destruct H as ([ws m']&E''%IHm&[= _ <-]). apply eat_length in E'. lia.
    + destruct H as (m'&E''%eat_length&[= _ <-]). lia.
Qed.

(** Any more fuel than [json_parse] gives reads the same value: the bound is the
    size of the input, not a limit on what is accepted. *)
Lemma parse_fuel f1 : ∀ f2,
  (∀ depth l, (2 * length l < f1)%nat → (2 * length l < f2)%nat →
     parse_value f1 depth l = parse_value f2 depth l) ∧
  (∀ depth l, (2 * length l + 1 < f1)%nat → (2 * length l + 1 < f2)%nat →
     parse_elements f1 depth l = parse_elements f2 depth l) ∧
  (∀ depth l, (2 * length l + 1 < f1)%nat → (2 * length l + 1 < f2)%nat →
     parse_members f1 depth l = parse_members f2 depth l).
Proof.
  induction f1 as [|f1 IH]; intros [|f2]; [split_and!; intros; lia..|].
  destruct (IH f2) as (IHv&IHe&IHm). split_and!; intros depth l H1 H2.
  - cbn [parse_value]. pose proof (skip_ws_length l) as Hl.
    destruct (skip_ws l) as [|b l']; [done|]. simpl in Hl. rw IHe; [lia|lia|]. rw IHm; [lia|lia|done].
  - cbn [parse_elements]. rw IHv; [lia|lia|].
    destruct (parse_value f2 depth l) as [[v r]|] eqn:E; [|done]. cbn [mbind option_bind].
    apply (proj1 (parse_length f2)) in E. case_match eqn:E'; [|done].
    apply eat_length in E'. by rw IHe; [lia|lia|].
  - cbn [parse_members]. destruct (eat 34 (skip_ws l)) as [l1|] eqn:E1; [|done].
    cbn [mbind option_bind]. destruct (parse_str l1) as [[k l2]|] eqn:E2; [|done].
    cbn [mbind option_bind]. destruct (eat 58 (skip_ws l2)) as [l3|] eqn:E3; [|done].
    apply eat_length in E1, E3. apply parse_str_length in E2. cbn [mbind option_bind]. rw IHv; [lia|lia|].
    destruct (parse_value f2 depth l3) as [[v r]|] eqn:E; [|done]. cbn [mbind option_bind].
    apply (proj1 (parse_length f2)) in E. case_match eqn:E'; [|done].
    apply eat_length in E'. by rw IHm; [lia|lia|].
Qed.
