(* ===== verification/Sha256.v ===== *)
(** SHA-256 (FIPS 180-4), the digest of crypto/sha256: checksums of uploads and
    fingerprints of requests are its hexadecimal text. *)

From S2P Require Import Prelude GoStrings.
From Stdlib Require Import ZifyBool ZifyN.

Local Open Scope N_scope.

(** ** 32-bit words *)

Definition w32 (x : N) : N := x mod 2 ^ 32.
Definition add32 (x y : N) : N := w32 (x + y).
Definition rotr (n x : N) : N := N.lor (N.shiftr x n) (w32 (N.shiftl x (32 - n))).
Definition not32 (x : N) : N := N.lxor x (2 ^ 32 - 1).

Definition Ch (x y z : N) : N := N.lxor (N.land x y) (N.land (not32 x) z).
Definition Maj (x y z : N) : N := N.lxor (N.land x y) (N.lxor (N.land x z) (N.land y z)).
Definition Sigma0 (x : N) : N := N.lxor (rotr 2 x) (N.lxor (rotr 13 x) (rotr 22 x)).
Definition Sigma1 (x : N) : N := N.lxor (rotr 6 x) (N.lxor (rotr 11 x) (rotr 25 x)).
Definition sigma0 (x : N) : N := N.lxor (rotr 7 x) (N.lxor (rotr 18 x) (N.shiftr x 3)).
Definition sigma1 (x : N) : N := N.lxor (rotr 17 x) (N.lxor (rotr 19 x) (N.shiftr x 10)).

(** The constants are the first 32 bits of the fractional parts of roots of the
    first primes: cube roots for the 64 rounds, square roots for the initial hash
    value. *)
Definition is_prime (n : nat) : bool :=
  forallb (λ d, negb (Nat.eqb (n mod d) 0)) (seq 2 (n - 2)).

Definition primes : list N := N.of_nat <$> filter is_prime (seq 2 310).

(** The largest [r] below [2 ^ bits] with [r ^ k <= n], one bit at a time. *)
Fixpoint root_bits (bits : nat) (k n r : N) : N :=
  match bits with
  | O => r
  | S bits =>
      let r' := r + 2 ^ N.of_nat bits in
      root_bits bits k n (if r' ^ k <=? n then r' else r)
  end.

Definition root_fraction (k p : N) : N := w32 (root_bits 40 k (p * 2 ^ (32 * k)) 0).

Definition K256 : list N := Eval vm_compute in root_fraction 3 <$> primes.

Record hash := mkHash { h0 : N; h1 : N; h2 : N; h3 : N; h4 : N; h5 : N; h6 : N; h7 : N }.

Definition initial_hash : hash := Eval vm_compute in
  match root_fraction 2 <$> take 8 primes with
  | [a; b; c; d; e; f; g; h] => mkHash a b c d e f g h
  | _ => mkHash 0 0 0 0 0 0 0 0
  end.

(** ** Padding *)

(** [n] bytes of [x], most significant first. *)
Fixpoint be_bytes (n : nat) (x : N) : list N :=
  match n with O => [] | S n => be_bytes n (x / 256) ++ [x mod 256] end.

Definition pad (msg : list N) : list N :=
  let n := length msg in
  msg ++ [128] ++ replicate ((119 - n mod 64) mod 64) 0 ++ be_bytes 8 (8 * N.of_nat n).

Fixpoint words (l : list N) : list N :=
  match l with
  | a :: b :: c :: d :: l => (((a * 256 + b) * 256 + c) * 256 + d) :: words l
  | _ => []
  end.

(** ** Compression *)

(** The message schedule, built backwards: [w] is the latest words first. *)
Fixpoint extend (rounds : nat) (w : list N) : list N :=
  match rounds with
  | O => w
  | S rounds =>
      let at_ i := nth i w 0 in
      extend rounds (add32 (add32 (sigma1 (at_ 1%nat)) (at_ 6%nat)) (add32 (sigma0 (at_ 14%nat)) (at_ 15%nat)) :: w)
  end.

Definition schedule (block : list N) : list N := rev (extend 48 (rev block)).

Definition round (s : hash) (kw : N * N) : hash :=
  let t1 := add32 (h7 s) (add32 (Sigma1 (h4 s)) (add32 (Ch (h4 s) (h5 s) (h6 s)) (add32 kw.1 kw.2))) in
  let t2 := add32 (Sigma0 (h0 s)) (Maj (h0 s) (h1 s) (h2 s)) in
  mkHash (add32 t1 t2) (h0 s) (h1 s) (h2 s) (add32 (h3 s) t1) (h4 s) (h5 s) (h6 s).

Definition compress (s : hash) (block : list N) : hash :=
  let r := fold_left round (combine K256 (schedule block)) s in
  mkHash (add32 (h0 s) (h0 r)) (add32 (h1 s) (h1 r)) (add32 (h2 s) (h2 r)) (add32 (h3 s) (h3 r))
         (add32 (h4 s) (h4 r)) (add32 (h5 s) (h5 r)) (add32 (h6 s) (h6 r)) (add32 (h7 s) (h7 r)).

(** Blocks of sixteen words, one per round; as many rounds as words are enough. *)
Fixpoint compress_all (fuel : nat) (s : hash) (w : list N) : hash :=
  match fuel, w with
  | O, _ | _, [] => s
  | S fuel, _ => compress_all fuel (compress s (take 16 w)) (drop 16 w)
  end.

Definition hash_bytes (s : hash) : list N :=
  [h0 s; h1 s; h2 s; h3 s; h4 s; h5 s; h6 s; h7 s] ≫= be_bytes 4.

Definition Sum256 (msg : list N) : list N :=
  let w := words (pad msg) in hash_bytes (compress_all (length w) initial_hash w).

(** [hex.EncodeToString]. *)
Definition EncodeToString (l : list N) : string :=
  string_of_bytes (l ≫= λ b, [hex_digit (b / 16); hex_digit (b mod 16)]).

(** ** Test vectors and shape *)

Example Sum256_abc :
  EncodeToString (Sum256 (bytes_of "abc"))
  = "ba7816bf8f01cfea414140de5dae2223b00361a396177a9cb410ff61f20015ad".
Proof. vm_compute. reflexivity. Qed.

Example Sum256_empty :
  EncodeToString (Sum256 []) = "e3b0c44298fc1c149afbf4c8996fb92427ae41e4649b934ca495991b7852b855".
Proof. vm_compute. reflexivity. Qed.

Example Sum256_two_blocks :
  EncodeToString (Sum256 (bytes_of "abcdbcdecdefdefgefghfghighijhijkijkljklmklmnlmnomnopnopq"))
  = "248d6a61d20638b8e5c026930c3e6039a33ce45964ff2167f6ecedd419db06c1".
Proof. vm_compute. reflexivity. Qed.

Lemma be_bytes_length n x : length (be_bytes n x) = n.
Proof. revert x. induction n as [|n IH]; intros x; simpl; [done|]. rw length_app IH /=. lia. Qed.

Lemma be_bytes_byte n x : Forall (λ b, b < 256) (be_bytes n x).
Proof.
  revert x. induction n as [|n IH]; intros x; simpl; [constructor|].
  apply Forall_app. split; [done|]. repeat constructor. by apply N.mod_lt.
Qed.

Lemma Sum256_length msg : length (Sum256 msg) = 32%nat.
Proof. reflexivity. Qed.

Lemma Sum256_bytes msg : Forall (λ b, b < 256) (Sum256 msg).
Proof.
  unfold Sum256, hash_bytes. generalize (compress_all (length (words (pad msg))) initial_hash (words (pad msg))).
  intros s. rw Forall_bind. apply Forall_true. intros x. apply be_bytes_byte.
Qed.

(** Lower-case hexadecimal digits. *)
Definition is_hex_lower (b : N) : bool := ((48 <=? b) && (b <=? 57)) || ((97 <=? b) && (b <=? 102)).

(** A digest prints as 64 lower-case hexadecimal digits. *)
Lemma EncodeToString_digest msg :
  length (bytes_of (EncodeToString (Sum256 msg))) = 64%nat
  ∧ forallb is_hex_lower (bytes_of (EncodeToString (Sum256 msg))) = true.
Proof.
  pose proof (Sum256_length msg) as Hl. pose proof (Sum256_bytes msg) as Hb.
  unfold EncodeToString. set (l := Sum256 msg) in *. clearbody l.
  assert (∀ d, d < 16 → hex_digit d < 256 ∧ is_hex_lower (hex_digit d) = true) as Hd.
  { intros d H. unfold is_hex_lower, hex_digit. destruct (N.ltb_spec d 10); lia. }
  assert (Forall (λ b, b < 256 ∧ is_hex_lower b = true)
    (l ≫= λ b, [hex_digit (b / 16); hex_digit (b mod 16)])) as HF.
  { clear Hl. induction Hb as [|b l Hb Hl IH]; [constructor|]. simpl.
    constructor; [apply Hd, N.Div0.div_lt_upper_bound; lia|].
    constructor; [by apply Hd, N.mod_lt|done]. }
  rw bytes_of_string_of; [eapply Forall_impl; [|exact HF]; by intros ? []|]. split.
  - clear -Hl. assert (∀ k, length (k ≫= λ b, [hex_digit (b / 16); hex_digit (b mod 16)])
      = (2 * length k)%nat) as H.
    { induction k as [|b k IH]; [done|]. simpl. rw IH. lia. }
    rw H. lia.
  - apply forallb_forall. intros b Hin%list_elem_of_In. rw list.Forall_forall in HF. by apply (HF b).
Qed.
