(* ===== verification/GoValue.v ===== *)
(** Values of Go's [any] and the numbers in them: float64 with correct rounding,
    the conversions between the numeric types, [strconv] on JSON numbers, and the
    type switches the validators are made of. *)

From S2P Require Import Prelude GoStrings Json.
From Stdlib Require Import ZifyBool ZifyN.

Set Warnings "-register-all".

Open Scope Z_scope.

(** ** float64 *)

(** A finite number is [m * 2 ^ e] with its sign; one value can have several
    representations, so floats are compared with [feq], as [==] compares -0 and 0. *)
Inductive float64 := FNaN | FInf (neg : bool) | FFin (neg : bool) (m : N) (e : Z).

Definition signed (neg : bool) (m : N) : Z := if neg then - Z.of_N m else Z.of_N m.

Definition pow2 (e : Z) : N := (2 ^ Z.to_N e)%N.

(** The nearest float64 to [num / den], ties to even: the exponent leaves 53 bits,
    fewer for a subnormal number. *)
Definition round64 (neg : bool) (num den : N) : float64 :=
  if (num =? 0)%N then FFin neg 0 0 else
  let e0 := Z.of_N (N.log2 num) - Z.of_N (N.log2 den) - 52 in
  let below := (num * pow2 (- e0) <? den * pow2 e0 * 2 ^ 52)%N in
  let e := Z.max (if below then e0 - 1 else e0) (-1074) in
  let n := (num * pow2 (- e))%N in
  let d := (den * pow2 e)%N in
  let q := (n / d)%N in
  let r := (n mod d)%N in
  let up := if (2 * r =? d)%N then N.odd q else (d <? 2 * r)%N in
  let q := if up then (q + 1)%N else q in
  if (0 <=? e) && (2 ^ 1024 <=? q * pow2 e)%N then FInf neg else FFin neg q e.

(** [float64(z)]. *)
Definition float64_of_Z (z : Z) : float64 := round64 (z <? 0) (Z.abs_N z) 1.

(** The order of finite numbers, on the integers they are at the smaller exponent. *)
Definition at_exponent (e' : Z) (neg : bool) (m : N) (e : Z) : Z := signed neg (m * pow2 (e - e')).

Definition fcompare (f g : float64) : option comparison :=
  match f, g with
  | FNaN, _ | _, FNaN => None
  | FInf a, FInf b => Some (Z.compare (signed a 1) (signed b 1))
  | FInf a, FFin _ _ _ => Some (Z.compare (signed a 1) 0)
  | FFin _ _ _, FInf b => Some (Z.compare 0 (signed b 1))
  | FFin a m e, FFin b n k =>
      let low := Z.min e k in Some (Z.compare (at_exponent low a m e) (at_exponent low b n k))
  end.

Definition feq (f g : float64) : bool := bool_decide (fcompare f g = Some Eq).
Definition flt (f g : float64) : bool := bool_decide (fcompare f g = Some Lt).
Definition fgt (f g : float64) : bool := flt g f.

(** [!math.IsNaN(f) && !math.IsInf(f, 0)]. *)
Definition finite (f : float64) : bool := match f with FFin _ _ _ => true | _ => false end.

(** [f == math.Trunc(f)] for a finite [f], and the integer [math.Trunc(f)] is. *)
Definition integral (f : float64) : bool :=
  match f with FFin _ m e => (m mod pow2 (- e) =? 0)%N | _ => false end.

Definition trunc (f : float64) : Z :=
  match f with FFin neg m e => signed neg (m * pow2 e / pow2 (- e)) | _ => 0 end.

Definition MinInt64 : Z := - 2 ^ 63.
Definition MaxInt64 : Z := 2 ^ 63 - 1.

(** ** What the language leaves to the implementation

    The conversion of a float64 that is out of range to an integer type is
    implementation-specific: amd64 gives the least integer, arm64 the nearest one. *)
Class GoArch := {
  conv_overflow : float64 → Z;
  conv_overflow_extreme f : finite f = true → conv_overflow f = MinInt64 ∨ conv_overflow f = MaxInt64
}.

Definition amd64 : GoArch := {|
  conv_overflow _ := MinInt64; conv_overflow_extreme _ _ := or_introl eq_refl
|}.

Definition arm64_overflow (f : float64) : Z :=
  match f with FNaN => 0 | FInf neg | FFin neg _ _ => if neg then MinInt64 else MaxInt64 end.

Lemma arm64_extreme f : finite f = true → arm64_overflow f = MinInt64 ∨ arm64_overflow f = MaxInt64.
Proof. destruct f as [| |[] m e]; [done..|by left|by right]. Qed.

Definition arm64 : GoArch := {| conv_overflow := arm64_overflow; conv_overflow_extreme := arm64_extreme |}.

(** [int64(f)]. *)
Definition int64_of_float `{GoArch} (f : float64) : Z :=
  if finite f && (MinInt64 <=? trunc f) && (trunc f <=? MaxInt64) then trunc f else conv_overflow f.

(** The guard before it: [f] is a whole number and not outside the range, where
    [math.MaxInt64] as a float64 is 2^63. *)
Definition checked_int64 `{GoArch} (f : float64) : option Z :=
  if negb (integral f) || flt f (float64_of_Z MinInt64) || fgt f (float64_of_Z MaxInt64)
  then None else Some (int64_of_float f).

(** The check after it: [int64(f), f == float64(int64(f))]. *)
Definition exact_int64 `{GoArch} (f : float64) : option Z :=
  let value := int64_of_float f in if feq f (float64_of_Z value) then Some value else None.

(** ** strconv *)

Definition digits_value (l : list N) : N := fold_left (λ acc b, acc * 10 + (b - 48))%N l 0%N.

(** A JSON number as sign, digits and decimal exponent. *)
Definition decimal_of (l : list N) : option (bool * N * Z) :=
  let (neg, l) := match eat 45 l with Some r => (true, r) | None => (false, l) end in
  '(i, l) ← scan_int l; '(f, l) ← scan_frac l; '(e, l) ← scan_exp l;
  match l with
  | [] =>
      let frac := drop 1 f in
      let (sign, digits) := scan_sign (drop 1 e) in
      let exp := signed (bool_decide (sign = [45%N])) (digits_value digits) in
      Some (neg, digits_value (i ++ frac), exp - Z.of_nat (length frac))
  | _ => None
  end.

(** [json.Number.Float64] and the number an [any] gets from JSON text: an error
    when the magnitude is too large. *)
Definition ParseFloat (text : string) : option float64 :=
  '(neg, m, e) ← decimal_of (bytes_of text);
  let f := round64 neg (m * 10 ^ Z.to_N e) (10 ^ Z.to_N (- e)) in
  if finite f then Some f else None.

(** [json.Number.Int64]. *)
Definition ParseInt (text : string) : option Z :=
  let (sign, l) := scan_sign (bytes_of text) in
  '(d, r) ← scan_digits1 l;
  let z := signed (bool_decide (sign = [45%N])) (digits_value d) in
  if bool_decide (r = []) && (MinInt64 <=? z) && (z <=? MaxInt64) then Some z else None.

(** ** Dynamic values *)

Inductive IntKind := KInt | KInt8 | KInt16 | KInt32 | KInt64 | KUint | KUint8 | KUint16 | KUint32 | KUint64.

(** Element types of slices the switches tell apart. *)
Inductive ElemKind := ElemAny | ElemString | ElemFloat64 | ElemOther.

(** [AMap] is a [map[string]any]: a list of bindings with distinct keys, its order
    without meaning.  [AOther] is a value of any other type. *)
Inductive any :=
  | ANil
  | ABool (b : bool)
  | AString (s : string)
  | AInt (k : IntKind) (z : Z)
  | AFloat32 (f : float64)
  | AFloat64 (f : float64)
  | ANumber (text : string)
  | ASlice (elem : ElemKind) (l : list any)
  | AMap (m : list (string * any))
  | AOther.

#[export] Instance IntKind_eq_dec : EqDecision IntKind.
Proof. solve_decision. Defined.
#[export] Instance ElemKind_eq_dec : EqDecision ElemKind.
Proof. solve_decision. Defined.

Abbreviation gomap := (list (string * any)).

(** [config[key]], with [nil] for a missing key; [value, present := config[key]] is
    [assoc_first]. *)
Definition index (config : gomap) (key : string) : any := default ANil (assoc_first key config).

(** Type assertions [v.(T)]. *)
Definition as_string (v : any) : option string := match v with AString s => Some s | _ => None end.
Definition as_bool (v : any) : option bool := match v with ABool b => Some b | _ => None end.
Definition as_map (v : any) : option gomap := match v with AMap m => Some m | _ => None end.

(** The value encoding/json decodes into an [any].  A number is a float64; text
    that is none is refused by the decoder, and by every switch here. *)
Fixpoint any_of_json (v : json) : any :=
  match v with
  | JNull => ANil
  | JBool b => ABool b
  | JNum t => match ParseFloat t with Some f => AFloat64 f | None => AOther end
  | JStr s => AString s
  | JArr l => ASlice ElemAny (map any_of_json l)
  | JObj l => AMap (map (λ kv, (kv.1, any_of_json kv.2)) l)
  end.

(** A JSON object as the [map[string]any] it decodes to. *)
Abbreviation members := (list (string * json)).
Definition any_of_members (m : members) : gomap := map (λ kv, (kv.1, any_of_json kv.2)) m.

(** [^[A-Za-z_][A-Za-z0-9_]{0,127}$]. *)
Definition column_start (b : N) : bool := in_range 65 90 b || in_range 97 122 b || (b =? 95)%N.

Definition columnNamePattern (s : string) : bool :=
  match bytes_of s with
  | [] => false
  | b :: l => column_start b && forallb (λ b, column_start b || is_digit b) l && (Nat.leb (length l) 127)
  end.

(** ** Examples *)

Example ParseFloat_tenth : ParseFloat "0.1" = Some (FFin false 7205759403792794 (-56)).
Proof. vm_compute. reflexivity. Qed.

Example ParseFloat_overflow : ParseFloat "-1e309" = None ∧ is_Some (ParseFloat "1.7976931348623157e308").
Proof. vm_compute. eauto. Qed.

Example ParseFloat_subnormal : ParseFloat "5e-324" = Some (FFin false 1 (-1074)).
Proof. vm_compute. reflexivity. Qed.

Example ParseFloat_tie : ParseFloat "9007199254740993" = Some (FFin false 4503599627370496 1).
Proof. vm_compute. reflexivity. Qed.

Example float64_MaxInt64 : feq (float64_of_Z MaxInt64) (FFin false 1 63) = true.
Proof. vm_compute. reflexivity. Qed.

(** ** Exactness *)

Lemma pow2_pos e : (0 < pow2 e)%N.
Proof. apply N.neq_0_lt_0, N.pow_nonzero. done. Qed.

Lemma pow2_neg e : e <= 0 → pow2 e = 1%N.
Proof. intros. unfold pow2. by replace (Z.to_N e) with 0%N by lia. Qed.

Lemma pow2_add e k : 0 <= e → 0 <= k → pow2 (e + k) = (pow2 e * pow2 k)%N.
Proof. intros. unfold pow2. by rw Z2N.inj_add // N.pow_add_r. Qed.

Lemma signed_mul neg m n : signed neg (m * n) = signed neg m * Z.of_N n.
Proof. destruct neg; simpl; lia. Qed.

(** A finite float and the integer it is, if any. *)
Definition exact (f : float64) : option Z := if integral f then Some (trunc f) else None.

Lemma integral_trunc neg m e :
  integral (FFin neg m e) = true →
  signed neg m * Z.of_N (pow2 e) = trunc (FFin neg m e) * Z.of_N (pow2 (- e)).
Proof.
  simpl. intros H%N.eqb_eq. rw -!signed_mul. f_equal. pose proof (pow2_pos (- e)) as Hp.
  destruct (Z_le_gt_dec 0 e) as [He|He].
  - rw (pow2_neg (- e)); [lia|]. by rw N.div_1_r N.mul_1_r.
  - rw (pow2_neg e); [lia|]. rw !N.mul_1_r. apply N.Div0.div_exact in H. lia.
Qed.

(** Scaled to a smaller exponent, an integer is itself times a power of two. *)
Lemma at_exponent_integral low neg m e :
  low <= e → integral (FFin neg m e) = true →
  at_exponent low neg m e * Z.of_N (pow2 low) = trunc (FFin neg m e) * Z.of_N (pow2 (- low)).
Proof.
  intros Hl H. unfold at_exponent. rw signed_mul. apply integral_trunc in H. revert H.
  generalize (trunc (FFin neg m e)), (signed neg m). intros t z H.
  pose proof (pow2_pos e) as P1. pose proof (pow2_pos (- e)) as P2.
  destruct (Z_le_gt_dec 0 low) as [H0|H0].
  - rw (pow2_neg (- low)); [lia|]. rw (pow2_neg (- e)) in H; [lia|].
    rw -Z.mul_assoc -N2Z.inj_mul -pow2_add; [lia..|]. by replace (e - low + low) with e by lia.
  - rw (pow2_neg low); [lia|]. destruct (Z_le_gt_dec 0 e).
    + rw (pow2_neg (- e)) in H; [lia|]. rw (pow2_add e (- low)); [lia..|]. nia.
    + rw (pow2_neg e) in H; [lia|].
      replace (- low) with (- e + (e - low)) by lia. rw (pow2_add (- e) (e - low)); [lia..|]. nia.
Qed.

Lemma fcompare_integral f g :
  integral f = true → integral g = true → fcompare f g = Some (Z.compare (trunc f) (trunc g)).
Proof.
  destruct f as [| |a m e]; [done..|]. destruct g as [| |b n k]; [done..|]. intros Hf Hg. cbn [fcompare].
  pose proof (at_exponent_integral (Z.min e k) a m e ltac:(lia) Hf) as E1.
  pose proof (at_exponent_integral (Z.min e k) b n k ltac:(lia) Hg) as E2.
  pose proof (pow2_pos (Z.min e k)). pose proof (pow2_pos (- Z.min e k)). f_equal.
  rw (Zmult_compare_compat_r _ _ (Z.of_N (pow2 (Z.min e k)))); [lia|].
  rw E1 E2. symmetry. apply Zmult_compare_compat_r. lia.
Qed.

Lemma feq_integral f g : feq f g = true → integral g = true → integral f = true.
Proof.
  destruct f as [| |a m e]; [done| |]; (destruct g as [| |b n k]; [done..|]); [by destruct neg|].
  unfold feq. cbn [fcompare]. intros [= Heq%Z.compare_eq]%bool_decide_eq_true Hg.
  pose proof (at_exponent_integral (Z.min e k) b n k ltac:(lia) Hg) as E. rw -Heq in E. clear Heq.
  destruct (Z_le_gt_dec 0 e) as [|He]; cbn [integral]; [rw pow2_neg; [lia|]; by rw N.mod_1_r|].
  revert E. generalize (trunc (FFin b n k)). intros t. unfold at_exponent. rw signed_mul.
  rw (pow2_neg (Z.min e k)); [lia|]. replace (- Z.min e k) with (- e + (e - Z.min e k)) by lia.
  rw pow2_add; [lia..|]. pose proof (pow2_pos (e - Z.min e k)). intros E.
  assert (signed a m = t * Z.of_N (pow2 (- e))) as E' by nia.
  apply N.eqb_eq, N.Lcm0.mod_divide. exists (Z.abs_N t). destruct a; simpl in E'; nia.
Qed.

(** Integers below 2^53 are float64s, and larger ones round to larger ones. *)
Lemma pow2_log2 n : n ≠ 0%N → (2 ^ N.log2 n <= n < 2 * 2 ^ N.log2 n)%N.
Proof. intros. pose proof (N.log2_spec n ltac:(lia)) as H'. rw N.pow_succ_r' in H'. lia. Qed.

Lemma float64_small z : Z.abs z < 2 ^ 53 → exact (float64_of_Z z) = Some z.
Proof.
  intros Hz. unfold exact, float64_of_Z, round64. destruct (N.eqb_spec (Z.abs_N z) 0) as [E|E].
  { by replace z with 0 by lia. }
  set (n := Z.abs_N z) in *. set (k := Z.of_N (N.log2 n) - Z.of_N (N.log2 1) - 52).
  pose proof (pow2_log2 n E) as [Hlo Hhi].
  assert (Hk : (N.log2 n < 53)%N) by (apply N.log2_lt_pow2; lia).
  assert (Ek : k = Z.of_N (N.log2 n) - 52) by (unfold k; simpl; lia).
  rw !(pow2_neg k); [lia|]. cbn zeta.
  assert (Hp : (2 ^ 52 <= n * pow2 (- k))%N).
  { replace 52%N with (N.log2 n + Z.to_N (- k))%N by lia. rw N.pow_add_r. unfold pow2. nia. }
  rw (proj2 (N.ltb_ge _ _)); [lia|]. rw (Z.max_l k); [lia|]. rw !(pow2_neg k); [lia|].
  rw !N.mul_1_r N.div_1_r N.mod_1_r /=.
  rw (proj2 (andb_false_iff _ _)).
  { destruct (Z.leb_spec 0 k); [right|by left]. apply N.leb_gt. rw pow2_neg; [lia|]. lia. }
  cbn [integral trunc]. pose proof (pow2_pos (- k)). rw N.Div0.mod_mul /=. rw (pow2_neg k); [lia|].
  rw N.mul_1_r N.div_mul; [lia|]. unfold n. f_equal. destruct (Z.ltb_spec z 0); simpl; lia.
Qed.

Lemma float64_large z :
  2 ^ 53 <= Z.abs z → finite (float64_of_Z z) = true →
  integral (float64_of_Z z) = true ∧ 2 ^ 53 <= Z.abs (trunc (float64_of_Z z)).
Proof.
  intros Hz. unfold float64_of_Z, round64. destruct (N.eqb_spec (Z.abs_N z) 0) as [E|E]; [lia|].
  set (n := Z.abs_N z) in *. set (k := Z.of_N (N.log2 n) - Z.of_N (N.log2 1) - 52).
  pose proof (pow2_log2 n E) as [Hlo Hhi].
  assert (Hk : (53 <= N.log2 n)%N) by (apply N.log2_le_pow2; lia).
  assert (Ek : k = Z.of_N (N.log2 n) - 52) by (unfold k; simpl; lia).
  rw (pow2_neg (- k)); [lia|]. cbn zeta.
  assert (Hp : (pow2 k * 2 ^ 52 <= n)%N).
  { unfold pow2. rw -N.pow_add_r. by replace (Z.to_N k + 52)%N with (N.log2 n) by lia. }
  rw (proj2 (N.ltb_ge _ _)); [lia|]. rw (Z.max_l k); [lia|]. rw pow2_neg; [lia|].
  rw !N.mul_1_r N.mul_1_l. set (q := (n / pow2 k)%N).
  assert (Hq : (2 ^ 52 <= q)%N) by (apply N.div_le_lower_bound; pose proof (pow2_pos k); lia).
  assert (H2 : (2 <= pow2 k)%N).
  { unfold pow2. replace (Z.to_N k) with (1 + Z.to_N (k - 1))%N by lia.
    rw N.pow_add_r. pose proof (pow2_pos (k - 1)) as ?. unfold pow2 in *. lia. }
  set (up := if _ then N.odd q else _). set (q' := if up then _ else q).
  assert (Hq' : (2 ^ 52 <= q')%N) by (unfold q'; destruct up; lia).
  case_match; [done|]. intros _. cbn [integral trunc]. rw pow2_neg; [lia|].
  rw N.mod_1_r N.div_1_r. split; [done|]. destruct (z <? 0); simpl; nia.
Qed.

(** ** Conversions that are checked

    Both idioms accept exactly the integers within bounds that are small enough,
    whatever the implementation makes of an overflow. *)
Lemma exact_Some f z : exact f = Some z ↔ integral f = true ∧ trunc f = z.
Proof. unfold exact. destruct (integral f); naive_solver. Qed.

Lemma integral_finite f : integral f = true → finite f = true.
Proof. by destruct f. Qed.

Lemma float64_extremes :
  exact (float64_of_Z MinInt64) = Some (- 2 ^ 63) ∧ exact (float64_of_Z MaxInt64) = Some (2 ^ 63).
Proof. by vm_compute. Qed.

Section conversions.
Context `{GoArch} (lo hi : Z) (Hlo : - 2 ^ 53 < lo) (Hhi : hi < 2 ^ 53).

Lemma int64_in_range f : integral f = true → lo <= trunc f <= hi → int64_of_float f = trunc f.
Proof.
  intros Hi Ht. unfold int64_of_float. rw (integral_finite _ Hi) /=.
  rw (proj2 (andb_true_iff _ _)); [|done]. unfold MinInt64, MaxInt64. lia.
Qed.

Lemma int64_bounded f : finite f = true → lo <= int64_of_float f <= hi → int64_of_float f = trunc f.
Proof.
  intros Hf. unfold int64_of_float. rw Hf /=. destruct (_ && _); [done|].
  destruct (conv_overflow_extreme f Hf) as [-> | ->]; unfold MinInt64, MaxInt64; lia.
Qed.

Lemma checked_int64_spec f :
  finite f = true →
  (∃ n, checked_int64 f = Some n ∧ lo <= n <= hi) ↔ ∃ z, exact f = Some z ∧ lo <= z <= hi.
Proof.
  intros Hf. destruct float64_extremes as [[Imin Tmin]%exact_Some [Imax Tmax]%exact_Some].
  unfold checked_int64, flt, fgt, flt, exact.
  destruct (integral f) eqn:Hi; cbn [negb orb]; [|split; [by intros (?&[=]&_)|by intros (?&[=]&_)]].
  rw (fcompare_integral _ _ Hi Imin) (fcompare_integral _ _ Imax Hi) Tmin Tmax. clear Imin Tmin Imax Tmax. split.
  - intros (n&E&Hn). destruct (_ || _) in E; [done|]. injection E as <-.
    exists (trunc f). split; [done|]. by rw -(int64_bounded f Hf Hn).
  - intros (z&[= <-]&Hz). exists (int64_of_float f). rw (int64_in_range f Hi Hz). split; [|done].
    rw !bool_decide_eq_false_2; [intros E%(inj Some); rw Z.compare_lt_iff in E; lia..|]. done.
Qed.

Lemma exact_int64_spec f :
  finite f = true →
  (∃ n, exact_int64 f = Some n ∧ lo <= n <= hi) ↔ ∃ z, exact f = Some z ∧ lo <= z <= hi.
Proof.
  intros Hf. unfold exact_int64. setoid_rewrite exact_Some. split.
  - intros (n&E&Hn). destruct (feq f _) eqn:Hq; [|done]. injection E as <-.
    assert (exact (float64_of_Z (int64_of_float f)) = Some (int64_of_float f)) as [Ig Tg]%exact_Some
      by (apply float64_small; lia).
    pose proof (feq_integral _ _ Hq Ig) as Hi. exists (trunc f). split; [done|]. by rw -(int64_bounded f Hf Hn).
  - intros (z&[Hi <-]&Hz). rw (int64_in_range f Hi Hz). exists (trunc f).
    assert (exact (float64_of_Z (trunc f)) = Some (trunc f)) as [Ig Tg]%exact_Some by (apply float64_small; lia).
    unfold feq. by rw (fcompare_integral _ _ Hi Ig) Tg Z.compare_refl.
Qed.
End conversions.
