(* ===== verification/QualityRules.v ===== *)
(** Data-quality rules, quality/models.go and quality/validation.go: what a rule
    definition may be, alone and inside the snapshot a job carries. *)

From S2P Require Import Prelude GoStrings Json GoValue.

Open Scope Z_scope.

(** The patterns [regexp.Compile] accepts. *)
Class Regexp := { regexp_compiles : string → bool }.

Module quality.

Definition MaxRulesPerDataset : Z := 256.
Definition MaxRuleNameLength : Z := 120.

Definition RuleNotNull := "NOT_NULL".
Definition RuleUnique := "UNIQUE".
Definition RuleBetween := "BETWEEN".
Definition RuleMinLength := "MIN_LENGTH".
Definition RuleMaxLength := "MAX_LENGTH".
Definition RuleRegex := "REGEX".
Definition RuleEmailFormat := "EMAIL_FORMAT".
Definition RuleDateFormat := "DATE_FORMAT".
Definition RuleAllowedValues := "ALLOWED_VALUES".
Definition RuleColumnType := "COLUMN_TYPE".
Definition RuleRowCountBetween := "ROW_COUNT_BETWEEN".
Definition RuleReferentialSet := "REFERENTIAL_SET".
Definition RuleCustomExpression := "CUSTOM_EXPRESSION".

(** A slice or map that can be nil is an option. *)
Record Definition_ := mkDefinition {
  Name : string; ColumnScope : option (list string); RuleType : string;
  Configuration : option gomap; Severity : string; Enabled : bool
}.

Definition error {A} (text : string) : res A := Err (ErrText text).

(** ** Numbers *)

Definition numberValue (value : any) : option float64 :=
  '(number : float64) ← match value with
    | AFloat32 f => Some f
    | AFloat64 f => Some f
    | AInt (KInt | KInt8 | KInt16 | KInt32 | KInt64) z => Some (float64_of_Z z)
    | ANumber t => ParseFloat t
    | _ => None
    end;
  if finite number then Some number else None.

Definition integerValue `{GoArch} (value : any) : option Z :=
  number ← numberValue value; checked_int64 number.

Definition boundedInteger `{GoArch} (config : gomap) (key : string) (minimum maximum : Z) : res unit :=
  match integerValue (index config key) with
  | Some value => guard_err ((minimum <=? value) && (value <=? maximum)) (ErrText "outside the supported bound")
  | None => error "outside the supported bound"
  end.

Definition requiredNumber (config : gomap) (key : string) : res float64 :=
  match numberValue (index config key) with
  | Some value => Ok value
  | None => error "must be a finite number"
  end.

Definition boundedText (config : gomap) (key : string) (maximum : Z) : res unit :=
  match as_string (index config key) with
  | Some value =>
      guard_err (negb (bool_decide (value = "")) && (go_len value <=? maximum)
                 && negb (contains_any value [13; 10]%N)) (ErrText "outside the supported bound")
  | None => error "outside the supported bound"
  end.

(** ** Slices *)

(** Any slice, through reflection. *)
Definition sliceValue (value : any) : res (list any) :=
  match value with
  | ASlice _ values => Ok values
  | _ => error "value must be an array"
  end.

Fixpoint all_strings (values : list any) : res (list string) :=
  match values with
  | [] => Ok []
  | AString s :: values => result ← all_strings values; Ok (s :: result)
  | _ :: _ => error "columnScope must contain strings"
  end.

Definition stringsValue (value : any) : res (list string) :=
  values ← sliceValue value; all_strings values.

Definition isScalar (value : any) : bool :=
  match value with
  | ANil | AString _ | ABool _ | AInt _ _ | AFloat32 _ | AFloat64 _ | ANumber _ => true
  | ASlice _ _ | AMap _ | AOther => false
  end.

Definition scalarValues (config : gomap) (key : string) : res unit :=
  match sliceValue (index config key) with
  | Ok values =>
      _ ← guard_err ((1 <=? Z.of_nat (length values)) && (Z.of_nat (length values) <=? 10000))
            (ErrText "must contain 1 to 10000 items");
      guard_err (forallb isScalar values) (ErrText "must contain scalar values")
  | Err _ => error "must contain 1 to 10000 items"
  end.

(** ** Definitions *)

(** The result is a fresh slice, nil when there are no columns. *)
Fixpoint check_columns (seen columns : list string) : res unit :=
  match columns with
  | [] => Ok tt
  | column :: columns =>
      if negb (columnNamePattern column) then Err ErrQualityInvalidInput
      else if bool_decide (column ∈ seen) then Err ErrQualityInvalidInput
      else check_columns (column :: seen) columns
  end.

Definition append_nil (columns : list string) : option (list string) :=
  match columns with [] => None | _ => Some columns end.

Definition normalizeColumns (columns : option (list string)) : res (option (list string)) :=
  let items := default [] columns in
  if 256 <? Z.of_nat (length items) then Err ErrQualityInvalidInput
  else _ ← check_columns [] items; Ok (append_nil items).

Definition isRuleType (value : string) : bool :=
  bool_decide (value ∈ [RuleNotNull; RuleUnique; RuleBetween; RuleMinLength; RuleMaxLength; RuleRegex;
    RuleEmailFormat; RuleDateFormat; RuleAllowedValues; RuleColumnType; RuleRowCountBetween;
    RuleReferentialSet; RuleCustomExpression]).

Definition isSeverity (value : string) : bool :=
  bool_decide (value ∈ ["INFO"; "WARNING"; "ERROR"; "CRITICAL"]).

Definition cloneMap (value : option gomap) : gomap := default [] value.

Definition allowed_settings : list (string * list string) := [
  (RuleNotNull, []); (RuleUnique, ["maxTrackedValues"]); (RuleBetween, ["min"; "max"]);
  (RuleMinLength, ["value"]); (RuleMaxLength, ["value"]); (RuleRegex, ["pattern"]);
  (RuleEmailFormat, []); (RuleDateFormat, ["format"]); (RuleAllowedValues, ["values"]);
  (RuleColumnType, ["type"]); (RuleRowCountBetween, ["min"; "max"]);
  (RuleReferentialSet, ["values"])].

Definition known_keys (keys : list string) (config : gomap) : bool :=
  forallb (λ kv, bool_decide (kv.1 ∈ keys)) config.

(** [strings.Contains]. *)
Fixpoint bytes_contain (sub l : list N) : bool :=
  bool_decide (sub `prefix_of` l) || match l with [] => false | _ :: l => bytes_contain sub l end.

Definition check_pattern `{Regexp} (value : any) : res unit :=
  match as_string value with
  | None => error "pattern is outside the supported bound"
  | Some pattern =>
      _ ← guard_err ((0 <? go_len pattern) && (go_len pattern <=? 512)) (ErrText "pattern is outside the supported bound");
      _ ← guard_err (negb (contains_any pattern [40; 41; 124]%N || bytes_contain [92; 49]%N (bytes_of pattern)
                           || bytes_contain [92; 50]%N (bytes_of pattern)))
            (ErrText "pattern uses an unsafe regex construct");
      guard_err (regexp_compiles pattern) (ErrText "pattern is invalid")
  end.

Definition check_column_count (ruleType : string) (columns : list string) : res unit :=
  let count := Z.of_nat (length columns) in
  if bool_decide (ruleType = RuleRowCountBetween) then
    guard_err (count =? 0) (ErrText "ROW_COUNT_BETWEEN does not accept columns")
  else
    let maximum := if bool_decide (ruleType = RuleUnique) then 16 else 1 in
    guard_err ((1 <=? count) && (count <=? maximum)) (ErrText "wrong number of columns").

Definition check_settings `{GoArch} `{Regexp} (ruleType : string) (config : gomap) : res unit :=
  let case t := bool_decide (ruleType = t) in
  if case RuleBetween || case RuleRowCountBetween then
    minimum ← requiredNumber config "min";
    maximum ← requiredNumber config "max";
    guard_err (negb (fgt minimum maximum)) (ErrText "min must not exceed max")
  else if case RuleMinLength || case RuleMaxLength then boundedInteger config "value" 0 1000000
  else if case RuleUnique then
    match assoc_first "maxTrackedValues" config with
    | Some _ => boundedInteger config "maxTrackedValues" 1 2000000
    | None => Ok tt
    end
  else if case RuleRegex then check_pattern (index config "pattern")
  else if case RuleDateFormat then boundedText config "format" 64
  else if case RuleAllowedValues || case RuleReferentialSet then scalarValues config "values"
  else if case RuleColumnType then
    match as_string (index config "type") with
    | Some typeName =>
        guard_err (bool_decide (typeName ∈ ["string"; "integer"; "number"; "boolean"; "date"; "datetime"]))
          (ErrText "type is unsupported")
    | None => error "type is unsupported"
    end
  else Ok tt.

Definition validateConfiguration `{GoArch} `{Regexp} (ruleType : string) (columns : list string) (config : gomap) : res unit :=
  _ ← check_column_count ruleType columns;
  match assoc_first ruleType allowed_settings with
  | None => error "unsupported rule type"
  | Some keys =>
      _ ← guard_err (known_keys keys config) (ErrText "unknown field");
      check_settings ruleType config
  end.

Definition ValidateDefinition `{GoArch} `{Regexp} (definition : Definition_) : res Definition_ :=
  let name := trim_space (Name definition) in
  if bool_decide (name = "") || (MaxRuleNameLength <? go_len name) || contains_any name [13; 10]%N
  then Err ErrQualityInvalidInput else
  columns ← normalizeColumns (ColumnScope definition);
  if negb (isRuleType (RuleType definition)) || bool_decide (RuleType definition = RuleCustomExpression)
  then Err ErrQualityInvalidInput else
  if negb (isSeverity (Severity definition)) then Err ErrQualityInvalidInput else
  let configuration := cloneMap (Configuration definition) in
  _ ← wrap_err ErrQualityInvalidInput
        (validateConfiguration (RuleType definition) (default [] columns) configuration);
  Ok (mkDefinition name columns (RuleType definition) (Some configuration) (Severity definition) (Enabled definition)).

(** ** Snapshots *)

Definition snapshot_fields : list string :=
  ["id"; "name"; "columnScope"; "ruleType"; "configuration"; "severity"; "enabled"].

Definition validateSnapshotRule `{GoArch} `{Regexp} (object : gomap) : res unit :=
  _ ← guard_err (known_keys snapshot_fields object) (ErrText "unknown field");
  match as_string (index object "id") with
  | None => error "id is invalid"
  | Some id =>
      if bool_decide (trim_space id = "") || (128 <? go_len id) || contains_any id [13; 10]%N
      then error "id is invalid" else
      match as_string (index object "name") with
      | None => error "name is required"
      | Some name =>
          columns ← stringsValue (index object "columnScope");
          match as_string (index object "ruleType") with
          | None => error "ruleType is required"
          | Some ruleType =>
              let severity := default "" (as_string (index object "severity")) in
              match as_bool (index object "enabled"), as_map (index object "configuration") with
              | None, _ => error "enabled is required"
              | Some _, None => error "configuration is required"
              | Some enabled, Some configuration =>
                  _ ← ValidateDefinition (mkDefinition name (Some columns) ruleType (Some configuration) severity enabled);
                  Ok tt
              end
          end
      end
  end.

Fixpoint validate_rules `{GoArch} `{Regexp} (seen : list string) (rules : list any) : res unit :=
  match rules with
  | [] => Ok tt
  | raw :: rules =>
      match as_map raw with
      | None => Err ErrQualityInvalidInput
      | Some object =>
          _ ← wrap_err ErrQualityInvalidInput (validateSnapshotRule object);
          let id := default "" (as_string (index object "id")) in
          if bool_decide (id ∈ seen) then Err ErrQualityInvalidInput
          else validate_rules (id :: seen) rules
      end
  end.

Definition ValidateSnapshotRules `{GoArch} `{Regexp} (value : any) : res unit :=
  match sliceValue value with
  | Err _ => Err ErrQualityInvalidInput
  | Ok rules =>
      if (Z.of_nat (length rules) <? 1) || (MaxRulesPerDataset <? Z.of_nat (length rules))
      then Err ErrQualityInvalidInput else validate_rules [] rules
  end.

End quality.
