(* ===== verification/Upload.v ===== *)
(** Upload validation (src/go/internal/upload/validation.go): file names, declared
    and detected formats, checksums. *)

From S2P Require Import Prelude GoStrings Json Sha256.
From Stdlib Require Import ZifyBool ZifyN.

Open Scope Z_scope.

Definition SniffBytes : Z := 64 * 1024.

(** The formats; an undetected format, [""] in the code, is [None]. *)
Inductive Format := FormatCSV | FormatJSONL | FormatParquet.

#[export] Instance Format_eq_dec : EqDecision Format.
Proof. solve_decision. Defined.

Definition format_string (f : Format) : string :=
  match f with FormatCSV => "CSV" | FormatJSONL => "JSONL" | FormatParquet => "PARQUET" end.

(** ** Strings *)

(** [bytes.IndexByte(l, b) >= 0]. *)
Definition has_byte (b : N) (l : list N) : bool := existsb (N.eqb b) l.

(** What precedes the first [b]; the whole when there is none. *)
Fixpoint before_byte (b : N) (l : list N) : list N :=
  match l with
  | [] => []
  | c :: l => if (c =? b)%N then [] else c :: before_byte b l
  end.

(** What follows the last [b]; the whole when there is none. *)
Definition after_last_byte (b : N) (l : list N) : list N := rev (before_byte b (rev l)).

(** [strings.Trim] with a one-character cut set. *)
Fixpoint drop_byte (b : N) (l : list N) : list N :=
  match l with
  | [] => []
  | c :: l' => if (c =? b)%N then drop_byte b l' else l
  end.

Definition trim_byte (b : N) (l : list N) : list N := rev (drop_byte b (rev (drop_byte b l))).

(** [strings.ToLower], as far as a comparison with ASCII text can tell: the ASCII
    letters and the two other letters with an ASCII lower case (U+0130 and
    U+212A); what other runes become is not ASCII either. *)
Definition lower_byte (b : N) : N := if in_range 65 90 b then (b + 32)%N else b.

Fixpoint to_lower (l : list N) : list N :=
  match l with
  | [] => []
  | [b] => [lower_byte b]
  | b :: ((c :: r2) as r) =>
      if (b =? 196)%N && (c =? 176)%N then 105%N :: to_lower r2
      else match r2 with
           | d :: r3 =>
               if (b =? 226)%N && (c =? 132)%N && (d =? 170)%N then 107%N :: to_lower r3
               else lower_byte b :: to_lower r
           | [] => lower_byte b :: to_lower r
           end
  end.

(** [filepath.Base] and [filepath.Ext] on the separator ['/']. *)
Definition filepath_Base (l : list N) : list N :=
  match l with
  | [] => bytes_of "."
  | _ =>
      match after_last_byte 47 (rev (drop_byte 47 (rev l))) with
      | [] => bytes_of "/"
      | base => base
      end
  end.

Definition filepath_Ext (l : list N) : list N :=
  let base := after_last_byte 47 l in
  if has_byte 46 base then 46%N :: after_last_byte 46 base else [].

(** ** Operations *)

(** The runes below 0x20 and 0x7f are single bytes wherever they occur. *)
Definition NormalizeFilename (value : string) : res string :=
  let name := trim_space value in
  if bool_decide (name = "") || (255 <? go_len name) || bool_decide (name = "." ∨ name = "..")
     || contains_any name [47; 92]%N
  then Err ErrUnsafeFilename
  else if negb (bool_decide (filepath_Base (bytes_of name) = bytes_of name)) then Err ErrUnsafeFilename
  else if existsb (λ b, (b <? 32)%N || (b =? 127)%N) (bytes_of name) then Err ErrUnsafeFilename
  else Ok name.

Definition formatFromExtension (extension : list N) : option Format :=
  let e := to_lower extension in
  if bool_decide (e = bytes_of ".csv") then Some FormatCSV
  else if bool_decide (e = bytes_of ".jsonl" ∨ e = bytes_of ".ndjson") then Some FormatJSONL
  else if bool_decide (e = bytes_of ".parquet") then Some FormatParquet
  else None.

Definition formatFromContentType (contentType : string) : option Format :=
  let base := to_lower (trim_bytes (before_byte 59 (bytes_of contentType))) in
  if bool_decide (base ∈ bytes_of <$> ["text/csv"; "application/csv"]) then Some FormatCSV
  else if bool_decide (base ∈ bytes_of <$>
    ["application/json"; "application/jsonl"; "application/x-ndjson"; "text/json"]) then Some FormatJSONL
  else if bool_decide (base ∈ bytes_of <$>
    ["application/parquet"; "application/x-parquet"; "application/vnd.apache.parquet"]) then Some FormatParquet
  else None.

Definition DetectDeclaredFormat (filename contentType : string) : res Format :=
  name ← NormalizeFilename filename;
  let byExtension := formatFromExtension (filepath_Ext (bytes_of name)) in
  let byContentType := formatFromContentType contentType in
  match byExtension, byContentType with
  | Some f, Some g => if bool_decide (f = g) then Ok f else Err ErrUnsupportedFormat
  | Some f, None => Ok f
  | None, Some g => Ok g
  | None, None => Err ErrUnsupportedFormat
  end.

(** [^[0-9a-fA-F]{64}$]. *)
Definition is_hex (b : N) : bool := in_range 48 57 b || in_range 97 102 b || in_range 65 70 b.

Definition checksumPattern (l : list N) : bool := (length l =? 64)%nat && forallb is_hex l.

Definition NormalizeChecksum (value : string) : res string :=
  let checksum := to_lower (trim_bytes (bytes_of value)) in
  if checksumPattern checksum then Ok (string_of_bytes checksum) else Err ErrInvalidChecksum.

Definition ChecksumBytes (sum : list N) : string := EncodeToString sum.

Definition validatePrefix (format : Format) (prefix : list N) : res unit :=
  if (length prefix =? 0)%nat then Err ErrInvalidContent
  else match format with
  | FormatParquet =>
      if (length prefix <? 4)%nat || negb (bool_decide (take 4 prefix = bytes_of "PAR1"))
      then Err ErrInvalidContent else Ok tt
  | FormatCSV =>
      if negb (utf8_valid prefix) || has_byte 0 prefix then Err ErrInvalidContent
      else if negb (has_byte 44 prefix) && negb (has_byte 59 prefix) && negb (has_byte 9 prefix)
              && negb (has_byte 10 prefix) && negb (has_byte 13 prefix)
      then Err ErrInvalidContent else Ok tt
  | FormatJSONL =>
      if negb (utf8_valid prefix) || has_byte 0 prefix then Err ErrInvalidContent
      else
        let line := trim_bytes (before_byte 10 prefix) in
        if (length line =? 0)%nat
           || ((Z.of_nat (length prefix) <? SniffBytes) && negb (json_valid line))
        then Err ErrInvalidContent else Ok tt
  end.

Definition DetectFormat (filename contentType : string) (prefix : list N) : res Format :=
  format ← DetectDeclaredFormat filename contentType;
  _ ← validatePrefix format prefix;
  Ok format.

(** ** File names *)

(** What an accepted file name is, and that normalising it again changes nothing. *)
Definition safe_filename (name : string) : Prop :=
  1 <= go_len name <= 255 ∧ name ≠ "." ∧ name ≠ ".."
  ∧ Forall (λ b, (32 <= b)%N ∧ b ≠ 127%N ∧ b ≠ 47%N ∧ b ≠ 92%N) (bytes_of name)
  ∧ trim_space name = name.

Lemma existsb_false_Forall {A} (f : A → bool) l : existsb f l = false ↔ Forall (λ x, f x = false) l.
Proof.
  induction l as [|x l IH]; simpl; [by split|]. by rw orb_false_iff IH list.Forall_cons.
Qed.

Lemma contains_any_false s cs : contains_any s cs = false ↔ Forall (λ b, b ∉ cs) (bytes_of s).
Proof.
  unfold contains_any. rw existsb_false_Forall. split; intros H; (eapply Forall_impl; [|exact H]);
    intros b; apply bool_decide_eq_false.
Qed.

Lemma before_byte_id b l : Forall (λ c, c ≠ b) l → before_byte b l = l.
Proof. induction 1 as [|c l Hc _ IH]; simpl; [done|]. rw IH. by destruct (N.eqb_spec c b). Qed.

Lemma drop_byte_id b l : Forall (λ c, c ≠ b) l → drop_byte b l = l.
Proof. destruct 1 as [|c l Hc _]; simpl; [done|]. by destruct (N.eqb_spec c b). Qed.

(** A name without separator is its own base. *)
Lemma filepath_Base_id l : l ≠ [] → Forall (λ c, c ≠ 47%N) l → filepath_Base l = l.
Proof.
  intros Hl Hn. destruct l as [|c l]; [done|]. unfold filepath_Base, after_last_byte.
  rw drop_byte_id; [by apply Forall_rev|]. rw rev_involutive before_byte_id; [by apply Forall_rev|].
  by rw rev_involutive.
Qed.

Lemma NormalizeFilename_ok value name :
  NormalizeFilename value = Ok name ↔ name = trim_space value ∧ safe_filename name.
Proof.
  unfold NormalizeFilename, safe_filename. split.
  - destruct (bool_decide_reflect (trim_space value = "")) as [|Hne]; [done|].
    destruct (Z.ltb_spec 255 (go_len (trim_space value))); [done|].
    destruct (bool_decide_reflect (trim_space value = "." ∨ trim_space value = "..")); [done|].
    destruct (contains_any _ _) eqn:Hc; [done|]. simpl. case_match; [done|]. case_match eqn:Hx; [done|].
    intros [= <-]. split; [done|]. pose proof (go_len_nonneg (trim_space value)).
    split_and!; [|lia|tauto|tauto| |apply trim_space_idem].
    + enough (go_len (trim_space value) ≠ 0) by lia. by intros ?%go_len_0.
    + apply contains_any_false in Hc. apply existsb_false_Forall in Hx.
      rw !list.Forall_forall in Hc Hx *. intros b Hin. specialize (Hc b Hin). specialize (Hx b Hin).
      simpl in Hx. split_and!; [lia|lia|set_solver|set_solver].
  - intros (->&Hlen&Hd&Hdd&Hb&_).
    rw bool_decide_eq_false_2; [intros E; rw E in Hlen; change (go_len "") with 0 in Hlen; lia|].
    destruct (Z.ltb_spec 255 (go_len (trim_space value))); [lia|]. rw bool_decide_eq_false_2; [tauto|].
    rw (proj2 (contains_any_false _ _)); [eapply Forall_impl; [|exact Hb]; set_solver|]. simpl.
    rw filepath_Base_id; [intros E; rw go_len_bytes E /= in Hlen; lia|eapply Forall_impl; [|exact Hb]; by intros ? (?&?&?&?)|].
    rw bool_decide_eq_true_2 //=. rw (proj2 (existsb_false_Forall _ _)); [|done].
    eapply Forall_impl; [|exact Hb]. simpl. intros b Hb'. lia.
Qed.

(** ** Checksums *)

(** An accepted checksum is a digest in the text form [ChecksumBytes] gives. *)
Definition is_digest (s : string) : bool :=
  (length (bytes_of s) =? 64)%nat && forallb is_hex_lower (bytes_of s).

Lemma to_lower_cons b l : (b < 128)%N → to_lower (b :: l) = lower_byte b :: to_lower l.
Proof.
  intros Hb. destruct l as [|c l]; [done|]. cbn [to_lower].
  replace (b =? 196)%N with false by lia. replace (b =? 226)%N with false by lia. simpl. by destruct l.
Qed.

Lemma to_lower_hex l : forallb is_hex_lower l = true → to_lower l = l.
Proof.
  induction l as [|b l IH]; [done|]. intros [Hb Hl]%andb_prop. unfold is_hex_lower in Hb.
  rw to_lower_cons; [lia|]. rw IH //. unfold lower_byte, in_range.
  by replace ((65 <=? b) && (b <=? 90))%N with false by lia.
Qed.

Lemma is_hex_lower_is_hex b : is_hex_lower b = true → is_hex b = true.
Proof. unfold is_hex_lower, is_hex, in_range. lia. Qed.

(** Lower-casing leaves no upper-case letter. *)
Lemma to_lower_no_upper l : Forall (λ b, in_range 65 90 b = false) (to_lower l).
Proof.
  remember (length l) as n eqn:Hn. revert l Hn. induction n as [n IH] using lt_wf_ind. intros l ->.
  destruct l as [|b l]; [constructor|].
  assert (∀ k, (length k <= length l)%nat → Forall (λ b, in_range 65 90 b = false) (to_lower k)) as Hk.
  { intros k Hk. apply (IH (length k)); simpl; lia. }
  assert (∀ c, in_range 65 90 (lower_byte c) = false) as Hc.
  { intros c. unfold lower_byte, in_range. case_match; lia. }
  cbn [to_lower]. repeat case_match; subst; constructor; try (apply Hk; simpl; lia); auto.
Qed.

Lemma NormalizeChecksum_ok value checksum : NormalizeChecksum value = Ok checksum → is_digest checksum = true.
Proof.
  unfold NormalizeChecksum, checksumPattern, is_digest. case_match eqn:E; [|done]. intros [= <-].
  apply andb_prop in E as [Hl Hh]. pose proof (to_lower_no_upper (trim_bytes (bytes_of value))) as Hu.
  assert (Forall (λ b, is_hex_lower b = true ∧ (b < 256)%N) (to_lower (trim_bytes (bytes_of value)))) as HF.
  { rw list.Forall_forall in Hu. apply list.Forall_forall. rw forallb_forall in Hh. intros b Hb. specialize (Hu b Hb).
    apply list_elem_of_In in Hb. specialize (Hh b Hb). unfold is_hex, is_hex_lower, in_range in *. lia. }
  rw bytes_of_string_of; [eapply Forall_impl; [|exact HF]; by intros ? []|].
  rw Hl /=. apply forallb_forall. intros b Hb%list_elem_of_In. rw list.Forall_forall in HF. by apply (HF b).
Qed.

Lemma ChecksumBytes_digest content : is_digest (ChecksumBytes (Sum256 content)) = true.
Proof.
  destruct (EncodeToString_digest content) as [Hl Hh]. unfold is_digest, ChecksumBytes. by rw Hl Hh.
Qed.

(** ** The sniffed prefix

    Content is sniffed on its first [SniffBytes] bytes.  When the boundary falls
    inside a multi-byte rune, the prefix of a valid text is not valid UTF-8. *)

Lemma rune_len_app l k : rune_len l ≠ 0%nat → rune_len (l ++ k) = rune_len l.
Proof.
  intros Hn. pose proof (rune_len_take l (drop (rune_len l) l ++ k) Hn) as H.
  by rw assoc_L take_drop in H.
Qed.

Lemma utf8_runes_step n l : l ≠ [] → rune_len l ≠ 0%nat →
  utf8_runes (S n) l = utf8_runes n (drop (rune_len l) l).
Proof. intros Hl Hn. destruct l as [|b l]; [done|]. cbn [utf8_runes]. by destruct (rune_len (b :: l)). Qed.

Lemma utf8_runes_app n m a k :
  (length a <= n)%nat → utf8_runes n a = true → (length (a ++ k) <= m)%nat →
  ∃ m', (length k <= m')%nat ∧ utf8_runes m (a ++ k) = utf8_runes m' k.
Proof.
  revert n m. induction a as [a IH] using (induction_ltof1 _ length). intros n m Hn Hv Hm.
  destruct a as [|b a]; [by exists m|].
  destruct n as [|n]; [simpl in Hn; lia|]. apply utf8_runes_cons in Hv as [Hr Hv].
  pose proof (rune_len_le (b :: a)) as Hle. destruct m as [|m]; [simpl in Hm; lia|].
  rw utf8_runes_step; [done|by rw rune_len_app|]. rw rune_len_app // drop_app_le //.
  assert (length (drop (rune_len (b :: a)) (b :: a)) <= length a)%nat as Hd by (rw length_drop; cbn [length] in *; lia).
  apply (IH _) with n; rw ?length_app; rw length_app in Hm; unfold ltof; cbn [length] in *; try lia; done.
Qed.

Lemma utf8_valid_app a k : utf8_valid a = true → ∃ m, (length k <= m)%nat ∧ utf8_valid (a ++ k) = utf8_runes m k.
Proof. intros Hv. unfold utf8_valid. by eapply utf8_runes_app. Qed.

Lemma rune_len_incomplete r1 r2 :
  rune_len (r1 ++ r2) = length (r1 ++ r2) → r2 ≠ [] → rune_len r1 = 0%nat.
Proof.
  intros Hr H2. destruct (decide (rune_len r1 = 0%nat)) as [|Hn]; [done|]. exfalso.
  rw rune_len_app // length_app in Hr. pose proof (rune_len_le r1). destruct r2; [done|]. simpl in Hr. lia.
Qed.

Lemma utf8_split_rune a r1 r2 :
  utf8_valid a = true → rune_len (r1 ++ r2) = length (r1 ++ r2) → r1 ≠ [] → r2 ≠ [] →
  utf8_valid (a ++ r1) = false.
Proof.
  intros Ha Hr H1 H2. destruct (utf8_valid_app a r1 Ha) as (m&Hm&->).
  apply rune_len_incomplete in Hr; [|done]. destruct r1 as [|b r1]; [done|].
  destruct m as [|m]; [simpl in Hm; lia|]. cbn [utf8_runes]. by rw Hr.
Qed.

Lemma utf8_valid_ascii l : Forall (λ b, (b < 128)%N) l → utf8_valid l = true.
Proof.
  unfold utf8_valid. induction 1 as [|b l Hb _ IH]; [done|]. cbn [length].
  rw utf8_runes_step; [done|by rw rune_len_1|]. by rw rune_len_1.
Qed.

(** The sniffing window is cut at a byte, not at a rune: a text upload (CSV or
    JSON lines) that is valid UTF-8 throughout is refused as invalid content when a
    multi-byte rune straddles byte 65536. *)
Lemma DetectFormat_splits_rune filename contentType f a r1 r2 rest :
  DetectDeclaredFormat filename contentType = Ok f → f ≠ FormatParquet →
  utf8_valid a = true → rune_len (r1 ++ r2) = length (r1 ++ r2) → r1 ≠ [] → r2 ≠ [] →
  Z.of_nat (length (a ++ r1)) = SniffBytes → utf8_valid rest = true →
  let content := a ++ (r1 ++ r2) ++ rest in
  utf8_valid content = true
  ∧ DetectFormat filename contentType (take (Z.to_nat SniffBytes) content) = Err ErrInvalidContent.
Proof.
  intros Hf Hp Ha Hr H1 H2 Hl Hrest content. split.
  - destruct (utf8_valid_app a ((r1 ++ r2) ++ rest) Ha) as (m&Hm&E). unfold content. rw E.
    assert (length (r1 ++ r2) ≠ 0%nat) as Hnz by (destruct r1; done).
    assert (rune_len (r1 ++ r2) ≠ 0%nat) as Hn by congruence.
    destruct m as [|m]; [rw !length_app in Hm Hnz; lia|].
    rw utf8_runes_step; [by destruct r1|by rw rune_len_app|]. rw rune_len_app // Hr drop_app_length.
    destruct (utf8_runes_app (length rest) m rest [] ltac:(done) Hrest) as (m'&_&E').
    { rw !length_app in Hm Hnz *. simpl. lia. }
    rw app_nil_r in E'. rw E'. by destruct m'.
  - unfold DetectFormat. rw Hf. unfold content. rw -assoc_L assoc_L -Hl Nat2Z.id take_app_length.
    pose proof (utf8_split_rune a r1 r2 Ha Hr H1 H2) as Hs.
    assert (length (a ++ r1) ≠ 0%nat) as Hnz by (rw length_app; destruct r1; simpl; [done|lia]).
    unfold validatePrefix. apply Nat.eqb_neq in Hnz. simpl. rw Hnz Hs /=. by destruct f.
Qed.

(** A CSV file of 65535 ASCII bytes followed by a two-byte rune. *)
Lemma DetectFormat_splits_rune_witness :
  let content := replicate (Z.to_nat 65535) 97%N ++ ([195%N] ++ [169%N]) ++ [44%N] in
  utf8_valid content = true
  ∧ DetectFormat "report.csv" "text/csv" (take (Z.to_nat SniffBytes) content) = Err ErrInvalidContent.
Proof.
  refine (DetectFormat_splits_rune "report.csv" "text/csv" FormatCSV (replicate (Z.to_nat 65535) 97%N)
    [195%N] [169%N] [44%N] _ _ _ eq_refl _ _ _ eq_refl).
  - vm_compute. reflexivity.
  - discriminate.
  - apply utf8_valid_ascii, Forall_replicate. lia.
  - discriminate.
  - discriminate.
  - rw length_app length_replicate Nat2Z.inj_add Z2Nat.id //.
Defined.
