(* ===== verification/Retry.v ===== *)
(** The retry policy of src/go/internal/retry/policy.go: validation of a
    policy, the attempt budget and the bounded, jittered delay. *)

From S2P Require Import Prelude.
From Stdlib Require Import SpecFloat.

Open Scope Z_scope.

(** ** IEEE binary64

    [float64] arithmetic through the executable specification of the Standard
    Library: conversion from [int64], multiplication, comparison, and the
    conversion to [int64] that truncates (a value out of range, an infinity or
    a NaN gives [math.MinInt64], as on amd64). *)
Definition float64 := spec_float.

Definition f64_of_Z (z : Z) : float64 := binary_normalize 53 1024 z 0 false.
Definition f64_mul (x y : float64) : float64 := SFmul 53 1024 x y.
Definition f64_lt (x y : float64) : bool := SFltb x y.
Definition f64_is_zero (x : float64) : bool := SFeqb x (S754_zero false).
Definition f64_half : float64 := S754_finite false (2 ^ 52) (-53).

Definition int64_of_f64 (x : float64) : Z :=
  match x with
  | S754_zero _ => 0
  | S754_finite s m e =>
      let a := if 0 <=? e then Zpos m * 2 ^ e else Zpos m / 2 ^ (- e) in
      let z := if s then - a else a in
      if (min_int64 <=? z) && (z <=? max_int64) then z else min_int64
  | _ => min_int64
  end.

Definition RetryDefaultMaxAttempts : Z := 5.
Definition MaxSupportedAttempts : Z := 20.

Record Policy := mkPolicy {
  p_MaxAttempts : Z;
  Delays : list duration;
  JitterFraction : float64
}.

(** The double nearest to 0.2. *)
Definition f64_0_2 : float64 := S754_finite false 7205759403792794 (-55).

Definition DefaultPolicy : Policy := {|
  p_MaxAttempts := RetryDefaultMaxAttempts;
  Delays := [0; 10 * Second; 30 * Second; 2 * Minute; 10 * Minute];
  JitterFraction := f64_0_2
|}.

(** The loop of [Validate]: no negative delay, none below its predecessor. *)
Fixpoint delays_monotone (previous : duration) (l : list duration) : bool :=
  match l with
  | [] => true
  | d :: l => if (d <? 0) || (d <? previous) then false else delays_monotone d l
  end.

Definition Policy_Validate (p : Policy) : res unit :=
  if (p_MaxAttempts p <? 1) || (MaxSupportedAttempts <? p_MaxAttempts p)
     || bool_decide (length (Delays p) = 0%nat)
     || (p_MaxAttempts p <? Z.of_nat (length (Delays p)))
     || f64_lt (JitterFraction p) (S754_zero false)
     || f64_lt f64_half (JitterFraction p)
  then Err ErrInvalidPolicy
  else if delays_monotone (-1) (Delays p) then Ok tt else Err ErrInvalidPolicy.

Definition Policy_Next (p : Policy) (currentAttempt : Z) : res (Z * bool) :=
  _ ← Policy_Validate p;
  if (currentAttempt <? 1) || (p_MaxAttempts p <? currentAttempt)
  then Err ErrInvalidAttempt
  else let next := currentAttempt + 1 in Ok (next, next <=? p_MaxAttempts p).

(** [maximum := int64(float64(base) * p.JitterFraction)]. *)
Definition jitter_maximum (base : duration) (f : float64) : Z :=
  int64_of_f64 (f64_mul (f64_of_Z base) f).

Definition delay_index (p : Policy) (nextAttempt : Z) : Z :=
  let index := nextAttempt - 1 in
  if Z.of_nat (length (Delays p)) <=? index then Z.of_nat (length (Delays p)) - 1 else index.

(** [source] is [Int63n] of the random source, absent for a nil [Source].  The
    index lookup has a panic branch, which [Policy_Delay_bounded] shows unreachable. *)
Definition Policy_Delay (p : Policy) (nextAttempt : Z) (source : option (Z → Z)) : res duration :=
  _ ← Policy_Validate p;
  if (nextAttempt <? 2) || (p_MaxAttempts p <? nextAttempt)
  then Err ErrInvalidAttempt
  else match Delays p !! Z.to_nat (delay_index p nextAttempt) with
  | None => Err (ErrText "panic: index out of range")
  | Some base =>
      match source with
      | None => Ok base
      | Some int63n =>
          if bool_decide (base = 0) || f64_is_zero (JitterFraction p) then Ok base
          else let maximum := jitter_maximum base (JitterFraction p) in
               if maximum <? 1 then Ok base
               else Ok (wrap64 (base + int63n (wrap64 (maximum + 1))))
      end
  end.

(** [policy.MaxAttempts] raised to the job's own budget, as the lease sweep and
    the result consumer do before they ask for a delay. *)
Definition raise_budget (p : Policy) (maxAttempts : Z) : Policy :=
  if p_MaxAttempts p <? maxAttempts then mkPolicy maxAttempts (Delays p) (JitterFraction p) else p.

(** ** Properties *)

Lemma Policy_Validate_ok_iff p :
  Policy_Validate p = Ok tt ↔
    1 <= p_MaxAttempts p <= MaxSupportedAttempts
    ∧ (0 < length (Delays p))%nat ∧ Z.of_nat (length (Delays p)) <= p_MaxAttempts p
    ∧ f64_lt (JitterFraction p) (S754_zero false) = false
    ∧ f64_lt f64_half (JitterFraction p) = false
    ∧ delays_monotone (-1) (Delays p) = true.
Proof.
  unfold Policy_Validate.
  destruct (f64_lt (JitterFraction p) (S754_zero false)), (f64_lt f64_half (JitterFraction p)),
    (delays_monotone (-1) (Delays p)); simpl;
  repeat match goal with
  | |- context [Z.ltb ?a ?b] => destruct (Z.ltb_spec a b); simpl
  | |- context [bool_decide ?P] => destruct (bool_decide_reflect P); simpl
  end; split; try (intros; done); intros; destruct_and?; try (split_and!; lia || done); lia.
Qed.

(** The delays of an accepted list are sorted and non-negative. *)
Lemma delays_monotone_lookup prev l i d :
  delays_monotone prev l = true → l !! i = Some d → prev <= d ∧ 0 <= d.
Proof.
  revert prev i. induction l as [|x l IH]; intros prev i Hm Hl; [done|].
  simpl in Hm. destruct (Z.ltb_spec x 0), (Z.ltb_spec x prev); try done.
  destruct i as [|i]; simpl in Hl; [injection Hl as <-; lia|].
  destruct (IH x i Hm Hl). lia.
Qed.

Lemma delays_monotone_mono prev l i j d d' :
  delays_monotone prev l = true → (i <= j)%nat →
  l !! i = Some d → l !! j = Some d' → d <= d'.
Proof.
  revert prev i j. induction l as [|x l IH]; intros prev i j Hm Hij Hi Hj; [done|].
  simpl in Hm. destruct (Z.ltb_spec x 0), (Z.ltb_spec x prev); try done.
  destruct i as [|i], j as [|j]; simpl in Hi, Hj; simplify_eq; try lia.
  - apply (delays_monotone_lookup _ _ _ _ Hm Hj).
  - apply (IH _ i j Hm ltac:(lia) Hi Hj).
Qed.

Lemma delay_index_in_range p n :
  Policy_Validate p = Ok tt → 2 <= n →
  0 <= delay_index p n < Z.of_nat (length (Delays p)).
Proof.
  intros (?&?&?&?&?&?)%Policy_Validate_ok_iff ?. unfold delay_index.
  destruct (Z.leb_spec (Z.of_nat (length (Delays p))) (n - 1)); lia.
Qed.

Lemma delay_lookup p n :
  Policy_Validate p = Ok tt → 2 <= n → is_Some (Delays p !! Z.to_nat (delay_index p n)).
Proof.
  intros Hv Hn. apply lookup_lt_is_Some. pose proof (delay_index_in_range p n Hv Hn). lia.
Qed.

(** A random source honours its contract when [Int63n(n)] is in [0, n). *)
Definition source_ok (source : option (Z → Z)) : Prop :=
  ∀ f n, source = Some f → 0 < n → 0 <= f n < n.

(** The slack the jitter may add to a base delay. *)
Definition jitter_slack (p : Policy) (base : duration) : Z :=
  if jitter_maximum base (JitterFraction p) <? 1 then 0 else jitter_maximum base (JitterFraction p).

Lemma jitter_maximum_int64 base f : min_int64 <= jitter_maximum base f <= max_int64.
Proof.
  unfold jitter_maximum, int64_of_f64, min_int64, max_int64.
  destruct (f64_mul _ _) as [| | |s m e]; try lia.
  destruct (_ && _) eqn:E; [|lia]. apply andb_true_iff in E as [?%Z.leb_le ?%Z.leb_le].
  unfold min_int64, max_int64 in *. lia.
Qed.

(** Every jittered value stays between the base and the base plus slack. *)
Lemma jittered_bounds p base f :
  source_ok (Some f) → 0 <= base → base + jitter_slack p base <= max_int64 →
  1 <= jitter_maximum base (JitterFraction p) →
  jitter_maximum base (JitterFraction p) < max_int64 →
  base <= wrap64 (base + f (wrap64 (jitter_maximum base (JitterFraction p) + 1)))
       <= base + jitter_slack p base.
Proof.
  intros Hs Hb Hmax Hj Hj'. unfold jitter_slack in *.
  destruct (Z.ltb_spec (jitter_maximum base (JitterFraction p)) 1); [lia|].
  rw (wrap64_small (jitter_maximum _ _ + 1)); [unfold min_int64; lia|].
  pose proof (Hs f (jitter_maximum base (JitterFraction p) + 1) eq_refl ltac:(lia)).
  rw wrap64_small; [unfold min_int64; lia|]. lia.
Qed.

(** A validated policy answers every attempt of its budget: the delay is
    found without an index panic, it is at least the configured base delay and
    exceeds it by at most the jitter computed from the policy, as long as the
    sum fits an [int64]. *)
Lemma Policy_Delay_bounded (p : Policy) (n : Z) (source : option (Z → Z)) :
  Policy_Validate p = Ok tt → 2 <= n <= p_MaxAttempts p → source_ok source →
  (∀ base, base ∈ Delays p → base + jitter_slack p base < max_int64) →
  ∃ base d, Delays p !! Z.to_nat (delay_index p n) = Some base
    ∧ Policy_Delay p n source = Ok d
    ∧ 0 <= base <= d ∧ d <= base + jitter_slack p base.
Proof.
  intros Hv Hn Hs Hfit. destruct (delay_lookup p n Hv ltac:(lia)) as [base Hbase].
  assert (0 <= base) as Hb0.
  { apply Policy_Validate_ok_iff in Hv as (_&_&_&_&_&Hm).
    apply (delays_monotone_lookup _ _ _ _ Hm Hbase). }
  pose proof (Hfit base (list_elem_of_lookup_2 _ _ _ Hbase)) as Hf.
  assert (0 <= jitter_slack p base) as Hsl.
  { unfold jitter_slack. destruct (Z.ltb_spec (jitter_maximum base (JitterFraction p)) 1); lia. }
  exists base. unfold Policy_Delay. rw Hv /= Hbase.
  destruct (Z.ltb_spec n 2); [lia|]. destruct (Z.ltb_spec (p_MaxAttempts p) n); [lia|]. simpl.
  destruct source as [f|]; [|exists base; split_and!; auto; lia].
  destruct (_ || _); [exists base; split_and!; auto; lia|].
  destruct (Z.ltb_spec (jitter_maximum base (JitterFraction p)) 1) as [|Hj];
    [exists base; split_and!; auto; lia|].
  eexists. split_and!; [done|done|done| |]; eapply jittered_bounds; eauto; try lia.
  all: unfold jitter_slack in *;
    destruct (Z.ltb_spec (jitter_maximum base (JitterFraction p)) 1); lia.
Qed.

Lemma Policy_Delay_bounded_witness :
  Policy_Validate DefaultPolicy = Ok tt ∧
  ∃ base d, Delays DefaultPolicy !! Z.to_nat (delay_index DefaultPolicy 3) = Some base
    ∧ Policy_Delay DefaultPolicy 3 (Some (λ n, n - 1)) = Ok d
    ∧ 0 <= base <= d ∧ d <= base + jitter_slack DefaultPolicy base.
Proof.
  split; [reflexivity|].
  apply (Policy_Delay_bounded DefaultPolicy 3 (Some (λ n, n - 1))).
  - reflexivity.
  - vm_compute; split; discriminate.
  - intros f n [= <-] Hn. lia.
  - intros base Hb. cbn [Delays DefaultPolicy] in Hb.
    do 5 (apply elem_of_cons in Hb as [->|Hb]; [vm_compute; reflexivity|]).
    by apply not_elem_of_nil in Hb.
Defined.

(** The default policy, whatever the random source draws, waits 10-12 s,
    30-36 s, 2-2.4 min and 10-12 min before attempts 2 to 5, and refuses every
    other attempt number. *)
Lemma DefaultPolicy_delays (n : Z) (f : Z → Z) :
  (∀ m, 0 < m → 0 <= f m < m) →
  match Policy_Delay DefaultPolicy n (Some f) with
  | Ok d => (n = 2 ∧ 10 * Second <= d <= 12 * Second)
            ∨ (n = 3 ∧ 30 * Second <= d <= 36 * Second)
            ∨ (n = 4 ∧ 120 * Second <= d <= 144 * Second)
            ∨ (n = 5 ∧ 10 * Minute <= d <= 12 * Minute)
  | Err e => e = ErrInvalidAttempt ∧ (n < 2 ∨ 5 < n)
  end.
Proof.
  intros Hf. unfold Policy_Delay.
  change (Policy_Validate DefaultPolicy) with (@Ok unit tt). simpl.
  destruct (Z.ltb_spec n 2); [simpl; by auto|].
  unfold RetryDefaultMaxAttempts. destruct (Z.ltb_spec 5 n); [simpl; by auto|]. simpl.
  assert (n = 2 ∨ n = 3 ∨ n = 4 ∨ n = 5) as [->|[->|[->| ->]]] by lia;
  match goal with |- context [delay_index ?p ?n] =>
    let i := eval vm_compute in (Z.to_nat (delay_index p n)) in
    change (Z.to_nat (delay_index p n)) with i end;
  cbn [lookup list_lookup Delays DefaultPolicy];
  match goal with |- context [jitter_maximum ?b ?f] =>
    let j := eval vm_compute in (jitter_maximum b f) in
    change (jitter_maximum b f) with j;
    let b' := eval vm_compute in b in change b with b' end;
  match goal with |- context [f (wrap64 (?a + 1))] =>
    let w := eval vm_compute in (wrap64 (a + 1)) in
    change (wrap64 (a + 1)) with w; pose proof (Hf w ltac:(lia)) end;
  rw bool_decide_eq_false_2 //; change (f64_is_zero f64_0_2) with false; cbn [orb];
  match goal with |- context [Z.ltb ?a 1] => change (Z.ltb a 1) with false end; cbv iota;
  rw wrap64_small; unfold min_int64, max_int64, Minute, Second; lia.
Qed.

Lemma DefaultPolicy_delays_witness :
  match Policy_Delay DefaultPolicy 4 (Some (λ m, m - 1)) with
  | Ok d => (4 = 2 ∧ 10 * Second <= d <= 12 * Second)
            ∨ (4 = 3 ∧ 30 * Second <= d <= 36 * Second)
            ∨ (4 = 4 ∧ 120 * Second <= d <= 144 * Second)
            ∨ (4 = 5 ∧ 10 * Minute <= d <= 12 * Minute)
  | Err e => e = ErrInvalidAttempt ∧ (4 < 2 ∨ 5 < 4)
  end.
Proof. apply (DefaultPolicy_delays 4 (λ m, m - 1)). intros m Hm. lia. Defined.

(** Raising the budget up to the supported maximum keeps a policy valid. *)
Lemma raise_budget_valid p mx :
  Policy_Validate p = Ok tt → mx <= MaxSupportedAttempts →
  Policy_Validate (raise_budget p mx) = Ok tt ∧ mx <= p_MaxAttempts (raise_budget p mx).
Proof.
  intros Hv Hm. unfold raise_budget. destruct (Z.ltb_spec (p_MaxAttempts p) mx); [|done].
  apply Policy_Validate_ok_iff in Hv as (?&?&?&?&?&?). split; [|simpl; lia].
  apply Policy_Validate_ok_iff. simpl. split_and!; auto; lia.
Qed.
