(* ===== verification/Queue.v ===== *)
(** Messages of src/go/internal/queue: JSON payloads, the versioned envelope
    and its validation, and worker routing keys. *)

From S2P Require Import Prelude GoStrings Json.

Open Scope Z_scope.

(** ** Messages *)

(** A [json.RawMessage]: the length of its bytes once white space is trimmed
    and the value they parse to, if they are valid JSON. *)
Record RawMessage := mkRaw { raw_len : Z; raw_value : option json }.

Definition raw_of (v : json) : RawMessage :=
  mkRaw (Z.of_nat (length (json_marshal v))) (Some v).

(** ** Message types *)

Definition MaxEnvelopeBytes : Z := 2 ^ 20.

Definition MessageJobQueued : string := "processing.job.queued".
Definition MessageJobRequested : string := "processing.job.requested".
Definition MessageJobCancel : string := "processing.job.cancel-requested".
Definition MessageJobStarted : string := "processing.job.started".
Definition MessageJobProgressed : string := "processing.job.progressed".
Definition MessageJobSucceeded : string := "processing.job.succeeded".
Definition MessageJobFailed : string := "processing.job.failed".
Definition MessageJobCancelled : string := "processing.job.cancelled".
Definition MessageWorkerHeartbeat : string := "processing.worker.heartbeat".
Definition MessageWorkerRegistered : string := "processing.worker.registered".
Definition MessageArtifactCreated : string := "processing.artifact.created".

Definition CommandsExchange : string := "pipeforge.commands".

(** [knownMessageTypes]: the registered types with their required fields. *)
Definition knownMessageTypes : list (string * list string) := [
  (MessageJobQueued, ["jobId"]);
  (MessageJobRequested, ["jobId"; "datasetVersionId"; "attemptId"; "leaseId"; "workerId";
                         "attemptNumber"; "operations"; "source"]);
  (MessageJobCancel, ["jobId"; "reason"]);
  (MessageJobStarted, ["jobId"; "attemptId"; "leaseId"; "workerId"; "attemptNumber"]);
  (MessageJobProgressed, ["jobId"; "attemptId"; "leaseId"; "stage"; "processedRows";
                          "progressPercent"; "updatedAt"]);
  (MessageJobSucceeded, ["jobId"; "attemptId"; "leaseId"; "workerId"; "artifacts"]);
  (MessageJobFailed, ["jobId"; "attemptId"; "leaseId"; "workerId"; "error"]);
  (MessageJobCancelled, ["jobId"; "attemptId"; "leaseId"; "workerId"; "reason"]);
  (MessageWorkerHeartbeat, ["workerId"; "instanceId"; "hostname"; "supportedOperations";
                            "softwareVersion"; "status"; "currentConcurrency";
                            "maxConcurrency"; "currentJobIds"; "observedAt"]);
  (MessageWorkerRegistered, ["workerId"; "instanceId"; "hostname"; "supportedOperations";
                             "softwareVersion"; "maxConcurrency"; "startedAt"]);
  (MessageArtifactCreated, ["jobId"; "attemptId"; "leaseId"; "artifactId"; "kind";
                            "objectKey"; "sizeBytes"; "contentType"; "checksumSha256"])
].

Definition required_fields (messageType : string) : option (list string) :=
  assoc_first messageType knownMessageTypes.

(** [messageTypePattern], [^[a-z][a-z0-9]*(\.[a-z0-9-]+)+$]: dot-separated
    segments, the first starting with a letter, at least one more segment. *)
Definition is_lower (b : N) : bool := (97 <=? b)%N && (b <=? 122)%N.

Fixpoint segments_ok (cur : bool) (l : list N) : bool :=
  match l with
  | [] => cur
  | b :: l =>
      if N.eqb b 46 then cur && segments_ok false l
      else (is_lower b || is_digit b || N.eqb b 45) && segments_ok true l
  end.

Fixpoint first_segment_ok (l : list N) : bool :=
  match l with
  | [] => false
  | b :: l => if N.eqb b 46 then segments_ok false l
              else (is_lower b || is_digit b) && first_segment_ok l
  end.

Definition messageTypePattern (s : string) : bool :=
  match bytes_of s with
  | b :: l => is_lower b && first_segment_ok l
  | [] => false
  end.

(** ** The envelope *)

Record Envelope := mkEnvelope {
  MessageID : uuid;
  MessageType : string;
  SchemaVersion : Z;
  OccurredAt : time;
  TraceID : string;
  CorrelationID : string;
  CausationID : string;
  Payload : RawMessage
}.

(** The object a payload decodes to, as [map[string]json.RawMessage]. *)
Definition payload_object (p : RawMessage) : option (list (string * json)) :=
  match raw_value p with Some (JObj l) => Some l | _ => None end.

(** A field is present when its last binding in the object is not [null]. *)
Definition field_present (obj : list (string * json)) (field : string) : bool :=
  match assoc_last field obj with
  | None | Some JNull => false
  | Some _ => true
  end.

Definition operations_nonempty (obj : list (string * json)) : bool :=
  match assoc_last "operations" obj with
  | Some (JArr (_ :: _)) => true
  | _ => false
  end.

Definition Envelope_Validate (e : Envelope) : res unit :=
  if bool_decide (MessageID e = uuid_nil) then Err (ErrText "message ID is required")
  else if negb (messageTypePattern (MessageType e)) then Err (ErrText "message type is invalid")
  else match required_fields (MessageType e) with
  | None => Err (ErrText "message type is not registered")
  | Some required =>
      if negb (bool_decide (SchemaVersion e = 1)) then Err (ErrText "unsupported schema version")
      else if bool_decide (OccurredAt e = time_zero) then Err (ErrText "occurredAt is required")
      else if bool_decide (TraceID e = "" ∨ CorrelationID e = "" ∨ CausationID e = "")
      then Err (ErrText "traceId, correlationId, and causationId are required")
      else if (128 <? go_len (TraceID e)) || (128 <? go_len (CorrelationID e))
              || (128 <? go_len (CausationID e))
      then Err (ErrText "trace context identifiers are too long")
      else match payload_object (Payload e) with
      | None => Err (ErrText "payload must be a JSON object")
      | Some obj =>
          if MaxEnvelopeBytes <? raw_len (Payload e) then Err (ErrText "payload is too large")
          else if negb (forallb (field_present obj) required)
          then Err (ErrText "payload field is required")
          else if bool_decide (MessageType e = MessageJobRequested) && negb (operations_nonempty obj)
          then Err (ErrText "payload.operations must contain at least one operation")
          else Ok tt
      end
  end.

Definition NewEnvelope {S} (messageType traceID correlationID causationID : string) (payload : json)
  : Tx S Envelope :=
  id ← uuid_new;
  now ← time_now;
  let e := mkEnvelope id messageType 1 now traceID correlationID causationID (raw_of payload) in
  _ ← lift_res (Envelope_Validate e);
  mret e.

(** ** Routing keys of the per-worker queues *)
Definition WorkerRoutingKey (messageType : string) (workerID : uuid) : res string :=
  if bool_decide (workerID = uuid_nil)
  then Err (ErrText "worker routing requires a non-zero worker ID")
  else if negb (bool_decide (messageType = MessageJobRequested ∨ messageType = MessageJobCancel))
  then Err (ErrText "message type cannot use worker routing")
  else Ok (messageType +:+ "." +:+ uuid_string workerID).

(** ** Properties *)

(** What validation accepts, in one statement. *)
Lemma Envelope_Validate_ok_iff e :
  Envelope_Validate e = Ok tt ↔
    MessageID e ≠ uuid_nil ∧ messageTypePattern (MessageType e) = true
    ∧ SchemaVersion e = 1 ∧ OccurredAt e ≠ time_zero
    ∧ (1 <= go_len (TraceID e) <= 128) ∧ (1 <= go_len (CorrelationID e) <= 128)
    ∧ (1 <= go_len (CausationID e) <= 128)
    ∧ ∃ obj required,
        payload_object (Payload e) = Some obj
        ∧ required_fields (MessageType e) = Some required
        ∧ raw_len (Payload e) <= MaxEnvelopeBytes
        ∧ forallb (field_present obj) required = true
        ∧ (MessageType e = MessageJobRequested → operations_nonempty obj = true).
Proof.
  assert (∀ s : string, s = "" ↔ go_len s < 1) as Hlen.
  { intros s. split; [by intros ->|]. pose proof (go_len_nonneg s). intros ?.
    apply go_len_0. lia. }
  unfold Envelope_Validate. split.
  - intros H.
    repeat (match type of H with
      | context [if bool_decide ?P then _ else _] => destruct (bool_decide_reflect P)
      | context [if negb (bool_decide ?P) then _ else _] => destruct (bool_decide_reflect P)
      | context [if negb ?b then _ else _] => destruct b eqn:?
      | context [match required_fields ?x with _ => _ end] => destruct (required_fields x) eqn:?
      | context [match payload_object ?x with _ => _ end] => destruct (payload_object x) eqn:?
      | context [Z.ltb ?a ?b] => destruct (Z.ltb_spec a b)
      | context [bool_decide ?P && negb ?b] => destruct (bool_decide_reflect P), b eqn:?
      end; simpl in H; try discriminate H).
    all: match goal with H : ¬ (_ ∨ _ ∨ _) |- _ => rw !Hlen in H end.
    all: split_and!; try (done || lia); eexists _, _; split_and!; done || lia.
  - intros (Hid&Hpat&Hv&Hocc&Ht&Hc&Hca&obj&req&Hobj&Hreq&Hsz&Hf&Hop).
    rw bool_decide_eq_false_2 // Hpat Hreq /= Hv /= bool_decide_eq_false_2 //.
    rw bool_decide_eq_false_2; [rw !Hlen; lia|].
    destruct (Z.ltb_spec 128 (go_len (TraceID e))), (Z.ltb_spec 128 (go_len (CorrelationID e))),
      (Z.ltb_spec 128 (go_len (CausationID e))); try lia. simpl.
    rw Hobj Hf /=. destruct (Z.ltb_spec MaxEnvelopeBytes (raw_len (Payload e))); [lia|].
    case_bool_decide; [|done]. by rw Hop.
Qed.

(** Creating an envelope touches no row; what it returns is what was asked
    for, and has passed validation. *)
Lemma wp_NewEnvelope {S} o ty tr co ca v (Q : Envelope → World S → Prop) w :
  (∀ e n, Envelope_Validate e = Ok tt → MessageType e = ty → TraceID e = tr →
     CorrelationID e = co → CausationID e = ca → Payload e = raw_of v →
     Q e (mkWorld (st w) n)) →
  wp o (NewEnvelope ty tr co ca v) Q w.
Proof.
  intros H. unfold NewEnvelope. wp_steps. apply H; auto.
  destruct (Envelope_Validate _) as [[]|]; congruence.
Qed.

(** An envelope whose payload lacks a required field is refused. *)
Lemma Envelope_Validate_missing e obj required f :
  payload_object (Payload e) = Some obj → required_fields (MessageType e) = Some required →
  f ∈ required → field_present obj f = false → Envelope_Validate e ≠ Ok tt.
Proof.
  intros Ho Hr Hf Hp (_&_&_&_&_&_&_&obj'&req'&Ho'&Hr'&_&Hall&_)%Envelope_Validate_ok_iff.
  simplify_eq. rw forallb_forall in Hall. apply list_elem_of_In in Hf.
  rw (Hall f Hf) in Hp. done.
Qed.

Lemma routing_key_inj (ty ty' a b : string) :
  (ty = MessageJobRequested ∨ ty = MessageJobCancel) →
  (ty' = MessageJobRequested ∨ ty' = MessageJobCancel) →
  ty +:+ "." +:+ a = ty' +:+ "." +:+ b → ty = ty' ∧ a = b.
Proof.
  intros [->| ->] [->| ->] H; cbn in H; try discriminate H; (split; [done|]);
    by injection H.
Qed.

(** The per-worker routing key of a command identifies the worker: two
    different workers never share a queue binding, and a key is only built for
    the two command types that are routed to a worker. *)
Lemma WorkerRoutingKey_inj (ty ty' k : string) (w w' : uuid) :
  (w < 2 ^ 128)%N → (w' < 2 ^ 128)%N →
  WorkerRoutingKey ty w = Ok k → WorkerRoutingKey ty' w' = Ok k →
  ty = ty' ∧ w = w' ∧ (ty = MessageJobRequested ∨ ty = MessageJobCancel).
Proof.
  unfold WorkerRoutingKey. intros Hw Hw' H H'.
  destruct (bool_decide_reflect (w = uuid_nil)), (bool_decide_reflect (w' = uuid_nil)); try done.
  destruct (bool_decide_reflect (ty = MessageJobRequested ∨ ty = MessageJobCancel)) as [Hty|];
    [|done].
  destruct (bool_decide_reflect (ty' = MessageJobRequested ∨ ty' = MessageJobCancel)) as [Hty'|];
    [|done].
  simpl in *. injection H as <-. injection H' as H'.
  apply routing_key_inj in H' as [<- Hs]; [|done..].
  split_and!; [done| |done]. by apply uuid_string_inj.
Qed.

Lemma WorkerRoutingKey_inj_witness :
  MessageJobCancel = MessageJobCancel ∧ 7%N = 7%N
  ∧ (MessageJobCancel = MessageJobRequested ∨ MessageJobCancel = MessageJobCancel).
Proof.
  apply (WorkerRoutingKey_inj MessageJobCancel MessageJobCancel
    ("processing.job.cancel-requested.00000000-0000-0000-0000-000000000007") 7 7);
    vm_compute; reflexivity.
Defined.
