(* ===== verification/JobModel.v ===== *)
(** The job state machine of src/go/internal/job/models.go: states of jobs and
    attempts, the transition table, and the operations a job carries. *)

From S2P Require Import Prelude Json Queue.

Open Scope Z_scope.

(** States of a job.  The database stores the text of the Go constant; the
    CHECK constraint of [processing_jobs.state] admits exactly these ten. *)
Inductive JobState :=
  | Created | Queued | Leased | Running | Succeeded | FailedRetryable
  | FailedPermanent | CancelRequested | Cancelled | DeadLettered.

Definition job_state_string (s : JobState) : string :=
  match s with
  | Created => "CREATED"
  | Queued => "QUEUED"
  | Leased => "LEASED"
  | Running => "RUNNING"
  | Succeeded => "SUCCEEDED"
  | FailedRetryable => "FAILED_RETRYABLE"
  | FailedPermanent => "FAILED_PERMANENT"
  | CancelRequested => "CANCEL_REQUESTED"
  | Cancelled => "CANCELLED"
  | DeadLettered => "DEAD_LETTERED"
  end.

Inductive AttemptState :=
  | AttemptCreated | AttemptLeased | AttemptRunning | AttemptSucceeded
  | AttemptFailed | AttemptTimedOut | AttemptCancelled.

#[export] Instance JobState_eq_dec : EqDecision JobState.
Proof. solve_decision. Defined.
#[export] Instance AttemptState_eq_dec : EqDecision AttemptState.
Proof. solve_decision. Defined.

Definition DefaultPriority : Z := 0.
Definition DefaultMaxAttempts : Z := 5.
Definition MaxPriority : Z := 100.
Definition JobMaxAttempts : Z := 20.
Definition MaxIdempotencyKeySize : Z := 128.

(** A processing operation; [op_config] is the [map[string]any], [None] when it
    is nil. *)
Record Operation := mkOperation { op_type : string; op_config : option (list (string * json)) }.

Definition json_operation (op : Operation) : json :=
  JObj [("type", JStr (op_type op));
        ("config", match op_config op with Some c => JObj c | None => JNull end)].

Definition all_job_states : list JobState :=
  [Created; Queued; Leased; Running; Succeeded; FailedRetryable; FailedPermanent;
   CancelRequested; Cancelled; DeadLettered].

Definition isJobState (state : string) : bool :=
  existsb (λ s, bool_decide (state = job_state_string s)) all_job_states.

Definition IsKnownState (state : string) : bool := isJobState state.

Definition IsTerminal (state : string) : bool :=
  bool_decide (state = job_state_string Succeeded) || bool_decide (state = job_state_string Cancelled).

(** The [allowed] map of [ValidateTransition]. *)
Definition allowed : list (JobState * list JobState) := [
  (Created, [Queued]);
  (Queued, [Leased; CancelRequested; Cancelled; FailedPermanent]);
  (Leased, [Queued; Running; CancelRequested; FailedRetryable; FailedPermanent; DeadLettered]);
  (Running, [Queued; Succeeded; FailedRetryable; FailedPermanent; CancelRequested; DeadLettered]);
  (FailedRetryable, [Queued; DeadLettered]);
  (FailedPermanent, [Queued]);
  (CancelRequested, [Cancelled]);
  (DeadLettered, [Queued])
].

Definition allowed_strings : list (string * list string) :=
  map (λ '(s, l), (job_state_string s, map job_state_string l)) allowed.

Definition ValidateTransition (from to : string) : res unit :=
  if negb (isJobState from) || negb (isJobState to) then Err ErrInvalidTransition
  else match assoc_first from allowed_strings with
  | Some targets => if bool_decide (to ∈ targets) then Ok tt else Err ErrInvalidTransition
  | None => Err ErrInvalidTransition
  end.

(** ** Properties *)

(** The edge relation of the lifecycle, read off the typed table. *)
Definition edge (s t : JobState) : bool :=
  existsb (λ '(s', l), bool_decide (s = s') && bool_decide (t ∈ l)) allowed.

#[export] Instance job_state_string_inj : Inj (=) (=) job_state_string.
Proof. intros [] []; simpl; congruence. Qed.

Lemma isJobState_iff x : isJobState x = true ↔ ∃ s, x = job_state_string s.
Proof.
  unfold isJobState. rw existsb_exists. split.
  - intros (s&_&->%bool_decide_eq_true). eauto.
  - intros [s ->]. exists s. rw bool_decide_eq_true. split; [|done].
    destruct s; simpl; tauto.
Qed.

Lemma isJobState_string s : isJobState (job_state_string s) = true.
Proof. apply isJobState_iff. eauto. Qed.

(** On two known states the text-level test is the table lookup. *)
Lemma ValidateTransition_edge s t :
  ValidateTransition (job_state_string s) (job_state_string t) =
    if edge s t then Ok tt else Err ErrInvalidTransition.
Proof. by destruct s, t; vm_compute. Qed.

Lemma ValidateTransition_ok_edge s t :
  ValidateTransition (job_state_string s) (job_state_string t) = Ok tt ↔ edge s t = true.
Proof. rw ValidateTransition_edge. by destruct (edge s t). Qed.

(** On the texts of the database, [ValidateTransition] accepts exactly the
    pairs of known states joined by an edge of the table, and answers
    [ErrInvalidTransition] for anything else, unknown text included. *)
Lemma ValidateTransition_spec (from to : string) :
  (ValidateTransition from to = Ok tt ↔
     ∃ s t, from = job_state_string s ∧ to = job_state_string t ∧ edge s t = true)
  ∧ (ValidateTransition from to = Ok tt ∨ ValidateTransition from to = Err ErrInvalidTransition).
Proof.
  destruct (isJobState from && isJobState to) eqn:E.
  - apply andb_true_iff in E as [[s ->]%isJobState_iff [t ->]%isJobState_iff].
    rw ValidateTransition_edge. split; [|destruct (edge s t); auto]. split.
    + intros H. exists s, t. by destruct (edge s t).
    + intros (s'&t'&->%(inj _)&->%(inj _)&->). done.
  - assert (ValidateTransition from to = Err ErrInvalidTransition) as ->.
    { unfold ValidateTransition. by destruct (isJobState from), (isJobState to). }
    split; [|by right]. split; [done|]. intros (s&t&->&->&_).
    by rw !isJobState_string in E.
Qed.

(** The lifecycle graph has no dead end: the states [IsTerminal] names are
    exactly those without an outgoing edge, and every state leads to one of
    them. *)
Lemma lifecycle_terminates (s : JobState) :
  (IsTerminal (job_state_string s) = true ↔ ∀ t, edge s t = false)
  ∧ ∃ t, rtc (λ a b, edge a b = true) s t ∧ IsTerminal (job_state_string t) = true.
Proof.
  split.
  - split.
    + intros H t. by destruct s, t.
    + intros H. destruct s; try done; exfalso;
        first [ by specialize (H Queued) | by specialize (H Cancelled) ].
  - assert (rtc (λ a b, edge a b = true) Queued Cancelled) as HQ by (by apply rtc_once).
    destruct (decide (s = Succeeded)) as [->|Hs]; [exists Succeeded; split; [constructor|done]|].
    exists Cancelled. split; [|done].
    destruct s; first
      [ congruence | exact HQ | apply rtc_refl | solve [apply rtc_once; reflexivity]
      | solve [eapply rtc_l; [|exact HQ]; reflexivity] ].
Qed.
