(* ===== verification/Schema.v ===== *)
(** The relational state of the control plane: the tables of
    src/go/migrations/*.sql that the job lifecycle, the outbox and the result
    consumer read and write, with the column updates their SQL performs. *)

From S2P Require Import Prelude Json Queue JobModel.
From Stdlib Require Import QArith.

Open Scope Z_scope.

(** States of an outbox message (outbox/models.go). *)
Inductive OutboxState := OutboxPending | OutboxInFlight | OutboxPublished | OutboxFailed.

(** Worker statuses (workerregistry/models.go). *)
Inductive WorkerStatus :=
  | StatusStarting | StatusReady | StatusBusy | StatusDraining | StatusUnhealthy | StatusOffline.

#[export] Instance OutboxState_eq_dec : EqDecision OutboxState.
Proof. solve_decision. Defined.
#[export] Instance WorkerStatus_eq_dec : EqDecision WorkerStatus.
Proof. solve_decision. Defined.

(** A row of [processing_jobs]. *)
Record JobRow := mkJobRow {
  j_id : uuid;
  j_owner_user_id : uuid;
  j_dataset_version_id : uuid;
  j_state : JobState;
  j_operations : list Operation;
  j_request_fingerprint : string;
  j_idempotency_key : option string;
  j_priority : Z;
  j_max_attempts : Z;
  j_created_at : time;
  j_updated_at : time;
  j_queued_at : option time;
  j_next_attempt_at : option time;
  j_started_at : option time;
  j_cancel_requested_at : option time;
  j_completed_at : option time;
  j_finished_at : option time;
  j_last_error_code : option string;
  j_last_error_message : option string
}.

(** A row of [job_attempts]. *)
Record AttemptRow := mkAttemptRow {
  a_id : uuid;
  a_job_id : uuid;
  a_attempt_number : Z;
  a_state : AttemptState;
  a_created_at : time;
  a_started_at : option time;
  a_finished_at : option time;
  a_error_code : option string;
  a_error_message : option string;
  a_retryable : bool;
  a_lease_id : option uuid;
  a_worker_id : option uuid;
  a_leased_at : option time;
  a_lease_expires_at : option time;
  a_last_renewed_at : option time
}.

(** A row of [job_quota_counters]. *)
Record QuotaRow := mkQuotaRow {
  q_queued_count : Z;
  q_active_count : Z;
  q_updated_at : time
}.

(** A row of [job_state_history]. *)
Record HistoryRow := mkHistoryRow {
  h_job_id : uuid;
  h_from_state : option JobState;
  h_to_state : JobState;
  h_reason : string;
  h_actor_user_id : option uuid
}.

(** A row of [job_idempotency_records]. *)
Record IdemRow := mkIdemRow {
  i_id : uuid;
  i_request_fingerprint : string;
  i_job_id : uuid
}.

(** The columns of [datasets] the job lifecycle reads. *)
Record DatasetRow := mkDatasetRow {
  d_id : uuid;
  d_owner_user_id : uuid;
  d_state : string;
  d_deleted_at : option time
}.

(** The columns of [dataset_versions] the job lifecycle reads. *)
Record VersionRow := mkVersionRow {
  v_id : uuid;
  v_dataset_id : uuid;
  v_state : string;
  v_object_key : string;
  v_content_type : string;
  v_format : string;
  v_size_bytes : option Z
}.

(** A row of [job_result_projections]. *)
Record ProjectionRow := mkProjectionRow {
  r_outcome : string;
  r_artifact_keys : list string;
  r_error_code : option string;
  r_error_message : option string;
  r_retryable : option bool
}.

(** A row of [job_artifacts]. *)
Record ArtifactRow := mkArtifactRow {
  f_id : uuid;
  f_owner_user_id : uuid;
  f_job_id : uuid;
  f_attempt_id : uuid;
  f_lease_id : uuid;
  f_kind : string;
  f_object_key : string;
  f_size_bytes : Z;
  f_content_type : string;
  f_checksum_sha256 : string;
  f_state : string;
  f_created_at : time
}.

(** A row of [job_progress_snapshots], and of [job_progress_history]. *)
Record ProgressRow := mkProgressRow {
  p_job_id : uuid;
  p_attempt_id : uuid;
  p_lease_id : uuid;
  p_stage : string;
  p_processed_rows : Z;
  p_estimated_total_rows : option Z;
  p_progress_percent : Q;
  p_throughput : Q;
  p_updated_at : time;
  p_received_at : time
}.

(** A row of [inbox_messages]. *)
Record InboxRow := mkInboxRow {
  x_message_id : uuid;
  x_message_type : string;
  x_occurred_at : time;
  x_outcome : string;
  x_reason : option string;
  x_processed_at : option time
}.

(** A row of [outbox_messages]; the columns from [message_id] to [payload] are the envelope. *)
Record OutboxRow := mkOutboxRow {
  o_id : uuid;
  o_envelope : Envelope;
  o_exchange : string;
  o_routing_key : string;
  o_state : OutboxState;
  o_attempts : Z;
  o_available_at : time;
  o_lease_token : option uuid;
  o_lease_until : option time;
  o_last_error : option string;
  o_published_at : option time;
  o_created_at : time;
  o_updated_at : time
}.

(** A row of [job_dead_letters]. *)
Record DeadLetterRow := mkDeadLetterRow {
  l_id : uuid;
  l_job_id : uuid;
  l_attempt_id : uuid;
  l_lease_id : uuid;
  l_worker_id : uuid;
  l_attempt_number : Z;
  l_error_code : string;
  l_error_message : string;
  l_retryable : bool;
  l_diagnostic_ref : option string;
  l_created_at : time;
  l_replayed_at : option time;
  l_replayed_by : option uuid
}.

(** A row of [processing_workers]. *)
Record WorkerRow := mkWorkerRow {
  w_worker_id : uuid;
  w_instance_id : string;
  w_hostname : string;
  w_supported_operations : list string;
  w_software_version : string;
  w_status : WorkerStatus;
  w_current_concurrency : Z;
  w_max_concurrency : Z;
  w_started_at : time;
  w_observed_at : time;
  w_last_heartbeat_at : option time;
  w_last_assigned_at : option time;
  w_created_at : time;
  w_updated_at : time
}.

(** A row of [audit_events]. *)
Record AuditRow := mkAuditRow {
  u_actor_user_id : option uuid;
  u_action : string;
  u_resource_type : string;
  u_resource_id : string;
  u_request_id : string
}.

(** The database: one table per relation, keyed by its primary key; append-only
    logs are lists in insertion order.  [quotas] is keyed by the owner,
    [idempotency] by owner and key, [projections] by job and attempt, [progress]
    by job. *)
Record DB := mkDB {
  t_jobs : gmap uuid JobRow;
  t_attempts : gmap uuid AttemptRow;
  t_quotas : gmap uuid QuotaRow;
  t_history : list HistoryRow;
  t_idempotency : gmap (uuid * string) IdemRow;
  t_datasets : gmap uuid DatasetRow;
  t_versions : gmap uuid VersionRow;
  t_projections : gmap (uuid * uuid) ProjectionRow;
  t_artifacts : gmap uuid ArtifactRow;
  t_progress : gmap uuid ProgressRow;
  t_progress_history : list ProgressRow;
  t_inbox : gmap uuid InboxRow;
  t_outbox : gmap uuid OutboxRow;
  t_dead_letters : gmap uuid DeadLetterRow;
  t_workers : gmap uuid WorkerRow;
  t_audit : list AuditRow
}.

(** ** Column updates *)

Definition set_j_state (v : JobState) (r : JobRow) : JobRow :=
  mkJobRow (j_id r) (j_owner_user_id r) (j_dataset_version_id r) v (j_operations r) (j_request_fingerprint r) (j_idempotency_key r) (j_priority r) (j_max_attempts r) (j_created_at r) (j_updated_at r) (j_queued_at r) (j_next_attempt_at r) (j_started_at r) (j_cancel_requested_at r) (j_completed_at r) (j_finished_at r) (j_last_error_code r) (j_last_error_message r).
Definition set_j_updated_at (v : time) (r : JobRow) : JobRow :=
  mkJobRow (j_id r) (j_owner_user_id r) (j_dataset_version_id r) (j_state r) (j_operations r) (j_request_fingerprint r) (j_idempotency_key r) (j_priority r) (j_max_attempts r) (j_created_at r) v (j_queued_at r) (j_next_attempt_at r) (j_started_at r) (j_cancel_requested_at r) (j_completed_at r) (j_finished_at r) (j_last_error_code r) (j_last_error_message r).
Definition set_j_queued_at (v : option time) (r : JobRow) : JobRow :=
  mkJobRow (j_id r) (j_owner_user_id r) (j_dataset_version_id r) (j_state r) (j_operations r) (j_request_fingerprint r) (j_idempotency_key r) (j_priority r) (j_max_attempts r) (j_created_at r) (j_updated_at r) v (j_next_attempt_at r) (j_started_at r) (j_cancel_requested_at r) (j_completed_at r) (j_finished_at r) (j_last_error_code r) (j_last_error_message r).
Definition set_j_next_attempt_at (v : option time) (r : JobRow) : JobRow :=
  mkJobRow (j_id r) (j_owner_user_id r) (j_dataset_version_id r) (j_state r) (j_operations r) (j_request_fingerprint r) (j_idempotency_key r) (j_priority r) (j_max_attempts r) (j_created_at r) (j_updated_at r) (j_queued_at r) v (j_started_at r) (j_cancel_requested_at r) (j_completed_at r) (j_finished_at r) (j_last_error_code r) (j_last_error_message r).
Definition set_j_started_at (v : option time) (r : JobRow) : JobRow :=
  mkJobRow (j_id r) (j_owner_user_id r) (j_dataset_version_id r) (j_state r) (j_operations r) (j_request_fingerprint r) (j_idempotency_key r) (j_priority r) (j_max_attempts r) (j_created_at r) (j_updated_at r) (j_queued_at r) (j_next_attempt_at r) v (j_cancel_requested_at r) (j_completed_at r) (j_finished_at r) (j_last_error_code r) (j_last_error_message r).
Definition set_j_cancel_requested_at (v : option time) (r : JobRow) : JobRow :=
  mkJobRow (j_id r) (j_owner_user_id r) (j_dataset_version_id r) (j_state r) (j_operations r) (j_request_fingerprint r) (j_idempotency_key r) (j_priority r) (j_max_attempts r) (j_created_at r) (j_updated_at r) (j_queued_at r) (j_next_attempt_at r) (j_started_at r) v (j_completed_at r) (j_finished_at r) (j_last_error_code r) (j_last_error_message r).
Definition set_j_completed_at (v : option time) (r : JobRow) : JobRow :=
  mkJobRow (j_id r) (j_owner_user_id r) (j_dataset_version_id r) (j_state r) (j_operations r) (j_request_fingerprint r) (j_idempotency_key r) (j_priority r) (j_max_attempts r) (j_created_at r) (j_updated_at r) (j_queued_at r) (j_next_attempt_at r) (j_started_at r) (j_cancel_requested_at r) v (j_finished_at r) (j_last_error_code r) (j_last_error_message r).
Definition set_j_finished_at (v : option time) (r : JobRow) : JobRow :=
  mkJobRow (j_id r) (j_owner_user_id r) (j_dataset_version_id r) (j_state r) (j_operations r) (j_request_fingerprint r) (j_idempotency_key r) (j_priority r) (j_max_attempts r) (j_created_at r) (j_updated_at r) (j_queued_at r) (j_next_attempt_at r) (j_started_at r) (j_cancel_requested_at r) (j_completed_at r) v (j_last_error_code r) (j_last_error_message r).
Definition set_j_last_error_code (v : option string) (r : JobRow) : JobRow :=
  mkJobRow (j_id r) (j_owner_user_id r) (j_dataset_version_id r) (j_state r) (j_operations r) (j_request_fingerprint r) (j_idempotency_key r) (j_priority r) (j_max_attempts r) (j_created_at r) (j_updated_at r) (j_queued_at r) (j_next_attempt_at r) (j_started_at r) (j_cancel_requested_at r) (j_completed_at r) (j_finished_at r) v (j_last_error_message r).
Definition set_j_last_error_message (v : option string) (r : JobRow) : JobRow :=
  mkJobRow (j_id r) (j_owner_user_id r) (j_dataset_version_id r) (j_state r) (j_operations r) (j_request_fingerprint r) (j_idempotency_key r) (j_priority r) (j_max_attempts r) (j_created_at r) (j_updated_at r) (j_queued_at r) (j_next_attempt_at r) (j_started_at r) (j_cancel_requested_at r) (j_completed_at r) (j_finished_at r) (j_last_error_code r) v.
Definition set_a_state (v : AttemptState) (r : AttemptRow) : AttemptRow :=
  mkAttemptRow (a_id r) (a_job_id r) (a_attempt_number r) v (a_created_at r) (a_started_at r) (a_finished_at r) (a_error_code r) (a_error_message r) (a_retryable r) (a_lease_id r) (a_worker_id r) (a_leased_at r) (a_lease_expires_at r) (a_last_renewed_at r).
Definition set_a_started_at (v : option time) (r : AttemptRow) : AttemptRow :=
  mkAttemptRow (a_id r) (a_job_id r) (a_attempt_number r) (a_state r) (a_created_at r) v (a_finished_at r) (a_error_code r) (a_error_message r) (a_retryable r) (a_lease_id r) (a_worker_id r) (a_leased_at r) (a_lease_expires_at r) (a_last_renewed_at r).
Definition set_a_finished_at (v : option time) (r : AttemptRow) : AttemptRow :=
  mkAttemptRow (a_id r) (a_job_id r) (a_attempt_number r) (a_state r) (a_created_at r) (a_started_at r) v (a_error_code r) (a_error_message r) (a_retryable r) (a_lease_id r) (a_worker_id r) (a_leased_at r) (a_lease_expires_at r) (a_last_renewed_at r).
Definition set_a_error_code (v : option string) (r : AttemptRow) : AttemptRow :=
  mkAttemptRow (a_id r) (a_job_id r) (a_attempt_number r) (a_state r) (a_created_at r) (a_started_at r) (a_finished_at r) v (a_error_message r) (a_retryable r) (a_lease_id r) (a_worker_id r) (a_leased_at r) (a_lease_expires_at r) (a_last_renewed_at r).
Definition set_a_error_message (v : option string) (r : AttemptRow) : AttemptRow :=
  mkAttemptRow (a_id r) (a_job_id r) (a_attempt_number r) (a_state r) (a_created_at r) (a_started_at r) (a_finished_at r) (a_error_code r) v (a_retryable r) (a_lease_id r) (a_worker_id r) (a_leased_at r) (a_lease_expires_at r) (a_last_renewed_at r).
Definition set_a_retryable (v : bool) (r : AttemptRow) : AttemptRow :=
  mkAttemptRow (a_id r) (a_job_id r) (a_attempt_number r) (a_state r) (a_created_at r) (a_started_at r) (a_finished_at r) (a_error_code r) (a_error_message r) v (a_lease_id r) (a_worker_id r) (a_leased_at r) (a_lease_expires_at r) (a_last_renewed_at r).
Definition set_a_lease_id (v : option uuid) (r : AttemptRow) : AttemptRow :=
  mkAttemptRow (a_id r) (a_job_id r) (a_attempt_number r) (a_state r) (a_created_at r) (a_started_at r) (a_finished_at r) (a_error_code r) (a_error_message r) (a_retryable r) v (a_worker_id r) (a_leased_at r) (a_lease_expires_at r) (a_last_renewed_at r).
Definition set_a_worker_id (v : option uuid) (r : AttemptRow) : AttemptRow :=
  mkAttemptRow (a_id r) (a_job_id r) (a_attempt_number r) (a_state r) (a_created_at r) (a_started_at r) (a_finished_at r) (a_error_code r) (a_error_message r) (a_retryable r) (a_lease_id r) v (a_leased_at r) (a_lease_expires_at r) (a_last_renewed_at r).
Definition set_a_leased_at (v : option time) (r : AttemptRow) : AttemptRow :=
  mkAttemptRow (a_id r) (a_job_id r) (a_attempt_number r) (a_state r) (a_created_at r) (a_started_at r) (a_finished_at r) (a_error_code r) (a_error_message r) (a_retryable r) (a_lease_id r) (a_worker_id r) v (a_lease_expires_at r) (a_last_renewed_at r).
Definition set_a_lease_expires_at (v : option time) (r : AttemptRow) : AttemptRow :=
  mkAttemptRow (a_id r) (a_job_id r) (a_attempt_number r) (a_state r) (a_created_at r) (a_started_at r) (a_finished_at r) (a_error_code r) (a_error_message r) (a_retryable r) (a_lease_id r) (a_worker_id r) (a_leased_at r) v (a_last_renewed_at r).
Definition set_a_last_renewed_at (v : option time) (r : AttemptRow) : AttemptRow :=
  mkAttemptRow (a_id r) (a_job_id r) (a_attempt_number r) (a_state r) (a_created_at r) (a_started_at r) (a_finished_at r) (a_error_code r) (a_error_message r) (a_retryable r) (a_lease_id r) (a_worker_id r) (a_leased_at r) (a_lease_expires_at r) v.
Definition set_q_queued_count (v : Z) (r : QuotaRow) : QuotaRow :=
  mkQuotaRow v (q_active_count r) (q_updated_at r).
Definition set_q_active_count (v : Z) (r : QuotaRow) : QuotaRow :=
  mkQuotaRow (q_queued_count r) v (q_updated_at r).
Definition set_q_updated_at (v : time) (r : QuotaRow) : QuotaRow :=
  mkQuotaRow (q_queued_count r) (q_active_count r) v.
Definition set_f_state (v : string) (r : ArtifactRow) : ArtifactRow :=
  mkArtifactRow (f_id r) (f_owner_user_id r) (f_job_id r) (f_attempt_id r) (f_lease_id r) (f_kind r) (f_object_key r) (f_size_bytes r) (f_content_type r) (f_checksum_sha256 r) v (f_created_at r).
Definition set_x_outcome (v : string) (r : InboxRow) : InboxRow :=
  mkInboxRow (x_message_id r) (x_message_type r) (x_occurred_at r) v (x_reason r) (x_processed_at r).
Definition set_x_reason (v : option string) (r : InboxRow) : InboxRow :=
  mkInboxRow (x_message_id r) (x_message_type r) (x_occurred_at r) (x_outcome r) v (x_processed_at r).
Definition set_x_processed_at (v : option time) (r : InboxRow) : InboxRow :=
  mkInboxRow (x_message_id r) (x_message_type r) (x_occurred_at r) (x_outcome r) (x_reason r) v.
Definition set_o_state (v : OutboxState) (r : OutboxRow) : OutboxRow :=
  mkOutboxRow (o_id r) (o_envelope r) (o_exchange r) (o_routing_key r) v (o_attempts r) (o_available_at r) (o_lease_token r) (o_lease_until r) (o_last_error r) (o_published_at r) (o_created_at r) (o_updated_at r).
Definition set_o_attempts (v : Z) (r : OutboxRow) : OutboxRow :=
  mkOutboxRow (o_id r) (o_envelope r) (o_exchange r) (o_routing_key r) (o_state r) v (o_available_at r) (o_lease_token r) (o_lease_until r) (o_last_error r) (o_published_at r) (o_created_at r) (o_updated_at r).
Definition set_o_available_at (v : time) (r : OutboxRow) : OutboxRow :=
  mkOutboxRow (o_id r) (o_envelope r) (o_exchange r) (o_routing_key r) (o_state r) (o_attempts r) v (o_lease_token r) (o_lease_until r) (o_last_error r) (o_published_at r) (o_created_at r) (o_updated_at r).
Definition set_o_lease_token (v : option uuid) (r : OutboxRow) : OutboxRow :=
  mkOutboxRow (o_id r) (o_envelope r) (o_exchange r) (o_routing_key r) (o_state r) (o_attempts r) (o_available_at r) v (o_lease_until r) (o_last_error r) (o_published_at r) (o_created_at r) (o_updated_at r).
Definition set_o_lease_until (v : option time) (r : OutboxRow) : OutboxRow :=
  mkOutboxRow (o_id r) (o_envelope r) (o_exchange r) (o_routing_key r) (o_state r) (o_attempts r) (o_available_at r) (o_lease_token r) v (o_last_error r) (o_published_at r) (o_created_at r) (o_updated_at r).
Definition set_o_last_error (v : option string) (r : OutboxRow) : OutboxRow :=
  mkOutboxRow (o_id r) (o_envelope r) (o_exchange r) (o_routing_key r) (o_state r) (o_attempts r) (o_available_at r) (o_lease_token r) (o_lease_until r) v (o_published_at r) (o_created_at r) (o_updated_at r).
Definition set_o_published_at (v : option time) (r : OutboxRow) : OutboxRow :=
  mkOutboxRow (o_id r) (o_envelope r) (o_exchange r) (o_routing_key r) (o_state r) (o_attempts r) (o_available_at r) (o_lease_token r) (o_lease_until r) (o_last_error r) v (o_created_at r) (o_updated_at r).
Definition set_o_updated_at (v : time) (r : OutboxRow) : OutboxRow :=
  mkOutboxRow (o_id r) (o_envelope r) (o_exchange r) (o_routing_key r) (o_state r) (o_attempts r) (o_available_at r) (o_lease_token r) (o_lease_until r) (o_last_error r) (o_published_at r) (o_created_at r) v.
Definition set_l_replayed_at (v : option time) (r : DeadLetterRow) : DeadLetterRow :=
  mkDeadLetterRow (l_id r) (l_job_id r) (l_attempt_id r) (l_lease_id r) (l_worker_id r) (l_attempt_number r) (l_error_code r) (l_error_message r) (l_retryable r) (l_diagnostic_ref r) (l_created_at r) v (l_replayed_by r).
Definition set_l_replayed_by (v : option uuid) (r : DeadLetterRow) : DeadLetterRow :=
  mkDeadLetterRow (l_id r) (l_job_id r) (l_attempt_id r) (l_lease_id r) (l_worker_id r) (l_attempt_number r) (l_error_code r) (l_error_message r) (l_retryable r) (l_diagnostic_ref r) (l_created_at r) (l_replayed_at r) v.
Definition set_w_hostname (v : string) (r : WorkerRow) : WorkerRow :=
  mkWorkerRow (w_worker_id r) (w_instance_id r) v (w_supported_operations r) (w_software_version r) (w_status r) (w_current_concurrency r) (w_max_concurrency r) (w_started_at r) (w_observed_at r) (w_last_heartbeat_at r) (w_last_assigned_at r) (w_created_at r) (w_updated_at r).
Definition set_w_supported_operations (v : list string) (r : WorkerRow) : WorkerRow :=
  mkWorkerRow (w_worker_id r) (w_instance_id r) (w_hostname r) v (w_software_version r) (w_status r) (w_current_concurrency r) (w_max_concurrency r) (w_started_at r) (w_observed_at r) (w_last_heartbeat_at r) (w_last_assigned_at r) (w_created_at r) (w_updated_at r).
Definition set_w_software_version (v : string) (r : WorkerRow) : WorkerRow :=
  mkWorkerRow (w_worker_id r) (w_instance_id r) (w_hostname r) (w_supported_operations r) v (w_status r) (w_current_concurrency r) (w_max_concurrency r) (w_started_at r) (w_observed_at r) (w_last_heartbeat_at r) (w_last_assigned_at r) (w_created_at r) (w_updated_at r).
Definition set_w_status (v : WorkerStatus) (r : WorkerRow) : WorkerRow :=
  mkWorkerRow (w_worker_id r) (w_instance_id r) (w_hostname r) (w_supported_operations r) (w_software_version r) v (w_current_concurrency r) (w_max_concurrency r) (w_started_at r) (w_observed_at r) (w_last_heartbeat_at r) (w_last_assigned_at r) (w_created_at r) (w_updated_at r).
Definition set_w_current_concurrency (v : Z) (r : WorkerRow) : WorkerRow :=
  mkWorkerRow (w_worker_id r) (w_instance_id r) (w_hostname r) (w_supported_operations r) (w_software_version r) (w_status r) v (w_max_concurrency r) (w_started_at r) (w_observed_at r) (w_last_heartbeat_at r) (w_last_assigned_at r) (w_created_at r) (w_updated_at r).
Definition set_w_max_concurrency (v : Z) (r : WorkerRow) : WorkerRow :=
  mkWorkerRow (w_worker_id r) (w_instance_id r) (w_hostname r) (w_supported_operations r) (w_software_version r) (w_status r) (w_current_concurrency r) v (w_started_at r) (w_observed_at r) (w_last_heartbeat_at r) (w_last_assigned_at r) (w_created_at r) (w_updated_at r).
Definition set_w_observed_at (v : time) (r : WorkerRow) : WorkerRow :=
  mkWorkerRow (w_worker_id r) (w_instance_id r) (w_hostname r) (w_supported_operations r) (w_software_version r) (w_status r) (w_current_concurrency r) (w_max_concurrency r) (w_started_at r) v (w_last_heartbeat_at r) (w_last_assigned_at r) (w_created_at r) (w_updated_at r).
Definition set_w_last_heartbeat_at (v : option time) (r : WorkerRow) : WorkerRow :=
  mkWorkerRow (w_worker_id r) (w_instance_id r) (w_hostname r) (w_supported_operations r) (w_software_version r) (w_status r) (w_current_concurrency r) (w_max_concurrency r) (w_started_at r) (w_observed_at r) v (w_last_assigned_at r) (w_created_at r) (w_updated_at r).
Definition set_w_last_assigned_at (v : option time) (r : WorkerRow) : WorkerRow :=
  mkWorkerRow (w_worker_id r) (w_instance_id r) (w_hostname r) (w_supported_operations r) (w_software_version r) (w_status r) (w_current_concurrency r) (w_max_concurrency r) (w_started_at r) (w_observed_at r) (w_last_heartbeat_at r) v (w_created_at r) (w_updated_at r).
Definition set_w_updated_at (v : time) (r : WorkerRow) : WorkerRow :=
  mkWorkerRow (w_worker_id r) (w_instance_id r) (w_hostname r) (w_supported_operations r) (w_software_version r) (w_status r) (w_current_concurrency r) (w_max_concurrency r) (w_started_at r) (w_observed_at r) (w_last_heartbeat_at r) (w_last_assigned_at r) (w_created_at r) v.

(** ** Table updates *)

Definition on_jobs (f : gmap uuid JobRow → gmap uuid JobRow) (d : DB) : DB :=
  mkDB (f (t_jobs d)) (t_attempts d) (t_quotas d) (t_history d) (t_idempotency d) (t_datasets d) (t_versions d) (t_projections d) (t_artifacts d) (t_progress d) (t_progress_history d) (t_inbox d) (t_outbox d) (t_dead_letters d) (t_workers d) (t_audit d).
Definition on_attempts (f : gmap uuid AttemptRow → gmap uuid AttemptRow) (d : DB) : DB :=
  mkDB (t_jobs d) (f (t_attempts d)) (t_quotas d) (t_history d) (t_idempotency d) (t_datasets d) (t_versions d) (t_projections d) (t_artifacts d) (t_progress d) (t_progress_history d) (t_inbox d) (t_outbox d) (t_dead_letters d) (t_workers d) (t_audit d).
Definition on_quotas (f : gmap uuid QuotaRow → gmap uuid QuotaRow) (d : DB) : DB :=
  mkDB (t_jobs d) (t_attempts d) (f (t_quotas d)) (t_history d) (t_idempotency d) (t_datasets d) (t_versions d) (t_projections d) (t_artifacts d) (t_progress d) (t_progress_history d) (t_inbox d) (t_outbox d) (t_dead_letters d) (t_workers d) (t_audit d).
Definition on_history (f : list HistoryRow → list HistoryRow) (d : DB) : DB :=
  mkDB (t_jobs d) (t_attempts d) (t_quotas d) (f (t_history d)) (t_idempotency d) (t_datasets d) (t_versions d) (t_projections d) (t_artifacts d) (t_progress d) (t_progress_history d) (t_inbox d) (t_outbox d) (t_dead_letters d) (t_workers d) (t_audit d).
Definition on_idempotency (f : gmap (uuid * string) IdemRow → gmap (uuid * string) IdemRow) (d : DB) : DB :=
  mkDB (t_jobs d) (t_attempts d) (t_quotas d) (t_history d) (f (t_idempotency d)) (t_datasets d) (t_versions d) (t_projections d) (t_artifacts d) (t_progress d) (t_progress_history d) (t_inbox d) (t_outbox d) (t_dead_letters d) (t_workers d) (t_audit d).
Definition on_datasets (f : gmap uuid DatasetRow → gmap uuid DatasetRow) (d : DB) : DB :=
  mkDB (t_jobs d) (t_attempts d) (t_quotas d) (t_history d) (t_idempotency d) (f (t_datasets d)) (t_versions d) (t_projections d) (t_artifacts d) (t_progress d) (t_progress_history d) (t_inbox d) (t_outbox d) (t_dead_letters d) (t_workers d) (t_audit d).
Definition on_versions (f : gmap uuid VersionRow → gmap uuid VersionRow) (d : DB) : DB :=
  mkDB (t_jobs d) (t_attempts d) (t_quotas d) (t_history d) (t_idempotency d) (t_datasets d) (f (t_versions d)) (t_projections d) (t_artifacts d) (t_progress d) (t_progress_history d) (t_inbox d) (t_outbox d) (t_dead_letters d) (t_workers d) (t_audit d).
Definition on_projections (f : gmap (uuid * uuid) ProjectionRow → gmap (uuid * uuid) ProjectionRow) (d : DB) : DB :=
  mkDB (t_jobs d) (t_attempts d) (t_quotas d) (t_history d) (t_idempotency d) (t_datasets d) (t_versions d) (f (t_projections d)) (t_artifacts d) (t_progress d) (t_progress_history d) (t_inbox d) (t_outbox d) (t_dead_letters d) (t_workers d) (t_audit d).
Definition on_artifacts (f : gmap uuid ArtifactRow → gmap uuid ArtifactRow) (d : DB) : DB :=
  mkDB (t_jobs d) (t_attempts d) (t_quotas d) (t_history d) (t_idempotency d) (t_datasets d) (t_versions d) (t_projections d) (f (t_artifacts d)) (t_progress d) (t_progress_history d) (t_inbox d) (t_outbox d) (t_dead_letters d) (t_workers d) (t_audit d).
Definition on_progress (f : gmap uuid ProgressRow → gmap uuid ProgressRow) (d : DB) : DB :=
  mkDB (t_jobs d) (t_attempts d) (t_quotas d) (t_history d) (t_idempotency d) (t_datasets d) (t_versions d) (t_projections d) (t_artifacts d) (f (t_progress d)) (t_progress_history d) (t_inbox d) (t_outbox d) (t_dead_letters d) (t_workers d) (t_audit d).
Definition on_progress_history (f : list ProgressRow → list ProgressRow) (d : DB) : DB :=
  mkDB (t_jobs d) (t_attempts d) (t_quotas d) (t_history d) (t_idempotency d) (t_datasets d) (t_versions d) (t_projections d) (t_artifacts d) (t_progress d) (f (t_progress_history d)) (t_inbox d) (t_outbox d) (t_dead_letters d) (t_workers d) (t_audit d).
Definition on_inbox (f : gmap uuid InboxRow → gmap uuid InboxRow) (d : DB) : DB :=
  mkDB (t_jobs d) (t_attempts d) (t_quotas d) (t_history d) (t_idempotency d) (t_datasets d) (t_versions d) (t_projections d) (t_artifacts d) (t_progress d) (t_progress_history d) (f (t_inbox d)) (t_outbox d) (t_dead_letters d) (t_workers d) (t_audit d).
Definition on_outbox (f : gmap uuid OutboxRow → gmap uuid OutboxRow) (d : DB) : DB :=
  mkDB (t_jobs d) (t_attempts d) (t_quotas d) (t_history d) (t_idempotency d) (t_datasets d) (t_versions d) (t_projections d) (t_artifacts d) (t_progress d) (t_progress_history d) (t_inbox d) (f (t_outbox d)) (t_dead_letters d) (t_workers d) (t_audit d).
Definition on_dead_letters (f : gmap uuid DeadLetterRow → gmap uuid DeadLetterRow) (d : DB) : DB :=
  mkDB (t_jobs d) (t_attempts d) (t_quotas d) (t_history d) (t_idempotency d) (t_datasets d) (t_versions d) (t_projections d) (t_artifacts d) (t_progress d) (t_progress_history d) (t_inbox d) (t_outbox d) (f (t_dead_letters d)) (t_workers d) (t_audit d).
Definition on_workers (f : gmap uuid WorkerRow → gmap uuid WorkerRow) (d : DB) : DB :=
  mkDB (t_jobs d) (t_attempts d) (t_quotas d) (t_history d) (t_idempotency d) (t_datasets d) (t_versions d) (t_projections d) (t_artifacts d) (t_progress d) (t_progress_history d) (t_inbox d) (t_outbox d) (t_dead_letters d) (f (t_workers d)) (t_audit d).
Definition on_audit (f : list AuditRow → list AuditRow) (d : DB) : DB :=
  mkDB (t_jobs d) (t_attempts d) (t_quotas d) (t_history d) (t_idempotency d) (t_datasets d) (t_versions d) (t_projections d) (t_artifacts d) (t_progress d) (t_progress_history d) (t_inbox d) (t_outbox d) (t_dead_letters d) (t_workers d) (f (t_audit d)).

Definition empty_db : DB := mkDB ∅ ∅ ∅ [] ∅ ∅ ∅ ∅ ∅ ∅ [] ∅ ∅ ∅ ∅ [].
