(* ===== verification/Sql.v ===== *)
(** SQL building blocks: ordered selection ([ORDER BY .. LIMIT]), insertion
    under a primary key, and the queries on [job_attempts] several packages
    share. *)

From S2P Require Import Prelude Json Queue JobModel Schema.

Open Scope Z_scope.

(** ** ORDER BY

    [better x y] reads: [x] comes strictly before [y] in the requested order.
    The comparisons of the code are strict weak orders. *)
Class StrictWeak {A} (better : A → A → bool) := {
  better_asym x y : better x y = true → better y x = false;
  better_neg_trans x y z : better x y = false → better y z = false → better x z = false
}.

(** [ORDER BY .. LIMIT 1]. *)
Fixpoint best {A} (better : A → A → bool) (l : list A) : option A :=
  match l with
  | [] => None
  | x :: l =>
      match best better l with
      | None => Some x
      | Some y => if better y x then Some y else Some x
      end
  end.

(** [ORDER BY ..]. *)
Definition before {A} (better : A → A → bool) (x y : A) : Prop := better y x = false.

#[export] Instance before_dec {A} (better : A → A → bool) x y : Decision (before better x y).
Proof. unfold before. apply _. Defined.

Definition sort_by {A} (better : A → A → bool) (l : list A) : list A :=
  merge_sort (before better) l.

Section best.
Context {A : Type} (better : A → A → bool) `{!StrictWeak better}.

Lemma better_irrefl x : better x x = false.
Proof. destruct (better x x) eqn:E; [|done]. pose proof (better_asym _ _ E). congruence. Qed.

Lemma best_None l : best better l = None ↔ l = [].
Proof.
  split; [|by intros ->]. destruct l as [|x l]; [done|]. simpl.
  destruct (best better l) as [y|]; [destruct (better y x)|]; done.
Qed.

Lemma best_elem l x : best better l = Some x → x ∈ l.
Proof.
  revert x. induction l as [|y l IH]; intros x; simpl; [done|].
  destruct (best better l) as [z|] eqn:E; [destruct (better z y)|]; intros [= <-].
  - right. by apply IH.
  - by left.
  - by left.
Qed.

(** Nothing in the table comes before the row returned. *)
Lemma best_first l x y : best better l = Some x → y ∈ l → better y x = false.
Proof.
  revert x. induction l as [|z l IH]; intros x H Hy; [by apply elem_of_nil in Hy|].
  simpl in H. destruct (best better l) as [b|] eqn:E.
  - destruct (better b z) eqn:Eb; injection H as <-.
    + apply elem_of_cons in Hy as [->|Hy]; [|by apply IH].
      by apply better_asym.
    + apply elem_of_cons in Hy as [->|Hy]; [apply better_irrefl|].
      eapply better_neg_trans; [by apply IH|done].
  - injection H as <-. apply best_None in E as ->.
    apply elem_of_cons in Hy as [->|Hy]; [apply better_irrefl|by apply elem_of_nil in Hy].
Qed.

#[local] Instance before_total : Total (before better).
Proof. intros x y. unfold before. destruct (better y x) eqn:E; [right; by apply better_asym|by left]. Qed.

#[local] Instance before_trans : Transitive (before better).
Proof. unfold before. intros x y z H1 H2. by apply (better_neg_trans z y x). Qed.

Lemma sort_by_Permutation l : sort_by better l ≡ₚ l.
Proof. apply merge_sort_Permutation. Qed.

Lemma sort_by_StronglySorted l : StronglySorted (before better) (sort_by better l).
Proof. apply StronglySorted_merge_sort; apply _. Qed.

Lemma elem_of_sort_by l x : x ∈ sort_by better l ↔ x ∈ l.
Proof. by rw sort_by_Permutation. Qed.
End best.

(** The whole database of the running transaction. *)
Abbreviation get_db := (gets (λ d : DB, d)).

(** Rows of a table, in no particular order. *)
Definition rows {A} (t : gmap uuid A) : list A := (map_to_list t).*2.

Lemma elem_of_rows {A} (t : gmap uuid A) x : x ∈ rows t ↔ ∃ k, t !! k = Some x.
Proof.
  unfold rows. rw list_elem_of_fmap. split.
  - intros ([k y]&->&H%elem_of_map_to_list). eauto.
  - intros [k H]. exists (k, x). by rw elem_of_map_to_list.
Qed.

(** Counting rows across an update. *)
Lemma rows_insert_fresh {A} (t : gmap uuid A) k x : t !! k = None → rows (<[k := x]> t) ≡ₚ x :: rows t.
Proof. intros Hk. unfold rows. by rw map_to_list_insert. Qed.

Lemma rows_insert {A} (t : gmap uuid A) k x y :
  t !! k = Some x → ∃ l, rows t ≡ₚ x :: l ∧ rows (<[k := y]> t) ≡ₚ y :: l.
Proof.
  intros Hk. exists (rows (delete k t)). rw -{1}(insert_delete_id t k x Hk) -(insert_delete_eq t k y).
  by rw !rows_insert_fresh ?lookup_delete_eq.
Qed.

(** The query shape [WHERE .. ORDER BY .. LIMIT] on a table whose rows are stored
    under their key: what it returns are distinct rows of the table that satisfy
    the condition. *)
Definition select_limit {A} (P : A → bool) (better : A → A → bool) (limit : Z) (l : list A) : list A :=
  take (Z.to_nat limit) (sort_by better (filter (λ x, P x = true) l)).

Lemma rows_NoDup {A} (key : A → uuid) (t : gmap uuid A) :
  (∀ k x, t !! k = Some x → key x = k) → NoDup (key <$> rows t).
Proof.
  intros Hwf. unfold rows. rw -list_fmap_compose.
  erewrite (list_fmap_ext _ fst); [apply NoDup_fst_map_to_list|].
  intros i [k r] H. simpl. apply Hwf, elem_of_map_to_list. by eapply list_elem_of_lookup_2.
Qed.

Lemma select_limit_NoDup {A} (key : A → uuid) P better limit (l : list A) :
  NoDup (key <$> l) → NoDup (key <$> select_limit P better limit l).
Proof.
  intros Hnd. unfold select_limit. eapply sublist_NoDup; [|apply fmap_sublist, sublist_take].
  rw sort_by_Permutation. eapply sublist_NoDup; [done|apply fmap_sublist, sublist_filter].
Qed.

Lemma elem_of_select_limit {A} P better limit (l : list A) x :
  x ∈ select_limit P better limit l → P x = true ∧ x ∈ l.
Proof.
  unfold select_limit. intros (i&H&_)%elem_of_take.
  apply list_elem_of_lookup_2, elem_of_sort_by in H. by apply list_elem_of_filter in H.
Qed.

(** A query that is not cut short by its limit returns every row that satisfies
    the condition. *)
Lemma select_limit_complete {A} P better limit (l : list A) x :
  P x = true → x ∈ l → x ∈ select_limit P better limit l
  ∨ Z.of_nat (length (select_limit P better limit l)) = Z.max 0 limit.
Proof.
  intros HP Hx. unfold select_limit. set (s := sort_by _ _).
  destruct (decide (length s <= Z.to_nat limit)%nat).
  - left. rw take_ge //. apply elem_of_sort_by, list_elem_of_filter. done.
  - right. rw length_take. lia.
Qed.

(** [LIMIT $n OFFSET $m] with [m = (page - 1) * pageSize] computed on 64-bit
    integers; PostgreSQL rejects a negative offset. *)
Definition sql_page {S A} (page pageSize : Z) (l : list A) : Tx S (list A) :=
  let offset := wrap64 ((page - 1) * pageSize) in
  _ ← require (negb (offset <? 0)) (ErrText "OFFSET must not be negative");
  mret (take (Z.to_nat pageSize) (drop (Z.to_nat offset) l)).

Definition page_of {A} (size : nat) (l : list A) (i : nat) : list A := take size (drop (i * size) l).

(** The rows of a page are rows of the query, and no more than asked for. *)
Lemma sql_page_elem {S A} page pageSize (l : list A) o w (Q : list A → World S → Prop) :
  (∀ items, (∀ x, x ∈ items → x ∈ l) → Z.of_nat (length items) <= Z.max 0 pageSize → Q items w) →
  wp o (sql_page page pageSize l) Q w.
Proof.
  intros HQ. unfold sql_page. wp_steps. apply HQ.
  - intros x (i&Hx&_)%elem_of_take. rw lookup_drop in Hx. by eapply list_elem_of_lookup_2.
  - rw length_take. lia.
Qed.

Lemma sql_page_eq {S A} page pageSize (l : list A) :
  1 <= page → 1 <= pageSize → (page - 1) * pageSize <= max_int64 →
  sql_page (S := S) page pageSize l = mret (page_of (Z.to_nat pageSize) l (Z.to_nat (page - 1))).
Proof.
  intros Hp Hs Hm. unfold sql_page, page_of.
  assert (0 <= (page - 1) * pageSize) by nia. rw wrap64_small; [unfold min_int64; lia|].
  destruct (Z.ltb_spec ((page - 1) * pageSize) 0); [lia|]. rw Z2Nat.inj_mul //; lia.
Qed.

(** The pages of a listing, put together, are the listing. *)
Lemma pages_concat {A} size (l : list A) n :
  seq 0 n ≫= page_of size l = take (n * size) l.
Proof.
  induction n as [|n IH]; [done|]. rw seq_S bind_app IH /= app_nil_r. unfold page_of.
  rw take_take_drop. f_equal. lia.
Qed.

(** INSERT under a primary key. *)
Definition insert_row {S K A} `{Countable K} (k : K) (x : A) (t : gmap K A)
  (upd : (gmap K A → gmap K A) → S → S) : Tx S unit :=
  match t !! k with
  | Some _ => fail ErrUniqueViolation
  | None => modify (upd (insert k x))
  end.

(** ** Queries on [job_attempts] *)

Definition attempts_of (d : DB) (jobID : uuid) : list AttemptRow :=
  filter (λ a, a_job_id a = jobID) (rows (t_attempts d)).

(** [ORDER BY attempt_number DESC, id DESC]. *)
Definition attempt_later (x y : AttemptRow) : bool :=
  (a_attempt_number y <? a_attempt_number x)
  || ((a_attempt_number x =? a_attempt_number y) && (a_id y <? a_id x)%N).

Definition latest_attempt (d : DB) (jobID : uuid) : option AttemptRow :=
  best attempt_later (attempts_of d jobID).

(** [COALESCE(MAX(attempt_number), 0) + 1]. *)
Definition next_attempt_number (d : DB) (jobID : uuid) : Z :=
  match latest_attempt d jobID with
  | Some a => a_attempt_number a
  | None => 0
  end + 1.

(** INSERT INTO job_attempts: the primary key and UNIQUE (job_id,
    attempt_number). *)
Definition new_attempt (id jobID : uuid) (number : Z) (now : time) : AttemptRow :=
  mkAttemptRow id jobID number AttemptCreated now None None None None false None None None None None.

Definition attempt_number_taken (d : DB) (jobID : uuid) (number : Z) : bool :=
  existsb (λ a, bool_decide (a_job_id a = jobID ∧ a_attempt_number a = number)) (rows (t_attempts d)).

Definition insert_attempt (id jobID : uuid) (number : Z) (now : time) : Tx DB unit :=
  d ← get_db;
  _ ← require (negb (attempt_number_taken d jobID number)) ErrUniqueViolation;
  insert_row id (new_attempt id jobID number now) (t_attempts d) on_attempts.

(** UPDATE .. WHERE id = $1 on the tables keyed by id. *)
Definition update_job (jobID : uuid) (f : JobRow → JobRow) : Tx DB unit :=
  modify (on_jobs (alter f jobID)).
Definition update_attempt (attemptID : uuid) (f : AttemptRow → AttemptRow) : Tx DB unit :=
  modify (on_attempts (alter f attemptID)).
Definition update_quota (ownerID : uuid) (f : QuotaRow → QuotaRow) : Tx DB unit :=
  modify (on_quotas (alter f ownerID)).
Definition append_history (h : HistoryRow) : Tx DB unit :=
  modify (on_history (λ l, l ++ [h])).

(** The quota statements of the lease and result packages: an active job that
    ends, and an active job that goes back to the queue. *)
Definition release_quota (ownerID : uuid) (now : time) : Tx DB unit :=
  update_quota ownerID (λ q,
    set_q_active_count (Z.max (q_active_count q - 1) 0) (set_q_updated_at now q)).

Definition requeue_quota (ownerID : uuid) (now : time) : Tx DB unit :=
  update_quota ownerID (λ q,
    set_q_active_count (Z.max (q_active_count q - 1) 0)
      (set_q_queued_count (q_queued_count q + 1) (set_q_updated_at now q))).

(** INSERT INTO job_dead_letters .. ON CONFLICT (job_id, attempt_id) DO NOTHING. *)
Definition insert_dead_letter (r : DeadLetterRow) : Tx DB unit :=
  d ← get_db;
  if existsb (λ x, bool_decide (l_job_id x = l_job_id r ∧ l_attempt_id x = l_attempt_id r))
       (rows (t_dead_letters d))
  then mret tt
  else insert_row (l_id r) r (t_dead_letters d) on_dead_letters.

(** INSERT INTO job_result_projections .. ON CONFLICT (job_id, attempt_id) DO NOTHING. *)
Definition project_if_absent (jobID attemptID : uuid) (p : ProjectionRow) : Tx DB unit :=
  modify (on_projections (λ t,
    match t !! (jobID, attemptID) with Some _ => t | None => <[(jobID, attemptID) := p]> t end)).

#[export] Instance attempt_later_strict : StrictWeak attempt_later.
Proof.
  split; unfold attempt_later; intros *;
    rw ?orb_true_iff ?orb_false_iff ?andb_true_iff ?andb_false_iff;
    rw ?Z.ltb_lt ?Z.ltb_ge ?Z.eqb_eq ?Z.eqb_neq ?N.ltb_lt ?N.ltb_ge; lia.
Qed.

Lemma elem_of_attempts_of d j a :
  a ∈ attempts_of d j ↔ a_job_id a = j ∧ ∃ k, t_attempts d !! k = Some a.
Proof. unfold attempts_of. by rw list_elem_of_filter elem_of_rows. Qed.

Lemma latest_attempt_Some d j a :
  latest_attempt d j = Some a →
  a_job_id a = j ∧ (∃ k, t_attempts d !! k = Some a)
  ∧ ∀ k b, t_attempts d !! k = Some b → a_job_id b = j → a_attempt_number b <= a_attempt_number a.
Proof.
  intros H. pose proof (best_elem _ _ _ H) as [Hj Hk]%elem_of_attempts_of.
  split_and!; [done..|]. intros k b Hb Hbj.
  pose proof (best_first _ _ _ b H) as Hf.
  rw elem_of_attempts_of in Hf. specialize (Hf (conj Hbj (ex_intro _ k Hb))).
  unfold attempt_later in Hf. apply orb_false_iff in Hf as [Hf%Z.ltb_ge _]. done.
Qed.

Lemma latest_attempt_None d j :
  latest_attempt d j = None → ∀ k b, t_attempts d !! k = Some b → a_job_id b ≠ j.
Proof.
  intros H%best_None k b Hb Hj.
  assert (b ∈ attempts_of d j) as Hin by (apply elem_of_attempts_of; eauto).
  rw H in Hin. by apply elem_of_nil in Hin.
Qed.

Lemma attempt_number_taken_false d j n :
  attempt_number_taken d j n = false →
  ∀ k b, t_attempts d !! k = Some b → a_job_id b = j → a_attempt_number b ≠ n.
Proof.
  intros H k b Hb Hj Hn. enough (attempt_number_taken d j n = true) by congruence.
  apply existsb_exists. exists b. rw -list_elem_of_In elem_of_rows bool_decide_eq_true. eauto.
Qed.

Lemma wp_insert_row {S K A} `{Countable K} o (k : K) (x : A) t upd (Q : unit → World S → Prop) w :
  (t !! k = None → Q tt (mkWorld (upd (insert k x) (st w)) (tick w))) →
  wp o (insert_row k x t upd) Q w.
Proof. intros HQ. unfold insert_row. destruct (t !! k) eqn:E; wp_steps. by apply HQ. Qed.

Lemma wp_insert_attempt o id j n now (Q : unit → World DB → Prop) w :
  (t_attempts (st w) !! id = None →
   (∀ k b, t_attempts (st w) !! k = Some b → a_job_id b = j → a_attempt_number b ≠ n) →
   Q tt (mkWorld (on_attempts (insert id (new_attempt id j n now)) (st w)) (tick w))) →
  wp o (insert_attempt id j n now) Q w.
Proof.
  intros HQ. unfold insert_attempt. wp_steps. reflect_bool. apply wp_insert_row. intros Hid.
  apply HQ; [done|]. by apply attempt_number_taken_false.
Qed.

