(* ===== verification/Outbox.v ===== *)
(** The transactional outbox of src/go/internal/outbox: messages and their
    validation (models.go), the repository (repository.go) and the dispatcher
    that publishes claimed messages (publisher.go). *)

From S2P Require Import Prelude GoStrings Json Queue JobModel Schema Sql.

Open Scope Z_scope.

Record Message := mkMessage {
  m_ID : uuid;
  m_Envelope : Envelope;
  m_Exchange : string;
  m_RoutingKey : string;
  m_Attempts : Z;
  m_LeaseToken : uuid;
  m_LeaseUntil : time;
  m_AvailableAt : time;
  m_LastError : string
}.

(** The literal [Message{ID, Envelope, Exchange, RoutingKey, AvailableAt}]. *)
Definition message (e : Envelope) (routingKey : string) (availableAt : time) : Message :=
  mkMessage (MessageID e) e CommandsExchange routingKey 0 uuid_nil time_zero availableAt "".

Definition Message_Validate (m : Message) : res unit :=
  if bool_decide (m_ID m = uuid_nil) then Err ErrInvalidMessage
  else if negb (bool_decide (m_ID m = MessageID (m_Envelope m))) then Err ErrInvalidMessage
  else if bool_decide (m_Exchange m = "" ∨ m_RoutingKey m = "") then Err ErrInvalidMessage
  else match Envelope_Validate (m_Envelope m) with
       | Err _ => Err ErrInvalidMessage
       | Ok _ => Ok tt
       end.

(** ** The [Enqueuer] interface

    What every repository relies on: enqueueing adds one pending row under the
    message's identifier and touches no other table. *)
Class Enqueuer := {
  Enqueue : Message → Tx DB unit;
  wp_Enqueue : ∀ o m (Q : unit → World DB → Prop) w,
    (∀ row n,
       t_outbox (st w) !! m_ID m = None →
       o_id row = m_ID m → o_envelope row = m_Envelope m →
       o_exchange row = m_Exchange m → o_routing_key row = m_RoutingKey m →
       o_state row = OutboxPending →
       (m_AvailableAt m ≠ time_zero → o_available_at row = m_AvailableAt m) →
       Message_Validate m = Ok tt →
       Q tt (mkWorld (on_outbox (insert (m_ID m) row) (st w)) n)) →
    wp o (Enqueue m) Q w
}.

(** ** The repository *)

Definition outbox_row (m : Message) (availableAt created : time) : OutboxRow :=
  mkOutboxRow (m_ID m) (m_Envelope m) (m_Exchange m) (m_RoutingKey m) OutboxPending 0
    availableAt None None None None created created.

Definition outbox_Enqueue (m : Message) : Tx DB unit :=
  _ ← lift_res (Message_Validate m);
  availableAt ← (if bool_decide (m_AvailableAt m = time_zero) then time_now else mret (m_AvailableAt m));
  created ← sql_now;
  d ← get_db;
  insert_row (m_ID m) (outbox_row m availableAt created) (t_outbox d) on_outbox.

(** The WHERE clause of [Claim]. *)
Definition claimable (now : time) (r : OutboxRow) : bool :=
  match o_state r with
  | OutboxPending => o_available_at r <=? now
  | OutboxInFlight => match o_lease_until r with Some u => u <=? now | None => false end
  | _ => false
  end.

(** [ORDER BY available_at, created_at, id]. *)
Definition outbox_before (x y : OutboxRow) : bool :=
  (o_available_at x <? o_available_at y)
  || ((o_available_at x =? o_available_at y)
      && ((o_created_at x <? o_created_at y)
          || ((o_created_at x =? o_created_at y) && (o_id x <? o_id y)%N))).

Definition scanMessage (r : OutboxRow) : res Message :=
  let m := mkMessage (o_id r) (o_envelope r) (o_exchange r) (o_routing_key r) (o_attempts r)
    uuid_nil (default time_zero (o_lease_until r)) (o_available_at r) (default "" (o_last_error r)) in
  _ ← Message_Validate m;
  mret m.

Fixpoint scan_all (l : list OutboxRow) : res (list Message) :=
  match l with
  | [] => mret []
  | r :: l => m ← scanMessage r; ms ← scan_all l; mret (m :: ms)
  end.

(** The UPDATE of one claimed row. *)
Definition lease_row (token : uuid) (until now : time) (r : OutboxRow) : OutboxRow :=
  set_o_state OutboxInFlight (set_o_attempts (o_attempts r + 1) (set_o_lease_token (Some token)
    (set_o_lease_until (Some until) (set_o_updated_at now r)))).

Definition lease_message (token : uuid) (until : time) (m : Message) : Message :=
  mkMessage (m_ID m) (m_Envelope m) (m_Exchange m) (m_RoutingKey m) (m_Attempts m + 1)
    token until (m_AvailableAt m) (m_LastError m).

Fixpoint claim_loop (now : time) (lease : duration) (ms : list Message) : Tx DB (list Message) :=
  match ms with
  | [] => mret []
  | m :: ms =>
      token ← uuid_new;
      let until := now + lease in
      d ← get_db;
      _ ← require (bool_decide (is_Some (t_outbox d !! m_ID m))) ErrLeaseLost;
      _ ← modify (on_outbox (alter (lease_row token until now) (m_ID m)));
      rest ← claim_loop now lease ms;
      mret (lease_message token until m :: rest)
  end.

Definition claim_candidates (d : DB) (locked : uuid → bool) (now : time) (limit : Z) : list OutboxRow :=
  take (Z.to_nat limit)
    (sort_by outbox_before
       (filter (λ r, claimable now r = true ∧ locked (o_id r) = false) (rows (t_outbox d)))).

Definition Claim (now : time) (lease : duration) (limit : Z) : Tx DB (list Message) :=
  _ ← require (negb ((lease <=? 0) || (limit <? 1) || (1000 <? limit)))
        (ErrText "outbox lease and batch limit are invalid");
  d ← get_db;
  locked ← locked_rows;
  ms ← lift_res (scan_all (claim_candidates d locked now limit));
  claim_loop now lease ms.

(** The row a lease holder may update: [state = 'IN_FLIGHT' AND lease_token]. *)
Definition holds_lease (d : DB) (id token : uuid) : bool :=
  match t_outbox d !! id with
  | Some r => bool_decide (o_state r = OutboxInFlight ∧ o_lease_token r = Some token)
  | None => false
  end.

Definition publish_row (publishedAt : time) (r : OutboxRow) : OutboxRow :=
  set_o_state OutboxPublished (set_o_published_at (Some publishedAt) (set_o_updated_at publishedAt
    (set_o_lease_token None (set_o_lease_until None (set_o_last_error None r))))).

Definition MarkPublished (id token : uuid) (publishedAt : time) : Tx DB unit :=
  d ← get_db;
  _ ← require (holds_lease d id token) ErrLeaseLost;
  modify (on_outbox (alter (publish_row publishedAt) id)).

Definition truncateError (value : string) : string :=
  if 1000 <? go_len value then slice_to 1000 value else value.

Definition retry_row (next now : time) (lastError : string) (maxAttempts : Z) (r : OutboxRow) : OutboxRow :=
  set_o_state (if maxAttempts <=? o_attempts r then OutboxFailed else OutboxPending)
    (set_o_available_at next (set_o_updated_at now (set_o_last_error (Some lastError)
      (set_o_lease_token None (set_o_lease_until None r))))).

Definition MarkRetry (id token : uuid) (next : time) (lastError : string) (maxAttempts : Z)
  : Tx DB unit :=
  _ ← require (negb (maxAttempts <? 1)) (ErrText "outbox max attempts must be positive");
  d ← get_db;
  now ← sql_now;
  _ ← require (holds_lease d id token) ErrLeaseLost;
  modify (on_outbox (alter (retry_row next now (truncateError lastError) maxAttempts) id)).

(** ** The dispatcher *)

Definition MaxRetryDelay : duration := Hour.
Definition DefaultLease : duration := 30 * Second.
Definition DefaultRetry : duration := Second.

(** The doubling loop of [retryDelay]; the bound [attempts - 1] on the number of
    iterations is its fuel. *)
Fixpoint retry_loop (fuel : nat) (delay : duration) : duration :=
  match fuel with
  | O => if MaxRetryDelay <? delay then MaxRetryDelay else delay
  | S fuel =>
      if delay <? MaxRetryDelay then
        if MaxRetryDelay / 2 <? delay then MaxRetryDelay
        else retry_loop fuel (wrap64 (delay * 2))
      else if MaxRetryDelay <? delay then MaxRetryDelay else delay
  end.

Definition retryDelay (base : duration) (attempts : Z) : duration :=
  if attempts <=? 1 then base else retry_loop (Z.to_nat (attempts - 1)) base.

(** What the broker connection may answer: the message was confirmed; the
    publish failed and the message was lost; or the publish reported an error
    although the broker had taken the message. *)
Inductive PublishOutcome := Confirmed | Lost (err : string) | Unconfirmed (err : string).

Record DispatcherConfig := mkDispatcherConfig {
  LeaseDuration : duration;
  RetryBase : duration;
  DispMaxAttempts : Z
}.

(** [NewDispatcher]: zero fields take their default, then the bounds. *)
Definition NewDispatcher (c : DispatcherConfig) : res DispatcherConfig :=
  let c := mkDispatcherConfig
    (if bool_decide (LeaseDuration c = 0) then DefaultLease else LeaseDuration c)
    (if bool_decide (RetryBase c = 0) then DefaultRetry else RetryBase c)
    (if bool_decide (DispMaxAttempts c = 0) then 5 else DispMaxAttempts c) in
  if (LeaseDuration c <=? 0) || (RetryBase c <=? 0) || (DispMaxAttempts c <? 1)
  then Err (ErrText "outbox dispatcher timing and attempt limits are invalid")
  else Ok c.

Record DispatchReport := mkDispatchReport {
  Claimed : nat; Published : nat; Retried : nat; Poisoned : nat; Failed : nat; Failures : nat
}.

(** Database, what the broker has received so far, and the report. *)
Record DispatchState := mkDispatchState {
  ds_db : DB;
  ds_broker : list (string * string * Envelope);
  ds_report : DispatchReport
}.

Section dispatch.
Context (c : DispatcherConfig) (publish : Message → PublishOutcome) (o : Oracle).

(** The failure branch of the loop body. *)
Definition dispatch_failure (now : time) (m : Message) (err : string) (s : DispatchState)
  : DispatchState :=
  let r := ds_report s in
  let next := now + retryDelay (RetryBase c) (m_Attempts m) in
  match transact (MarkRetry (m_ID m) (m_LeaseToken m) next err (DispMaxAttempts c)) o (ds_db s) with
  | (Err _, d) => mkDispatchState d (ds_broker s)
      (mkDispatchReport (Claimed r) (Published r) (Retried r) (Poisoned r) (S (Failed r)) (S (Failures r)))
  | (Ok _, d) =>
      mkDispatchState d (ds_broker s)
        (if DispMaxAttempts c <=? m_Attempts m
         then mkDispatchReport (Claimed r) (Published r) (Retried r) (S (Poisoned r)) (S (Failed r)) (S (Failures r))
         else mkDispatchReport (Claimed r) (Published r) (S (Retried r)) (Poisoned r) (S (Failed r)) (S (Failures r)))
  end.

Definition deliver (m : Message) (s : DispatchState) : DispatchState :=
  mkDispatchState (ds_db s)
    (ds_broker s ++ [(m_Exchange m, m_RoutingKey m, m_Envelope m)]) (ds_report s).

Definition dispatch_one (now : time) (m : Message) (s : DispatchState) : DispatchState :=
  match publish m with
  | Lost err => dispatch_failure now m err s
  | Unconfirmed err => dispatch_failure now m err (deliver m s)
  | Confirmed =>
      let s := deliver m s in
      let r := ds_report s in
      match transact (MarkPublished (m_ID m) (m_LeaseToken m) now) o (ds_db s) with
      | (Err _, d) => mkDispatchState d (ds_broker s)
          (mkDispatchReport (Claimed r) (Published r) (Retried r) (Poisoned r) (S (Failed r)) (S (Failures r)))
      | (Ok _, d) => mkDispatchState d (ds_broker s)
          (mkDispatchReport (Claimed r) (S (Published r)) (Retried r) (Poisoned r) (Failed r) (Failures r))
      end
  end.

Definition Dispatch (now : time) (limit : Z) (d : DB) (broker : list (string * string * Envelope))
  : res DispatchReport * DispatchState :=
  let zero := mkDispatchReport 0 0 0 0 0 0 in
  if (limit <? 1) || (1000 <? limit)
  then (Err (ErrText "outbox dispatch limit must be between 1 and 1000"), mkDispatchState d broker zero)
  else match transact (Claim now (LeaseDuration c) limit) o d with
  | (Err e, d) => (Err e, mkDispatchState d broker zero)
  | (Ok ms, d) =>
      let s := foldl (λ s m, dispatch_one now m s)
        (mkDispatchState d broker (mkDispatchReport (length ms) 0 0 0 0 0)) ms in
      (Ok (ds_report s), s)
  end.
End dispatch.

(** ** Properties *)

#[export] Program Instance outbox_Enqueuer : Enqueuer := {| Enqueue := outbox_Enqueue |}.
Next Obligation.
  intros o m Q w HQ. unfold outbox_Enqueue. wp_steps.
  assert (Message_Validate m = Ok tt) as Hv by (by destruct a).
  case_bool_decide; wp_steps; apply wp_insert_row; intros Hn; apply HQ; done.
Qed.

#[export] Instance outbox_before_strict : StrictWeak outbox_before.
Proof.
  split; unfold outbox_before; intros *;
    rw ?orb_true_iff ?orb_false_iff ?andb_true_iff ?andb_false_iff ?orb_true_iff ?orb_false_iff
       ?andb_true_iff ?andb_false_iff;
    rw ?Z.ltb_lt ?Z.ltb_ge ?Z.eqb_eq ?Z.eqb_neq ?N.ltb_lt ?N.ltb_ge; lia.
Qed.

Lemma retry_loop_closed n base :
  0 < base <= MaxRetryDelay → retry_loop n base = Z.min (base * 2 ^ Z.of_nat n) MaxRetryDelay.
Proof.
  revert base. induction n as [|n IH]; intros base Hb.
  - simpl. destruct (Z.ltb_spec MaxRetryDelay base); lia.
  - cbn [retry_loop]. rw Nat2Z.inj_succ Z.pow_succ_r; [lia|].
    assert (0 < 2 ^ Z.of_nat n) as Hp by (apply Z.pow_pos_nonneg; lia).
    assert (MaxRetryDelay = 2 * (MaxRetryDelay / 2)) as Hm by reflexivity.
    destruct (Z.ltb_spec base MaxRetryDelay).
    + destruct (Z.ltb_spec (MaxRetryDelay / 2) base); [nia|].
      rw wrap64_small; [unfold min_int64, max_int64, MaxRetryDelay, Hour, Minute, Second in *; lia|].
      rw IH; [lia|]. f_equal. lia.
    + destruct (Z.ltb_spec MaxRetryDelay base); [lia|]. nia.
Qed.

(** The publisher's backoff is exponential and capped: with a base of at
    most an hour the delay after [n] attempts is [base * 2^(n-1)] cut at one
    hour, and the [int64] doubling never overflows. *)
Lemma retryDelay_closed (base : duration) (attempts : Z) :
  0 < base <= MaxRetryDelay → 1 <= attempts →
  retryDelay base attempts = Z.min (base * 2 ^ (attempts - 1)) MaxRetryDelay.
Proof.
  intros Hb Ha. unfold retryDelay. destruct (Z.leb_spec attempts 1).
  - replace attempts with 1 by lia. change (2 ^ (1 - 1)) with 1. lia.
  - rw retry_loop_closed // Z2Nat.id; [lia|]. done.
Qed.

Lemma retryDelay_closed_witness :
  retryDelay Second 13 = Z.min (Second * 2 ^ (13 - 1)) MaxRetryDelay.
Proof. apply (retryDelay_closed Second 13); vm_compute; [split; [reflexivity|discriminate]|discriminate]. Defined.

(** Rows are stored under their identifier. *)
Definition outbox_wf (d : DB) : Prop := ∀ k r, t_outbox d !! k = Some r → o_id r = k.

(** The routed content of a message and of a row, next to its identifier. *)
Definition m_content (m : Message) := (m_Exchange m, m_RoutingKey m, m_Envelope m).
Definition o_content (r : OutboxRow) := (o_exchange r, o_routing_key r, o_envelope r).
Definition m_view (m : Message) := (m_ID m, m_content m).
Definition o_view (r : OutboxRow) := (o_id r, o_content r).

Lemma scan_all_ok l ms : scan_all l = Ok ms → m_view <$> ms = o_view <$> l.
Proof.
  revert ms. induction l as [|r l IH]; intros ms; cbn [scan_all].
  - by intros [= <-].
  - unfold scanMessage, mbind, res_mbind. cbn -[scan_all].
    destruct (Message_Validate _); cbn -[scan_all]; [|done].
    destruct (scan_all l) as [ms'|] eqn:E; cbn -[scan_all]; [|done].
    intros [= <-]. rw !fmap_cons (IH ms' eq_refl). done.
Qed.

Lemma m_view_ids (ms ms' : list Message) : m_view <$> ms = m_view <$> ms' → m_ID <$> ms = m_ID <$> ms'.
Proof. intros H%(f_equal (fmap fst)). by rw -!list_fmap_compose in H. Qed.

Lemma m_view_rows (ms : list Message) (l : list OutboxRow) : m_view <$> ms = o_view <$> l → m_ID <$> ms = o_id <$> l.
Proof. intros H%(f_equal (fmap fst)). by rw -!list_fmap_compose in H. Qed.

(** The claim loop leases exactly the rows it is given, each with the token it
    returns, and changes nothing else. *)
Lemma wp_claim_loop o now lease ms w :
  NoDup (m_ID <$> ms) →
  wp o (claim_loop now lease ms) (λ res w',
    m_view <$> res = m_view <$> ms
    ∧ (∀ id, id ∉ m_ID <$> ms → t_outbox (st w') !! id = t_outbox (st w) !! id)
    ∧ (∀ m, m ∈ res → ∃ r, t_outbox (st w) !! m_ID m = Some r
         ∧ t_outbox (st w') !! m_ID m = Some (lease_row (m_LeaseToken m) (now + lease) now r))) w.
Proof.
  revert w. induction ms as [|m ms IH]; intros w Hnd; cbn [claim_loop].
  { wp_steps. split_and!; auto. intros m Hm. by apply elem_of_nil in Hm. }
  rw fmap_cons list.NoDup_cons in Hnd. destruct Hnd as [Hnot Hnd].
  wp_steps. rename select (bool_decide _ = true) into Hb.
  apply bool_decide_eq_true in Hb as [r Hr]. eapply wp_mono; [|apply IH; done].
  intros res w' (Hid&Hframe&Hin). cbn [st] in *. wp_steps.
  split_and!; [rw !fmap_cons Hid //| |]; simpl.
  - intros id Hid'. apply not_elem_of_cons in Hid' as [Hne Hid'].
    rw Hframe // /= lookup_alter_ne //.
  - intros m' [->|Hm']%elem_of_cons; simpl.
    + exists r. split; [done|]. rw Hframe // /= lookup_alter_eq Hr //.
    + destruct (Hin m' Hm') as (r'&Hr'&Hr''). simpl in Hr'.
      assert (m_ID m' ≠ m_ID m) as Hne.
      { intros Heq. apply Hnot. rw -Heq -(m_view_ids _ _ Hid). by apply list_elem_of_fmap_2. }
      rw lookup_alter_ne // in Hr'. eauto.
Qed.

Lemma claim_candidates_ids d locked now limit :
  outbox_wf d → NoDup (o_id <$> claim_candidates d locked now limit).
Proof.
  intros Hwf. unfold claim_candidates.
  eapply sublist_NoDup; [|apply fmap_sublist, sublist_take].
  rw sort_by_Permutation. eapply sublist_NoDup; [|apply fmap_sublist, sublist_filter].
  by apply rows_NoDup.
Qed.

Lemma claim_candidates_claimable d locked now limit r :
  r ∈ claim_candidates d locked now limit →
  claimable now r = true ∧ locked (o_id r) = false ∧ ∃ k, t_outbox d !! k = Some r.
Proof.
  unfold claim_candidates. intros H%elem_of_take. destruct H as (i&H&_).
  apply list_elem_of_lookup_2, elem_of_sort_by in H. apply list_elem_of_filter in H as [[Hc Hl] Hr].
  split_and!; [done..|]. by apply elem_of_rows in Hr.
Qed.

Lemma lease_row_not_claimable tok until now now' r :
  now' < until → claimable now' (lease_row tok until now r) = false.
Proof. intros H. unfold claimable. simpl. apply Z.leb_gt. done. Qed.

(** What a successful claim does to the database. *)
Lemma Claim_spec o now lease limit d ms d' :
  outbox_wf d → transact (Claim now lease limit) o d = (Ok ms, d') →
  Z.of_nat (length ms) <= limit ∧ NoDup (m_ID <$> ms)
  ∧ (∀ m, m ∈ ms → ∃ r,
       t_outbox d !! m_ID m = Some r ∧ claimable now r = true ∧ o_locked o (m_ID m) = false
       ∧ m_content m = o_content r
       ∧ t_outbox d' !! m_ID m = Some (lease_row (m_LeaseToken m) (now + lease) now r))
  ∧ (∀ id, id ∉ m_ID <$> ms → t_outbox d' !! id = t_outbox d !! id).
Proof.
  intros Hwf H. eapply (transact_ok _ _ _ _ _ (λ ms d', _)) in H; [exact H|].
  clear H. unfold Claim. wp_steps. reflect_bool.
  rename select (list Message) into cand. rename select (scan_all _ = _) into Hscan.
  pose proof (scan_all_ok _ _ Hscan) as Hview. pose proof (m_view_rows _ _ Hview) as Hids.
  assert (NoDup (m_ID <$> cand)) as Hnd by (rw Hids; by apply claim_candidates_ids).
  eapply wp_mono; [|by apply wp_claim_loop]. cbn [st].
  intros res w' (Hres&Hframe&Hin). pose proof (m_view_ids _ _ Hres) as Hid. rw Hid.
  split_and!; [|done| |done].
  - apply (f_equal length) in Hid, Hids. rw !length_fmap in Hid Hids. rw Hid Hids /claim_candidates.
    rw length_take. rename select ((_ <? 1) = false) into Hl. apply Z.ltb_ge in Hl. lia.
  - intros m Hm. destruct (Hin m Hm) as (r&Hr&Hr').
    assert (m_view m ∈ o_view <$> claim_candidates d (o_locked o) now limit) as Hc.
    { rw -Hview -Hres. by apply list_elem_of_fmap_2. }
    apply list_elem_of_fmap in Hc as (r0&[= Hr0 Hex Hrk Henv]&(Hcl&Hlk&k&Hk)%claim_candidates_claimable).
    pose proof (Hwf _ _ Hk) as <-. rw Hr0 in Hr. rw Hk in Hr. injection Hr as <-.
    exists r0. rw /m_content Hex Hrk Henv -Hr0 in Hr' Hlk Hk *. split_and!; done.
Qed.

Lemma Claim_wf o now lease limit d ms d' :
  outbox_wf d → transact (Claim now lease limit) o d = (Ok ms, d') → outbox_wf d'.
Proof.
  intros Hwf (_&_&Hin&Hout)%Claim_spec; [|done]. intros k r Hr.
  destruct (decide (k ∈ m_ID <$> ms)) as [(m&->&Hm)%list_elem_of_fmap|Hk].
  - destruct (Hin m Hm) as (r0&Hr0&_&_&_&Hr'). rw Hr in Hr'. injection Hr' as ->.
    simpl. by apply Hwf.
  - rw Hout // in Hr. by apply Hwf.
Qed.

(** A claim is exclusive.  Each claimed message was claimable, is now in
    flight under a token known to the claimer with one more attempt counted,
    and cannot be claimed again before the lease runs out; at most [limit]
    messages are claimed, none twice, and no other row changes. *)
Lemma Claim_exclusive (o : Oracle) (now : time) (lease : duration) (limit : Z) (d d' : DB) ms :
  outbox_wf d → transact (Claim now lease limit) o d = (Ok ms, d') →
  Z.of_nat (length ms) <= limit ∧ NoDup (m_ID <$> ms)
  ∧ (∀ m, m ∈ ms → ∃ r r',
       t_outbox d !! m_ID m = Some r ∧ claimable now r = true ∧ o_locked o (m_ID m) = false
       ∧ t_outbox d' !! m_ID m = Some r' ∧ o_state r' = OutboxInFlight
       ∧ o_lease_token r' = Some (m_LeaseToken m) ∧ o_attempts r' = o_attempts r + 1
       ∧ ∀ now', now' < now + lease → claimable now' r' = false)
  ∧ (∀ id, id ∉ (m_ID <$> ms) → t_outbox d' !! id = t_outbox d !! id).
Proof.
  intros Hwf (?&?&Hin&?)%Claim_spec; [|done]. split_and!; [done..| |done].
  intros m (r&?&?&?&_&?)%Hin. eexists _, _. split_and!; [done..|].
  intros now' Hnow. by apply lease_row_not_claimable.
Qed.

Definition claimed (r : res (list Message) * DB) : list Message :=
  match r.1 with Ok ms => ms | Err _ => [] end.

(** *** A message to run the operations on *)
Definition ex_oracle : Oracle := {|
  o_uuid := λ n, N.of_nat (100 + n); o_time := λ n, 1000 + Z.of_nat n; o_sqlnow := 1000;
  o_locked := λ _, false; o_rand := λ _ _, 0 |}.

Definition ex_envelope : Envelope :=
  mkEnvelope 5 MessageJobQueued 1 900 "t" "c" "k" (raw_of (JObj [("jobId", json_uuid 3)])).

Definition ex_outbox : DB :=
  on_outbox (λ _, {[ 5%N := outbox_row (message ex_envelope MessageJobQueued 950) 950 950 ]}) empty_db.

Lemma ex_outbox_wf : outbox_wf ex_outbox.
Proof. intros k r. cbn [t_outbox on_outbox ex_outbox]. by intros [<- <-]%lookup_singleton_Some. Defined.

Definition ex_claim : res (list Message) * DB := transact (Claim 1000 DefaultLease 10) ex_oracle ex_outbox.

Lemma Claim_exclusive_witness :
  length (claimed ex_claim) = 1%nat ∧ NoDup (m_ID <$> claimed ex_claim).
Proof.
  split; [vm_compute; reflexivity|].
  apply (Claim_exclusive ex_oracle 1000 DefaultLease 10 ex_outbox ex_claim.2 (claimed ex_claim)).
  - apply ex_outbox_wf.
  - vm_compute. reflexivity.
Defined.

(** A lease update of a held row succeeds; without the lease it is refused and
    leaves the database alone. *)
Lemma MarkPublished_run id tok t o d :
  transact (MarkPublished id tok t) o d =
    if holds_lease d id tok then (Ok tt, on_outbox (alter (publish_row t) id) d) else (Err ErrLeaseLost, d).
Proof.
  unfold transact, MarkPublished, mbind, tx_bind, gets, require. simpl.
  by destruct (holds_lease d id tok).
Qed.

Lemma MarkRetry_run id tok next err mx o d :
  1 <= mx →
  transact (MarkRetry id tok next err mx) o d =
    if holds_lease d id tok
    then (Ok tt, on_outbox (alter (retry_row next (o_sqlnow o) (truncateError err) mx) id) d)
    else (Err ErrLeaseLost, d).
Proof.
  intros Hm. unfold transact, MarkRetry, mbind, tx_bind, gets, require, sql_now. simpl.
  destruct (Z.ltb_spec mx 1); [lia|]. simpl. by destruct (holds_lease d id tok).
Qed.

(** C22. Fencing of publishers: once a message has been claimed again under
    another token, the first claimer can neither mark it published nor
    reschedule it; both calls answer [ErrLeaseLost] and change nothing. *)
Theorem stale_publisher_fenced o1 o2 o now1 now2 lease1 lease2 limit1 limit2 (d d1 d2 : DB) ms1 ms2 m1 m2
    next t err mx :
  outbox_wf d → 1 <= mx →
  transact (Claim now1 lease1 limit1) o1 d = (Ok ms1, d1) →
  transact (Claim now2 lease2 limit2) o2 d1 = (Ok ms2, d2) →
  m1 ∈ ms1 → m2 ∈ ms2 → m_ID m1 = m_ID m2 → m_LeaseToken m1 ≠ m_LeaseToken m2 →
  now1 + lease1 <= now2
  ∧ transact (MarkPublished (m_ID m1) (m_LeaseToken m1) t) o d2 = (Err ErrLeaseLost, d2)
  ∧ transact (MarkRetry (m_ID m1) (m_LeaseToken m1) next err mx) o d2 = (Err ErrLeaseLost, d2).
Proof.
  intros Hwf Hmx H1 H2 Hm1 Hm2 Hid Htok. pose proof (Claim_wf _ _ _ _ _ _ _ Hwf H1) as Hwf1.
  destruct (Claim_spec _ _ _ _ _ _ _ Hwf H1) as (_&_&Hin1&_).
  destruct (Claim_spec _ _ _ _ _ _ _ Hwf1 H2) as (_&_&Hin2&_).
  destruct (Hin1 _ Hm1) as (r1&_&_&_&_&Hr1). destruct (Hin2 _ Hm2) as (r2&Hr2&Hc&_&_&Hr2').
  rw -Hid in Hr2 Hr2'. rw Hr1 in Hr2. injection Hr2 as <-.
  assert (holds_lease d2 (m_ID m1) (m_LeaseToken m1) = false) as Hh.
  { unfold holds_lease. rw Hr2' /=. apply bool_decide_eq_false. intros [_ [= Heq]]. auto. }
  rw MarkPublished_run MarkRetry_run // Hh. split_and!; [|done..].
  destruct (Z_lt_le_dec now2 (now1 + lease1)) as [Hlt|]; [|done].
  by rw lease_row_not_claimable in Hc.
Qed.

Definition ex_oracle2 : Oracle := {|
  o_uuid := λ n, N.of_nat (200 + n); o_time := λ n, 1000; o_sqlnow := 1000;
  o_locked := λ _, false; o_rand := λ _ _, 0 |}.

Definition ex_reclaim : res (list Message) * DB :=
  transact (Claim (1000 + DefaultLease) DefaultLease 10) ex_oracle2 ex_claim.2.

Lemma stale_publisher_fenced_witness :
  transact (MarkPublished 5 100 2000) ex_oracle ex_reclaim.2 = (Err ErrLeaseLost, ex_reclaim.2).
Proof.
  edestruct (stale_publisher_fenced ex_oracle ex_oracle2 ex_oracle 1000 (1000 + DefaultLease) DefaultLease
    DefaultLease 10 10 ex_outbox ex_claim.2 ex_reclaim.2 (claimed ex_claim) (claimed ex_reclaim)
    (lease_message 100 (1000 + DefaultLease) (mkMessage 5 ex_envelope CommandsExchange MessageJobQueued
       0 uuid_nil time_zero 950 ""))
    (lease_message 200 (1000 + DefaultLease + DefaultLease) (mkMessage 5 ex_envelope CommandsExchange
       MessageJobQueued 1 uuid_nil (1000 + DefaultLease) 950 "")) 0 2000 "" 1) as (_&H&_); [..|exact H].
  - apply ex_outbox_wf.
  - done.
  - vm_compute. reflexivity.
  - vm_compute. reflexivity.
  - vm_compute. left.
  - vm_compute. left.
  - reflexivity.
  - discriminate.
Defined.

(** ** The dispatcher *)

(** Every published row has reached the broker. *)
Definition published_delivered (d : DB) (broker : list (string * string * Envelope)) : Prop :=
  ∀ k r, t_outbox d !! k = Some r → o_state r = OutboxPublished → o_content r ∈ broker.

(** The pending work of a dispatch run: the rows still agree with the claimed
    messages, and the counters add up. *)
Record dispatch_inv (n : nat) (rest : list Message) (s : DispatchState) : Prop := {
  di_delivered : published_delivered (ds_db s) (ds_broker s);
  di_content : ∀ m r, m ∈ rest → t_outbox (ds_db s) !! m_ID m = Some r → o_content r = m_content m;
  di_claimed : Claimed (ds_report s) = n;
  di_done : (Published (ds_report s) + Failed (ds_report s) + length rest = n)%nat;
  di_failures : Failures (ds_report s) = Failed (ds_report s);
  di_split : (Retried (ds_report s) + Poisoned (ds_report s) <= Failed (ds_report s))%nat
}.

Lemma alter_published_delivered f id d broker :
  (∀ r, t_outbox d !! id = Some r → o_content (f r) = o_content r) →
  (∀ r, t_outbox d !! id = Some r → o_state (f r) = OutboxPublished → o_content r ∈ broker) →
  published_delivered d broker →
  published_delivered (on_outbox (alter f id) d) broker.
Proof.
  intros Hc Hp Hd k r. simpl. destruct (decide (id = k)) as [->|Hne].
  - rw lookup_alter_eq. intros (r0&Hr0&->)%fmap_Some Hst. rw Hc //. by apply Hp.
  - rw lookup_alter_ne //. apply Hd.
Qed.

(** Updates that keep the content and the identifier keep the pending work. *)
Lemma di_content_alter f id d (rest : list Message) :
  (∀ r, o_content (f r) = o_content r) →
  (∀ m r, m ∈ rest → t_outbox d !! m_ID m = Some r → o_content r = m_content m) →
  ∀ m r, m ∈ rest → t_outbox (on_outbox (alter f id) d) !! m_ID m = Some r → o_content r = m_content m.
Proof.
  intros Hf Hc m r Hm. simpl. destruct (decide (id = m_ID m)) as [->|Hne].
  - rw lookup_alter_eq. intros (r0&Hr0&->)%fmap_Some. rw Hf. by apply Hc.
  - rw lookup_alter_ne //. by apply Hc.
Qed.

Lemma published_delivered_mono d b b' :
  b ⊆ b' → published_delivered d b → published_delivered d b'.
Proof. intros Hb H k r Hr Hs. eapply Hb, H; done. Qed.

Lemma retry_row_not_published next now err mx r :
  o_state (retry_row next now err mx r) ≠ OutboxPublished.
Proof. simpl. by case_match. Qed.

Lemma dispatch_failure_inv c o now m err n rest s :
  1 <= DispMaxAttempts c →
  dispatch_inv n (m :: rest) s → dispatch_inv n rest (dispatch_failure c o now m err s).
Proof.
  intros Hc [Hd Hct Hcl Hdone Hf Hsp]. unfold dispatch_failure. rw MarkRetry_run //.
  simpl in Hdone. destruct (holds_lease _ _ _) eqn:Hh.
  - case_match; split; simpl; try done; try lia.
    all: try (apply alter_published_delivered; [done| |done];
              intros r _ Hp; by apply retry_row_not_published in Hp).
    all: apply di_content_alter; [done|]; intros m' r Hm'; apply Hct; by right.
  - split; simpl; try done; try lia. intros m' r Hm'. apply Hct. by right.
Qed.

Lemma deliver_inv m n rest s : dispatch_inv n rest s → dispatch_inv n rest (deliver m s).
Proof.
  intros [Hd Hct Hcl Hdone Hf Hsp]. split; simpl; try done.
  eapply published_delivered_mono; [|done]. intros x. rw elem_of_app. auto.
Qed.

Lemma dispatch_one_inv c publish o now m n rest s :
  1 <= DispMaxAttempts c →
  dispatch_inv n (m :: rest) s → dispatch_inv n rest (dispatch_one c publish o now m s).
Proof.
  intros Hc Hs. unfold dispatch_one. destruct (publish m) as [|err|err].
  - rw MarkPublished_run. pose proof (deliver_inv m _ _ _ Hs) as [Hd Hct Hcl Hdone Hf Hsp].
    simpl in Hd, Hct, Hcl, Hdone, Hf, Hsp |- *.
    assert (m_content m ∈ ds_broker s ++ [m_content m]) as Hm.
    { apply elem_of_app. right. by left. }
    destruct (holds_lease _ _ _) eqn:Hh; split; simpl; try done; try lia.
    + apply alter_published_delivered; [done| |done]. intros r Hr _. rw (Hct m r); [by left|done|].
      done.
    + apply di_content_alter; [done|]. intros m' r Hm'. apply Hct. by right.
    + intros m' r Hm'. apply Hct. by right.
  - by apply dispatch_failure_inv.
  - by apply dispatch_failure_inv, deliver_inv.
Qed.

Lemma dispatch_fold_inv c publish o now ms n s :
  1 <= DispMaxAttempts c → dispatch_inv n ms s →
  dispatch_inv n [] (foldl (λ s m, dispatch_one c publish o now m s) s ms).
Proof.
  intros Hc. revert s. induction ms as [|m ms IH]; intros s Hs; [done|].
  simpl. by apply IH, dispatch_one_inv.
Qed.

(** What a run starts from after its claim. *)
Lemma claimed_inv o now lease limit d ms d' broker :
  outbox_wf d → published_delivered d broker → transact (Claim now lease limit) o d = (Ok ms, d') →
  dispatch_inv (length ms) ms (mkDispatchState d' broker (mkDispatchReport (length ms) 0 0 0 0 0)).
Proof.
  intros Hwf Hpub Hcl. destruct (Claim_spec _ _ _ _ _ _ _ Hwf Hcl) as (_&_&Hin&Hout). split; simpl; try done.
  - intros k r Hr Hst. destruct (decide (k ∈ m_ID <$> ms)) as [(m&->&Hm)%list_elem_of_fmap|Hk].
    + destruct (Hin m Hm) as (r0&_&_&_&_&Hr'). rw Hr in Hr'. by injection Hr' as ->.
    + rw Hout // in Hr. by eapply Hpub.
  - intros m r Hm Hr. destruct (Hin m Hm) as (r0&_&_&_&Hct&Hr'). rw Hr in Hr'. by injection Hr' as ->.
Qed.

(** C20. At-least-once publication.  A dispatch run over a well-formed outbox
    keeps every row marked published backed by a delivery to the broker,
    whatever the broker answers to each publish, lost confirmations included;
    and its report accounts for every claimed message: published or failed,
    one recorded failure per failed message, a failed message rescheduled or
    poisoned at most once. *)
Theorem Dispatch_at_least_once c publish o now limit d broker rep s :
  outbox_wf d → published_delivered d broker → 1 <= DispMaxAttempts c →
  Dispatch c publish o now limit d broker = (Ok rep, s) →
  published_delivered (ds_db s) (ds_broker s)
  ∧ (Claimed rep = Published rep + Failed rep)%nat ∧ Failures rep = Failed rep
  ∧ (Retried rep + Poisoned rep <= Failed rep)%nat ∧ Z.of_nat (Claimed rep) <= limit.
Proof.
  intros Hwf Hpub Hc. unfold Dispatch. destruct (_ || _); [done|].
  destruct (transact _ _ _) as [[ms|e] d'] eqn:Hcl; [|done]. intros [= <- <-].
  destruct (Claim_spec _ _ _ _ _ _ _ Hwf Hcl) as (Hlen&_).
  pose proof (claimed_inv _ _ _ _ _ _ _ _ Hwf Hpub Hcl) as H0.
  destruct (dispatch_fold_inv c publish o now _ _ _ Hc H0) as [? _ Hn Hd ? ?].
  simpl in Hd. split_and!; [done|lia|done|done|]. by rw Hn.
Qed.

Definition ex_config : DispatcherConfig := mkDispatcherConfig DefaultLease DefaultRetry 5.

(** One message, whose publish confirmation is lost: it reaches the broker, is
    rescheduled, and the report says so. *)
Lemma Dispatch_at_least_once_witness :
  let run := Dispatch ex_config (λ _, Unconfirmed "confirm lost") ex_oracle 1000 10 ex_outbox [] in
  run.1 = Ok (mkDispatchReport 1 0 1 0 1 1)
  ∧ published_delivered (ds_db run.2) (ds_broker run.2).
Proof.
  split; [vm_compute; reflexivity|].
  apply (Dispatch_at_least_once ex_config (λ _, Unconfirmed "confirm lost") ex_oracle 1000 10 ex_outbox []
    (mkDispatchReport 1 0 1 0 1 1)).
  - apply ex_outbox_wf.
  - intros k r. cbn [t_outbox on_outbox ex_outbox]. by intros [<- <-]%lookup_singleton_Some.
  - done.
  - vm_compute. reflexivity.
Defined.
