(* ===== verification/JobStore.v ===== *)
(** The job repository of src/go/internal/job: creation with idempotency keys
    and quotas (repository_create.go), cancellation and retry
    (repository_commands.go), queue selection (repository_queue.go), reads
    (repository.go). *)

From S2P Require Import Prelude GoStrings Json Queue JobModel Schema Sql Outbox.

Open Scope Z_scope.

Definition maxQueuedJobsPerOwner : Z := 100.

Record CreateCommand := mkCreateCommand {
  c_OwnerUserID : uuid;
  c_ActorUserID : uuid;
  c_DatasetVersionID : uuid;
  c_Operations : list Operation;
  c_IdempotencyKey : string;
  c_Priority : Z;
  c_MaxAttempts : Z;
  c_TraceID : string;
  c_CorrelationID : string;
  c_CausationID : string
}.

Record CancelCommand := mkCancelCommand {
  k_JobID : uuid; k_ActorUserID : uuid; k_Reason : string; k_TraceID : string;
  k_RequestID : string; k_AllowCrossOwner : bool
}.

Record RetryCommand := mkRetryCommand {
  y_JobID : uuid; y_ActorUserID : uuid; y_TraceID : string; y_RequestID : string;
  y_AllowCrossOwner : bool
}.

(** ** Helpers of the package *)

Definition nullString (value : string) : option string :=
  if bool_decide (value = "") then None else Some value.

Definition valueOrDefault (value fallback : string) : string :=
  if bool_decide (value = "") then fallback else value.

Definition truncateReason (value : string) : string :=
  if bool_decide (value = "") then "job_state_changed"
  else if 200 <? go_len value then slice_to 200 value else value.

Definition getJobTx (jobID : uuid) : Tx DB JobRow :=
  d ← get_db;
  lift_opt ErrJobNotFound (t_jobs d !! jobID).

Definition recordHistory (jobID : uuid) (from : option JobState) (to : JobState) (reason : string)
  (actorID : uuid) : Tx DB unit :=
  append_history (mkHistoryRow jobID from to (truncateReason reason)
    (if bool_decide (actorID = uuid_nil) then None else Some actorID)).

(** INSERT .. ON CONFLICT (owner_user_id) DO UPDATE .. WHERE queued_count < $2
    RETURNING: no row comes back when the owner is at the limit. *)
Definition incrementQuota_at (limit : Z) (exceeded : GoError) (ownerID : uuid) : Tx DB unit :=
  d ← get_db;
  now ← sql_now;
  match t_quotas d !! ownerID with
  | None => modify (on_quotas (insert ownerID (mkQuotaRow 1 0 now)))
  | Some q =>
      _ ← require (q_queued_count q <? limit) exceeded;
      modify (on_quotas (insert ownerID
        (set_q_queued_count (q_queued_count q + 1) (set_q_updated_at now q))))
  end.

Definition incrementQuota (ownerID : uuid) : Tx DB unit :=
  incrementQuota_at maxQueuedJobsPerOwner ErrQuotaExceeded ownerID.

Definition decrementQuota (ownerID : uuid) : Tx DB unit :=
  now ← sql_now;
  update_quota ownerID (λ q,
    set_q_queued_count (Z.max (q_queued_count q - 1) 0) (set_q_updated_at now q)).

Definition lockAvailableVersion (command : CreateCommand) : Tx DB unit :=
  d ← get_db;
  v ← lift_opt ErrVersionNotFound (t_versions d !! c_DatasetVersionID command);
  ds ← lift_opt ErrVersionNotFound (t_datasets d !! v_dataset_id v);
  _ ← require (bool_decide (d_owner_user_id ds = c_OwnerUserID command)) ErrForbidden;
  _ ← require (negb (bool_decide (is_Some (d_deleted_at ds) ∨ d_state ds = "DELETED"))) ErrVersionUnavailable;
  require (bool_decide (v_state v = "AVAILABLE")) ErrVersionUnavailable.

Definition findIdempotentJob (ownerID : uuid) (key fingerprint : string) : Tx DB (option JobRow) :=
  d ← get_db;
  match t_idempotency d !! (ownerID, key) with
  | None => mret None
  | Some r =>
      _ ← require (bool_decide (i_request_fingerprint r = fingerprint)) ErrIdempotencyConflict;
      item ← getJobTx (i_job_id r);
      mret (Some item)
  end.

(** The literal [struct{ JobID uuid.UUID }] of a [processing.job.queued]. *)
Definition queued_payload (jobID : uuid) : json := JObj [("jobId", json_uuid jobID)].

Section repository.
Context `{!Enqueuer}.

Definition enqueueEnvelopeWithRoutingKey (e : Envelope) (routingKey : string) : Tx DB unit :=
  let m := message e routingKey time_zero in
  _ ← lift_res (Message_Validate m);
  Enqueue m.

Definition enqueueEnvelope (e : Envelope) : Tx DB unit :=
  enqueueEnvelopeWithRoutingKey e (MessageType e).

(** ** Create *)

Definition insert_job (command : CreateCommand) (fingerprint : string) (jobID : uuid) (now : time)
  : Tx DB unit :=
  d ← get_db;
  insert_row jobID
    (mkJobRow jobID (c_OwnerUserID command) (c_DatasetVersionID command) Queued (c_Operations command)
       fingerprint (nullString (c_IdempotencyKey command)) (c_Priority command) (c_MaxAttempts command)
       now now (Some now) None None None None None None None)
    (t_jobs d) on_jobs.

(** How the transaction of [Create] ends: with the new job, with the job of an
    earlier request that carried the same key, or, when a concurrent request
    inserted the key in between, with a rollback and a read of that job. *)
Inductive CreateOutcome :=
  | CreatedJob (item : JobRow)
  | ReplayedJob (item : JobRow)
  | RolledBack (existing : uuid).

Definition create_enqueue (command : CreateCommand) (jobID : uuid) : Tx DB unit :=
  e ← NewEnvelope MessageJobQueued (c_TraceID command)
        (valueOrDefault (c_CorrelationID command) (uuid_string jobID))
        (valueOrDefault (c_CausationID command) (c_TraceID command)) (queued_payload jobID);
  Enqueue (message e (MessageType e) time_zero).

Definition create_finish (command : CreateCommand) (jobID : uuid) : Tx DB CreateOutcome :=
  _ ← create_enqueue command jobID;
  created ← getJobTx jobID;
  mret (CreatedJob created).

(** INSERT .. ON CONFLICT (owner_user_id, idempotency_key) DO NOTHING, and the
    branch on [RowsAffected]. *)
Definition create_record (command : CreateCommand) (fingerprint : string) (jobID : uuid)
  : Tx DB CreateOutcome :=
  if bool_decide (c_IdempotencyKey command = "") then create_finish command jobID
  else
    recordID ← uuid_new;
    d ← get_db;
    match t_idempotency d !! (c_OwnerUserID command, c_IdempotencyKey command) with
    | None =>
        _ ← modify (on_idempotency (insert (c_OwnerUserID command, c_IdempotencyKey command)
               (mkIdemRow recordID fingerprint jobID)));
        create_finish command jobID
    | Some _ =>
        existing ← findIdempotentJob (c_OwnerUserID command) (c_IdempotencyKey command) fingerprint;
        match existing with
        | None => fail ErrIdempotencyConflict
        | Some item => mret (RolledBack (j_id item))
        end
    end.

Definition create_new (command : CreateCommand) (fingerprint : string) : Tx DB CreateOutcome :=
  _ ← lockAvailableVersion command;
  _ ← incrementQuota (c_OwnerUserID command);
  now ← time_now;
  jobID ← uuid_new;
  attemptID ← uuid_new;
  _ ← insert_job command fingerprint jobID now;
  _ ← insert_attempt attemptID jobID 1 now;
  _ ← recordHistory jobID None Queued "job_created" (c_ActorUserID command);
  create_record command fingerprint jobID.

Definition create_tx (command : CreateCommand) (fingerprint : string) : Tx DB CreateOutcome :=
  if bool_decide (c_IdempotencyKey command = "") then create_new command fingerprint
  else
    existing ← findIdempotentJob (c_OwnerUserID command) (c_IdempotencyKey command) fingerprint;
    match existing with
    | Some item => mret (ReplayedJob item)
    | None => create_new command fingerprint
    end.

(** [Create], given the result of [ValidateCreateCommand]: the job and whether
    it was replayed. *)
Definition Create (validated : res string) (command : CreateCommand) (o : Oracle) (d : DB)
  : res (JobRow * bool) * DB :=
  match validated with
  | Err e => (Err e, d)
  | Ok fingerprint =>
      match create_tx command fingerprint o (mkWorld d 0) with
      | Err e => (Err e, d)
      | Ok (CreatedJob item, w) => (Ok (item, false), st w)
      | Ok (ReplayedJob item, w) => (Ok (item, true), st w)
      | Ok (RolledBack existing, _) =>
          match t_jobs d !! existing with
          | Some item => (Ok (item, true), d)
          | None => (Err ErrJobNotFound, d)
          end
      end
  end.

(** ** Cancellation *)

Record cancellationTarget := mkTarget { ct_AttemptID : uuid; ct_LeaseID : uuid; ct_WorkerID : uuid }.

Definition currentCancellationTarget (jobID : uuid) : Tx DB cancellationTarget :=
  d ← get_db;
  a ← lift_opt (ErrText "lock current job attempt for cancellation") (latest_attempt d jobID);
  match a_state a, a_lease_id a, a_worker_id a with
  | (AttemptLeased | AttemptRunning), Some leaseID, Some workerID =>
      if bool_decide (leaseID = uuid_nil ∨ workerID = uuid_nil) then fail ErrJobState
      else mret (mkTarget (a_id a) leaseID workerID)
  | _, _, _ => fail ErrJobState
  end.

Definition cancel_payload (jobID : uuid) (t : cancellationTarget) (reason : string) : json :=
  JObj [("jobId", json_uuid jobID); ("attemptId", json_uuid (ct_AttemptID t));
        ("leaseId", json_uuid (ct_LeaseID t)); ("reason", JStr reason)].

Definition enqueueCancel (item : JobRow) (target : cancellationTarget) (reason : string)
  (command : CancelCommand) : Tx DB unit :=
  let traceID := valueOrDefault (k_TraceID command) (uuid_string (j_id item)) in
  e ← NewEnvelope MessageJobCancel traceID (uuid_string (j_id item))
        (valueOrDefault (k_RequestID command) traceID) (cancel_payload (j_id item) target reason);
  routingKey ← lift_res (WorkerRoutingKey MessageJobCancel (ct_WorkerID target));
  enqueueEnvelopeWithRoutingKey e routingKey.

(** The UPDATE and INSERT statements of the QUEUED branch. *)
Definition cancel_queued_job (now : time) (r : JobRow) : JobRow :=
  set_j_state Cancelled (set_j_cancel_requested_at (Some now) (set_j_completed_at (Some now)
    (set_j_finished_at (Some now) (set_j_next_attempt_at None (set_j_updated_at now r))))).

Definition cancel_attempt (now : time) (r : AttemptRow) : AttemptRow :=
  set_a_state AttemptCancelled (set_a_finished_at (Some now) r).

Definition cancel_queued (item : JobRow) (reason : string) (now : time) (actor : uuid)
  : Tx DB JobRow :=
  _ ← update_job (j_id item) (cancel_queued_job now);
  d ← get_db;
  _ ← match latest_attempt d (j_id item) with
      | None => mret tt
      | Some a =>
          _ ← update_attempt (a_id a) (cancel_attempt now);
          project_if_absent (j_id item) (a_id a)
            (mkProjectionRow "CANCELLED" [] (Some "CANCELLED") (Some reason) (Some false))
      end;
  _ ← decrementQuota (j_owner_user_id item);
  _ ← recordHistory (j_id item) (Some (j_state item)) Cancelled "cancelled_before_lease" actor;
  getJobTx (j_id item).

Definition cancel_active (item : JobRow) (reason : string) (now : time) (command : CancelCommand)
  : Tx DB JobRow :=
  target ← currentCancellationTarget (j_id item);
  _ ← update_job (j_id item) (λ r,
        set_j_state CancelRequested (set_j_cancel_requested_at (Some now) (set_j_updated_at now r)));
  _ ← recordHistory (j_id item) (Some (j_state item)) CancelRequested "cancel_requested"
        (k_ActorUserID command);
  _ ← enqueueCancel item target reason command;
  getJobTx (j_id item).

Definition cancel_reason (command : CancelCommand) : string :=
  valueOrDefault (trim_space (k_Reason command)) "client_requested".

Definition RequestCancel (command : CancelCommand) : Tx DB JobRow :=
  _ ← require (negb (bool_decide (k_JobID command = uuid_nil ∨ k_ActorUserID command = uuid_nil)))
        ErrJobInvalidInput;
  item ← getJobTx (k_JobID command);
  _ ← require (k_AllowCrossOwner command || bool_decide (j_owner_user_id item = k_ActorUserID command))
        ErrForbidden;
  if bool_decide (j_state item = CancelRequested ∨ j_state item = Cancelled) then mret item
  else
    _ ← require (is_ok (ValidateTransition (job_state_string (j_state item))
                          (job_state_string CancelRequested))) ErrJobState;
    let reason := cancel_reason command in
    _ ← require (negb (500 <? go_len reason)) ErrJobInvalidInput;
    now ← time_now;
    if bool_decide (j_state item = Queued)
    then cancel_queued item reason now (k_ActorUserID command)
    else cancel_active item reason now command.

(** ** Retry *)

Definition enqueueRetryQueued (item : JobRow) (traceID causationID : string) : Tx DB unit :=
  let traceID := valueOrDefault traceID (uuid_string (j_id item)) in
  e ← NewEnvelope MessageJobQueued traceID (uuid_string (j_id item))
        (valueOrDefault causationID traceID) (queued_payload (j_id item));
  enqueueEnvelope e.

Definition requeue_job (now : time) (r : JobRow) : JobRow :=
  set_j_state Queued (set_j_queued_at (Some now) (set_j_next_attempt_at None (set_j_updated_at now
    (set_j_cancel_requested_at None (set_j_last_error_code None (set_j_last_error_message None r)))))).

Definition retryable_state (s : JobState) : bool :=
  bool_decide (s = FailedRetryable ∨ s = FailedPermanent ∨ s = DeadLettered).

Definition RequestRetry (command : RetryCommand) : Tx DB JobRow :=
  _ ← require (negb (bool_decide (y_JobID command = uuid_nil ∨ y_ActorUserID command = uuid_nil)))
        ErrJobInvalidInput;
  item ← getJobTx (y_JobID command);
  _ ← require (y_AllowCrossOwner command || bool_decide (j_owner_user_id item = y_ActorUserID command))
        ErrForbidden;
  if bool_decide (j_state item = Queued) then mret item
  else
    _ ← require (retryable_state (j_state item)) ErrJobState;
    _ ← incrementQuota (j_owner_user_id item);
    d ← get_db;
    let attemptNumber := next_attempt_number d (j_id item) in
    _ ← require (negb ((j_max_attempts item <? attemptNumber)
                       && negb (bool_decide (j_state item = DeadLettered)))) ErrJobState;
    now ← time_now;
    attemptID ← uuid_new;
    _ ← insert_attempt attemptID (j_id item) attemptNumber now;
    _ ← update_job (j_id item) (requeue_job now);
    _ ← recordHistory (j_id item) (Some (j_state item)) Queued "retry_requested" (y_ActorUserID command);
    _ ← enqueueRetryQueued item (y_TraceID command) (y_RequestID command);
    getJobTx (j_id item).
End repository.

(** ** Reads *)

Definition JobStore_Get (jobID : uuid) : Tx DB JobRow := getJobTx jobID.

Record ListQuery := mkListQuery {
  lq_OwnerUserID : option uuid; lq_Page : Z; lq_PageSize : Z; lq_State : string
}.

Record JobPage := mkJobPage { jp_Items : list JobRow; jp_Page : Z; jp_PageSize : Z; jp_Total : Z }.

(** [ORDER BY j.created_at DESC, j.id]. *)
Definition job_listed_before (x y : JobRow) : bool :=
  (j_created_at y <? j_created_at x)
  || ((j_created_at x =? j_created_at y) && (j_id x <? j_id y)%N).

Definition list_matches (q : ListQuery) (r : JobRow) : Prop :=
  match lq_OwnerUserID q with None => True | Some o => j_owner_user_id r = o end
  ∧ (lq_State q = "" ∨ job_state_string (j_state r) = lq_State q).

#[export] Instance list_matches_dec q r : Decision (list_matches q r).
Proof. unfold list_matches. destruct (lq_OwnerUserID q); apply _. Defined.

Definition List_ (q : ListQuery) : Tx DB JobPage :=
  _ ← require (negb ((lq_Page q <? 1) || (lq_PageSize q <? 1) || (100 <? lq_PageSize q))) ErrJobInvalidInput;
  d ← get_db;
  let matching := filter (list_matches q) (rows (t_jobs d)) in
  items ← sql_page (lq_Page q) (lq_PageSize q) (sort_by job_listed_before matching);
  mret (mkJobPage items (lq_Page q) (lq_PageSize q) (Z.of_nat (length matching))).

(** ** Queue selection *)

Record QueuedJob := mkQueuedJob { qj_Job : JobRow; qj_AttemptID : uuid }.

(** [ORDER BY j.priority DESC, j.created_at, j.id]. *)
Definition queued_before (x y : JobRow) : bool :=
  (j_priority y <? j_priority x)
  || ((j_priority x =? j_priority y)
      && ((j_created_at x <? j_created_at y)
          || ((j_created_at x =? j_created_at y) && (j_id x <? j_id y)%N))).

Definition ready (now : time) (r : JobRow) : bool :=
  bool_decide (j_state r = Queued)
  && match j_next_attempt_at r with None => true | Some t => t <=? now end.

(** [JOIN LATERAL (.. LIMIT 1) a ON TRUE]. *)
Definition with_latest_attempt (d : DB) (r : JobRow) : option QueuedJob :=
  a ← latest_attempt d (j_id r); Some (mkQueuedJob r (a_id a)).

Definition SelectQueued (limit : Z) : Tx DB (list QueuedJob) :=
  _ ← require (negb ((limit <? 1) || (1000 <? limit))) ErrJobInvalidInput;
  d ← get_db;
  now ← sql_now;
  locked ← locked_rows;
  mret (take (Z.to_nat limit)
    (omap (with_latest_attempt d)
      (sort_by queued_before
        (filter (λ r, ready now r = true ∧ locked (j_id r) = false) (rows (t_jobs d)))))).
