(* ===== verification/JobValidation.v ===== *)
(** Validation of job requests and their fingerprint: job/validation.go and
    job/validation_profile.go. *)

From S2P Require Import Prelude GoStrings Json Sha256 GoValue QualityRules Queue JobModel Schema Sql Outbox JobStore.
From stdpp Require Import strings sorting.

Open Scope Z_scope.

Definition MaxOperations : Z := 32.
Definition MaxConfigProperties : Z := 32.
Definition MaxOperationTypeLen : Z := 64.

Definition error {A} (text : string) : res A := Err (ErrText text).

(** ** Numbers *)

Definition finiteNumber (value : any) : option float64 :=
  '(number : float64) ← match value with
    | AInt _ z => Some (float64_of_Z z)
    | AFloat32 f => Some f
    | AFloat64 f => Some f
    | ANumber t => ParseFloat t
    | _ => None
    end;
  if finite number then Some number else None.

Definition boundedInteger `{GoArch} (value : any) : option Z :=
  number ← finiteNumber value; checked_int64 number.

(** A uint64 above the largest int64 is converted by wrapping, and refused. *)
Definition integerValue `{GoArch} (raw : any) : option Z :=
  match raw with
  | AInt (KInt | KInt8 | KInt16 | KInt32 | KInt64) z => Some z
  | AInt (KUint | KUint64) z => if z <=? MaxInt64 then Some z else None
  | ANumber t => ParseInt t
  | AFloat64 f => exact_int64 f
  | _ => None
  end.

Definition numericValue (raw : any) : option float64 :=
  match raw with
  | AFloat32 f => Some f
  | AFloat64 f => Some f
  | AInt (KInt | KInt64) z => Some (float64_of_Z z)
  | ANumber t => ParseFloat t
  | _ => None
  end.

Definition validateIntBound `{GoArch} (raw : any) (minimum maximum : Z) : res unit :=
  match integerValue raw with
  | Some value => guard_err ((minimum <=? value) && (value <=? maximum)) (ErrText "outside the supported bound")
  | None => error "outside the supported bound"
  end.

(** ** Columns *)

Definition validColumnName (value : string) : bool := columnNamePattern value.

Fixpoint collect_columns (seen : list string) (values : list any) : res (list string) :=
  match values with
  | [] => Ok []
  | AString column :: values =>
      if negb (validColumnName column) then error "contains an invalid column"
      else if bool_decide (column ∈ seen) then error "contains duplicate column"
      else result ← collect_columns (column :: seen) values; Ok (column :: result)
  | _ :: _ => error "contains an invalid column"
  end.

Definition requiredColumns (config : gomap) (key : string) : res (list string) :=
  match index config key with
  | ASlice (ElemAny | ElemString) values =>
      if (Z.of_nat (length values) =? 0) || (256 <? Z.of_nat (length values))
      then error "must contain between 1 and 256 columns"
      else collect_columns [] values
  | _ => error "must be a non-empty array"
  end.

Definition validateOptionalColumns (raw : any) : res unit :=
  match raw with
  | ASlice (ElemAny | ElemString) values =>
      if 256 <? Z.of_nat (length values) then error "must contain at most 256 columns"
      else _ ← collect_columns [] values; Ok tt
  | _ => error "must be an array"
  end.

Definition validateConfigKeys (config : gomap) (allowed : list string) : res unit :=
  guard_err (forallb (λ kv, bool_decide (kv.1 ∈ allowed)) config) (ErrText "unsupported config field").

(** ** Profiles *)

Fixpoint check_quantiles (seen : list float64) (values : list any) : res unit :=
  match values with
  | [] => Ok tt
  | value :: values =>
      match numericValue value with
      | None => error "quantiles must contain numbers between 0 and 1"
      | Some number =>
          if flt number (float64_of_Z 0) || fgt number (float64_of_Z 1)
          then error "quantiles must contain numbers between 0 and 1"
          else if existsb (feq number) seen then error "quantiles must not contain duplicates"
          else check_quantiles (number :: seen) values
      end
  end.

Definition validateQuantiles (raw : any) : res unit :=
  match raw with
  | ASlice (ElemAny | ElemFloat64) values =>
      if (Z.of_nat (length values) <? 1) || (32 <? Z.of_nat (length values))
      then error "quantiles must contain between 1 and 32 values"
      else check_quantiles [] values
  | _ => error "quantiles must be an array"
  end.

(** [if raw, ok := config[key]; ok { check(raw) }]. *)
Definition if_present (config : gomap) (key : string) (check : any → res unit) : res unit :=
  match assoc_first key config with Some raw => check raw | None => Ok tt end.

Definition one_of (choices : list string) (raw : any) : res unit :=
  match as_string raw with
  | Some s => guard_err (bool_decide (s ∈ choices)) (ErrText "invalid choice")
  | None => error "invalid choice"
  end.

Definition validateSampling `{GoArch} (raw : any) : res unit :=
  match as_map raw with
  | None => error "sampling must be an object"
  | Some sampling =>
      _ ← validateConfigKeys sampling ["strategy"; "maxRows"; "seed"];
      _ ← if_present sampling "strategy" (one_of ["RESERVOIR"]);
      _ ← if_present sampling "maxRows" (λ raw, validateIntBound raw 0 100000);
      if_present sampling "seed" (λ raw, validateIntBound raw 0 2147483647)
  end.

Definition validateProfileConfig `{GoArch} (config : gomap) : res unit :=
  _ ← validateConfigKeys config ["sampling"; "includeCommonValues"; "maxCommonValues"; "quantiles";
        "distinctStrategy"; "maxDistinctValues"; "maxMemoryBytes"; "sensitiveColumns"];
  _ ← if_present config "sampling" validateSampling;
  _ ← if_present config "includeCommonValues"
        (λ raw, guard_err (bool_decide (is_Some (as_bool raw))) (ErrText "includeCommonValues must be boolean"));
  _ ← if_present config "maxCommonValues" (λ raw, validateIntBound raw 0 100);
  _ ← if_present config "quantiles" validateQuantiles;
  _ ← if_present config "distinctStrategy" (one_of ["EXACT"; "APPROXIMATE"]);
  _ ← if_present config "maxDistinctValues" (λ raw, validateIntBound raw 128 1000000);
  _ ← if_present config "maxMemoryBytes" (λ raw, validateIntBound raw (2 ^ 20) (2 ^ 32));
  if_present config "sensitiveColumns" validateOptionalColumns.

(** ** Outliers *)

(** The constant 0.0001. *)
Definition min_threshold : float64 := round64 false 1 10000.

Definition check_threshold (value : any) : res unit :=
  match finiteNumber value with
  | Some threshold =>
      guard_err (negb (flt threshold min_threshold || fgt threshold (float64_of_Z 1000)))
        (ErrText "threshold is outside the supported bound")
  | None => error "threshold is outside the supported bound"
  end.

Definition check_integer `{GoArch} (minimum maximum : Z) (value : any) : res unit :=
  match boundedInteger value with
  | Some n => guard_err ((minimum <=? n) && (n <=? maximum)) (ErrText "outside the supported bound")
  | None => error "outside the supported bound"
  end.

Definition validateOutlierConfig `{GoArch} (config : gomap) : res unit :=
  _ ← validateConfigKeys config ["column"; "method"; "threshold"; "nullPolicy"; "minimumSampleSize"; "sampleOutputLimit"];
  _ ← match as_string (index config "column") with
      | Some column => guard_err (validColumnName column) (ErrText "column is invalid")
      | None => error "column is invalid"
      end;
  _ ← one_of ["IQR"; "Z_SCORE"; "MODIFIED_Z_SCORE"] (index config "method");
  _ ← if_present config "threshold" check_threshold;
  _ ← if_present config "nullPolicy" (one_of ["SKIP"; "FAIL"]);
  _ ← if_present config "minimumSampleSize" (check_integer 3 1000000);
  if_present config "sampleOutputLimit" (check_integer 0 128).

(** ** Operations *)

(** The configuration as the decoder of the request left it. *)
Definition Config (operation : Operation) : option gomap :=
  any_of_members <$> op_config operation.

Definition validateOperationConfig `{GoArch} `{Regexp} (operationType : string) (config : gomap) : res unit :=
  let case t := bool_decide (operationType = t) in
  if case "PROFILE_DATASET" then validateProfileConfig config
  else if case "CHECK_MISSING_VALUES" then
    _ ← validateConfigKeys config ["columns"]; _ ← requiredColumns config "columns"; Ok tt
  else if case "CHECK_DUPLICATES" then
    _ ← validateConfigKeys config ["keyColumns"]; _ ← requiredColumns config "keyColumns"; Ok tt
  else if case "DETECT_OUTLIERS" then validateOutlierConfig config
  else if case "VALIDATE_QUALITY" then
    _ ← validateConfigKeys config ["rules"]; quality.ValidateSnapshotRules (index config "rules")
  else error "type is not supported".

Definition validateOperation `{GoArch} `{Regexp} (operation : Operation) : res unit :=
  let operationType := trim_space (op_type operation) in
  if bool_decide (operationType = "") || bool_decide (operationType ≠ op_type operation)
     || (MaxOperationTypeLen <? go_len operationType)
  then Err ErrJobInvalidInput else
  match Config operation with
  | None => Err ErrJobInvalidInput
  | Some config =>
      if MaxConfigProperties <? Z.of_nat (length config) then Err ErrJobInvalidInput
      else wrap_err ErrJobInvalidInput (validateOperationConfig operationType config)
  end.

Fixpoint validate_each `{GoArch} `{Regexp} (operations : list Operation) : res unit :=
  match operations with
  | [] => Ok tt
  | operation :: operations => _ ← validateOperation operation; validate_each operations
  end.

Definition ValidateOperations `{GoArch} `{Regexp} (operations : list Operation) : res unit :=
  if (Z.of_nat (length operations) =? 0) || (MaxOperations <? Z.of_nat (length operations))
  then Err ErrJobInvalidInput else validate_each operations.

(** ** Fingerprints *)

(** A decoded object is a map, so the last of several members with one name counts;
    [sort.Strings] orders the names by their bytes. *)
Definition sorted_keys {A} (members : list (string * A)) : list string :=
  merge_sort String.le (remove_dups (map fst members)).

Definition canonical_member (members : list (string * list N)) (key : string) : list N :=
  quote key ++ [58%N] ++ default [] (assoc_last key members).

Fixpoint canonicalValue (value : json) : list N :=
  match value with
  | JObj typed =>
      let members := map (λ kv, (kv.1, canonicalValue kv.2)) typed in
      [123%N] ++ Json.join [44%N] (map (canonical_member members) (sorted_keys members)) ++ [125%N]
  | JArr typed => [91%N] ++ Json.join [44%N] (map canonicalValue typed) ++ [93%N]
  | _ => json_marshal value
  end.

(** [decoder.Decode]: the next value of the input and what follows it. *)
Definition decode_next (l : list N) : option (json * list N) := parse_value (S (2 * length l)) 0 l.

(** The argument is the JSON value [json.Marshal] writes for the Go value: members
    of a struct in its order, of a map in any order ([CanonicalJSON_iff]). *)
Definition CanonicalJSON (value : json) : res (list N) :=
  match decode_next (json_marshal value) with
  | None => error "decode"
  | Some (normalized, rest) =>
      match decode_next rest with
      | Some _ => error "multiple JSON values"
      | None => Ok (canonicalValue normalized)
      end
  end.

Definition fingerprintValue (value : json) : res string :=
  canonical ← wrap_err ErrJobInvalidInput (CanonicalJSON value);
  Ok (EncodeToString (Sum256 canonical)).

Definition Fingerprint (operations : list Operation) : res string :=
  canonical ← wrap_err ErrJobInvalidInput (CanonicalJSON (JArr (map json_operation operations)));
  Ok (EncodeToString (Sum256 canonical)).

(** The anonymous struct of [RequestFingerprint]. *)
Definition request_json (datasetVersionID : uuid) (operations : list Operation) (priority maxAttempts : Z) : json :=
  JObj [("datasetVersionId", json_uuid datasetVersionID);
        ("operations", JArr (map json_operation operations));
        ("priority", json_int priority);
        ("maxAttempts", json_int maxAttempts)].

Definition request_value (command : CreateCommand) : json :=
  request_json (c_DatasetVersionID command) (c_Operations command) (c_Priority command) (c_MaxAttempts command).

Definition RequestFingerprint (command : CreateCommand) : res string :=
  fingerprintValue (request_value command).

Definition ValidateCreateCommand `{GoArch} `{Regexp} (command : CreateCommand) : res string :=
  if bool_decide (c_OwnerUserID command = 0%N) || bool_decide (c_ActorUserID command = 0%N)
     || bool_decide (c_DatasetVersionID command = 0%N)
  then Err ErrJobInvalidInput else
  _ ← ValidateOperations (c_Operations command);
  if (c_Priority command <? 0) || (MaxPriority <? c_Priority command) then Err ErrJobInvalidInput else
  if (c_MaxAttempts command <? 1) || (JobMaxAttempts <? c_MaxAttempts command) then Err ErrJobInvalidInput else
  if MaxIdempotencyKeySize <? go_len (c_IdempotencyKey command) then Err ErrJobInvalidInput else
  if bool_decide (c_TraceID command = "") then Err ErrJobInvalidInput else
  RequestFingerprint command.
