(* ===== verification/ValidationSpec.v ===== *)
(** What the validators accept, said of the JSON of a request: a grammar of
    operations and of quality rules that does not mention loops, conversions or the
    architecture, and the proof that the code accepts exactly it. *)

From S2P Require Import Prelude GoStrings Json GoValue QualityRules Queue JobModel Schema Sql Outbox JobStore JobValidation.
From Stdlib Require Import ZifyBool ZifyN.

Open Scope Z_scope.

(** ** The grammar *)

(** A number, as the float64 it is read as. *)
Definition is_number (v : json) (f : float64) : Prop := ∃ t, v = JNum t ∧ ParseFloat t = Some f.

Definition number_such_that (P : float64 → Prop) (v : json) : Prop := ∃ f, is_number v f ∧ P f.

(** A number that is an integer between the bounds. *)
Definition int_within (lo hi : Z) : json → Prop :=
  number_such_that (λ f, ∃ z, exact f = Some z ∧ lo <= z <= hi).

Definition text_such_that (P : string → Prop) (v : json) : Prop := ∃ s, v = JStr s ∧ P s.
Definition choice (l : list string) : json → Prop := text_such_that (.∈ l).
Definition is_column (s : string) : Prop := columnNamePattern s = true.

(** Between [lo] and [hi] distinct column names. *)
Definition columns_between (lo hi : Z) (v : json) : Prop :=
  ∃ l, v = JArr (JStr <$> l) ∧ lo <= Z.of_nat (length l) <= hi ∧ Forall is_column l ∧ NoDup l.

Definition optional (config : members) (key : string) (P : json → Prop) : Prop :=
  ∀ v, assoc_first key config = Some v → P v.
Definition required (config : members) (key : string) (P : json → Prop) : Prop :=
  ∃ v, assoc_first key config = Some v ∧ P v.
Definition only_keys (keys : list string) (config : members) : Prop := Forall (λ kv, kv.1 ∈ keys) config.

Definition valid_quantiles (v : json) : Prop :=
  ∃ l fs, v = JArr l ∧ 1 <= Z.of_nat (length l) <= 32 ∧ Forall2 is_number l fs
    ∧ Forall (λ f, flt f (float64_of_Z 0) = false ∧ fgt f (float64_of_Z 1) = false) fs
    ∧ ForallOrdPairs (λ f g, feq g f = false) fs.

Definition valid_sampling (v : json) : Prop :=
  ∃ m, v = JObj m ∧ only_keys ["strategy"; "maxRows"; "seed"] m
    ∧ optional m "strategy" (choice ["RESERVOIR"])
    ∧ optional m "maxRows" (int_within 0 100000) ∧ optional m "seed" (int_within 0 2147483647).

Definition valid_profile (config : members) : Prop :=
  only_keys ["sampling"; "includeCommonValues"; "maxCommonValues"; "quantiles";
             "distinctStrategy"; "maxDistinctValues"; "maxMemoryBytes"; "sensitiveColumns"] config
  ∧ optional config "sampling" valid_sampling
  ∧ optional config "includeCommonValues" (λ v, ∃ b, v = JBool b)
  ∧ optional config "maxCommonValues" (int_within 0 100)
  ∧ optional config "quantiles" valid_quantiles
  ∧ optional config "distinctStrategy" (choice ["EXACT"; "APPROXIMATE"])
  ∧ optional config "maxDistinctValues" (int_within 128 1000000)
  ∧ optional config "maxMemoryBytes" (int_within (2 ^ 20) (2 ^ 32))
  ∧ optional config "sensitiveColumns" (columns_between 0 256).

Definition valid_outliers (config : members) : Prop :=
  only_keys ["column"; "method"; "threshold"; "nullPolicy"; "minimumSampleSize"; "sampleOutputLimit"] config
  ∧ required config "column" (text_such_that is_column)
  ∧ required config "method" (choice ["IQR"; "Z_SCORE"; "MODIFIED_Z_SCORE"])
  ∧ optional config "threshold" (number_such_that (λ f, flt f min_threshold = false ∧ fgt f (float64_of_Z 1000) = false))
  ∧ optional config "nullPolicy" (choice ["SKIP"; "FAIL"])
  ∧ optional config "minimumSampleSize" (int_within 3 1000000)
  ∧ optional config "sampleOutputLimit" (int_within 0 128).

(** A text without line breaks, at most [n] bytes long. *)
Definition short_text (n : Z) (s : string) : Prop :=
  s ≠ "" ∧ go_len s <= n ∧ contains_any s [13; 10]%N = false.

Definition is_scalar (v : json) : Prop :=
  match v with
  | JNull | JBool _ | JStr _ => True
  | JNum t => is_Some (ParseFloat t)
  | JArr _ | JObj _ => False
  end.

Definition safe_pattern `{Regexp} (s : string) : Prop :=
  0 < go_len s <= 512 ∧ contains_any s [40; 41; 124]%N = false
  ∧ quality.bytes_contain [92; 49]%N (bytes_of s) = false ∧ quality.bytes_contain [92; 50]%N (bytes_of s) = false
  ∧ regexp_compiles s = true.

(** The settings of each type of rule, [CUSTOM_EXPRESSION] having none. *)
Inductive valid_settings `{Regexp} (config : members) : string → Prop :=
  | settings_none ty : ty ∈ ["NOT_NULL"; "EMAIL_FORMAT"] → only_keys [] config → valid_settings config ty
  | settings_unique :
      only_keys ["maxTrackedValues"] config → optional config "maxTrackedValues" (int_within 1 2000000) →
      valid_settings config "UNIQUE"
  | settings_range ty lo hi :
      ty ∈ ["BETWEEN"; "ROW_COUNT_BETWEEN"] → only_keys ["min"; "max"] config →
      required config "min" (λ v, is_number v lo) → required config "max" (λ v, is_number v hi) →
      fgt lo hi = false → valid_settings config ty
  | settings_length ty :
      ty ∈ ["MIN_LENGTH"; "MAX_LENGTH"] → only_keys ["value"] config →
      required config "value" (int_within 0 1000000) → valid_settings config ty
  | settings_regex :
      only_keys ["pattern"] config → required config "pattern" (text_such_that safe_pattern) →
      valid_settings config "REGEX"
  | settings_date :
      only_keys ["format"] config → required config "format" (text_such_that (short_text 64)) →
      valid_settings config "DATE_FORMAT"
  | settings_values ty :
      ty ∈ ["ALLOWED_VALUES"; "REFERENTIAL_SET"] → only_keys ["values"] config →
      required config "values" (λ v, ∃ l, v = JArr l ∧ 1 <= Z.of_nat (length l) <= 10000 ∧ Forall is_scalar l) →
      valid_settings config ty
  | settings_type :
      only_keys ["type"] config →
      required config "type" (choice ["string"; "integer"; "number"; "boolean"; "date"; "datetime"]) →
      valid_settings config "COLUMN_TYPE".

(** How many columns a rule is about. *)
Definition columns_of (ty : string) (n : Z) : Prop :=
  if bool_decide (ty = "ROW_COUNT_BETWEEN") then n = 0
  else 1 <= n <= (if bool_decide (ty = "UNIQUE") then 16 else 1).

Definition valid_rule `{Regexp} (v : json) (id : string) : Prop :=
  ∃ m name columns ty config,
    v = JObj m ∧ only_keys quality.snapshot_fields m
    ∧ assoc_first "id" m = Some (JStr id) ∧ trim_space id ≠ "" ∧ go_len id <= 128 ∧ contains_any id [13; 10]%N = false
    ∧ assoc_first "name" m = Some (JStr name) ∧ short_text 120 (trim_space name)
    ∧ assoc_first "columnScope" m = Some (JArr (JStr <$> columns)) ∧ Forall is_column columns ∧ NoDup columns
    ∧ columns_of ty (Z.of_nat (length columns))
    ∧ assoc_first "ruleType" m = Some (JStr ty) ∧ assoc_first "configuration" m = Some (JObj config)
    ∧ valid_settings config ty
    ∧ required m "severity" (choice ["INFO"; "WARNING"; "ERROR"; "CRITICAL"])
    ∧ required m "enabled" (λ v, ∃ b, v = JBool b).

(** One to 256 rules with distinct identifiers. *)
Definition valid_rules `{Regexp} (v : json) : Prop :=
  ∃ rules ids, v = JArr rules ∧ 1 <= Z.of_nat (length rules) <= 256
    ∧ Forall2 valid_rule rules ids ∧ NoDup ids.

Inductive valid_operation `{Regexp} : Operation → Prop :=
  | valid_PROFILE_DATASET config :
      Z.of_nat (length config) <= 32 → valid_profile config → valid_operation (mkOperation "PROFILE_DATASET" (Some config))
  | valid_CHECK_MISSING_VALUES config :
      Z.of_nat (length config) <= 32 → only_keys ["columns"] config → required config "columns" (columns_between 1 256) →
      valid_operation (mkOperation "CHECK_MISSING_VALUES" (Some config))
  | valid_CHECK_DUPLICATES config :
      Z.of_nat (length config) <= 32 → only_keys ["keyColumns"] config →
      required config "keyColumns" (columns_between 1 256) →
      valid_operation (mkOperation "CHECK_DUPLICATES" (Some config))
  | valid_DETECT_OUTLIERS config :
      Z.of_nat (length config) <= 32 → valid_outliers config → valid_operation (mkOperation "DETECT_OUTLIERS" (Some config))
  | valid_VALIDATE_QUALITY config :
      Z.of_nat (length config) <= 32 → only_keys ["rules"] config → required config "rules" valid_rules →
      valid_operation (mkOperation "VALIDATE_QUALITY" (Some config)).

(** ** From the grammar to the code *)

Abbreviation conv := any_of_members.

Lemma assoc_first_conv key config : assoc_first key (conv config) = any_of_json <$> assoc_first key config.
Proof. induction config as [|[k v] config IH]; simpl; [done|]. by case_bool_decide. Qed.

Lemma index_conv config key : index (conv config) key = from_option any_of_json ANil (assoc_first key config).
Proof. unfold index. rw assoc_first_conv. by destruct (assoc_first key config). Qed.

Lemma guard_iff b e u : guard_err b e = Ok u ↔ b = true.
Proof. destruct b, u; naive_solver. Qed.

Lemma bind_iff {A B} (m : res A) (f : A → res B) b :
  (m ≫= f) = Ok b ↔ ∃ a, m = Ok a ∧ f a = Ok b.
Proof. split; [apply res_bind_Ok|]. by intros (a&->&?). Qed.

Lemma bind_unit_iff {B} (m : res unit) (f : unit → res B) b : (m ≫= f) = Ok b ↔ m = Ok tt ∧ f tt = Ok b.
Proof. rw bind_iff. split; [by intros ([]&?&?)|naive_solver]. Qed.

Lemma wrap_iff {A} e (r : res A) a : wrap_err e r = Ok a ↔ r = Ok a.
Proof. by destruct r. Qed.

Lemma error_iff {A} t (a : A) P : (P → False) → error t = Ok a ↔ P.
Proof. split; [done|tauto]. Qed.

Lemma keys_iff keys config e u :
  guard_err (forallb (λ kv, bool_decide (kv.1 ∈ keys)) (conv config)) e = Ok u ↔ only_keys keys config.
Proof.
  rw guard_iff forallb_forall. unfold only_keys. rw list.Forall_forall. split.
  - intros H [k v] Hin. apply (bool_decide_eq_true _). apply (H (k, any_of_json v)).
    apply in_map_iff. exists (k, v). split; [done|by apply list_elem_of_In].
  - intros H kv Hkv. unfold any_of_members in Hkv. apply in_map_iff in Hkv as ([k v]&<-&Hin%list_elem_of_In).
    apply bool_decide_eq_true. by apply (H (k, v)).
Qed.

(** A check of the member [key], when it is there, and of one that must be there. *)
Lemma if_present_iff config key chk P :
  (∀ v, chk (any_of_json v) = Ok tt ↔ P v) → if_present (conv config) key chk = Ok tt ↔ optional config key P.
Proof.
  intros H. unfold if_present, optional. rw assoc_first_conv. destruct (assoc_first key config); simpl; naive_solver.
Qed.

Lemma index_iff {A} config key (chk : any → res A) a P :
  chk ANil ≠ Ok a → (∀ v, chk (any_of_json v) = Ok a ↔ P v) →
  chk (index (conv config) key) = Ok a ↔ required config key P.
Proof.
  intros Hn H. unfold required. rw index_conv. destruct (assoc_first key config); simpl; naive_solver.
Qed.

Lemma as_string_iff v s : as_string (any_of_json v) = Some s ↔ v = JStr s.
Proof. destruct v as [| |t| | |]; simpl; [naive_solver..| |naive_solver|naive_solver|naive_solver]. destruct (ParseFloat t); naive_solver. Qed.

Lemma as_bool_iff v b : as_bool (any_of_json v) = Some b ↔ v = JBool b.
Proof. destruct v as [| |t| | |]; simpl; [naive_solver..| |naive_solver|naive_solver|naive_solver]. destruct (ParseFloat t); naive_solver. Qed.

Lemma as_map_iff v m : as_map (any_of_json v) = Some m ↔ ∃ l, v = JObj l ∧ m = conv l.
Proof. destruct v as [| |t| | |]; simpl; [naive_solver..| |naive_solver|naive_solver|naive_solver]. destruct (ParseFloat t); naive_solver. Qed.

(** Checks of a text. *)
Lemma text_iff (chk : string → res unit) (t : string) P v :
  (∀ s, chk s = Ok tt ↔ P s) →
  match as_string (any_of_json v) with Some s => chk s | None => error t end = Ok tt ↔ text_such_that P v.
Proof.
  intros H. unfold text_such_that. destruct (as_string (any_of_json v)) as [s|] eqn:E.
  - apply as_string_iff in E as ->. rw H. naive_solver.
  - apply error_iff. intros (s&->&_). done.
Qed.

Lemma one_of_iff l v : one_of l (any_of_json v) = Ok tt ↔ choice l v.
Proof. apply text_iff. intros s. by rw guard_iff bool_decide_eq_true. Qed.

(** ** Numbers *)

Lemma ParseFloat_finite t f : ParseFloat t = Some f → finite f = true.
Proof. unfold ParseFloat. intros ([[neg m] e]&_&E)%bind_Some. case_match; naive_solver. Qed.

Lemma number_cases v :
  (∃ f, any_of_json v = AFloat64 f ∧ is_number v f ∧ finite f = true)
  ∨ ((∀ f, ¬ is_number v f) ∧ finiteNumber (any_of_json v) = None ∧ numericValue (any_of_json v) = None
     ∧ quality.numberValue (any_of_json v) = None ∧ ∀ `{GoArch}, integerValue (any_of_json v) = None).
Proof.
  unfold is_number. destruct v as [| |t| | |]; try (right; split_and!; [by intros f (?&?&?)|done..]).
  simpl. destruct (ParseFloat t) as [f|] eqn:E; [left|right].
  - exists f. split; [done|]. split; [eauto|by eapply ParseFloat_finite].
  - split_and!; [|done..]. intros f (t'&[= <-]&?). congruence.
Qed.

Lemma is_number_inj v f g : is_number v f → is_number v g → f = g.
Proof. intros (?&->&?) (?&[= <-]&?). congruence. Qed.

Lemma finiteNumber_iff v f : finiteNumber (any_of_json v) = Some f ↔ is_number v f.
Proof.
  destruct (number_cases v) as [(g&->&Hg&Hf)|(Hn&->&_)]; [|naive_solver].
  unfold finiteNumber. simpl. rw Hf. split; [by intros [= <-]|]. intros H. f_equal. by eapply is_number_inj.
Qed.

Lemma numberValue_iff v f : quality.numberValue (any_of_json v) = Some f ↔ is_number v f.
Proof.
  destruct (number_cases v) as [(g&->&Hg&Hf)|(Hn&_&_&->&_)]; [|naive_solver].
  unfold quality.numberValue. simpl. rw Hf. split; [by intros [= <-]|]. intros H. f_equal. by eapply is_number_inj.
Qed.

Lemma numericValue_iff v f : numericValue (any_of_json v) = Some f ↔ is_number v f.
Proof.
  destruct (number_cases v) as [(g&->&Hg&Hf)|(Hn&_&->&_)]; [|naive_solver].
  simpl. split; [by intros [= <-]|]. intros H. f_equal. by eapply is_number_inj.
Qed.

Section integers.
Context `{GoArch} (lo hi : Z) (Hlo : - 2 ^ 53 < lo) (Hhi : hi < 2 ^ 53).

Lemma bounds_iff (o : option Z) (v : json) (conv : float64 → option Z) t :
  (∀ f, is_number v f → o = conv f) → ((∀ f, ¬ is_number v f) → o = None) →
  (∀ f, finite f = true → (∃ n, conv f = Some n ∧ lo <= n <= hi) ↔ ∃ z, exact f = Some z ∧ lo <= z <= hi) →
  match o with
  | Some n => guard_err ((lo <=? n) && (n <=? hi)) (ErrText t)
  | None => error t
  end = Ok tt ↔ int_within lo hi v.
Proof.
  intros Ho Hn Hconv. unfold int_within, number_such_that.
  destruct (number_cases v) as [(f&_&Hf&Hfin)|(Hno&_)].
  - rw (Ho f Hf). trans (∃ n, conv f = Some n ∧ lo <= n <= hi).
    + destruct (conv f) as [n|]; [|split; [done|naive_solver]]. rw guard_iff andb_true_iff !Z.leb_le. naive_solver.
    + rw Hconv //. split; [eauto|]. intros (g&Hg&Hz). by rw (is_number_inj v f g).
  - rw Hn //. split; [done|]. intros (f&Hf&_). by destruct (Hno f).
Qed.

Lemma validateIntBound_iff v : validateIntBound (any_of_json v) lo hi = Ok tt ↔ int_within lo hi v.
Proof.
  apply (bounds_iff _ v exact_int64).
  - by intros f (t&->&E); simpl; rw E.
  - intros Hn. destruct (number_cases v) as [(f&_&Hf&_)|(_&_&_&_&E)]; [by destruct (Hn f)|apply E].
  - intros f. by apply exact_int64_spec.
Qed.

Lemma check_integer_iff v : check_integer lo hi (any_of_json v) = Ok tt ↔ int_within lo hi v.
Proof.
  apply (bounds_iff _ v checked_int64).
  - intros f Hf. unfold boundedInteger. by rw (proj2 (finiteNumber_iff v f) Hf).
  - intros Hn. unfold boundedInteger. destruct (finiteNumber (any_of_json v)) as [f|] eqn:E; [|done].
    apply finiteNumber_iff in E. by destruct (Hn f).
  - intros f. by apply checked_int64_spec.
Qed.

Lemma quality_boundedInteger_iff config key :
  quality.boundedInteger (conv config) key lo hi = Ok tt ↔ required config key (int_within lo hi).
Proof.
  unfold quality.boundedInteger.
  apply (index_iff config key (λ v, match quality.integerValue v with Some value => _ | None => _ end)); [done|].
  intros v. apply (bounds_iff _ v checked_int64).
  - intros f Hf. unfold quality.integerValue. by rw (proj2 (numberValue_iff v f) Hf).
  - intros Hn. unfold quality.integerValue. destruct (quality.numberValue (any_of_json v)) as [f|] eqn:E; [|done].
    apply numberValue_iff in E. by destruct (Hn f).
  - intros f. by apply checked_int64_spec.
Qed.
End integers.

(** ** Lists of columns *)

Lemma collect_columns_iff seen l r :
  collect_columns seen (map any_of_json l) = Ok r
  ↔ l = JStr <$> r ∧ Forall is_column r ∧ NoDup r ∧ Forall (.∉ seen) r.
Proof.
  revert seen r. induction l as [|v l IH]; intros seen r; simpl.
  - split; [intros [= <-]; split_and!; constructor|]. intros (E&_). by destruct r.
  - destruct (as_string (any_of_json v)) as [s|] eqn:Es.
    + apply as_string_iff in Es as ->. cbn [any_of_json]. unfold validColumnName, is_column.
      destruct (columnNamePattern s) eqn:Hs; simpl; last first.
      { apply error_iff. intros (E&Hf&_). destruct r as [|s' r]; [done|]. injection E as <- _. inv Hf. congruence. }
      case_bool_decide as Hseen.
      { apply error_iff. intros (E&_&_&Hf). destruct r as [|s' r]; [done|]. injection E as <- _. by inv Hf. }
      rw bind_iff. setoid_rewrite IH. split.
      * intros (r'&(->&Hc&Hn&Hs')&[= <-]). split_and!; [done|by constructor|constructor; [|done]|constructor; [done|]].
        -- intros Hin. rw list.Forall_forall in Hs'. apply (Hs' s); [done|by left].
        -- eapply Forall_impl; [|exact Hs']. set_solver.
      * intros (E&Hc&Hn&Hf). destruct r as [|s' r]; [done|]. injection E as <- ->.
        apply list.Forall_cons in Hc as [_ Hc], Hf as [_ Hf]. apply list.NoDup_cons in Hn as [Hni Hn].
        exists r. split_and!; try done. apply list.Forall_forall. intros x Hx. rw list.Forall_forall in Hf. set_solver.
    + assert (¬ ∃ r, v :: l = JStr <$> r) as Hno.
      { intros ([|s r']&E); [done|]. injection E as -> _. done. }
      split; [|by intros (E&_); destruct Hno; eauto].
      destruct (any_of_json v); done.
Qed.

Lemma columns_iff lo hi v (chk : list any → bool) t :
  (∀ l, chk l = negb ((lo <=? Z.of_nat (length l)) && (Z.of_nat (length l) <=? hi))) →
  match any_of_json v with
  | ASlice (ElemAny | ElemString) values => if chk values then error t else _ ← collect_columns [] values; Ok tt
  | _ => error t
  end = Ok tt ↔ columns_between lo hi v.
Proof.
  intros Hchk. unfold columns_between. destruct v as [| |n| |l|]; simpl;
    try (apply error_iff; by intros (?&?&_)).
  - destruct (ParseFloat n); apply error_iff; by intros (?&?&_).
  - rw Hchk length_map. destruct (_ && _) eqn:Hb; simpl.
    + rw bind_iff. setoid_rewrite collect_columns_iff. split.
      * intros (r&(->&?&?&_)&_). rw length_fmap in Hb. exists r. split_and!; try done; lia.
      * intros (r&[= ->]&Hlen&?&?). exists r. split_and!; try done. apply list.Forall_forall. set_solver.
    + apply error_iff. intros (r&[= ->]&Hlen&_). rw length_fmap in Hb. lia.
Qed.

Lemma requiredColumns_iff config key :
  (_ ← requiredColumns (conv config) key; Ok tt) = Ok tt ↔ required config key (columns_between 1 256).
Proof.
  apply (index_iff config key (λ v, _ ← match v with ASlice (ElemAny | ElemString) values => _ | _ => _ end; Ok tt)); [done|].
  intros v. rw -(columns_iff 1 256 v (λ l, (Z.of_nat (length l) =? 0) || (256 <? Z.of_nat (length l))) "t").
  { intros l. lia. }
  destruct (any_of_json v) as [| | | | | | |[] l| |]; try done; case_match; done.
Qed.

Lemma validateOptionalColumns_iff v : validateOptionalColumns (any_of_json v) = Ok tt ↔ columns_between 0 256 v.
Proof.
  rw -(columns_iff 0 256 v (λ l, 256 <? Z.of_nat (length l)) "t"); [intros l; lia|].
  unfold validateOptionalColumns. destruct (any_of_json v) as [| | | | | | |[] l| |]; try done; case_match; done.
Qed.

(** ** Profiles and outliers *)

Lemma check_quantiles_iff seen l :
  check_quantiles seen (map any_of_json l) = Ok tt
  ↔ ∃ fs, Forall2 is_number l fs
      ∧ Forall (λ f, flt f (float64_of_Z 0) = false ∧ fgt f (float64_of_Z 1) = false) fs
      ∧ ForallOrdPairs (λ f g, feq g f = false) fs ∧ Forall (λ f, existsb (feq f) seen = false) fs.
Proof.
  revert seen. induction l as [|v l IH]; intros seen; cbn [map check_quantiles].
  { split; [intros _; exists []; split_and!; constructor|done]. }
  destruct (numericValue (any_of_json v)) as [f|] eqn:E; last first.
  { apply error_iff. intros (fs&HF&_). inv HF. rename select (is_number v _) into Hn.
    apply numericValue_iff in Hn. congruence. }
  apply numericValue_iff in E. destruct (flt f _ || fgt f _) eqn:Hr.
  { apply error_iff. intros (fs&HF&Hall&_). inv HF. rename select (is_number v _) into Hn.
    rw (is_number_inj v f _ E Hn) in Hr. apply list.Forall_cons in Hall as [[H1 H2] _]. by rw H1 H2 in Hr. }
  apply orb_false_iff in Hr as [Hr1 Hr2]. destruct (existsb (feq f) seen) eqn:Hs.
  { apply error_iff. intros (fs&HF&_&_&Hall). inv HF. rename select (is_number v _) into Hn.
    rw (is_number_inj v f _ E Hn) in Hs. apply list.Forall_cons in Hall as [? _]. congruence. }
  rw IH. split.
  - intros (fs&HF&Hall&Hp&Hd). exists (f :: fs). split_and!; [by constructor|by constructor| |].
    + constructor; [|done]. eapply Forall_impl; [|exact Hd]. simpl. intros g [? _]%orb_false_iff. done.
    + constructor; [done|]. eapply Forall_impl; [|exact Hd]. simpl. by intros g [_ ?]%orb_false_iff.
  - intros (fs&HF&Hall&Hp&Hd). inv HF. rename select (is_number v _) into Hn.
    rw -(is_number_inj v f _ E Hn) in Hall Hp Hd. exists l'. apply list.Forall_cons in Hall as [_ Hall], Hd as [_ Hd].
    inv Hp. rename select (Forall _ l') into Hfs. split_and!; try done.
    apply list.Forall_forall. intros g Hg. simpl. rw list.Forall_forall in Hfs. rw list.Forall_forall in Hd.
    apply orb_false_iff. split; [by apply Hfs|by apply Hd].
Qed.

Lemma validateQuantiles_iff v : validateQuantiles (any_of_json v) = Ok tt ↔ valid_quantiles v.
Proof.
  unfold valid_quantiles, validateQuantiles. destruct v as [| |n| |l|]; cbn [any_of_json];
    try (apply error_iff; by intros (?&?&?&_)).
  - destruct (ParseFloat n); apply error_iff; by intros (?&?&?&_).
  - rw length_map. destruct (_ || _) eqn:Hb.
    + apply error_iff. intros (l'&fs&[= <-]&Hlen&_). lia.
    + rw check_quantiles_iff. split.
      * intros (fs&?&?&?&_). exists l, fs. split_and!; try done; lia.
      * intros (l'&fs&[= <-]&_&?&?&?). exists fs. split_and!; try done. by apply list.Forall_true.
Qed.

Lemma is_bool_iff v e : guard_err (bool_decide (is_Some (as_bool (any_of_json v)))) e = Ok tt ↔ ∃ b, v = JBool b.
Proof. rw guard_iff bool_decide_eq_true. unfold is_Some. by setoid_rewrite as_bool_iff. Qed.

Section grammar.
Context `{GoArch, Regexp}.

Lemma validateSampling_iff v : validateSampling (any_of_json v) = Ok tt ↔ valid_sampling v.
Proof.
  unfold validateSampling, valid_sampling. destruct (as_map (any_of_json v)) as [m|] eqn:E; last first.
  { apply error_iff. by intros (m&->&_). }
  apply as_map_iff in E as (l&->&->). rw !bind_unit_iff keys_iff.
  rw (if_present_iff _ _ _ (choice ["RESERVOIR"])); [apply one_of_iff|].
  rw (if_present_iff _ _ _ (int_within 0 100000)); [by intros; apply validateIntBound_iff|].
  rw (if_present_iff _ _ _ (int_within 0 2147483647)); [by intros; apply validateIntBound_iff|].
  split; [eauto|]. by intros (m&[= <-]&?).
Qed.

Lemma validateProfileConfig_iff config : validateProfileConfig (conv config) = Ok tt ↔ valid_profile config.
Proof.
  unfold validateProfileConfig, valid_profile. rw !bind_unit_iff keys_iff.
  rw (if_present_iff _ _ _ valid_sampling); [apply validateSampling_iff|].
  rw (if_present_iff _ _ _ (λ v, ∃ b, v = JBool b)); [intros v; apply is_bool_iff|].
  rw (if_present_iff _ _ _ (int_within 0 100)); [by intros; apply validateIntBound_iff|].
  rw (if_present_iff _ _ _ valid_quantiles); [apply validateQuantiles_iff|].
  rw (if_present_iff _ _ _ (choice ["EXACT"; "APPROXIMATE"])); [apply one_of_iff|].
  rw (if_present_iff _ _ _ (int_within 128 1000000)); [by intros; apply validateIntBound_iff|].
  rw (if_present_iff _ _ _ (int_within (2 ^ 20) (2 ^ 32))); [by intros; apply validateIntBound_iff|].
  rw (if_present_iff _ _ _ (columns_between 0 256)); [apply validateOptionalColumns_iff|]. done.
Qed.

Lemma check_threshold_iff v :
  check_threshold (any_of_json v) = Ok tt
  ↔ number_such_that (λ f, flt f min_threshold = false ∧ fgt f (float64_of_Z 1000) = false) v.
Proof.
  unfold check_threshold, number_such_that. setoid_rewrite <-finiteNumber_iff.
  destruct (finiteNumber (any_of_json v)) as [f|]; [|apply error_iff; by intros (?&?&_)].
  rw guard_iff negb_true_iff orb_false_iff. split; [by exists f|]. by intros (?&[= <-]&?).
Qed.

Lemma validateOutlierConfig_iff config : validateOutlierConfig (conv config) = Ok tt ↔ valid_outliers config.
Proof.
  unfold validateOutlierConfig, valid_outliers. rw !bind_unit_iff keys_iff.
  rw (index_iff config "column" (λ v, match as_string v with Some c => guard_err (validColumnName c) _ | None => _ end)
        tt (text_such_that is_column)); [done|intros v; apply text_iff; intros s; apply guard_iff|].
  rw (index_iff config "method" (one_of _) tt (choice ["IQR"; "Z_SCORE"; "MODIFIED_Z_SCORE"])); [done|apply one_of_iff|].
  rw (if_present_iff _ _ _ _ check_threshold_iff).
  rw (if_present_iff _ _ _ (choice ["SKIP"; "FAIL"])); [apply one_of_iff|].
  rw (if_present_iff _ _ _ (int_within 3 1000000)); [by intros; apply check_integer_iff|].
  rw (if_present_iff _ _ _ (int_within 0 128)); [by intros; apply check_integer_iff|]. done.
Qed.

(** ** Quality rules *)

Lemma requiredNumber_iff config key f :
  quality.requiredNumber (conv config) key = Ok f ↔ required config key (λ v, is_number v f).
Proof.
  apply (index_iff config key (λ v, match quality.numberValue v with Some value => Ok value | None => _ end)); [done|].
  intros v. rw -numberValue_iff. destruct (quality.numberValue (any_of_json v)); naive_solver.
Qed.

Lemma check_pattern_iff v : quality.check_pattern (any_of_json v) = Ok tt ↔ text_such_that safe_pattern v.
Proof.
  unfold quality.check_pattern, text_such_that, safe_pattern. destruct (as_string (any_of_json v)) as [s|] eqn:E; last first.
  { apply error_iff. by intros (s&->&_). }
  apply as_string_iff in E as ->. rw !bind_unit_iff !guard_iff !negb_true_iff !orb_false_iff andb_true_iff Z.ltb_lt Z.leb_le.
  split; [exists s; tauto|]. intros (?&[= <-]&?). tauto.
Qed.

Lemma boundedText_iff config key n :
  quality.boundedText (conv config) key n = Ok tt ↔ required config key (text_such_that (short_text n)).
Proof.
  apply (index_iff config key (λ v, match as_string v with Some value => _ | None => _ end)); [done|].
  intros v. apply text_iff. intros s. unfold short_text.
  rw guard_iff !andb_true_iff !negb_true_iff bool_decide_eq_false Z.leb_le. tauto.
Qed.

Lemma isScalar_iff v : quality.isScalar (any_of_json v) = true ↔ is_scalar v.
Proof. destruct v as [| |t| | |]; simpl; try done. unfold is_Some. destruct (ParseFloat t); naive_solver. Qed.

Lemma scalarValues_iff config key :
  quality.scalarValues (conv config) key = Ok tt
  ↔ required config key (λ v, ∃ l, v = JArr l ∧ 1 <= Z.of_nat (length l) <= 10000 ∧ Forall is_scalar l).
Proof.
  apply (index_iff config key (λ v, match quality.sliceValue v with Ok values => _ | Err _ => _ end)); [done|].
  intros v. destruct v as [| |n| |l|]; simpl; try (apply error_iff; by intros (?&?&_)).
  - destruct (ParseFloat n); apply error_iff; by intros (?&?&_).
  - rw bind_unit_iff !guard_iff andb_true_iff !Z.leb_le length_map. rw forallb_forall. split.
    + intros [? H1]. exists l. split_and!; [done|lia..|]. apply list.Forall_forall. intros v Hv.
      apply isScalar_iff, H1, in_map. by apply list_elem_of_In.
    + intros (?&[= <-]&?&H1). split; [lia|]. intros x (v&<-&Hv)%in_map_iff. apply isScalar_iff.
      rw list.Forall_forall in H1. by apply H1, list_elem_of_In.
Qed.

(** The branch of [check_settings] for each type. *)
Lemma check_settings_eqs config :
  quality.check_settings "NOT_NULL" config = Ok tt ∧ quality.check_settings "EMAIL_FORMAT" config = Ok tt
  ∧ quality.check_settings "UNIQUE" config
    = match assoc_first "maxTrackedValues" config with
      | Some _ => quality.boundedInteger config "maxTrackedValues" 1 2000000 | None => Ok tt end
  ∧ quality.check_settings "BETWEEN" config = quality.check_settings "ROW_COUNT_BETWEEN" config
  ∧ quality.check_settings "MIN_LENGTH" config = quality.boundedInteger config "value" 0 1000000
  ∧ quality.check_settings "MAX_LENGTH" config = quality.boundedInteger config "value" 0 1000000
  ∧ quality.check_settings "REGEX" config = quality.check_pattern (index config "pattern")
  ∧ quality.check_settings "DATE_FORMAT" config = quality.boundedText config "format" 64
  ∧ quality.check_settings "ALLOWED_VALUES" config = quality.scalarValues config "values"
  ∧ quality.check_settings "REFERENTIAL_SET" config = quality.scalarValues config "values".
Proof. split_and!; reflexivity. Qed.

Lemma range_iff config :
  quality.check_settings "ROW_COUNT_BETWEEN" (conv config) = Ok tt
  ↔ ∃ lo hi, required config "min" (λ v, is_number v lo) ∧ required config "max" (λ v, is_number v hi)
      ∧ fgt lo hi = false.
Proof.
  change (quality.check_settings "ROW_COUNT_BETWEEN" (conv config)) with
    (minimum ← quality.requiredNumber (conv config) "min"; maximum ← quality.requiredNumber (conv config) "max";
     guard_err (negb (fgt minimum maximum)) (ErrText "min must not exceed max")).
  setoid_rewrite bind_iff. setoid_rewrite bind_iff. setoid_rewrite guard_iff. setoid_rewrite negb_true_iff.
  setoid_rewrite requiredNumber_iff. naive_solver.
Qed.

Lemma type_iff config :
  quality.check_settings "COLUMN_TYPE" (conv config) = Ok tt
  ↔ required config "type" (choice ["string"; "integer"; "number"; "boolean"; "date"; "datetime"]).
Proof.
  apply (index_iff config "type" (λ v, match as_string v with
    | Some typeName => guard_err (bool_decide (typeName ∈ ["string"; "integer"; "number"; "boolean"; "date"; "datetime"])) _
    | None => _ end)); [done|].
  intros v. apply text_iff. intros s. by rw guard_iff bool_decide_eq_true.
Qed.

Lemma unique_iff config :
  quality.check_settings "UNIQUE" (conv config) = Ok tt ↔ optional config "maxTrackedValues" (int_within 1 2000000).
Proof.
  destruct (check_settings_eqs (conv config)) as (_&_&->&_). rw assoc_first_conv. unfold optional.
  destruct (assoc_first "maxTrackedValues" config) as [v|] eqn:E; simpl; [|naive_solver].
  rw quality_boundedInteger_iff //. unfold required. rw E. naive_solver.
Qed.

Definition settings_code (ty : string) (config : gomap) : res unit :=
  match assoc_first ty quality.allowed_settings with
  | None => quality.error "unsupported rule type"
  | Some keys => _ ← guard_err (quality.known_keys keys config) (ErrText "unknown field"); quality.check_settings ty config
  end.

(** Decides that a type is not among others. *)
Ltac other_type :=
  match goal with H : _ ∈ _ |- _ => apply (bool_decide_eq_true_2 _) in H; vm_compute in H; discriminate end.

Ltac settings_case := split; [intros (Hk&Hs)|inversion 1; try other_type; split].

Lemma settings_iff ty config : settings_code ty (conv config) = Ok tt ↔ valid_settings config ty.
Proof.
  unfold settings_code. destruct (check_settings_eqs (conv config)) as (E1&E2&_&E4&E5&E6&E7&E8&E9&E10).
  unfold quality.allowed_settings. cbn [assoc_first].
  repeat (case_bool_decide; [subst ty; rw bind_unit_iff keys_iff|]).
  all: unfold quality.RuleNotNull, quality.RuleUnique, quality.RuleBetween, quality.RuleMinLength,
    quality.RuleMaxLength, quality.RuleRegex, quality.RuleEmailFormat, quality.RuleDateFormat,
    quality.RuleAllowedValues, quality.RuleColumnType, quality.RuleRowCountBetween, quality.RuleReferentialSet in *.
  - rw E1. settings_case; try done. by apply settings_none; [left|].
  - rw unique_iff. settings_case; try done. by constructor.
  - rw E4 range_iff. settings_case; try done; [|by eauto]. destruct Hs as (lo&hi&?&?&?). by eapply settings_range; [left|..].
  - rw E5 quality_boundedInteger_iff //. settings_case; try done. by apply settings_length; [left|..].
  - rw E6 quality_boundedInteger_iff //. settings_case; try done. by apply settings_length; [right; left|..].
  - rw E7 (index_iff _ _ _ _ _ _ check_pattern_iff) //. settings_case; try done. by constructor.
  - rw E2. settings_case; try done. by apply settings_none; [right; left|].
  - rw E8 boundedText_iff. settings_case; try done. by constructor.
  - rw E9 scalarValues_iff. settings_case; try done. by apply settings_values; [left|..].
  - rw type_iff. settings_case; try done. by constructor.
  - rw range_iff. settings_case; try done; [|by eauto]. destruct Hs as (lo&hi&?&?&?).
    by eapply settings_range; [right; left|..].
  - rw E10 scalarValues_iff. settings_case; try done. by apply settings_values; [right; left|..].
  - apply error_iff. destruct 1;
      repeat match goal with Hin : _ ∈ _ |- _ => first [apply elem_of_cons in Hin as [?|Hin] | by apply elem_of_nil in Hin] end;
      congruence.
Qed.

Lemma check_columns_iff seen l :
  quality.check_columns seen l = Ok tt ↔ Forall is_column l ∧ NoDup l ∧ Forall (.∉ seen) l.
Proof.
  revert seen. induction l as [|c l IH]; intros seen; simpl; [split; [by repeat constructor|done]|].
  rw !list.Forall_cons list.NoDup_cons. unfold is_column at 1. destruct (columnNamePattern c); simpl; [|naive_solver].
  case_bool_decide as Hc; [naive_solver|]. rw IH. split.
  - intros (?&?&Hs). split_and!; try done.
    + intros Hin. rw list.Forall_forall in Hs. apply (Hs c); [done|by left].
    + eapply Forall_impl; [|exact Hs]. set_solver.
  - intros ((_&?)&(Hn&?)&_&Hs). split_and!; try done. apply list.Forall_forall. intros x Hx.
    rw list.Forall_forall in Hs. set_solver.
Qed.

Lemma normalizeColumns_iff columns r :
  quality.normalizeColumns (Some columns) = Ok r
  ↔ Z.of_nat (length columns) <= 256 ∧ Forall is_column columns ∧ NoDup columns ∧ r = quality.append_nil columns.
Proof.
  unfold quality.normalizeColumns. cbn [default from_option id]. destruct (Z.ltb_spec 256 (Z.of_nat (length columns))).
  { split; [done|]. intros (?&_). lia. }
  rw bind_unit_iff check_columns_iff. split.
  - by intros ((?&?&_)&[= <-]).
  - intros (?&?&?&->). split_and!; try done. apply list.Forall_forall. set_solver.
Qed.

Lemma append_nil_default l : default [] (quality.append_nil l) = l.
Proof. by destruct l. Qed.

Lemma column_count_iff ty columns :
  quality.check_column_count ty columns = Ok tt ↔ columns_of ty (Z.of_nat (length columns)).
Proof.
  unfold quality.check_column_count, columns_of, quality.RuleRowCountBetween, quality.RuleUnique.
  case_bool_decide; rw guard_iff; lia.
Qed.

Lemma validateConfiguration_iff ty columns config :
  quality.validateConfiguration ty columns (conv config) = Ok tt
  ↔ columns_of ty (Z.of_nat (length columns)) ∧ valid_settings config ty.
Proof. unfold quality.validateConfiguration. rw bind_unit_iff column_count_iff. f_equiv. apply settings_iff. Qed.

Lemma valid_settings_type config ty :
  valid_settings config ty → quality.isRuleType ty = true ∧ bool_decide (ty = quality.RuleCustomExpression) = false.
Proof.
  destruct 1; repeat match goal with Hin : _ ∈ _ |- _ =>
    first [apply elem_of_cons in Hin as [->|Hin] | by apply elem_of_nil in Hin] end; by vm_compute.
Qed.

Lemma name_iff name :
  bool_decide (name = "") || (quality.MaxRuleNameLength <? go_len name) || contains_any name [13; 10]%N = false
  ↔ short_text 120 name.
Proof. unfold short_text, quality.MaxRuleNameLength. rw !orb_false_iff bool_decide_eq_false Z.ltb_ge. tauto. Qed.

(** What [ValidateDefinition] accepts. *)
Lemma ValidateDefinition_iff name columns ty config severity enabled :
  (∃ d, quality.ValidateDefinition
          (quality.mkDefinition name (Some columns) ty (Some (conv config)) severity enabled) = Ok d)
  ↔ short_text 120 (trim_space name) ∧ Forall is_column columns ∧ NoDup columns
    ∧ columns_of ty (Z.of_nat (length columns)) ∧ valid_settings config ty
    ∧ severity ∈ ["INFO"; "WARNING"; "ERROR"; "CRITICAL"].
Proof.
  unfold quality.ValidateDefinition. cbn [quality.Name quality.ColumnScope quality.RuleType quality.Configuration
    quality.Severity quality.Enabled quality.cloneMap default from_option id]. rw -name_iff.
  destruct (_ || _ || _); [split; [by intros (?&?)|by intros (?&_)]|].
  split.
  - intros (d&(cs&(_&?&?&->)%normalizeColumns_iff&Hd)%bind_iff). split_and!; try done.
    all: destruct (negb _ || _); [done|]; destruct (quality.isSeverity severity) eqn:Hs; simpl in Hd; [|done].
    all: apply bind_unit_iff in Hd as [Hd _]; rw wrap_iff append_nil_default validateConfiguration_iff in Hd.
    + apply Hd.
    + apply Hd.
    + by apply bool_decide_eq_true in Hs.
  - intros (_&Hc&Hn&Hcount&Hset&Hsev). eexists. apply bind_iff. exists (quality.append_nil columns).
    rw normalizeColumns_iff. destruct (valid_settings_type _ _ Hset) as [-> ->]. cbn [negb orb].
    unfold quality.isSeverity. rw (bool_decide_eq_true_2 _ Hsev). cbn [negb]. split.
    + split_and!; try done. revert Hcount. unfold columns_of. case_bool_decide; [lia|]. case_bool_decide; lia.
    + apply bind_unit_iff. rw wrap_iff append_nil_default validateConfiguration_iff. split; done.
Qed.

(** Reading a member of a converted object. *)
Lemma string_member m key s : as_string (index (conv m) key) = Some s ↔ assoc_first key m = Some (JStr s).
Proof.
  rw index_conv. destruct (assoc_first key m) as [v|]; simpl; [rw as_string_iff|]; naive_solver.
Qed.

Lemma bool_member m key b : as_bool (index (conv m) key) = Some b ↔ assoc_first key m = Some (JBool b).
Proof.
  rw index_conv. destruct (assoc_first key m) as [v|]; simpl; [rw as_bool_iff|]; naive_solver.
Qed.

Lemma map_member m key c :
  as_map (index (conv m) key) = Some c ↔ ∃ l, assoc_first key m = Some (JObj l) ∧ c = conv l.
Proof.
  rw index_conv. destruct (assoc_first key m) as [v|]; simpl; [rw as_map_iff|]; naive_solver.
Qed.

Lemma all_strings_iff l r : quality.all_strings (map any_of_json l) = Ok r ↔ l = JStr <$> r.
Proof.
  revert r. induction l as [|v l IH]; intros r; simpl; [split; [by intros [= <-]|by destruct r]|].
  destruct (as_string (any_of_json v)) as [s|] eqn:Es.
  - apply as_string_iff in Es as ->. cbn [any_of_json]. rw bind_iff. setoid_rewrite IH. split.
    + by intros (r'&->&[= <-]).
    + destruct r as [|s' r]; [done|]. intros [= <- ->]. eauto.
  - split; [destruct (any_of_json v); done|]. destruct r as [|s' r]; [done|]. intros [= -> _]. done.
Qed.

Lemma strings_member m key r :
  quality.stringsValue (index (conv m) key) = Ok r ↔ assoc_first key m = Some (JArr (JStr <$> r)).
Proof.
  rw index_conv. unfold quality.stringsValue. destruct (assoc_first key m) as [[| |t| |l|]|]; simpl; try done.
  - destruct (ParseFloat t); done.
  - rw all_strings_iff. naive_solver.
Qed.

Lemma id_iff id :
  bool_decide (trim_space id = "") || (128 <? go_len id) || contains_any id [13; 10]%N = false
  ↔ trim_space id ≠ "" ∧ go_len id <= 128 ∧ contains_any id [13; 10]%N = false.
Proof. rw !orb_false_iff bool_decide_eq_false Z.ltb_ge. tauto. Qed.

Lemma severity_member m l :
  default "" (as_string (index (conv m) "severity")) ∈ l → "" ∉ l → required m "severity" (choice l).
Proof.
  destruct (as_string (index (conv m) "severity")) as [s|] eqn:E; simpl; [|done]. apply string_member in E.
  intros Hs _. exists (JStr s). split; [done|]. by exists s.
Qed.

Lemma validateSnapshotRule_sound m :
  quality.validateSnapshotRule (conv m) = Ok tt →
  ∃ id, as_string (index (conv m) "id") = Some id ∧ valid_rule (JObj m) id.
Proof.
  unfold quality.validateSnapshotRule. intros [Hk%keys_iff H1]%bind_unit_iff.
  destruct (as_string (index (conv m) "id")) as [id|] eqn:Hid; [|done]. exists id. split; [done|].
  destruct (_ || _ || _) eqn:Hi in H1; [done|]. apply id_iff in Hi as (Hi1&Hi2&Hi3).
  destruct (as_string (index (conv m) "name")) as [name|] eqn:Hn; [|done].
  apply bind_iff in H1 as (columns&Hcols&H1).
  destruct (as_string (index (conv m) "ruleType")) as [ty|] eqn:Hty; [|done].
  destruct (as_bool (index (conv m) "enabled")) as [enabled|] eqn:He; [|done].
  destruct (as_map (index (conv m) "configuration")) as [c|] eqn:Hc; [|done].
  apply map_member in Hc as (config&Hc&->). apply bind_iff in H1 as (d&Hd&_).
  destruct (proj1 (ValidateDefinition_iff _ _ _ _ _ _) (ex_intro _ d Hd)) as (Hname&Hcol&Hnd&Hcount&Hset&Hsev).
  apply string_member in Hid, Hn, Hty. apply strings_member in Hcols. apply bool_member in He.
  exists m, name, columns, ty, config. split_and!; try done.
  - apply severity_member; [exact Hsev|]. set_solver.
  - exists (JBool enabled). eauto.
Qed.

Lemma validateSnapshotRule_complete m id :
  valid_rule (JObj m) id →
  as_string (index (conv m) "id") = Some id ∧ quality.validateSnapshotRule (conv m) = Ok tt.
Proof.
  intros (m'&name&columns&ty&config&[= <-]&Hk&Hid&Hi1&Hi2&Hi3&Hn&Hname&Hcols&Hcol&Hnd&Hcount&Hty&Hc&Hset&Hsev&Hen).
  destruct Hsev as (v&Hsev&s&->&Hs). destruct Hen as (v&Hen&b&->).
  apply string_member in Hid. split; [done|]. unfold quality.validateSnapshotRule. apply bind_unit_iff.
  split; [by apply keys_iff|]. rw Hid (proj2 (id_iff id)) //.
  apply string_member in Hn, Hty, Hsev. apply bool_member in Hen. rw Hn.
  apply bind_iff. exists columns. split; [by apply strings_member|]. rw Hty Hen Hsev. cbn [default from_option Datatypes.id].
  rw (proj2 (map_member m "configuration" (conv config))); [by eauto|].
  destruct (proj2 (ValidateDefinition_iff name columns ty config s b)) as [d Hd]; [split_and!; done|].
  by rw Hd.
Qed.

Lemma validate_rules_iff seen rules :
  quality.validate_rules seen (map any_of_json rules) = Ok tt
  ↔ ∃ ids, Forall2 valid_rule rules ids ∧ NoDup ids ∧ Forall (.∉ seen) ids.
Proof.
  revert seen. induction rules as [|v rules IH]; intros seen; cbn [map quality.validate_rules].
  { split; [intros _; exists []; split_and!; constructor|done]. }
  destruct (as_map (any_of_json v)) as [o|] eqn:Ho; last first.
  { split; [done|]. intros (ids&HF&_). inv HF. rename select (valid_rule v _) into Hv.
    destruct Hv as (m&?&?&?&?&->&_). done. }
  apply as_map_iff in Ho as (m&->&->). rw bind_unit_iff wrap_iff. split.
  - intros [(id&Hid&Hrule)%validateSnapshotRule_sound Hrest]. rw Hid in Hrest. cbn [default from_option Datatypes.id] in Hrest.
    case_bool_decide as Hseen; [done|]. apply IH in Hrest as (ids&HF&Hnd&Hs).
    exists (id :: ids). split_and!; [by constructor|constructor; [|done]|constructor; [done|]].
    + intros Hin. rw list.Forall_forall in Hs. apply (Hs id); [done|by left].
    + eapply Forall_impl; [|exact Hs]. set_solver.
  - intros (ids&HF&Hnd&Hs). inv HF. rename select (valid_rule _ _) into Hv. rename l' into ids.
    apply validateSnapshotRule_complete in Hv as [Hid Hrule]. split; [done|]. rw Hid. cbn [default from_option Datatypes.id].
    apply list.NoDup_cons in Hnd as [Hni Hnd]. apply list.Forall_cons in Hs as [Hy Hs].
    rw bool_decide_eq_false_2 //. apply IH. exists ids. split_and!; try done.
    apply list.Forall_forall. intros x Hx. rw list.Forall_forall in Hs. set_solver.
Qed.

Lemma ValidateSnapshotRules_iff v : quality.ValidateSnapshotRules (any_of_json v) = Ok tt ↔ valid_rules v.
Proof.
  unfold quality.ValidateSnapshotRules, valid_rules, quality.MaxRulesPerDataset.
  destruct v as [| |n| |rules|]; simpl; try (split; [done|]; by intros (?&?&?&_)).
  - destruct (ParseFloat n); (split; [done|]; by intros (?&?&?&_)).
  - rw length_map. destruct (_ || _) eqn:Hb.
    + split; [done|]. intros (?&ids&[= <-]&?&_). lia.
    + rw validate_rules_iff. split.
      * intros (ids&?&?&_). exists rules, ids. split_and!; try done; lia.
      * intros (?&ids&[= <-]&_&?&?). exists ids. split_and!; try done. apply list.Forall_forall. set_solver.
Qed.

(** ** Operations *)

Lemma Config_conv ty config : Config (mkOperation ty config) = conv <$> config.
Proof. done. Qed.

Lemma validateConfig_eqs config :
  validateOperationConfig "PROFILE_DATASET" config = validateProfileConfig config
  ∧ validateOperationConfig "CHECK_MISSING_VALUES" config
    = (_ ← validateConfigKeys config ["columns"]; _ ← requiredColumns config "columns"; Ok tt)
  ∧ validateOperationConfig "CHECK_DUPLICATES" config
    = (_ ← validateConfigKeys config ["keyColumns"]; _ ← requiredColumns config "keyColumns"; Ok tt)
  ∧ validateOperationConfig "DETECT_OUTLIERS" config = validateOutlierConfig config
  ∧ validateOperationConfig "VALIDATE_QUALITY" config
    = (_ ← validateConfigKeys config ["rules"]; quality.ValidateSnapshotRules (index config "rules")).
Proof. split_and!; reflexivity. Qed.

Definition supported_types : list string :=
  ["PROFILE_DATASET"; "CHECK_MISSING_VALUES"; "CHECK_DUPLICATES"; "DETECT_OUTLIERS"; "VALIDATE_QUALITY"].

Lemma validateConfig_types ty config u : validateOperationConfig ty config = Ok u → ty ∈ supported_types.
Proof.
  unfold validateOperationConfig, supported_types. repeat (case_bool_decide; [subst; set_solver|]). done.
Qed.

(** The guards on the text of the type hold of every supported one. *)
Lemma operation_type_guards ty :
  ty ∈ supported_types →
  bool_decide (trim_space ty = "") || bool_decide (trim_space ty ≠ ty) || (MaxOperationTypeLen <? go_len (trim_space ty)) = false
  ∧ trim_space ty = ty.
Proof.
  unfold supported_types. rw !elem_of_cons elem_of_nil.
  intros [->|[->|[->|[->|[->|[]]]]]]; split; vm_compute; reflexivity.
Qed.

Lemma index_rules config : quality.ValidateSnapshotRules (index (conv config) "rules") = Ok tt ↔ required config "rules" valid_rules.
Proof. apply (index_iff config "rules" quality.ValidateSnapshotRules); [done|apply ValidateSnapshotRules_iff]. Qed.

Lemma validateConfig_iff ty config :
  Z.of_nat (length config) <= 32 →
  validateOperationConfig ty (conv config) = Ok tt ↔ valid_operation (mkOperation ty (Some config)).
Proof.
  intros Hlen. destruct (validateConfig_eqs (conv config)) as (E1&E2&E3&E4&E5). split.
  - intros Hc. pose proof (validateConfig_types _ _ _ Hc) as Hty. unfold supported_types in Hty.
    rw !elem_of_cons elem_of_nil in Hty. destruct Hty as [->|[->|[->|[->|[->|[]]]]]].
    + rw E1 validateProfileConfig_iff in Hc. by constructor.
    + rw E2 bind_unit_iff keys_iff requiredColumns_iff in Hc. by destruct Hc; constructor.
    + rw E3 bind_unit_iff keys_iff requiredColumns_iff in Hc. by destruct Hc; constructor.
    + rw E4 validateOutlierConfig_iff in Hc. by constructor.
    + rw E5 bind_unit_iff keys_iff index_rules in Hc. by destruct Hc; constructor.
  - inversion 1; subst.
    + by rw E1 validateProfileConfig_iff.
    + by rw E2 bind_unit_iff keys_iff requiredColumns_iff.
    + by rw E3 bind_unit_iff keys_iff requiredColumns_iff.
    + by rw E4 validateOutlierConfig_iff.
    + by rw E5 bind_unit_iff keys_iff index_rules.
Qed.

Lemma valid_operation_inv op :
  valid_operation op → op_type op ∈ supported_types ∧ ∃ config, op_config op = Some config ∧ Z.of_nat (length config) <= 32.
Proof. destruct 1; simpl; (split; [unfold supported_types; set_solver|eauto]). Qed.

Lemma validateOperation_iff op : validateOperation op = Ok tt ↔ valid_operation op.
Proof.
  unfold validateOperation. destruct op as [ty config]. cbn [op_type]. split.
  - destruct (_ || _ || _) eqn:Ht; [done|]. apply orb_false_iff in Ht as [[_ Ht%bool_decide_eq_false]%orb_false_iff _].
    destruct (decide (trim_space ty = ty)) as [->|]; [|done]. rw Config_conv. destruct config as [config|]; [|done].
    cbn [fmap option_fmap option_map]. unfold MaxConfigProperties, any_of_members. rw length_map.
    destruct (Z.ltb_spec 32 (Z.of_nat (length config))); [done|]. rw wrap_iff. by apply validateConfig_iff.
  - intros Hv. destruct (valid_operation_inv _ Hv) as (Hty&c&Hc&Hlen). simpl in Hty, Hc. subst config.
    destruct (operation_type_guards ty Hty) as [Hg Htrim]. rw Hg Htrim Config_conv.
    cbn [fmap option_fmap option_map]. unfold MaxConfigProperties, any_of_members. rw length_map.
    destruct (Z.ltb_spec 32 (Z.of_nat (length c))); [lia|]. rw wrap_iff. by apply validateConfig_iff.
Qed.

Lemma validateOperation_error op : validateOperation op = Ok tt ∨ validateOperation op = Err ErrJobInvalidInput.
Proof.
  unfold validateOperation. case_match; [by right|]. case_match; [|by right]. case_match; [by right|].
  destruct (validateOperationConfig _ _) as [[]|]; [by left|by right].
Qed.

Lemma validate_each_spec ops :
  (validate_each ops = Ok tt ↔ Forall valid_operation ops)
  ∧ (validate_each ops = Ok tt ∨ validate_each ops = Err ErrJobInvalidInput).
Proof.
  induction ops as [|op ops [IH1 IH2]]; cbn [validate_each]; [split; [split; [constructor|done]|by left]|].
  split; [by rw bind_unit_iff IH1 list.Forall_cons validateOperation_iff|].
  destruct (validateOperation_error op) as [-> | ->]; [|by right]. exact IH2.
Qed.

(** C19. [ValidateOperations] accepts exactly the requests of the grammar above: one to
    32 operations of the five kinds, with their settings complete, within their
    bounds as exact numbers and without unknown ones, columns that are distinct safe
    names, and quality rules that are well formed and distinct.  Everything else is
    refused as invalid input.  The grammar does not depend on the architecture, so
    neither does the code, although it converts floats that are out of range. *)
Theorem ValidateOperations_grammar ops :
  (ValidateOperations ops = Ok tt ↔ 1 <= Z.of_nat (length ops) <= 32 ∧ Forall valid_operation ops)
  ∧ (ValidateOperations ops = Ok tt ∨ ValidateOperations ops = Err ErrJobInvalidInput).
Proof.
  unfold ValidateOperations, MaxOperations. destruct (_ || _) eqn:Hb; [split; [|by right]|].
  - split; [done|]. intros [? _]. lia.
  - destruct (validate_each_spec ops) as [H1 H2]. split; [|done]. rw H1. split; [|by intros [_ ?]]. split; [lia|done].
Qed.
End grammar.
