(* ===== verification/Canonical.v ===== *)
(** The canonical text of a request: it depends on the JSON value only, and
    determines it, so that fingerprints compare requests. *)

From S2P Require Import Prelude GoStrings Json Sha256 GoValue QualityRules Queue JobModel Schema Sql Outbox JobStore JobValidation.
From stdpp Require Import strings sorting.

Set Warnings "-register-all".

Open Scope Z_scope.

(** ** Equality of JSON values *)

(** Two texts that decode to the same Go value: the order of the members of an
    object is free, and of several members with one name the last counts. *)
Inductive json_equiv : json → json → Prop :=
  | equiv_null : json_equiv JNull JNull
  | equiv_bool b : json_equiv (JBool b) (JBool b)
  | equiv_num t : json_equiv (JNum t) (JNum t)
  | equiv_str s : json_equiv (JStr s) (JStr s)
  | equiv_arr l k : Forall2 json_equiv l k → json_equiv (JArr l) (JArr k)
  | equiv_obj l k :
      (∀ key, option_Forall2 json_equiv (assoc_last key l) (assoc_last key k)) → json_equiv (JObj l) (JObj k).

(** The member of each name, in the order of names. *)
Fixpoint canon (v : json) : json :=
  match v with
  | JObj l =>
      let members := map (λ kv, (kv.1, canon kv.2)) l in
      JObj (map (λ key, (key, default JNull (assoc_last key members))) (sorted_keys members))
  | JArr l => JArr (map canon l)
  | _ => v
  end.

(** ** Association lists *)

Lemma assoc_last_fmap {A B} (f : A → B) key l :
  assoc_last key (map (λ kv, (kv.1, f kv.2)) l) = f <$> assoc_last key l.
Proof.
  induction l as [|[k v] l IH]; simpl; [done|]. rw IH. destruct (assoc_last key l); simpl; [done|].
  by case_bool_decide.
Qed.

Lemma assoc_last_is_Some {A} key (l : list (string * A)) :
  is_Some (assoc_last key l) ↔ key ∈ map fst l.
Proof.
  induction l as [|[k v] l IH]; simpl; [split; [by intros [? ?]|set_solver]|].
  rw elem_of_cons -IH. destruct (assoc_last key l); simpl; [naive_solver|].
  case_bool_decide; [naive_solver|]. split; [by intros [? ?]|]. intros [?|[? ?]]; done.
Qed.

Lemma assoc_last_elem {A} key (l : list (string * A)) v : assoc_last key l = Some v → (key, v) ∈ l.
Proof.
  induction l as [|[k w] l IH]; simpl; [done|]. destruct (assoc_last key l).
  - intros [= ->]. right. by apply IH.
  - case_bool_decide; [|done]. intros [= ->]. subst. left.
Qed.

Lemma assoc_last_keys {A} (f : string → A) key keys :
  NoDup keys → assoc_last key (map (λ k, (k, f k)) keys) = if bool_decide (key ∈ keys) then Some (f key) else None.
Proof.
  induction 1 as [|k keys Hk Hn IH]; simpl; [done|]. rw IH.
  destruct (decide (key ∈ keys)).
  - rw !bool_decide_eq_true_2 //. by right.
  - rw (bool_decide_eq_false_2 (key ∈ keys)) //. destruct (decide (key = k)) as [->|].
    + rw !bool_decide_eq_true_2 //. by left.
    + rw !bool_decide_eq_false_2 //. set_solver.
Qed.

(** ** Sorted names *)

Lemma sorted_keys_spec {A} (l : list (string * A)) :
  StronglySorted String.le (sorted_keys l) ∧ NoDup (sorted_keys l) ∧ ∀ key, key ∈ sorted_keys l ↔ key ∈ map fst l.
Proof.
  unfold sorted_keys. pose proof (merge_sort_Permutation String.le (remove_dups (map fst l))) as Hp. split_and!.
  - apply StronglySorted_merge_sort; apply _.
  - rw Hp. apply NoDup_remove_dups.
  - intros key. rw Hp. apply elem_of_remove_dups.
Qed.

Lemma sorted_keys_ext {A B} (l : list (string * A)) (k : list (string * B)) :
  (∀ key, key ∈ map fst l ↔ key ∈ map fst k) → sorted_keys l = sorted_keys k.
Proof.
  intros H. destruct (sorted_keys_spec l) as (Sl&Nl&El). destruct (sorted_keys_spec k) as (Sk&Nk&Ek).
  apply (StronglySorted_unique String.le); [done|done|]. apply NoDup_Permutation; [done|done|].
  intros key. rw El Ek. done.
Qed.

Lemma sorted_keys_fst {A B} (f : A → B) l : sorted_keys (map (λ kv : string * A, (kv.1, f kv.2)) l) = sorted_keys l.
Proof. unfold sorted_keys. by rw map_map. Qed.

(** ** [canon] decides [json_equiv] *)

Lemma canon_obj l :
  canon (JObj l) = JObj (map (λ key, (key, default JNull (canon <$> assoc_last key l))) (sorted_keys l)).
Proof.
  cbn [canon]. rw sorted_keys_fst. f_equal. apply map_ext. intros key. by rw assoc_last_fmap.
Qed.

Lemma canon_member l key :
  assoc_last key (map (λ key, (key, default JNull (canon <$> assoc_last key l))) (sorted_keys l))
  = canon <$> assoc_last key l.
Proof.
  destruct (sorted_keys_spec l) as (_&Hn&Hel). rw assoc_last_keys //.
  case_bool_decide as Hk; rw Hel -assoc_last_is_Some in Hk.
  - by destruct Hk as [v ->].
  - by destruct (assoc_last key l); [destruct Hk; eauto|].
Qed.

Lemma elem_assoc_last {A} (P : A → Prop) l key v :
  Forall (λ kv, P kv.2) l → assoc_last key l = Some v → P v.
Proof. intros H E%assoc_last_elem. rw list.Forall_forall in H. by apply (H (key, v)). Qed.

Lemma canon_obj_eq l k :
  canon (JObj l) = canon (JObj k) ↔ ∀ key, canon <$> assoc_last key l = canon <$> assoc_last key k.
Proof.
  rw !canon_obj. split.
  - intros [= E] key. by rw -!canon_member E.
  - intros H. rw (sorted_keys_ext l k).
    { intros key. rw -!assoc_last_is_Some. specialize (H key).
      by destruct (assoc_last key l), (assoc_last key k). }
    f_equal. apply map_ext. intros key. by rw H.
Qed.

Lemma json_equiv_canon v w : json_equiv v w ↔ canon v = canon w.
Proof.
  revert w. induction v as [| | | |l IH|l IH] using json_ind'; intros w.
  1-4: split; [by inversion 1|]; destruct w; simpl; intros [=]; subst; constructor.
  - split.
    + inversion 1 as [| | | |? k Hk|]; subst. cbn [canon]. f_equal. clear H.
      revert IH. induction Hk as [|x y l k Hxy Hk IHk]; [done|]. intros [IHx IH]%list.Forall_cons.
      simpl. by rw (proj1 (IHx y) Hxy) (IHk IH).
    + destruct w as [| | | |k|k]; simpl; intros [= E]. constructor.
      revert k E. induction IH as [|x l Hx _ IHl]; intros [|y k] [=]; constructor; [by apply Hx|by apply IHl].
  - split.
    + inversion 1 as [| | | | |? k Hk]; subst. apply canon_obj_eq. intros key.
      specialize (Hk key). inversion Hk as [x y Hxy Ex Ey|Ex Ey]; [|done]. simpl. f_equal.
      by apply (elem_assoc_last (λ v, ∀ w, json_equiv v w ↔ canon v = canon w) l key x IH).
    + destruct w as [| | | | |k]; [done..|]. intros H. constructor. intros key.
      pose proof (proj1 (canon_obj_eq l k) H key) as E.
      destruct (assoc_last key l) as [x|] eqn:Ex, (assoc_last key k) as [y|]; try done; constructor.
      apply (elem_assoc_last (λ v, ∀ w, json_equiv v w ↔ canon v = canon w) l key x IH); [done|]. by simplify_eq/=.
Qed.

Lemma canon_equiv v : json_equiv (canon v) v.
Proof.
  induction v as [| | | |l IH|l IH] using json_ind'; [constructor..| |].
  - cbn [canon]. constructor. induction IH; simpl; constructor; done.
  - rw canon_obj. constructor. intros key. rw canon_member.
    destruct (assoc_last key l) as [v|] eqn:E; constructor.
    by apply (elem_assoc_last (λ v, json_equiv (canon v) v) l key v IH).
Qed.

#[export] Instance json_equiv_equivalence : Equivalence json_equiv.
Proof.
  split.
  - intros v. by apply json_equiv_canon.
  - intros v w. rw !json_equiv_canon. done.
  - intros u v w. rw !json_equiv_canon. congruence.
Qed.

(** ** The canonical text *)

Lemma canonicalValue_canon v : canonicalValue v = json_marshal (canon v).
Proof.
  induction v as [| | | |l IH|l IH] using json_ind'; [done..| |].
  - cbn [canonicalValue canon json_marshal]. do 3 f_equal. rw map_map.
    apply map_ext_Forall. done.
  - rw canon_obj. cbn [canonicalValue json_marshal]. do 3 f_equal. rw sorted_keys_fst map_map.
    apply map_ext_in. intros key Hin%list_elem_of_In. cbn [fst snd]. unfold canonical_member. rw assoc_last_fmap.
    destruct (sorted_keys_spec l) as (_&_&Hel). apply Hel in Hin. apply assoc_last_is_Some in Hin as [v Hv].
    rw Hv. cbn [fmap option_fmap option_map default]. do 2 f_equal.
    apply (elem_assoc_last (λ v, canonicalValue v = json_marshal (canon v)) l key v IH Hv).
Qed.

Lemma canon_wf v : json_wf v = true → json_wf (canon v) = true.
Proof.
  induction v as [| | | |l IH|l IH] using json_ind'; [done..| |].
  - cbn [json_wf canon]. rw !forallb_forall. intros H x. rw in_map_iff. intros (y&<-&Hy).
    rw list.Forall_forall in IH. apply IH; [by apply list_elem_of_In|by apply H].
  - rw canon_obj. cbn [json_wf]. rw !forallb_forall. intros H [key x]. rw in_map_iff.
    intros (?&[= -> <-]&Hk%list_elem_of_In). destruct (sorted_keys_spec l) as (_&_&Hel).
    apply Hel, assoc_last_is_Some in Hk as [v Hv]. rw Hv. cbn [fmap option_fmap option_map default fst snd].
    pose proof (assoc_last_elem _ _ _ Hv) as Hin%list_elem_of_In. apply H in Hin. cbn [fst snd] in Hin.
    apply andb_true_iff in Hin as [-> Hw]. simpl.
    by apply (elem_assoc_last (λ v, json_wf v = true → json_wf (canon v) = true) l key v IH Hv).
Qed.

Lemma list_max_elem n l : n ∈ l → (n <= list_max l)%nat.
Proof. intros H. pose proof (proj1 (list_max_le l (list_max l)) (le_n _)) as Hl. rw list.Forall_forall in Hl. by apply Hl. Qed.

Lemma canon_depth v : (json_depth (canon v) <= json_depth v)%nat.
Proof.
  induction v as [| | | |l IH|l IH] using json_ind'; [done..| |].
  - cbn [json_depth canon]. apply le_n_S. apply list_max_le. rw map_map. rw list.Forall_forall in IH.
    apply list.Forall_forall. intros n (x&->&Hx)%list_elem_of_fmap.
    etrans; [by apply IH|]. apply list_max_elem, list_elem_of_fmap. eauto.
  - rw canon_obj. cbn [json_depth]. apply le_n_S. apply list_max_le. rw map_map.
    apply list.Forall_forall. intros n (key&->&Hk)%list_elem_of_fmap. destruct (sorted_keys_spec l) as (_&_&Hel).
    apply Hel, assoc_last_is_Some in Hk as [v Hv]. cbn [snd]. rw Hv. cbn [fmap option_fmap option_map default].
    etrans; [apply (elem_assoc_last (λ v, (json_depth (canon v) <= json_depth v)%nat) l key v IH Hv)|].
    apply list_max_elem, list_elem_of_fmap. exists (key, v). split; [done|]. by apply assoc_last_elem.
Qed.

(** What encoding/json can decode: JSON numbers, UTF-8, bounded nesting. *)
Definition decodable (v : json) : bool := json_wf v && (Z.of_nat (json_depth v) <=? maxNestingDepth).

Lemma decodable_spec v : decodable v = true → json_wf v = true ∧ Z.of_nat (json_depth v) <= maxNestingDepth.
Proof. intros [? ?%Z.leb_le]%andb_true_iff. done. Qed.

Lemma canon_decodable v : decodable v = true → decodable (canon v) = true.
Proof.
  intros [Hw Hd]%decodable_spec. apply andb_true_iff. split; [by apply canon_wf|].
  apply Z.leb_le. pose proof (canon_depth v). lia.
Qed.

Lemma decode_next_marshal v : decodable v = true → decode_next (json_marshal v) = Some (v, []).
Proof.
  intros [Hw Hd]%decodable_spec. unfold decode_next.
  rw -{2}(app_nil_r (json_marshal v)). apply parse_marshaled; simpl; [done|lia|done|lia].
Qed.

Lemma CanonicalJSON_canon v : decodable v = true → CanonicalJSON v = Ok (json_marshal (canon v)).
Proof.
  intros H. unfold CanonicalJSON. rw decode_next_marshal //. simpl. by rw canonicalValue_canon.
Qed.

Lemma CanonicalJSON_equiv v w :
  decodable v = true → decodable w = true → CanonicalJSON v = CanonicalJSON w ↔ json_equiv v w.
Proof.
  intros Hv Hw. rw !CanonicalJSON_canon // json_equiv_canon. split; [|by intros ->]. intros [= E].
  apply canon_decodable, decodable_spec in Hv as [??], Hw as [??]. by apply json_marshal_inj.
Qed.

(** C28. The canonical text of a request is faithful: it decodes to the value it was
    made from, up to the order of members and members that are overridden, it is its
    own canonical text, and two values have one text exactly when they are the same
    JSON value in that sense. *)
Theorem CanonicalJSON_roundtrip v :
  decodable v = true →
  ∃ bytes v', CanonicalJSON v = Ok bytes ∧ json_parse bytes = Some v' ∧ json_equiv v' v
    ∧ CanonicalJSON v' = Ok bytes
    ∧ ∀ w, decodable w = true → CanonicalJSON w = Ok bytes ↔ json_equiv w v.
Proof.
  intros Hv. exists (json_marshal (canon v)), (canon v).
  pose proof (canon_decodable v Hv) as Hc. pose proof (canon_equiv v) as He. split_and!.
  - by apply CanonicalJSON_canon.
  - apply decodable_spec in Hc as [??]. by apply json_parse_marshal.
  - done.
  - rw -(CanonicalJSON_canon v) //. by apply CanonicalJSON_equiv.
  - intros w Hw. rw -(CanonicalJSON_canon v) //. by apply CanonicalJSON_equiv.
Qed.

Definition ex_value : json :=
  JObj [("b", JArr [JNum "1.50"; JNull]); ("a", JStr "x<y"); ("b", JArr [JObj []])].

Lemma CanonicalJSON_roundtrip_witness :
  decodable ex_value = true
  ∧ ∃ bytes v', CanonicalJSON ex_value = Ok bytes ∧ json_parse bytes = Some v' ∧ json_equiv v' ex_value
    ∧ CanonicalJSON v' = Ok bytes
    ∧ ∀ w, decodable w = true → CanonicalJSON w = Ok bytes ↔ json_equiv w ex_value.
Proof. split; [reflexivity|]. apply (CanonicalJSON_roundtrip ex_value). reflexivity. Defined.
