(* ===== verification/WorkerRegistry.v ===== *)
(** The worker registry of src/go/internal/workerregistry: registrations and
    heartbeats (repository.go) and the choice of a worker for a lease
    (selector.go). *)

From S2P Require Import Prelude GoStrings Json Queue JobModel Schema Sql.

Open Scope Z_scope.

Definition DefaultHeartbeatTTL : duration := 45 * Second.
Definition MaxHeartbeatTTL : duration := 30 * Minute.
Definition MaxFutureClockSkew : duration := 5 * Minute.

Record Registration := mkRegistration {
  rg_WorkerID : uuid; rg_InstanceID : string; rg_Hostname : string;
  rg_SupportedOperations : list string; rg_SoftwareVersion : string;
  rg_MaxConcurrency : Z; rg_StartedAt : time
}.

Record Heartbeat := mkHeartbeat {
  hb_WorkerID : uuid; hb_InstanceID : string; hb_Hostname : string;
  hb_SupportedOperations : list string; hb_SoftwareVersion : string;
  hb_Status : WorkerStatus; hb_CurrentConcurrency : Z; hb_MaxConcurrency : Z;
  hb_ObservedAt : time
}.

(** [NewRepository]: the bound on the heartbeat TTL. *)
Definition registry_ttl (ttl : duration) : res duration :=
  let ttl := if bool_decide (ttl = 0) then DefaultHeartbeatTTL else ttl in
  if (ttl <=? 0) || (MaxHeartbeatTTL <? ttl)
  then Err (ErrText "worker heartbeat TTL must be positive and bounded") else Ok ttl.

Definition validateEventTimestamp (now observed : time) : res unit :=
  if bool_decide (observed = time_zero) then Err ErrInvalidWorkerEvent
  else if now + MaxFutureClockSkew <? observed then Err ErrInvalidWorkerEvent
  else Ok tt.

(** INSERT .. ON CONFLICT (worker_id) DO UPDATE .. WHERE EXCLUDED.started_at >
    processing_workers.started_at. *)
Definition register_row (r : Registration) (now : time) (old : option WorkerRow) : WorkerRow :=
  mkWorkerRow (rg_WorkerID r) (rg_InstanceID r) (rg_Hostname r) (rg_SupportedOperations r)
    (rg_SoftwareVersion r) StatusStarting 0 (rg_MaxConcurrency r) (rg_StartedAt r) (rg_StartedAt r)
    None (old ≫= w_last_assigned_at) (from_option w_created_at now old) now.

Definition ApplyRegistration (r : Registration) : Tx DB unit :=
  now ← time_now;
  _ ← lift_res (validateEventTimestamp now (rg_StartedAt r));
  modify (on_workers (partial_alter (λ old,
    match old with
    | None => Some (register_row r now None)
    | Some w => if w_started_at w <? rg_StartedAt r then Some (register_row r now (Some w)) else Some w
    end) (rg_WorkerID r))).

Definition heartbeat_row (h : Heartbeat) (now : time) (w : WorkerRow) : WorkerRow :=
  set_w_hostname (hb_Hostname h) (set_w_supported_operations (hb_SupportedOperations h)
    (set_w_software_version (hb_SoftwareVersion h) (set_w_status (hb_Status h)
      (set_w_current_concurrency (hb_CurrentConcurrency h) (set_w_max_concurrency (hb_MaxConcurrency h)
        (set_w_observed_at (hb_ObservedAt h) (set_w_last_heartbeat_at (Some now)
          (set_w_updated_at now w)))))))).

Definition heartbeat_accepted (h : Heartbeat) (w : WorkerRow) : bool :=
  bool_decide (w_instance_id w = hb_InstanceID h) && (w_observed_at w <=? hb_ObservedAt h).

Definition ApplyHeartbeat (h : Heartbeat) : Tx DB unit :=
  now ← time_now;
  _ ← lift_res (validateEventTimestamp now (hb_ObservedAt h));
  modify (on_workers (alter (λ w,
    if heartbeat_accepted h w then heartbeat_row h now w else w) (hb_WorkerID h))).

(** ** Choosing a worker *)

(** [operationPattern], [^[A-Z][A-Z0-9_]{0,63}$]. *)
Definition is_upper (b : N) : bool := (65 <=? b)%N && (b <=? 90)%N.

Definition operationPattern (s : string) : bool :=
  match bytes_of s with
  | b :: l => is_upper b && bool_decide (length l <= 63)%nat
              && forallb (λ c, is_upper c || is_digit c || N.eqb c 95) l
  | [] => false
  end.

(** Trim, check, deduplicate and sort. *)
Fixpoint normalize_operations (l : list string) : res (list string) :=
  match l with
  | [] => mret []
  | x :: l =>
      let n := trim_space x in
      if operationPattern n then r ← normalize_operations l; mret (n :: r)
      else Err (ErrText "required operation is invalid")
  end.

Definition normalizedRequiredOperations (operations : list string) : res (list string) :=
  l ← normalize_operations operations;
  mret (sort_by string_ltb (remove_dups l)).

(** The WHERE clause of the worker query. *)
Definition eligible (cutoff : time) (required : list string) (w : WorkerRow) : bool :=
  bool_decide (w_status w = StatusReady ∨ w_status w = StatusBusy)
  && match w_last_heartbeat_at w with Some t => cutoff <=? t | None => false end
  && forallb (λ op, bool_decide (op ∈ w_supported_operations w)) required.

(** [ORDER BY w.last_assigned_at NULLS FIRST, w.worker_id]. *)
Definition assigned_before (x y : WorkerRow) : bool :=
  match w_last_assigned_at x, w_last_assigned_at y with
  | None, Some _ => true
  | Some _, None => false
  | None, None => (w_worker_id x <? w_worker_id y)%N
  | Some s, Some t => (s <? t) || ((s =? t) && (w_worker_id x <? w_worker_id y)%N)
  end.

Definition active_attempt (a : AttemptRow) : bool :=
  bool_decide (a_state a = AttemptLeased ∨ a_state a = AttemptRunning).

(** [SELECT COUNT( * ) .. WHERE worker_id = $1 AND state IN ('LEASED', 'RUNNING')]. *)
Definition activeLeases (d : DB) (workerID : uuid) : nat :=
  length (filter (λ a, a_worker_id a = Some workerID ∧ active_attempt a = true) (rows (t_attempts d))).

Definition next_worker (d : DB) (locked : uuid → bool) (cutoff : time) (required : list string)
  (excluded : list uuid) : option WorkerRow :=
  best assigned_before
    (filter (λ w, eligible cutoff required w = true ∧ locked (w_worker_id w) = false
                  ∧ w_worker_id w ∉ excluded) (rows (t_workers d))).

(** The loop of [SelectForLease]: a full worker joins [excluded] and the query
    runs again.  Every turn excludes one more worker, so the number of workers
    plus one is enough fuel ([select_loop_spec]). *)
Fixpoint select_loop (d : DB) (locked : uuid → bool) (cutoff : time) (required : list string)
  (fuel : nat) (excluded : list uuid) : option WorkerRow :=
  match fuel with
  | O => None
  | S fuel =>
      match next_worker d locked cutoff required excluded with
      | None => None
      | Some w =>
          if w_max_concurrency w <=? Z.of_nat (activeLeases d (w_worker_id w))
          then select_loop d locked cutoff required fuel (excluded ++ [w_worker_id w])
          else Some w
      end
  end.

Definition select_worker (d : DB) (locked : uuid → bool) (cutoff : time) (required : list string)
  : option WorkerRow :=
  select_loop d locked cutoff required (S (size (t_workers d))) [].

Definition registry_SelectForLease (ttl : duration) (operations : list string) (now : time)
  : Tx DB (uuid * bool) :=
  _ ← require (negb (bool_decide (operations = []))) (ErrText "worker selection requires operations");
  required ← lift_res (normalizedRequiredOperations operations);
  d ← get_db;
  locked ← locked_rows;
  match select_worker d locked (now - ttl) required with
  | None => mret (uuid_nil, false)
  | Some w =>
      _ ← modify (on_workers (alter (λ w, set_w_last_assigned_at (Some now) (set_w_updated_at now w))
             (w_worker_id w)));
      mret (w_worker_id w, true)
  end.

(** ** The [WorkerSelector] interface of the lease package

    A selection touches [processing_workers] only, and an available worker had
    a free slot. *)
Definition spare_slot (d : DB) (workerID : uuid) : Prop :=
  ∃ w, t_workers d !! workerID = Some w ∧ Z.of_nat (activeLeases d workerID) < w_max_concurrency w.

Class WorkerSelector := {
  SelectForLease : list string → time → Tx DB (uuid * bool);
  workers_ok : DB → Prop;
  wp_SelectForLease : ∀ o operations now (Q : uuid * bool → World DB → Prop) w,
    (∀ r f n, (workers_ok (st w) → r.2 = true → spare_slot (st w) r.1) →
       Q r (mkWorld (on_workers f (st w)) n)) →
    wp o (SelectForLease operations now) Q w
}.

(** ** Properties *)

(** Workers are stored under their identifier. *)
Definition workers_wf (d : DB) : Prop := ∀ k w, t_workers d !! k = Some w → w_worker_id w = k.

#[export] Instance assigned_before_strict : StrictWeak assigned_before.
Proof.
  split; unfold assigned_before; intros *; repeat case_match; try done;
    rw ?orb_true_iff ?orb_false_iff ?andb_true_iff ?andb_false_iff;
    rw ?Z.ltb_lt ?Z.ltb_ge ?Z.eqb_eq ?Z.eqb_neq ?N.ltb_lt ?N.ltb_ge; lia.
Qed.

Section select.
Context (d : DB) (locked : uuid → bool) (cutoff : time) (required : list string).
Context (Hwf : workers_wf d).

(** A worker the query may return, with or without a free slot. *)
Definition candidate (w : WorkerRow) : Prop :=
  t_workers d !! w_worker_id w = Some w ∧ eligible cutoff required w = true
  ∧ locked (w_worker_id w) = false.

Definition has_slot (w : WorkerRow) : Prop :=
  Z.of_nat (activeLeases d (w_worker_id w)) < w_max_concurrency w.

Definition all_full (excluded : list uuid) : Prop :=
  ∀ w, w_worker_id w ∈ excluded → candidate w → ¬ has_slot w.

Lemma next_worker_Some excluded w :
  next_worker d locked cutoff required excluded = Some w →
  candidate w ∧ (w_worker_id w ∉ excluded)
  ∧ ∀ w', candidate w' → w_worker_id w' ∉ excluded → assigned_before w' w = false.
Proof.
  intros H. pose proof (best_elem _ _ _ H) as Hin.
  apply list_elem_of_filter in Hin as [(He&Hl&Hx) (k&Hk)%elem_of_rows].
  pose proof (Hwf _ _ Hk) as <-. split_and!; [done..|].
  intros w' (Hk'&He'&Hl') Hx'. eapply (best_first assigned_before); [exact H|].
  apply list_elem_of_filter. split; [done|]. apply elem_of_rows. eauto.
Qed.

Lemma next_worker_None excluded w :
  next_worker d locked cutoff required excluded = None → candidate w → w_worker_id w ∈ excluded.
Proof.
  intros H%best_None (Hk&He&Hl). destruct (decide (w_worker_id w ∈ excluded)) as [|Hx]; [done|].
  exfalso. assert (w ∈ @nil WorkerRow) as Hin; [|by apply elem_of_nil in Hin].
  rw -H. apply list_elem_of_filter. split; [done|]. apply elem_of_rows. eauto.
Qed.

(** Excluded workers are distinct rows of the table, so there are at most as
    many as workers. *)
Lemma excluded_bound excluded :
  NoDup excluded → Forall (λ k, is_Some (t_workers d !! k)) excluded →
  (length excluded <= size (t_workers d))%nat.
Proof.
  intros Hnd Hall. rw -size_dom -(size_list_to_set (C := gset N)) //.
  apply subseteq_size. intros k Hk%elem_of_list_to_set. apply elem_of_dom.
  rw list.Forall_forall in Hall. by apply Hall.
Qed.

(** The loop never runs out of fuel: it stops with the first worker in
    assignment order that has a free slot, or because there is none. *)
Lemma select_loop_spec fuel excluded :
  NoDup excluded → Forall (λ k, is_Some (t_workers d !! k)) excluded → all_full excluded →
  (length excluded + fuel = S (size (t_workers d)))%nat →
  match select_loop d locked cutoff required fuel excluded with
  | Some w => candidate w ∧ has_slot w
              ∧ ∀ w', candidate w' → has_slot w' → assigned_before w' w = false
  | None => ∀ w, candidate w → ¬ has_slot w
  end.
Proof.
  revert excluded. induction fuel as [|fuel IH]; intros ex Hnd Hall Hfull Hfuel; simpl.
  { pose proof (excluded_bound ex Hnd Hall). lia. }
  destruct (next_worker _ _ _ _ _) as [w|] eqn:Hw.
  - apply next_worker_Some in Hw as (Hc&Hx&Hfirst). destruct (Z.leb_spec (w_max_concurrency w)
      (Z.of_nat (activeLeases d (w_worker_id w)))) as [Hle|Hlt].
    + apply IH.
      * apply list.NoDup_app. split_and!; [done| |apply NoDup_singleton].
        by intros y Hy ->%list_elem_of_singleton.
      * apply list.Forall_app. split; [done|]. constructor; [|constructor]. destruct Hc as [-> _]. done.
      * intros w' [Hin|Hin%list_elem_of_singleton]%elem_of_app Hc'; [by apply Hfull|].
        destruct Hc as [Hk _], Hc' as [Hk' _]. rw Hin Hk in Hk'. injection Hk' as <-.
        unfold has_slot. lia.
      * rw length_app /=. lia.
    + split_and!; [done|done|]. intros w' Hc' Hs'. apply Hfirst; [done|].
      intros Hin. by apply (Hfull w').
  - intros w Hc. apply Hfull; [|done]. by eapply next_worker_None.
Qed.

Lemma select_worker_spec :
  match select_worker d locked cutoff required with
  | Some w => candidate w ∧ has_slot w
              ∧ ∀ w', candidate w' → has_slot w' → assigned_before w' w = false
  | None => ∀ w, candidate w → ¬ has_slot w
  end.
Proof.
  apply select_loop_spec; [apply NoDup_nil_2|constructor| |simpl; lia].
  intros w Hw. by apply elem_of_nil in Hw.
Qed.
End select.

Lemma on_workers_id d : on_workers (λ t, t) d = d.
Proof. by destruct d. Qed.

(** The registry discharges the interface of the lease package. *)
Program Definition registry_selector (ttl : duration) : WorkerSelector := {|
  SelectForLease := registry_SelectForLease ttl;
  workers_ok := workers_wf
|}.
Next Obligation.
  intros ttl o ops now Q w HQ. unfold registry_SelectForLease. wp_steps.
  pose proof (select_worker_spec (st w) (o_locked o) (now - ttl) a) as Hspec.
  destruct (select_worker _ _ _ _) as [wk|]; wp_steps.
  - apply HQ. intros Hok _. destruct (Hspec Hok) as ((Hk&_&_)&Hslot&_). by exists wk.
  - specialize (HQ (uuid_nil, false) (λ t, t) (tick w)). rw on_workers_id in HQ.
    destruct w. by apply HQ.
Qed.

(** The scheduler's worker choice is complete and least-recently-assigned.
    When a worker is returned it is live, capable of every required operation,
    unlocked, has a free lease slot, precedes every other such worker in
    assignment order, and is stamped as assigned; when none is returned no such
    worker exists and nothing changes.  The retry loop over full workers always
    terminates with one of the two answers. *)
Lemma SelectForLease_least_recent ttl operations now o (d d' : DB) id ok :
  workers_wf d →
  transact (registry_SelectForLease ttl operations now) o d = (Ok (id, ok), d') →
  ∃ required, normalizedRequiredOperations operations = Ok required
    ∧ if ok then
        ∃ w, id = w_worker_id w ∧ candidate d (o_locked o) (now - ttl) required w ∧ has_slot d w
          ∧ (∀ w', candidate d (o_locked o) (now - ttl) required w' → has_slot d w' →
               assigned_before w' w = false)
          ∧ d' = on_workers (alter (λ w, set_w_last_assigned_at (Some now) (set_w_updated_at now w)) id) d
      else d' = d ∧ ∀ w, candidate d (o_locked o) (now - ttl) required w → ¬ has_slot d w.
Proof.
  intros Hwf H. apply (transact_inv _ _ _ _ _ _ H). clear H.
  unfold registry_SelectForLease. wp_steps.
  rename select (list string) into req. rename select (normalizedRequiredOperations _ = _) into Hn.
  pose proof (select_worker_spec d (o_locked o) (now - ttl) req Hwf) as Hspec.
  destruct (select_worker _ _ _ _) as [wk|]; wp_steps; intros [= -> ->] ->; exists req; (split; [done|]).
  - destruct Hspec as (?&?&?). exists wk. done.
  - done.
Qed.

Definition ex_worker (id : uuid) (assigned : option time) (max : Z) : WorkerRow :=
  mkWorkerRow id "i" "h" ["PROFILE_DATASET"] "1" StatusReady 0 max 10 900 (Some 900) assigned 10 900.

(** Worker 1 was assigned least recently but has no slot; worker 2 is next. *)
Definition ex_workers : DB :=
  on_workers (λ _, {[ 1%N := ex_worker 1 None 0; 2%N := ex_worker 2 (Some 50) 1;
                      3%N := ex_worker 3 (Some 60) 1 ]}) empty_db.

Definition ex_select_oracle : Oracle := {|
  o_uuid := λ n, N.of_nat (100 + n); o_time := λ n, 1000; o_sqlnow := 1000;
  o_locked := λ _, false; o_rand := λ _ _, 0 |}.

Lemma ex_workers_wf : workers_wf ex_workers.
Proof.
  intros k w. cbn [t_workers on_workers ex_workers].
  repeat (rw lookup_insert_Some; intros [[<- <-]|[_ H]]; [done|revert H]).
  by rw lookup_empty.
Defined.

Lemma SelectForLease_least_recent_witness :
  ∃ required, normalizedRequiredOperations [" PROFILE_DATASET"] = Ok required
    ∧ ∃ w, 2%N = w_worker_id w ∧ has_slot ex_workers w.
Proof.
  destruct (SelectForLease_least_recent DefaultHeartbeatTTL [" PROFILE_DATASET"] 1000 ex_select_oracle
    ex_workers
    (transact (registry_SelectForLease DefaultHeartbeatTTL [" PROFILE_DATASET"] 1000)
       ex_select_oracle ex_workers).2 2 true ex_workers_wf) as (req&Hreq&w&Hid&_&Hs&_).
  - vm_compute. reflexivity.
  - exists req. split; [exact Hreq|]. exists w. split; assumption.
Defined.

(** *** Registrations and heartbeats *)

(** What later events may do to a row: a newer incarnation replaces it, or the
    same incarnation reports a state that is not older. *)
Definition worker_advances (w w' : WorkerRow) : Prop :=
  w_started_at w < w_started_at w'
  ∨ (w_started_at w = w_started_at w' ∧ w_instance_id w = w_instance_id w'
     ∧ w_observed_at w <= w_observed_at w').

Definition registry_advances (d d' : DB) : Prop :=
  ∀ k w, t_workers d !! k = Some w → ∃ w', t_workers d' !! k = Some w' ∧ worker_advances w w'.

#[export] Instance worker_advances_preorder : PreOrder worker_advances.
Proof.
  split; unfold worker_advances; [intros w; right; split_and!; [done..|lia]|].
  intros x y z [?|(?&?&?)] [?|(?&?&?)]; [left; lia..|right]. split_and!; [lia|congruence|lia].
Qed.

#[export] Instance registry_advances_preorder : PreOrder registry_advances.
Proof.
  split; [intros d k w Hw; exists w; by split|].
  intros x y z Hxy Hyz k w Hw. destruct (Hxy k w Hw) as (w1&Hw1&H1).
  destruct (Hyz k w1 Hw1) as (w2&Hw2&H2). exists w2. split; [done|]. by etrans.
Qed.

Inductive WorkerEvent := Registered (r : Registration) | Beat (h : Heartbeat).

Definition apply_worker_event (e : WorkerEvent) : Tx DB unit :=
  match e with Registered r => ApplyRegistration r | Beat h => ApplyHeartbeat h end.

Definition run_worker_events (o : Oracle) (es : list WorkerEvent) (d : DB) : DB :=
  foldl (λ d e, (transact (apply_worker_event e) o d).2) d es.

Lemma apply_worker_event_advances e o d :
  registry_advances d (transact (apply_worker_event e) o d).2.
Proof.
  apply (transact_wp o (apply_worker_event e) d (λ _ d', registry_advances d d')); [done|].
  destruct e as [r|h]; simpl; [unfold ApplyRegistration|unfold ApplyHeartbeat]; wp_steps;
    intros k w Hw; simpl.
  - destruct (decide (rg_WorkerID r = k)) as [->|Hne];
      [|rw lookup_partial_alter_ne //; exists w; by split].
    rw lookup_partial_alter_eq Hw. destruct (Z.ltb_spec (w_started_at w) (rg_StartedAt r));
      (eexists; split; [done|]); [by left|reflexivity].
  - destruct (decide (hb_WorkerID h = k)) as [->|Hne];
      [|rw lookup_alter_ne //; exists w; by split].
    rw lookup_alter_eq Hw /=. eexists; split; [done|].
    destruct (heartbeat_accepted h w) eqn:Hacc; [|reflexivity].
    unfold heartbeat_accepted in Hacc. reflect_bool. right. simpl. split_and!; [done..|lia].
Qed.

(** The registry never goes back in time: whatever order registrations and
    heartbeats arrive in, duplicates and stragglers included, no worker row is
    lost, an older incarnation never replaces a newer one, and within one
    incarnation an older observation never replaces a newer one. *)
Lemma worker_events_monotone (o : Oracle) (es : list WorkerEvent) (d : DB) :
  registry_advances d (run_worker_events o es d).
Proof.
  revert d. induction es as [|e es IH]; intros d; [reflexivity|].
  simpl. etrans; [apply apply_worker_event_advances|apply IH].
Qed.

(** A worker that has just (re)registered is not eligible for any job
    before its first heartbeat. *)
Lemma registered_not_eligible r o d d' cutoff required w :
  transact (ApplyRegistration r) o d = (Ok tt, d') →
  (∀ w0, t_workers d !! rg_WorkerID r = Some w0 → w_started_at w0 < rg_StartedAt r) →
  t_workers d' !! rg_WorkerID r = Some w → eligible cutoff required w = false.
Proof.
  intros H Hnew. apply (transact_inv _ _ _ _ _ _ H). clear H.
  unfold ApplyRegistration. wp_steps. intros _ ->. simpl. rw lookup_partial_alter_eq.
  destruct (t_workers d !! rg_WorkerID r) as [w0|] eqn:Hw.
  - specialize (Hnew w0 eq_refl). destruct (Z.ltb_spec (w_started_at w0) (rg_StartedAt r)); [|lia].
    by intros [= <-].
  - by intros [= <-].
Qed.

Lemma registered_not_eligible_witness :
  eligible 0 [] (register_row (mkRegistration 2 "j" "h" ["PROFILE_DATASET"] "2" 4 20) 1000
    (Some (ex_worker 2 (Some 50) 1))) = false.
Proof.
  apply (registered_not_eligible (mkRegistration 2 "j" "h" ["PROFILE_DATASET"] "2" 4 20) ex_select_oracle
    ex_workers (transact (ApplyRegistration (mkRegistration 2 "j" "h" ["PROFILE_DATASET"] "2" 4 20))
      ex_select_oracle ex_workers).2 0 []).
  - reflexivity.
  - intros w0 [= <-]. done.
  - reflexivity.
Defined.
