(* ===== verification/Authz.v ===== *)
(** Authorisation: principals (src/go/internal/auth/principal.go) and the
    scope policy (src/go/internal/authz/policy.go). *)

From S2P Require Import Prelude.

Definition ScopeDatasetsRead : string := "datasets:read".
Definition ScopeDatasetsWrite : string := "datasets:write".
Definition ScopeJobsRead : string := "jobs:read".
Definition ScopeJobsWrite : string := "jobs:write".
Definition ScopeArtifactsRead : string := "artifacts:read".

Definition AuthMethodBearer : string := "bearer".
Definition AuthMethodAPIKey : string := "api-key".

Definition RoleAdmin : string := "ADMIN".
Definition RoleUser : string := "USER".
Definition RoleService : string := "SERVICE".

Record Principal := mkPrincipal {
  UserID : uuid; Role : string; Scopes : list string; AuthMethod : string
}.

Definition knownScopes : list string :=
  [ScopeDatasetsRead; ScopeDatasetsWrite; ScopeJobsRead; ScopeJobsWrite; ScopeArtifactsRead].

Definition DefaultUserScopes : list string :=
  [ScopeDatasetsRead; ScopeDatasetsWrite; ScopeJobsRead; ScopeJobsWrite; ScopeArtifactsRead].

Definition IsKnownScope (scope : string) : bool := bool_decide (scope ∈ knownScopes).

Definition HasScope (principal : Principal) (scope : string) : bool :=
  if bool_decide (UserID principal = uuid_nil) || negb (IsKnownScope scope) then false
  else if bool_decide (Role principal = RoleAdmin)
          && negb (bool_decide (AuthMethod principal = AuthMethodAPIKey)) then true
  else existsb (λ granted, bool_decide (granted = scope)) (Scopes principal).

Definition RequireScope (principal : Principal) (scope : string) : res unit :=
  if bool_decide (UserID principal = uuid_nil) then Err ErrUnauthenticated
  else if negb (HasScope principal scope) then Err ErrForbidden
  else Ok tt.

Definition CanAccessOwner (principal : Principal) (ownerID : uuid) (scope : string) : bool :=
  if bool_decide (ownerID = uuid_nil) || bool_decide (UserID principal = uuid_nil)
     || negb (HasScope principal scope) then false
  else bool_decide (Role principal = RoleAdmin) || bool_decide (UserID principal = ownerID).

Fixpoint validate_grants (principal : Principal) (seen requested : list string) : res unit :=
  match requested with
  | [] => Ok tt
  | scope :: requested =>
      if bool_decide (scope ∈ seen) then Err ErrInvalidScope
      else if negb (IsKnownScope scope) || negb (HasScope principal scope) then Err ErrInvalidScope
      else validate_grants principal (scope :: seen) requested
  end.

Definition ValidateGrantableScopes (principal : Principal) (requested : list string) : res unit :=
  validate_grants principal [] requested.

(** ** Properties *)

(** When a principal holds a scope: only an administrator that did not come
    with an API key holds scopes it was not granted. *)
Lemma HasScope_iff p s :
  HasScope p s = true ↔
    UserID p ≠ uuid_nil ∧ s ∈ knownScopes
    ∧ ((Role p = RoleAdmin ∧ AuthMethod p ≠ AuthMethodAPIKey) ∨ s ∈ Scopes p).
Proof.
  unfold HasScope, IsKnownScope.
  destruct (bool_decide_reflect (UserID p = uuid_nil)), (bool_decide_reflect (s ∈ knownScopes)); simpl;
    [naive_solver..| |naive_solver].
  destruct (bool_decide_reflect (Role p = RoleAdmin)),
    (bool_decide_reflect (AuthMethod p = AuthMethodAPIKey)); simpl; [|naive_solver| |];
    (rw existsb_exists; split;
     [ intros (x&Hx&->%bool_decide_eq_true); rw -list_elem_of_In in Hx; naive_solver
     | intros (_&_&[[]|Hin]); [done|exists s; rw -list_elem_of_In bool_decide_eq_true; done] ]).
Qed.

Lemma validate_grants_ok p seen l :
  validate_grants p seen l = Ok tt ↔
    NoDup l ∧ (∀ s, s ∈ l → s ∉ seen) ∧ ∀ s, s ∈ l → HasScope p s = true.
Proof.
  revert seen. induction l as [|s l IH]; intros seen; simpl.
  { split; [|done]. intros _. split_and!; [apply NoDup_nil_2|by intros ? ?%elem_of_nil..]. }
  rw list.NoDup_cons. destruct (bool_decide_reflect (s ∈ seen)) as [Hs|Hs].
  { split; [done|]. intros (_&H&_). exfalso. apply (H s); [by left|done]. }
  destruct (HasScope p s) eqn:Hh; rw ?orb_true_r.
  - assert (IsKnownScope s = true) as -> by
      (apply HasScope_iff in Hh as (_&?&_); by apply bool_decide_eq_true).
    simpl. rw IH. setoid_rewrite elem_of_cons. naive_solver.
  - split; [done|]. intros (_&_&H). rw (H s) // in Hh. by left.
Qed.

Lemma ValidateGrantableScopes_ok p l :
  ValidateGrantableScopes p l = Ok tt ↔ NoDup l ∧ ∀ s, s ∈ l → HasScope p s = true.
Proof.
  unfold ValidateGrantableScopes. rw validate_grants_ok. split; [by intros (?&_&?)|].
  intros [? ?]. split_and!; [done| |done]. intros s _. by apply not_elem_of_nil.
Qed.

Lemma CanAccessOwner_iff p owner s :
  CanAccessOwner p owner s = true ↔
    owner ≠ uuid_nil ∧ HasScope p s = true ∧ (Role p = RoleAdmin ∨ UserID p = owner).
Proof.
  assert (HasScope p s = true → UserID p ≠ uuid_nil) by by intros (?&_)%HasScope_iff.
  unfold CanAccessOwner. destruct (bool_decide_reflect (owner = uuid_nil)); simpl; [naive_solver|].
  destruct (bool_decide_reflect (UserID p = uuid_nil)), (HasScope p s); simpl; try naive_solver.
  rw orb_true_iff !bool_decide_eq_true. naive_solver.
Qed.

(** The principal of an API key: its owner, with the granted scopes. *)
Definition key_principal (owner : Principal) (granted : list string) : Principal :=
  mkPrincipal (UserID owner) (Role owner) granted AuthMethodAPIKey.

(** API keys cannot escalate.  A key whose scopes passed
    [ValidateGrantableScopes] never has a scope, nor reaches a resource, that
    its creator lacked at that time, an administrator's key included; and a key
    acts only within the scopes that were requested for it. *)
Lemma api_key_no_escalation p l s owner :
  ValidateGrantableScopes p l = Ok tt →
  (HasScope (key_principal p l) s = true → s ∈ l ∧ HasScope p s = true)
  ∧ (CanAccessOwner (key_principal p l) owner s = true → CanAccessOwner p owner s = true).
Proof.
  intros [_ Hall]%ValidateGrantableScopes_ok.
  assert (HasScope (key_principal p l) s = true → s ∈ l ∧ HasScope p s = true) as Hkey.
  { intros (_&_&[[_ ?]|Hin])%HasScope_iff; [done|]. simpl in Hin. auto. }
  split; [exact Hkey|]. rw !CanAccessOwner_iff. intros (?&[_ ?]%Hkey&?). done.
Qed.

Lemma api_key_no_escalation_witness :
  ∃ p, CanAccessOwner (key_principal p [ScopeJobsRead]) 7%N ScopeJobsRead = true
       ∧ CanAccessOwner p 7%N ScopeJobsRead = true
       ∧ HasScope (key_principal p [ScopeJobsRead]) ScopeJobsWrite = false.
Proof.
  exists (mkPrincipal 9%N RoleAdmin [] AuthMethodBearer).
  split; [reflexivity|split; [|reflexivity]].
  apply (api_key_no_escalation (mkPrincipal 9%N RoleAdmin [] AuthMethodBearer) [ScopeJobsRead]
           ScopeJobsRead 7%N); reflexivity.
Defined.
