(* ===== verification/Lease.v ===== *)
(** Leases, src/go/internal/lease: acquisition with the execution command
    (repository_acquire.go), renewal and the sweep of expired leases
    (repository.go). *)

From S2P Require Import Prelude GoStrings Retry Json Queue JobModel Schema Sql Outbox JobStore WorkerRegistry.

Open Scope Z_scope.

Definition DefaultLeaseDuration : duration := 2 * Minute.
Definition DefaultRenewalWindow : duration := 2 * Minute.
Definition MaxLeaseDuration : duration := 30 * Minute.
Definition DefaultSweepBatchLimit : Z := 100.
Definition MaxSweepBatchLimit : Z := 1000.

Record Lease := mkLease {
  LeaseID : uuid; JobID : uuid; AttemptID : uuid; WorkerID : uuid; AttemptNumber : Z;
  LeasedAt : time; LeaseExpiresAt : time; LastRenewedAt : time
}.

Record AcquireCommand := mkAcquire { ac_JobID : uuid; ac_Duration : duration }.
Record RenewCommand := mkRenew { rn_LeaseID : uuid; rn_WorkerID : uuid; rn_Duration : duration }.

Record SweepReport := mkSweepReport {
  Claimed : Z; Retried : Z; DeadLettered_ : Z; Cancelled_ : Z; Skipped_ : Z
}.

Record LeaseConfig := mkLeaseConfig {
  lc_LeaseDuration : duration; lc_RenewalWindow : duration; lc_SweepLimit : Z; lc_RetryPolicy : Policy
}.

Definition normalizeDuration (value fallback : duration) : res duration :=
  let value := if bool_decide (value = 0) then fallback else value in
  if (value <=? 0) || (MaxLeaseDuration <? value) then Err ErrLeaseInvalidInput else Ok value.

Definition validateConfig (c : LeaseConfig) : res unit :=
  _ ← normalizeDuration (lc_LeaseDuration c) 0;
  _ ← normalizeDuration (lc_RenewalWindow c) 0;
  if (lc_SweepLimit c <? 1) || (MaxSweepBatchLimit <? lc_SweepLimit c)
  then Err ErrLeaseInvalidInput else Policy_Validate (lc_RetryPolicy c).

(** [NewRepository]: zero fields take their defaults, then the configuration is
    validated. *)
Definition NewLeaseRepository (c : LeaseConfig) : res LeaseConfig :=
  let or_default (v d : Z) := if bool_decide (v = 0) then d else v in
  let c := mkLeaseConfig
    (or_default (lc_LeaseDuration c) DefaultLeaseDuration)
    (or_default (lc_RenewalWindow c) DefaultRenewalWindow)
    (or_default (lc_SweepLimit c) DefaultSweepBatchLimit)
    (if bool_decide (p_MaxAttempts (lc_RetryPolicy c) = 0) then DefaultPolicy else lc_RetryPolicy c) in
  _ ← validateConfig c;
  Ok c.

(** INSERT INTO job_state_history with no actor. *)
Definition lease_recordHistory (jobID : uuid) (from to : JobState) (reason : string) : Tx DB unit :=
  append_history (mkHistoryRow jobID (Some from) to reason None).

(** ** Acquisition *)

Record leaseCandidate := mkCandidate {
  lk_JobID : uuid; lk_JobState : JobState; lk_NextAttemptAt : option time;
  lk_DatasetVersionID : uuid; lk_Operations : list Operation; lk_AttemptID : uuid;
  lk_AttemptNumber : Z; lk_AttemptState : AttemptState; lk_ObjectKey : string;
  lk_ContentType : string; lk_Format : string; lk_SizeBytes : option Z
}.

Definition lockLeaseCandidate (jobID : uuid) : Tx DB leaseCandidate :=
  d ← get_db;
  j ← lift_opt ErrJobNotFound (t_jobs d !! jobID);
  a ← lift_opt ErrJobNotFound (latest_attempt d (j_id j));
  v ← lift_opt ErrJobNotFound (t_versions d !! j_dataset_version_id j);
  mret (mkCandidate (j_id j) (j_state j) (j_next_attempt_at j) (j_dataset_version_id j)
    (j_operations j) (a_id a) (a_attempt_number a) (a_state a) (v_object_key v) (v_content_type v)
    (v_format v) (v_size_bytes v)).

(** [decodeOperationTypes]: the distinct types in order of first appearance. *)
Fixpoint operation_types (seen : list string) (ops : list Operation) : res (list string) :=
  match ops with
  | [] => Ok []
  | op :: ops =>
      if bool_decide (op_type op = "") then Err ErrLeaseInvalidInput
      else if bool_decide (op_type op ∈ seen) then operation_types seen ops
      else l ← operation_types (op_type op :: seen) ops; Ok (op_type op :: l)
  end.

Definition decodeOperationTypes (ops : list Operation) : res (list string) :=
  if bool_decide (ops = []) then Err ErrLeaseInvalidInput else operation_types [] ops.

Definition json_source (item : leaseCandidate) (size : Z) : json :=
  JObj [("objectKey", JStr (lk_ObjectKey item)); ("contentType", JStr (lk_ContentType item));
        ("format", JStr (lk_Format item)); ("sizeBytes", json_int size)].

Definition requested_payload (item : leaseCandidate) (l : Lease) (size : Z) : json :=
  JObj [("jobId", json_uuid (lk_JobID item)); ("datasetVersionId", json_uuid (lk_DatasetVersionID item));
        ("attemptId", json_uuid (AttemptID l)); ("leaseId", json_uuid (LeaseID l));
        ("workerId", json_uuid (WorkerID l)); ("attemptNumber", json_int (AttemptNumber l));
        ("operations", JArr (map json_operation (lk_Operations item)));
        ("source", json_source item size)].

Definition newAcquireCommand (item : leaseCandidate) (l : Lease) (availableAt : time) : Tx DB Message :=
  size ← lift_opt (ErrText "lease source size is missing") (lk_SizeBytes item);
  e ← NewEnvelope MessageJobRequested (uuid_string (lk_JobID item)) (uuid_string (lk_JobID item))
        (uuid_string (LeaseID l)) (requested_payload item l size);
  routingKey ← lift_res (WorkerRoutingKey MessageJobRequested (WorkerID l));
  mret (message e routingKey availableAt).

(** The unique index on [job_attempts.lease_id]. *)
Definition lease_id_taken (d : DB) (attemptID leaseID : uuid) : bool :=
  existsb (λ a, bool_decide (a_lease_id a = Some leaseID ∧ a_id a ≠ attemptID)) (rows (t_attempts d)).

Definition assign_row (l : Lease) (a : AttemptRow) : AttemptRow :=
  set_a_state AttemptLeased (set_a_lease_id (Some (LeaseID l)) (set_a_worker_id (Some (WorkerID l))
    (set_a_leased_at (Some (LeasedAt l)) (set_a_last_renewed_at (Some (LeasedAt l))
      (set_a_lease_expires_at (Some (LeaseExpiresAt l)) a))))).

Definition leased_job (now : time) (r : JobRow) : JobRow :=
  set_j_state Leased (set_j_next_attempt_at None (set_j_updated_at now r)).

(** The quota statement reads the owner from the job row. *)
Definition lease_quota (jobID : uuid) (now : time) : Tx DB unit :=
  d ← get_db;
  match t_jobs d !! jobID with
  | None => mret tt
  | Some r => update_quota (j_owner_user_id r) (λ q,
      set_q_queued_count (Z.max (q_queued_count q - 1) 0)
        (set_q_active_count (q_active_count q + 1) (set_q_updated_at now q)))
  end.

Definition assignLease (item : leaseCandidate) (l : Lease) : Tx DB unit :=
  d ← get_db;
  _ ← require (negb (lease_id_taken d (lk_AttemptID item) (LeaseID l))) ErrUniqueViolation;
  _ ← update_attempt (lk_AttemptID item) (assign_row l);
  _ ← update_job (lk_JobID item) (leased_job (LeasedAt l));
  _ ← lease_quota (lk_JobID item) (LeasedAt l);
  lease_recordHistory (lk_JobID item) Queued Leased "lease_assigned".

(** ** Renewal *)

(** The row a lease identifies; the unique index makes it unique. *)
Definition attempt_of_lease (d : DB) (leaseID workerID : uuid) : option AttemptRow :=
  head (filter (λ a, a_lease_id a = Some leaseID ∧ a_worker_id a = Some workerID) (rows (t_attempts d))).

Definition renewed_row (now expires : time) (a : AttemptRow) : AttemptRow :=
  set_a_last_renewed_at (Some now) (set_a_lease_expires_at (Some expires) a).

Definition Renew (c : LeaseConfig) (command : RenewCommand) : Tx DB Lease :=
  _ ← require (negb (bool_decide (rn_LeaseID command = uuid_nil ∨ rn_WorkerID command = uuid_nil)))
        ErrLeaseInvalidInput;
  duration ← lift_res (normalizeDuration (rn_Duration command) (lc_RenewalWindow c));
  now ← time_now;
  d ← get_db;
  a ← lift_opt ErrLeaseNotFound (attempt_of_lease d (rn_LeaseID command) (rn_WorkerID command));
  _ ← require (active_attempt a) ErrLeaseState;
  _ ← require (match a_lease_expires_at a with Some t => now <? t | None => false end) ErrLeaseExpired;
  let expires := now + duration in
  _ ← modify (on_attempts (fmap (λ r,
        if bool_decide (a_lease_id r = Some (rn_LeaseID command) ∧ a_worker_id r = Some (rn_WorkerID command))
        then renewed_row now expires r else r)));
  mret (mkLease (rn_LeaseID command) (a_job_id a) (a_id a) (rn_WorkerID command) (a_attempt_number a)
    (default time_zero (a_leased_at a)) expires now).

(** ** The sweep *)

Record expiredCandidate := mkExpired {
  ex_JobID : uuid; ex_AttemptID : uuid; ex_LeaseID : uuid; ex_WorkerID : uuid; ex_OwnerUserID : uuid;
  ex_JobState : JobState; ex_AttemptState : AttemptState; ex_AttemptNumber : Z; ex_MaxAttempts : Z
}.

Definition active_job (s : JobState) : bool :=
  bool_decide (s = Leased ∨ s = Running ∨ s = CancelRequested).

Definition attempt_expired (now : time) (a : AttemptRow) : bool :=
  active_attempt a && match a_lease_expires_at a with Some t => t <=? now | None => false end.

(** [ORDER BY a.lease_expires_at, a.id]. *)
Definition expires_before (x y : AttemptRow) : bool :=
  let t r := default time_zero (a_lease_expires_at r) in
  (t x <? t y) || ((t x =? t y) && (a_id x <? a_id y)%N).

(** The join of an attempt with its job, as one scanned row. *)
Definition expired_candidate (d : DB) (a : AttemptRow) : option expiredCandidate :=
  j ← t_jobs d !! a_job_id a;
  Some (mkExpired (j_id j) (a_id a) (default uuid_nil (a_lease_id a)) (default uuid_nil (a_worker_id a))
          (j_owner_user_id j) (j_state j) (a_state a) (a_attempt_number a) (j_max_attempts j)).

Definition sweepable (d : DB) (locked : uuid → bool) (now : time) (a : AttemptRow) : bool :=
  attempt_expired now a && negb (locked (a_id a)) && negb (locked (a_job_id a))
  && match t_jobs d !! a_job_id a with Some j => active_job (j_state j) | None => false end.

Definition expired_candidates (d : DB) (locked : uuid → bool) (now : time) (limit : Z)
  : list expiredCandidate :=
  omap (expired_candidate d) (select_limit (sweepable d locked now) expires_before limit (rows (t_attempts d))).

Definition timed_out_row (now : time) (a : AttemptRow) : AttemptRow :=
  set_a_state AttemptTimedOut (set_a_finished_at (Some now) (set_a_lease_expires_at (Some now) a)).

Definition cancelled_expired_row (now : time) (a : AttemptRow) : AttemptRow :=
  set_a_state AttemptCancelled (set_a_finished_at (Some now)
    (set_a_error_code None (set_a_error_message None (set_a_retryable false a)))).

Definition cancelled_expired_job (now : time) (r : JobRow) : JobRow :=
  set_j_state Cancelled (set_j_next_attempt_at None (set_j_completed_at (Some now)
    (set_j_finished_at (Some now) (set_j_updated_at now
      (set_j_last_error_code None (set_j_last_error_message None r)))))).

Definition retried_job (nextAt now : time) (r : JobRow) : JobRow :=
  set_j_state Queued (set_j_next_attempt_at (Some nextAt) (set_j_updated_at now
    (set_j_last_error_code (Some "LEASE_EXPIRED") (set_j_last_error_message (Some "worker lease expired") r)))).

Definition dead_lettered_job (now : time) (r : JobRow) : JobRow :=
  set_j_state DeadLettered (set_j_next_attempt_at None (set_j_updated_at now (set_j_finished_at (Some now)
    (set_j_last_error_code (Some "LEASE_EXPIRED") (set_j_last_error_message (Some "worker lease expired") r))))).

Section repository.
Context `{!Enqueuer, !WorkerSelector}.

Definition enqueueAcquireCommand (item : leaseCandidate) (l : Lease) (availableAt : time) : Tx DB unit :=
  m ← newAcquireCommand item l availableAt;
  Enqueue m.

Definition Acquire (c : LeaseConfig) (command : AcquireCommand) : Tx DB Lease :=
  _ ← require (negb (bool_decide (ac_JobID command = uuid_nil))) ErrLeaseInvalidInput;
  duration ← lift_res (normalizeDuration (ac_Duration command) (lc_LeaseDuration c));
  item ← lockLeaseCandidate (ac_JobID command);
  now ← time_now;
  _ ← require (bool_decide (lk_JobState item = Queued ∧ lk_AttemptState item = AttemptCreated)) ErrJobState;
  _ ← require (match lk_NextAttemptAt item with Some t => t <=? now | None => true end) ErrLeaseNotReady;
  _ ← require (bool_decide (is_Some (lk_SizeBytes item))) (ErrText "lease source size is missing");
  operationTypes ← lift_res (decodeOperationTypes (lk_Operations item));
  selected ← SelectForLease operationTypes now;
  _ ← require (selected.2 && negb (bool_decide (selected.1 = uuid_nil))) ErrWorkerUnavailable;
  leaseID ← uuid_new;
  let l := mkLease leaseID (lk_JobID item) (lk_AttemptID item) selected.1 (lk_AttemptNumber item)
             now (now + duration) now in
  _ ← assignLease item l;
  _ ← enqueueAcquireCommand item l now;
  mret l.

Definition enqueueRetry (item : expiredCandidate) (availableAt : time) : Tx DB unit :=
  let traceID := uuid_string (ex_JobID item) in
  e ← NewEnvelope MessageJobQueued traceID traceID (uuid_string (ex_LeaseID item))
        (queued_payload (ex_JobID item));
  Enqueue (message e (MessageType e) availableAt).

(** The three ends of an expired lease. *)
Definition expire_cancelled (item : expiredCandidate) (now : time) : Tx DB unit :=
  _ ← update_attempt (ex_AttemptID item) (cancelled_expired_row now);
  _ ← update_job (ex_JobID item) (cancelled_expired_job now);
  _ ← release_quota (ex_OwnerUserID item) now;
  _ ← project_if_absent (ex_JobID item) (ex_AttemptID item)
        (mkProjectionRow "CANCELLED" [] (Some "CANCELLED")
           (Some "worker lease expired after cancellation request") (Some false));
  lease_recordHistory (ex_JobID item) CancelRequested Cancelled "cancellation_lease_expired".

Definition expire_retry (c : LeaseConfig) (item : expiredCandidate) (now : time) : Tx DB unit :=
  let nextAttempt := ex_AttemptNumber item + 1 in
  random ← rand_source;
  delay ← lift_res (Policy_Delay (raise_budget (lc_RetryPolicy c) (ex_MaxAttempts item)) nextAttempt (Some random));
  let nextAt := now + delay in
  newAttemptID ← uuid_new;
  _ ← insert_attempt newAttemptID (ex_JobID item) nextAttempt now;
  _ ← update_job (ex_JobID item) (retried_job nextAt now);
  _ ← requeue_quota (ex_OwnerUserID item) now;
  _ ← lease_recordHistory (ex_JobID item) (ex_JobState item) Queued "lease_expired_retry_scheduled";
  enqueueRetry item nextAt.

Definition expire_dead_letter (item : expiredCandidate) (now : time) : Tx DB unit :=
  _ ← update_job (ex_JobID item) (dead_lettered_job now);
  _ ← release_quota (ex_OwnerUserID item) now;
  id ← uuid_new;
  created ← sql_now;
  _ ← insert_dead_letter (mkDeadLetterRow id (ex_JobID item) (ex_AttemptID item) (ex_LeaseID item)
        (ex_WorkerID item) (ex_AttemptNumber item) "LEASE_EXPIRED" "worker lease expired" true None
        created None None);
  lease_recordHistory (ex_JobID item) (ex_JobState item) DeadLettered "lease_expired_dead_lettered".

Definition can_retry (item : expiredCandidate) : bool :=
  (1 <=? ex_AttemptNumber item) && (ex_AttemptNumber item + 1 <=? ex_MaxAttempts item).

Definition expireOne (c : LeaseConfig) (item : expiredCandidate) (now : time) (r : SweepReport)
  : Tx DB SweepReport :=
  _ ← update_attempt (ex_AttemptID item) (timed_out_row now);
  if bool_decide (ex_JobState item = CancelRequested) then
    _ ← expire_cancelled item now;
    mret (mkSweepReport (Claimed r) (Retried r) (DeadLettered_ r) (Cancelled_ r + 1) (Skipped_ r))
  else if can_retry item then
    _ ← expire_retry c item now;
    mret (mkSweepReport (Claimed r) (Retried r + 1) (DeadLettered_ r) (Cancelled_ r) (Skipped_ r))
  else
    _ ← expire_dead_letter item now;
    mret (mkSweepReport (Claimed r) (Retried r) (DeadLettered_ r + 1) (Cancelled_ r) (Skipped_ r)).

Fixpoint sweep_loop (c : LeaseConfig) (now : time) (items : list expiredCandidate) (r : SweepReport)
  : Tx DB SweepReport :=
  match items with
  | [] => mret r
  | item :: items => r ← expireOne c item now r; sweep_loop c now items r
  end.

Definition SweepExpired (c : LeaseConfig) (limit : Z) : Tx DB SweepReport :=
  let limit := if bool_decide (limit = 0) then lc_SweepLimit c else limit in
  _ ← require (negb ((limit <? 1) || (MaxSweepBatchLimit <? limit))) ErrLeaseInvalidInput;
  now ← time_now;
  d ← get_db;
  locked ← locked_rows;
  let candidates := expired_candidates d locked now limit in
  sweep_loop c now candidates (mkSweepReport (Z.of_nat (length candidates)) 0 0 0 0).
End repository.
