(* ===== verification/Scheduler.v ===== *)
(** The scheduler, src/go/internal/scheduler: fair selection of queued jobs
    across owners (scheduler.go) and the dispatch loop that acquires a lease for
    each selected job (dispatcher.go). *)

From S2P Require Import Prelude GoStrings Retry Json Queue JobModel Schema Sql Outbox JobStore WorkerRegistry Lease.

Open Scope Z_scope.

Definition DefaultBatchSize : Z := 20.
Definition DefaultCandidateFactor : Z := 4.

Record SchedulerConfig := mkSchedulerConfig { sc_BatchSize : Z; sc_CandidateFactor : Z }.

(** [New]. *)
Definition NewScheduler (c : SchedulerConfig) : SchedulerConfig :=
  mkSchedulerConfig (if sc_BatchSize c <? 1 then DefaultBatchSize else sc_BatchSize c)
    (if sc_CandidateFactor c <? 2 then DefaultCandidateFactor else sc_CandidateFactor c).

Definition candidateBefore (left right : QueuedJob) : bool :=
  let l := qj_Job left in let r := qj_Job right in
  if negb (bool_decide (j_priority l = j_priority r)) then j_priority r <? j_priority l
  else if negb (bool_decide (j_created_at l = j_created_at r)) then j_created_at l <? j_created_at r
  else string_ltb (uuid_string (j_id l)) (uuid_string (j_id r)).

Definition owner_of (c : QueuedJob) : uuid := j_owner_user_id (qj_Job c).

(** [byOwner[owner]], sorted. *)
Definition by_owner (candidates : list QueuedJob) (owner : uuid) : list QueuedJob :=
  sort_by candidateBefore (filter (λ c, owner_of c = owner) candidates).

(** The comparison of [sort.Slice(owners, ..)]: the heads of the groups. *)
Definition owner_before (candidates : list QueuedJob) (x y : uuid) : bool :=
  match by_owner candidates x, by_owner candidates y with
  | a :: _, b :: _ => candidateBefore a b
  | _, _ => false
  end.

Definition owners_of (candidates : list QueuedJob) : list uuid :=
  sort_by (owner_before candidates) (remove_dups (owner_of <$> candidates)).

(** One round: the next job of each owner, until [limit] jobs are selected;
    whether any was added. *)
Fixpoint fair_round (candidates : list QueuedJob) (limit round : nat) (owners : list uuid)
  (selected : list QueuedJob) : list QueuedJob * bool :=
  match owners with
  | [] => (selected, false)
  | owner :: owners =>
      match by_owner candidates owner !! round with
      | None => fair_round candidates limit round owners selected
      | Some c =>
          let selected := selected ++ [c] in
          if bool_decide (length selected = limit) then (selected, true)
          else ((fair_round candidates limit round owners selected).1, true)
      end
  end.

(** The loop over rounds.  Every round but the last adds a job, so one round
    more than there are candidates is enough fuel ([FairSelect_rounds]). *)
Fixpoint fair_loop (candidates : list QueuedJob) (owners : list uuid) (limit fuel round : nat)
  (selected : list QueuedJob) : list QueuedJob :=
  match fuel with
  | O => selected
  | S fuel =>
      if bool_decide (length selected < limit)%nat then
        let (selected, added) := fair_round candidates limit round owners selected in
        if added then fair_loop candidates owners limit fuel (S round) selected else selected
      else selected
  end.

Definition FairSelect (candidates : list QueuedJob) (limit : Z) : list QueuedJob :=
  if (limit <=? 0) || bool_decide (length candidates = 0%nat) then []
  else fair_loop candidates (owners_of candidates) (Z.to_nat limit) (S (length candidates)) 0 [].

Definition Select (c : SchedulerConfig) : Tx DB (list QueuedJob) :=
  let limit := wrap64 (sc_BatchSize c * sc_CandidateFactor c) in
  let limit := if 1000 <? limit then 1000 else limit in
  candidates ← SelectQueued limit;
  mret (FairSelect candidates (sc_BatchSize c)).

(** ** Dispatch *)

Record SchedulerReport := mkSchedulerReport {
  sr_Selected : Z; sr_Acquired : Z; sr_Skipped : Z; sr_Failures : list GoError
}.

(** Contention and jobs that are not ready are skipped. *)
Definition skippable (e : GoError) : bool :=
  bool_decide (e = ErrLeaseNotReady ∨ e = ErrWorkerUnavailable ∨ e = ErrJobNotFound ∨ e = ErrJobState).

Definition record_acquire {A} (r : res A) (rep : SchedulerReport) : SchedulerReport :=
  match r with
  | Ok _ => mkSchedulerReport (sr_Selected rep) (sr_Acquired rep + 1) (sr_Skipped rep) (sr_Failures rep)
  | Err e =>
      if skippable e
      then mkSchedulerReport (sr_Selected rep) (sr_Acquired rep) (sr_Skipped rep + 1) (sr_Failures rep)
      else mkSchedulerReport (sr_Selected rep) (sr_Acquired rep) (sr_Skipped rep) (sr_Failures rep ++ [e])
  end.

Section dispatch.
Context `{!Enqueuer, !WorkerSelector}.

(** Each acquisition is a transaction with an environment of its own;
    [cancelled] says whether [ctx.Err] is set before the n-th one.  The last
    component tells a cancelled dispatch from a completed one. *)
Fixpoint dispatch_loop (cfg : LeaseConfig) (leaseDuration : duration) (env : nat → Oracle)
  (cancelled : nat → bool) (i : nat) (queued : list QueuedJob) (rep : SchedulerReport) (d : DB)
  : SchedulerReport * DB * bool :=
  match queued with
  | [] => (rep, d, true)
  | item :: queued =>
      if cancelled i then (rep, d, false)
      else
        let '(r, d') := transact (Acquire cfg (mkAcquire (j_id (qj_Job item)) leaseDuration)) (env i) d in
        dispatch_loop cfg leaseDuration env cancelled (S i) queued (record_acquire r rep) d'
  end.

Definition SchedulerDispatch (c : SchedulerConfig) (cfg : LeaseConfig) (leaseDuration : duration)
  (o : Oracle) (env : nat → Oracle) (cancelled : nat → bool) (d : DB) : res (SchedulerReport * bool) * DB :=
  if leaseDuration <=? 0 then (Err (ErrText "scheduler dispatcher is not configured"), d)
  else match transact (Select c) o d with
       | (Err e, d') => (Err e, d')
       | (Ok queued, d') =>
           let '(rep, d'', completed) := dispatch_loop cfg leaseDuration env cancelled 0 queued
             (mkSchedulerReport (Z.of_nat (length queued)) 0 0 []) d' in
           (Ok (rep, completed), d'')
       end.
End dispatch.

(** ** Fairness *)

Section fair.
Context (candidates : list QueuedJob).

Definition round_jobs (owners : list uuid) (round : nat) : list QueuedJob :=
  omap (λ o, by_owner candidates o !! round) owners.

Definition rounds (owners : list uuid) (from n : nat) : list QueuedJob :=
  seq from n ≫= round_jobs owners.

Lemma fair_round_spec limit round owners sel :
  (length sel < limit)%nat →
  fair_round candidates limit round owners sel
  = (take limit (sel ++ round_jobs owners round), negb (bool_decide (round_jobs owners round = []))).
Proof.
  revert sel. induction owners as [|o owners IH]; intros sel Hlt; simpl.
  { rw app_nil_r take_ge; [lia|]. done. }
  unfold round_jobs. cbn [omap list_omap]. fold (round_jobs owners round).
  destruct (by_owner candidates o !! round) as [c|] eqn:Hc; [|by apply IH].
  assert (length (sel ++ [c]) = S (length sel)) as Hlen by (rw length_app /=; lia).
  rw (bool_decide_eq_false_2 (c :: _ = [])); [done|]. simpl.
  destruct (decide (length (sel ++ [c]) = limit)) as [Hl|Hl];
    [rw (bool_decide_eq_true_2 (_ = limit)) //|rw (bool_decide_eq_false_2 (_ = limit)) //].
  - f_equal. change (c :: round_jobs owners round) with ([c] ++ round_jobs owners round).
    rw (assoc app) take_app_le; [by rw Hl|]. rw take_ge; [by rw Hl|]. done.
  - rw IH; [lia|]. simpl. f_equal. by rw -(assoc app sel [c]).
Qed.

(** An exhausted round stays exhausted. *)
Lemma round_jobs_empty owners r r' : (r <= r')%nat → round_jobs owners r = [] → round_jobs owners r' = [].
Proof.
  intros Hr. induction owners as [|o owners IH]; [done|]. unfold round_jobs. cbn [omap list_omap].
  destruct (by_owner candidates o !! r) eqn:E; [done|].
  assert (by_owner candidates o !! r' = None) as ->; [|exact IH].
  apply lookup_ge_None. apply lookup_ge_None in E. lia.
Qed.

Lemma rounds_empty owners r n : round_jobs owners r = [] → rounds owners r n = [].
Proof.
  intros Hr. unfold rounds. assert (∀ m from, (r <= from)%nat → seq from m ≫= round_jobs owners = []) as H; [|by apply H].
  induction m as [|m IH]; intros from Hf; [done|]. simpl. rw (round_jobs_empty owners r from) //. apply IH. lia.
Qed.

Lemma rounds_S owners from n :
  rounds owners from (S n) = round_jobs owners from ++ rounds owners (S from) n.
Proof. done. Qed.

Lemma fair_loop_spec owners limit fuel round sel :
  (length sel <= limit)%nat →
  fair_loop candidates owners limit fuel round sel = take limit (sel ++ rounds owners round fuel).
Proof.
  revert round sel. induction fuel as [|fuel IH]; intros round sel Hle; simpl.
  { unfold rounds. simpl. by rw app_nil_r take_ge. }
  rw rounds_S. case_bool_decide as Hlt.
  - rw fair_round_spec //. destruct (decide (round_jobs owners round = [])) as [He|He];
      [rw bool_decide_eq_true_2 //|rw bool_decide_eq_false_2 //]; simpl.
    + rw He. assert (rounds owners (S round) fuel = []) as ->; [|done].
      apply rounds_empty. eapply round_jobs_empty; [|exact He]. lia.
    + rw IH; [rw length_take; lia|]. rw (assoc app sel).
      destruct (decide (length (sel ++ round_jobs owners round) <= limit)%nat).
      * by rw (take_ge (sel ++ round_jobs owners round)).
      * rw take_app_le; [rw length_take; lia|]. rw take_take Nat.min_id (take_app_le (sel ++ _)) //. lia.
  - rw take_app_le; [lia|]. rw take_ge; [lia|]. done.
Qed.

Lemma by_owner_owner o c : c ∈ by_owner candidates o → owner_of c = o.
Proof. intros H. apply elem_of_sort_by, list_elem_of_filter in H. tauto. Qed.

(** A round holds at most one job of each owner: the next one in its order. *)
Lemma filter_round o os r :
  NoDup os → (o ∈ os ∨ by_owner candidates o = []) →
  filter (λ c, owner_of c = o) (round_jobs os r) = option_list (by_owner candidates o !! r).
Proof.
  assert (∀ os, o ∉ os → filter (λ c, owner_of c = o) (round_jobs os r) = []) as Hno.
  { intros os'. induction os' as [|o' os' IH]; intros Hin; [done|].
    apply not_elem_of_cons in Hin as [Hne Hin]. unfold round_jobs. cbn [omap list_omap].
    destruct (by_owner candidates o' !! r) as [c|] eqn:E; [|by apply IH].
    rw filter_cons_False; [|by apply IH].
    rw (by_owner_owner o'); [by eapply list_elem_of_lookup_2|]. congruence. }
  intros Hnd Hor. destruct (decide (o ∈ os)) as [Hin|Hin]; [|destruct Hor as [?|Hnil]; [done|]].
  2:{ rw Hnil. by apply Hno. }
  clear Hor. revert Hnd Hin. induction os as [|o' os IH]; intros Hnd Hin; [by apply not_elem_of_nil in Hin|].
  apply list.NoDup_cons in Hnd as [Hn Hnd]. unfold round_jobs. cbn [omap list_omap].
  apply elem_of_cons in Hin as [<-|Hin].
  - destruct (by_owner candidates o !! r) as [c|] eqn:E; [|by apply Hno].
    rw filter_cons_True; [by eapply by_owner_owner, list_elem_of_lookup_2|].
    simpl. f_equal. by apply Hno.
  - assert (o ≠ o') as Hne by (by intros ->).
    destruct (by_owner candidates o' !! r) as [c|] eqn:E; [|by apply IH].
    rw filter_cons_False; [|by apply IH].
    rw (by_owner_owner o'); [by eapply list_elem_of_lookup_2|]. congruence.
Qed.

Lemma filter_rounds o os from n :
  NoDup os → (o ∈ os ∨ by_owner candidates o = []) →
  filter (λ c, owner_of c = o) (rounds os from n) = take n (drop from (by_owner candidates o)).
Proof.
  intros Hnd Hin. revert from. induction n as [|n IH]; intros from; [done|].
  rw rounds_S list.filter_app filter_round // IH.
  destruct (by_owner candidates o !! from) as [c|] eqn:E; simpl.
  - by rw (drop_S _ _ _ E).
  - apply lookup_ge_None in E. rw !drop_ge; [lia|lia|]. by rw !take_nil.
Qed.

(** Cutting the rounds at a limit leaves whole rounds and part of the next. *)
Lemma take_rounds os limit from n :
  ∃ r m, take limit (rounds os from n) = rounds os from r ++ take m (round_jobs os (from + r)).
Proof.
  revert from limit. induction n as [|n IH]; intros from limit.
  { exists 0%nat, 0%nat. by rw take_nil. }
  rw rounds_S. destruct (decide (limit <= length (round_jobs os from))%nat).
  - exists 0%nat, limit. rw take_app_le // Nat.add_0_r //.
  - rw take_app_ge; [lia|]. destruct (IH (S from) (limit - length (round_jobs os from))%nat) as (r & m & ->).
    exists (S r), m. rw rounds_S -(assoc app) Nat.add_succ_r //.
Qed.
End fair.

(** Lists with the same elements under every key are permutations of each other. *)
Lemma Permutation_by_key {A K} `{EqDecision K} (f : A → K) (l l' : list A) :
  (∀ k, filter (λ x, f x = k) l ≡ₚ filter (λ x, f x = k) l') → l ≡ₚ l'.
Proof.
  revert l'. induction l as [|x l IH]; intros l' H.
  - destruct l' as [|y l']; [done|]. specialize (H (f y)). rw filter_nil in H.
    rw filter_cons_True // in H. by apply Permutation_nil_cons in H.
  - assert (x ∈ l') as Hx.
    { apply (list_elem_of_filter (λ y, f y = f x) l' x). rw -(H (f x)). apply list_elem_of_filter. split; [done|apply list_elem_of_here]. }
    apply elem_of_Permutation in Hx as [l'' Hl]. rw Hl. constructor. apply IH. intros k.
    specialize (H k). rw Hl in H. rw !filter_cons in H. case_decide; [by apply Permutation_cons_inv in H|done].
Qed.

Lemma owners_of_NoDup cs : NoDup (owners_of cs).
Proof. unfold owners_of. rw sort_by_Permutation. apply NoDup_remove_dups. Qed.

Lemma elem_of_owners_of cs o : o ∈ owners_of cs ↔ o ∈ owner_of <$> cs.
Proof. unfold owners_of. rw elem_of_sort_by elem_of_remove_dups //. Qed.

Lemma owner_listed_or_nil cs o : o ∈ owners_of cs ∨ by_owner cs o = [].
Proof.
  rw elem_of_owners_of. destruct (decide (o ∈ owner_of <$> cs)) as [|Hn]; [by left|right]. destruct (by_owner cs o) as [|c l] eqn:E; [done|]. destruct Hn.
  assert (c ∈ by_owner cs o) as H by (rw E; apply list_elem_of_here).
  apply elem_of_sort_by, list_elem_of_filter in H as [<- H]. by apply list_elem_of_fmap_2.
Qed.

Lemma by_owner_length cs o : (length (by_owner cs o) <= length cs)%nat.
Proof. unfold by_owner. rw sort_by_Permutation. apply length_filter. Qed.

(** [FairSelect] is the round-robin of the groups, cut at the limit. *)
Lemma FairSelect_rounds cs limit :
  FairSelect cs limit = take (Z.to_nat limit) (rounds cs (owners_of cs) 0 (S (length cs))).
Proof.
  unfold FairSelect. destruct (Z.leb_spec limit 0) as [Hl|Hl]; cbn [orb].
  { by rw Z2Nat.nonpos. }
  case_bool_decide as He.
  - apply nil_length_inv in He as ->. by rw take_nil.
  - by rw fair_loop_spec; [simpl; lia|].
Qed.

Lemma filter_all_rounds cs o :
  filter (λ c, owner_of c = o) (rounds cs (owners_of cs) 0 (S (length cs))) = by_owner cs o.
Proof.
  rw filter_rounds; [apply owners_of_NoDup|apply owner_listed_or_nil|].
  rw drop_0 take_ge //. pose proof (by_owner_length cs o). lia.
Qed.

Lemma all_rounds_Permutation cs : rounds cs (owners_of cs) 0 (S (length cs)) ≡ₚ cs.
Proof.
  apply (Permutation_by_key owner_of). intros o. rw filter_all_rounds.
  apply sort_by_Permutation.
Qed.

(** C32. Fair selection.  A positive limit selects as many jobs as it can; there
    is a number of rounds [r] such that every owner gets its [r] or [r + 1] first
    jobs, in its own order (priority, then age, then id): no owner is served twice
    more than another that still has a job waiting. *)
Theorem FairSelect_fair cs limit :
  length (FairSelect cs limit) = Nat.min (Z.to_nat limit) (length cs) ∧
  ∃ r, ∀ o, ∃ k, (k = r ∨ k = S r) ∧
    filter (λ c, owner_of c = o) (FairSelect cs limit) = take k (by_owner cs o).
Proof.
  rw FairSelect_rounds. split.
  - by rw length_take all_rounds_Permutation.
  - destruct (take_rounds cs (owners_of cs) (Z.to_nat limit) 0 (S (length cs))) as (r & m & ->).
    exists r. intros o. rw list.filter_app filter_rounds; [apply owners_of_NoDup|apply owner_listed_or_nil|].
    pose proof (filter_round cs o (owners_of cs) r (owners_of_NoDup cs) (owner_listed_or_nil cs o)) as Hr.
    rw -{1}(take_drop m (round_jobs cs _ r)) list.filter_app in Hr. rw drop_0 Nat.add_0_l.
    set (part := filter _ (take m _)) in *. clearbody part.
    destruct part as [|c part].
    + exists r. rw app_nil_r. auto.
    + destruct (by_owner cs o !! r) as [c'|] eqn:E; simpl in Hr; [|done].
      injection Hr as -> Hr. apply app_eq_nil in Hr as [-> _]. exists (S r). rw (take_S_r _ _ _ E). auto.
Qed.
