(* ===== verification/Result.v ===== *)
(** Result events, src/go/internal/result: the events workers send and their
    validation (validation.go), their application to the job lifecycle
    (repository.go, repository_events.go) and the delivery handler
    (consumer.go).  The repository is modelled with an outbox writer present. *)

From S2P Require Import Prelude GoStrings Retry Json Queue JobModel Schema Sql Outbox JobStore.
From Stdlib Require Import QArith.

Open Scope Z_scope.

Definition MaxArtifactsPerResult : Z := 32.
Definition MaxArtifactDownloadBytes : Z := 512 * 1024 * 1024.

(** ** Events *)

Record StartedEvent := mkStarted {
  se_JobID : uuid; se_AttemptID : uuid; se_LeaseID : uuid; se_WorkerID : uuid; se_AttemptNumber : Z }.

Record ProgressedEvent := mkProgressed {
  pe_JobID : uuid; pe_AttemptID : uuid; pe_LeaseID : uuid; pe_Stage : string; pe_ProcessedRows : Z;
  pe_EstimatedTotalRows : option Z; pe_ProgressPercent : Q; pe_Throughput : Q; pe_UpdatedAt : time }.

Record SucceededEvent := mkSucceeded {
  ue_JobID : uuid; ue_AttemptID : uuid; ue_LeaseID : uuid; ue_WorkerID : uuid; ue_Artifacts : list string }.

Record FailureInfo := mkFailure {
  fi_Code : string; fi_Message : string; fi_Retryable : bool; fi_DiagnosticRef : option string }.

Record FailedEvent := mkFailed {
  fe_JobID : uuid; fe_AttemptID : uuid; fe_LeaseID : uuid; fe_WorkerID : uuid; fe_Error : FailureInfo }.

Record CancelledEvent := mkCancelled {
  ce_JobID : uuid; ce_AttemptID : uuid; ce_LeaseID : uuid; ce_WorkerID : uuid; ce_Reason : string }.

Record ArtifactCreatedEvent := mkArtifactCreated {
  ae_JobID : uuid; ae_AttemptID : uuid; ae_LeaseID : uuid; ae_ArtifactID : uuid; ae_Kind : string;
  ae_ObjectKey : string; ae_SizeBytes : Z; ae_ContentType : string; ae_ChecksumSHA256 : string }.

Inductive ResultEvent :=
  | EvStarted (e : StartedEvent)
  | EvProgressed (e : ProgressedEvent)
  | EvSucceeded (e : SucceededEvent)
  | EvFailed (e : FailedEvent)
  | EvCancelled (e : CancelledEvent)
  | EvArtifact (e : ArtifactCreatedEvent).

(** ** Validation *)

Definition all_bytes (p : N → bool) (s : string) : bool := forallb p (bytes_of s).

(** [^[a-z0-9/_-]+\.[a-z0-9]+$]: exactly one dot, with text on both sides. *)
Fixpoint key_ok (left right : bool) (dot : bool) (l : list N) : bool :=
  match l with
  | [] => dot && right
  | b :: l =>
      if N.eqb b 46 then left && negb dot && key_ok left false true l
      else if dot then (is_lower b || is_digit b) && key_ok left true true l
      else (is_lower b || is_digit b || N.eqb b 47 || N.eqb b 95 || N.eqb b 45) && key_ok true right false l
  end.

Definition artifactKeyPattern (s : string) : bool := key_ok false false false (bytes_of s).

(** [^[a-z0-9_-]{1,64}$]. *)
Definition artifactKindPattern (s : string) : bool :=
  (1 <=? go_len s) && (go_len s <=? 64)
  && all_bytes (λ b, is_lower b || is_digit b || N.eqb b 95 || N.eqb b 45) s.

(** [^[A-Za-z0-9_-]{1,64}$]. *)
Definition stagePattern (s : string) : bool :=
  (1 <=? go_len s) && (go_len s <=? 64)
  && all_bytes (λ b, ((65 <=? b)%N && (b <=? 90)%N) || is_lower b || is_digit b || N.eqb b 95 || N.eqb b 45) s.

(** [^[0-9a-f]{64}$]. *)
Definition checksumPattern (s : string) : bool :=
  (go_len s =? 64) && all_bytes (λ b, is_digit b || ((97 <=? b)%N && (b <=? 102)%N)) s.

Definition invalid {A} : res A := Err ErrInvalidEvent.

Definition validateAttemptIdentity (jobID attemptID leaseID : uuid) : res unit :=
  if bool_decide (jobID = uuid_nil ∨ attemptID = uuid_nil ∨ leaseID = uuid_nil) then invalid else Ok tt.

Fixpoint validate_keys (seen keys : list string) : res unit :=
  match keys with
  | [] => Ok tt
  | key :: keys =>
      if negb (artifactKeyPattern key) || (512 <? go_len key) then invalid
      else if bool_decide (key ∈ seen) then invalid
      else validate_keys (key :: seen) keys
  end.

Definition validateObjectKeys (keys : list string) : res unit := validate_keys [] keys.

Definition progress_invalid (e : ProgressedEvent) : bool :=
  negb (stagePattern (pe_Stage e)) || (pe_ProcessedRows e <? 0)
  || negb (Qle_bool 0 (pe_ProgressPercent e)) || negb (Qle_bool (pe_ProgressPercent e) 100)
  || negb (Qle_bool 0 (pe_Throughput e)) || bool_decide (pe_UpdatedAt e = time_zero).

Definition failure_invalid (e : FailureInfo) : bool :=
  bool_decide (trim_space (fi_Code e) = "") || (128 <? go_len (fi_Code e))
  || (go_len (fi_Message e) =? 0) || (500 <? go_len (fi_Message e)).

Definition artifact_invalid (e : ArtifactCreatedEvent) : bool :=
  bool_decide (ae_ArtifactID e = uuid_nil) || negb (artifactKindPattern (ae_Kind e))
  || negb (artifactKeyPattern (ae_ObjectKey e)) || (ae_SizeBytes e <? 0)
  || bool_decide (trim_space (ae_ContentType e) = "") || (128 <? go_len (ae_ContentType e))
  || negb (checksumPattern (ae_ChecksumSHA256 e)).

Definition validateEvent (event : ResultEvent) : res unit :=
  match event with
  | EvStarted e =>
      _ ← validateAttemptIdentity (se_JobID e) (se_AttemptID e) (se_LeaseID e);
      if bool_decide (se_WorkerID e = uuid_nil) then invalid
      else if se_AttemptNumber e <? 1 then invalid else Ok tt
  | EvProgressed e =>
      _ ← validateAttemptIdentity (pe_JobID e) (pe_AttemptID e) (pe_LeaseID e);
      if progress_invalid e then invalid
      else match pe_EstimatedTotalRows e with
           | Some n => if n <? 0 then invalid else if n <? pe_ProcessedRows e then invalid else Ok tt
           | None => Ok tt
           end
  | EvSucceeded e =>
      _ ← validateAttemptIdentity (ue_JobID e) (ue_AttemptID e) (ue_LeaseID e);
      if bool_decide (ue_WorkerID e = uuid_nil) then invalid
      else if MaxArtifactsPerResult <? Z.of_nat (length (ue_Artifacts e)) then invalid
      else validateObjectKeys (ue_Artifacts e)
  | EvFailed e =>
      _ ← validateAttemptIdentity (fe_JobID e) (fe_AttemptID e) (fe_LeaseID e);
      if bool_decide (fe_WorkerID e = uuid_nil) then invalid
      else if failure_invalid (fe_Error e) then invalid
      else match fi_DiagnosticRef (fe_Error e) with
           | Some r => if 512 <? go_len r then invalid else Ok tt
           | None => Ok tt
           end
  | EvCancelled e =>
      _ ← validateAttemptIdentity (ce_JobID e) (ce_AttemptID e) (ce_LeaseID e);
      if bool_decide (ce_WorkerID e = uuid_nil) || bool_decide (trim_space (ce_Reason e) = "")
         || (500 <? go_len (ce_Reason e)) then invalid else Ok tt
  | EvArtifact e =>
      _ ← validateAttemptIdentity (ae_JobID e) (ae_AttemptID e) (ae_LeaseID e);
      if artifact_invalid e then invalid else Ok tt
  end.

(** [encoding/json] with unknown fields disallowed, one decoder per event
    struct; [None] when the payload does not decode. *)
Record Decoders := mkDecoders {
  dec_started : RawMessage → option StartedEvent;
  dec_progressed : RawMessage → option ProgressedEvent;
  dec_succeeded : RawMessage → option SucceededEvent;
  dec_failed : RawMessage → option FailedEvent;
  dec_cancelled : RawMessage → option CancelledEvent;
  dec_artifact : RawMessage → option ArtifactCreatedEvent
}.

Definition decode_payload (dec : Decoders) (messageType : string) (p : RawMessage) : option ResultEvent :=
  if bool_decide (messageType = MessageJobStarted) then EvStarted <$> dec_started dec p
  else if bool_decide (messageType = MessageJobProgressed) then EvProgressed <$> dec_progressed dec p
  else if bool_decide (messageType = MessageJobSucceeded) then EvSucceeded <$> dec_succeeded dec p
  else if bool_decide (messageType = MessageJobFailed) then EvFailed <$> dec_failed dec p
  else if bool_decide (messageType = MessageJobCancelled) then EvCancelled <$> dec_cancelled dec p
  else if bool_decide (messageType = MessageArtifactCreated) then EvArtifact <$> dec_artifact dec p
  else None.

Definition DecodeEvent (dec : Decoders) (e : Envelope) : res ResultEvent :=
  match Envelope_Validate e with
  | Err _ => invalid
  | Ok _ =>
      match decode_payload dec (MessageType e) (Payload e) with
      | None => invalid
      | Some event => _ ← validateEvent event; Ok event
      end
  end.

(** ** Fencing *)

Record attemptContext := mkContext {
  cx_OwnerUserID : uuid; cx_JobState : JobState; cx_JobID : uuid; cx_MaxAttempts : Z;
  cx_AttemptID : uuid; cx_AttemptNumber : Z; cx_AttemptState : AttemptState;
  cx_LeaseID : option uuid; cx_WorkerID : option uuid
}.

(** [None] is the zero context, which the callers recognise by its nil job. *)
Definition lockAttempt (jobID attemptID : uuid) : Tx DB (option attemptContext) :=
  d ← get_db;
  mret (j ← t_jobs d !! jobID;
        a ← t_attempts d !! attemptID;
        if bool_decide (a_job_id a = j_id j ∧ j_id j ≠ uuid_nil)
        then Some (mkContext (j_owner_user_id j) (j_state j) (j_id j) (j_max_attempts j) (a_id a)
                     (a_attempt_number a) (a_state a) (a_lease_id a) (a_worker_id a))
        else None).

Definition matchesLease (item : attemptContext) (leaseID workerID : uuid) : bool :=
  bool_decide (cx_LeaseID item = Some leaseID)
  && (bool_decide (workerID = uuid_nil) || bool_decide (cx_WorkerID item = Some workerID)).

Definition truncateText (value : string) (maximum : Z) : string :=
  if maximum <? go_len value then slice_to (Z.to_nat maximum) value else value.

Definition result_recordHistory (jobID : uuid) (from to : JobState) (reason : string) : Tx DB unit :=
  append_history (mkHistoryRow jobID (Some from) to (truncateText reason 256) None).

Definition projection_row (outcome : string) (artifactKeys : list string) (failure : option FailureInfo)
  : ProjectionRow :=
  mkProjectionRow outcome artifactKeys
    ((λ f, truncateText (fi_Code f) 128) <$> failure) ((λ f, truncateText (fi_Message f) 500) <$> failure)
    (fi_Retryable <$> failure).

Definition insertResultProjection (jobID attemptID : uuid) (outcome : string) (artifactKeys : list string)
  (failure : option FailureInfo) : Tx DB unit :=
  d ← get_db;
  insert_row (jobID, attemptID) (projection_row outcome artifactKeys failure) (t_projections d) on_projections.

(** ** Outcomes *)

Inductive Status := OutcomeApplied | OutcomeDuplicate | OutcomeIgnored.

Definition status_string (s : Status) : string :=
  match s with
  | OutcomeApplied => "APPLIED" | OutcomeDuplicate => "DUPLICATE" | OutcomeIgnored => "IGNORED"
  end.

Record Outcome := mkOutcome { oc_Status : Status; oc_Reason : string }.

Definition ignored (reason : string) : Tx DB Outcome := mret (mkOutcome OutcomeIgnored reason).
Definition applied (reason : string) : Tx DB Outcome := mret (mkOutcome OutcomeApplied reason).

(** The guards every handler starts with: the attempt exists and the event
    carries its lease. *)
Definition with_attempt (jobID attemptID : uuid) (k : attemptContext → Tx DB Outcome) : Tx DB Outcome :=
  item ← lockAttempt jobID attemptID;
  match item with
  | None => ignored "attempt_not_found"
  | Some item => k item
  end.

Definition active_attempt_state (s : AttemptState) : bool :=
  bool_decide (s = AttemptLeased ∨ s = AttemptRunning).

(** ** Handlers *)

Definition coalesce {A} (old : option A) (new : A) : option A := Some (default new old).

Definition applyStarted (e : StartedEvent) : Tx DB Outcome :=
  with_attempt (se_JobID e) (se_AttemptID e) (λ item,
    if negb (bool_decide (cx_AttemptNumber item = se_AttemptNumber e))
       || negb (matchesLease item (se_LeaseID e) (se_WorkerID e))
    then ignored "stale_or_wrong_lease"
    else if negb (bool_decide (cx_JobState item = Leased ∨ cx_JobState item = Running))
            || negb (active_attempt_state (cx_AttemptState item))
    then ignored "result_before_start_or_terminal_attempt"
    else
      now ← time_now;
      _ ← (if bool_decide (cx_AttemptState item = AttemptLeased)
           then update_attempt (se_AttemptID e) (λ a,
                  set_a_state AttemptRunning (set_a_started_at (coalesce (a_started_at a) now) a))
           else mret tt);
      _ ← (if bool_decide (cx_JobState item = Leased)
           then _ ← update_job (se_JobID e) (λ r,
                      set_j_state Running (set_j_started_at (coalesce (j_started_at r) now) (set_j_updated_at now r)));
                result_recordHistory (se_JobID e) Leased Running "worker_started"
           else mret tt);
      applied "started").

(** *** Progress *)

Definition progress_row (e : ProgressedEvent) (received : time) : ProgressRow :=
  mkProgressRow (pe_JobID e) (pe_AttemptID e) (pe_LeaseID e) (pe_Stage e) (pe_ProcessedRows e)
    (pe_EstimatedTotalRows e) (pe_ProgressPercent e) (pe_Throughput e) (pe_UpdatedAt e) received.

(** The WHERE clause of the upsert. *)
Definition progress_advances (old : ProgressRow) (e : ProgressedEvent) : bool :=
  negb (bool_decide (p_attempt_id old = pe_AttemptID e))
  || ((p_updated_at old <? pe_UpdatedAt e) && (p_processed_rows old <=? pe_ProcessedRows e)
      && Qle_bool (p_progress_percent old) (pe_ProgressPercent e)).

(** [ORDER BY updated_at DESC, id DESC], on rows paired with their serial. *)
Definition progress_newer (x y : nat * ProgressRow) : bool :=
  (p_updated_at y.2 <? p_updated_at x.2)
  || ((p_updated_at x.2 =? p_updated_at y.2) && (y.1 <? x.1)%nat).

Definition newest_progress (jobID : uuid) (l : list ProgressRow) : list (nat * ProgressRow) :=
  take 100 (sort_by progress_newer (filter (λ x, p_job_id x.2 = jobID) (imap pair l))).

Definition trim_progress (jobID : uuid) (l : list ProgressRow) : list ProgressRow :=
  let kept := (newest_progress jobID l).*1 in
  (filter (λ x, p_job_id x.2 ≠ jobID ∨ x.1 ∈ kept) (imap pair l)).*2.

Definition applyProgressed (e : ProgressedEvent) : Tx DB Outcome :=
  with_attempt (pe_JobID e) (pe_AttemptID e) (λ item,
    if negb (matchesLease item (pe_LeaseID e) uuid_nil) then ignored "stale_or_wrong_lease"
    else if negb (bool_decide (cx_JobState item = Running ∧ cx_AttemptState item = AttemptRunning))
    then ignored "progress_for_non_running_attempt"
    else
      d ← get_db;
      received ← sql_now;
      let row := progress_row e received in
      if match t_progress d !! pe_JobID e with Some old => progress_advances old e | None => true end then
        _ ← modify (on_progress (insert (pe_JobID e) row));
        _ ← modify (on_progress_history (λ l, trim_progress (pe_JobID e) (l ++ [row])));
        applied "progressed"
      else ignored "stale_progress").

(** *** Success *)

Definition promote (e : SucceededEvent) (r : ArtifactRow) : ArtifactRow :=
  if bool_decide (f_job_id r = ue_JobID e ∧ f_attempt_id r = ue_AttemptID e ∧ f_object_key r ∈ ue_Artifacts e)
  then set_f_state "CANONICAL" r else r.

Definition succeeded_job (now : time) (r : JobRow) : JobRow :=
  set_j_state Succeeded (set_j_completed_at (Some now) (set_j_finished_at (Some now) (set_j_updated_at now r))).

Definition applySucceeded (e : SucceededEvent) : Tx DB Outcome :=
  with_attempt (ue_JobID e) (ue_AttemptID e) (λ item,
    if negb (matchesLease item (ue_LeaseID e) (ue_WorkerID e)) then ignored "stale_or_wrong_lease"
    else if negb (bool_decide (cx_JobState item = Running ∧ cx_AttemptState item = AttemptRunning))
    then ignored "result_before_start_or_terminal_attempt"
    else
      now ← time_now;
      _ ← update_job (ue_JobID e) (succeeded_job now);
      _ ← update_attempt (ue_AttemptID e) (λ a, set_a_state AttemptSucceeded (set_a_finished_at (Some now) a));
      _ ← release_quota (cx_OwnerUserID item) now;
      _ ← result_recordHistory (ue_JobID e) Running Succeeded "worker_succeeded";
      _ ← insertResultProjection (ue_JobID e) (ue_AttemptID e) "SUCCEEDED" (ue_Artifacts e) None;
      _ ← (if bool_decide (ue_Artifacts e = []) then mret tt
           else modify (on_artifacts (fmap (promote e))));
      applied "succeeded").

(** *** Failure *)

Definition failed_row (e : FailureInfo) (now : time) (a : AttemptRow) : AttemptRow :=
  set_a_state AttemptFailed (set_a_finished_at (Some now)
    (set_a_error_code (Some (truncateText (fi_Code e) 128))
      (set_a_error_message (Some (truncateText (fi_Message e) 500)) (set_a_retryable (fi_Retryable e) a)))).

Definition with_error (e : FailureInfo) (r : JobRow) : JobRow :=
  set_j_last_error_code (Some (truncateText (fi_Code e) 128))
    (set_j_last_error_message (Some (truncateText (fi_Message e) 500)) r).

Definition retry_job (e : FailureInfo) (nextAt now : time) (r : JobRow) : JobRow :=
  set_j_state Queued (set_j_next_attempt_at (Some nextAt) (set_j_finished_at None
    (set_j_updated_at now (with_error e r)))).

Definition failed_job (e : FailureInfo) (state : JobState) (now : time) (r : JobRow) : JobRow :=
  set_j_state state (set_j_next_attempt_at None (set_j_finished_at (Some now)
    (set_j_updated_at now (with_error e r)))).

Definition result_retry_policy : Policy := DefaultPolicy.

Section repository.
Context `{!Enqueuer}.

Definition enqueueResultRetry (item : attemptContext) (availableAt : time) : Tx DB unit :=
  let traceID := uuid_string (cx_JobID item) in
  env ← NewEnvelope MessageJobQueued traceID traceID traceID (queued_payload (cx_JobID item));
  Enqueue (message env (MessageType env) availableAt).

Definition fail_retry (e : FailedEvent) (item : attemptContext) (now : time) : Tx DB Outcome :=
  let nextAttempt := cx_AttemptNumber item + 1 in
  delay ← lift_res (Policy_Delay (raise_budget result_retry_policy (cx_MaxAttempts item)) nextAttempt None);
  let nextAt := now + delay in
  nextAttemptID ← uuid_new;
  _ ← insert_attempt nextAttemptID (fe_JobID e) nextAttempt now;
  _ ← update_job (fe_JobID e) (retry_job (fe_Error e) nextAt now);
  _ ← requeue_quota (cx_OwnerUserID item) now;
  _ ← result_recordHistory (fe_JobID e) Running Queued "worker_failed_retry_scheduled";
  _ ← enqueueResultRetry item nextAt;
  applied "retry_scheduled".

Definition fail_final (e : FailedEvent) (item : attemptContext) (now : time) : Tx DB Outcome :=
  let retryable := fi_Retryable (fe_Error e) in
  let state := if retryable then DeadLettered else FailedPermanent in
  let reason := if retryable then "retry_exhausted_dead_lettered" else "worker_failed" in
  _ ← (if retryable then
         id ← uuid_new;
         created ← sql_now;
         insert_dead_letter (mkDeadLetterRow id (fe_JobID e) (fe_AttemptID e) (fe_LeaseID e) (fe_WorkerID e)
           (cx_AttemptNumber item) (truncateText (fi_Code (fe_Error e)) 128)
           (truncateText (fi_Message (fe_Error e)) 500) true (fi_DiagnosticRef (fe_Error e)) created None None)
       else mret tt);
  _ ← update_job (fe_JobID e) (failed_job (fe_Error e) state now);
  _ ← release_quota (cx_OwnerUserID item) now;
  _ ← result_recordHistory (fe_JobID e) Running state reason;
  applied reason.

Definition applyFailed (e : FailedEvent) : Tx DB Outcome :=
  with_attempt (fe_JobID e) (fe_AttemptID e) (λ item,
    if negb (matchesLease item (fe_LeaseID e) (fe_WorkerID e)) then ignored "stale_or_wrong_lease"
    else if negb (bool_decide (cx_JobState item = Running ∧ cx_AttemptState item = AttemptRunning))
    then ignored "result_before_start_or_terminal_attempt"
    else
      now ← time_now;
      _ ← update_attempt (fe_AttemptID e) (failed_row (fe_Error e) now);
      _ ← insertResultProjection (fe_JobID e) (fe_AttemptID e) "FAILED" [] (Some (fe_Error e));
      if fi_Retryable (fe_Error e) && (cx_AttemptNumber item <? cx_MaxAttempts item)
      then fail_retry e item now else fail_final e item now).

(** *** Cancellation *)

Definition cancelled_job (now : time) (r : JobRow) : JobRow :=
  set_j_state Cancelled (set_j_completed_at (Some now) (set_j_finished_at (Some now)
    (set_j_updated_at now (set_j_last_error_code None (set_j_last_error_message None r))))).

Definition applyCancelled (e : CancelledEvent) : Tx DB Outcome :=
  with_attempt (ce_JobID e) (ce_AttemptID e) (λ item,
    if negb (matchesLease item (ce_LeaseID e) (ce_WorkerID e)) then ignored "stale_or_wrong_lease"
    else if negb (bool_decide (cx_JobState item = CancelRequested))
            || negb (active_attempt_state (cx_AttemptState item))
    then ignored "cancellation_for_non_requested_attempt"
    else
      now ← time_now;
      _ ← update_attempt (ce_AttemptID e) (λ a, set_a_state AttemptCancelled (set_a_finished_at (Some now)
            (set_a_error_code None (set_a_error_message None a))));
      _ ← update_job (ce_JobID e) (cancelled_job now);
      _ ← release_quota (cx_OwnerUserID item) now;
      _ ← insertResultProjection (ce_JobID e) (ce_AttemptID e) "CANCELLED" []
            (Some (mkFailure "CANCELLED" (truncateText (ce_Reason e) 500) false None));
      _ ← result_recordHistory (ce_JobID e) CancelRequested Cancelled "worker_cancelled";
      applied "cancelled").

(** *** Artifacts *)

(** Whether a success of this attempt already named the object. *)
Definition artifact_canonical (d : DB) (e : ArtifactCreatedEvent) : bool :=
  match t_projections d !! (ae_JobID e, ae_AttemptID e) with
  | Some p => bool_decide (r_outcome p = "SUCCEEDED" ∧ ae_ObjectKey e ∈ r_artifact_keys p)
  | None => false
  end.

(** The row the unique key (job_id, attempt_id, object_key) names. *)
Definition same_artifact (e : ArtifactCreatedEvent) (r : ArtifactRow) : bool :=
  bool_decide (f_job_id r = ae_JobID e ∧ f_attempt_id r = ae_AttemptID e ∧ f_object_key r = ae_ObjectKey e).

(** INSERT .. ON CONFLICT (job_id, attempt_id, object_key) DO UPDATE SET state. *)
Definition upsert_artifact (e : ArtifactCreatedEvent) (ownerID : uuid) (state : string) : Tx DB unit :=
  d ← get_db;
  created ← sql_now;
  if existsb (same_artifact e) (rows (t_artifacts d))
  then modify (on_artifacts (fmap (λ r, if same_artifact e r
         then set_f_state (if bool_decide (f_state r = "CANONICAL") then "CANONICAL" else state) r else r)))
  else insert_row (ae_ArtifactID e)
      (mkArtifactRow (ae_ArtifactID e) ownerID (ae_JobID e) (ae_AttemptID e) (ae_LeaseID e) (ae_Kind e)
         (ae_ObjectKey e) (ae_SizeBytes e) (ae_ContentType e) (ae_ChecksumSHA256 e) state created)
      (t_artifacts d) on_artifacts.

Definition applyArtifact (e : ArtifactCreatedEvent) : Tx DB Outcome :=
  with_attempt (ae_JobID e) (ae_AttemptID e) (λ item,
    if negb (matchesLease item (ae_LeaseID e) uuid_nil) then ignored "stale_or_wrong_lease"
    else if negb (bool_decide (cx_JobState item = Leased ∨ cx_JobState item = Running
                               ∨ cx_JobState item = Succeeded))
    then ignored "artifact_for_terminal_or_invalid_job"
    else
      d ← get_db;
      let canonical := artifact_canonical d e in
      if bool_decide (cx_JobState item = Succeeded) && negb canonical
      then ignored "artifact_not_referenced_by_succeeded_attempt"
      else
        _ ← upsert_artifact e (cx_OwnerUserID item) (if canonical then "CANONICAL" else "STAGED");
        applied "artifact_created").

Definition applyEvent (event : ResultEvent) : Tx DB Outcome :=
  match event with
  | EvStarted e => applyStarted e
  | EvProgressed e => applyProgressed e
  | EvSucceeded e => applySucceeded e
  | EvFailed e => applyFailed e
  | EvCancelled e => applyCancelled e
  | EvArtifact e => applyArtifact e
  end.

(** ** The inbox *)

(** INSERT .. ON CONFLICT (message_id) DO NOTHING; whether a row went in. *)
Definition insertInbox (env : Envelope) : Tx DB bool :=
  d ← get_db;
  match t_inbox d !! MessageID env with
  | Some _ => mret false
  | None =>
      _ ← modify (on_inbox (insert (MessageID env)
             (mkInboxRow (MessageID env) (MessageType env) (OccurredAt env) "PROCESSING" None None)));
      mret true
  end.

Definition mark_inbox (env : Envelope) (oc : Outcome) : Tx DB unit :=
  now ← sql_now;
  modify (on_inbox (alter (λ r, set_x_outcome (status_string (oc_Status oc))
    (set_x_reason (nullString (oc_Reason oc)) (set_x_processed_at (Some now) r))) (MessageID env))).

Definition process_tx (env : Envelope) (event : ResultEvent) : Tx DB Outcome :=
  inserted ← insertInbox env;
  if inserted then
    oc ← applyEvent event;
    _ ← mark_inbox env oc;
    mret oc
  else mret (mkOutcome OutcomeDuplicate "message_id_already_processed").

(** A payload that does not decode is rejected before any transaction. *)
Definition Process (dec : Decoders) (env : Envelope) : Tx DB Outcome :=
  event ← lift_res (DecodeEvent dec env);
  process_tx env event.

(** ** Delivery *)

Inductive Disposition := Acked | DeadLetteredDelivery | RejectedDelivery.

(** [HandleDelivery]: a body that is not an envelope is rejected, a failed
    event goes to the dead-letter exchange, any other is acknowledged. *)
Definition HandleDelivery (unmarshal : list N → option Envelope) (dec : Decoders) (body : list N)
  (o : Oracle) (d : DB) : Disposition * DB :=
  match unmarshal body with
  | None => (RejectedDelivery, d)
  | Some env =>
      match transact (Process dec env) o d with
      | (Ok _, d') => (Acked, d')
      | (Err _, d') => (DeadLetteredDelivery, d')
      end
  end.
End repository.
