(* ===== verification/Dlq.v ===== *)
(** The dead-letter repository and service, src/go/internal/dlq. *)

From S2P Require Import Prelude GoStrings Retry Json Queue JobModel Schema Sql Outbox JobStore Authz.

Open Scope Z_scope.

Definition DlqMaxPageSize : Z := 100.

(** A [Record]: the dead-letter row with the owner of its job. *)
Record DlqRecord := mkDlqRecord { dr_row : DeadLetterRow; dr_OwnerUserID : uuid }.

Record DlqPage := mkDlqPage { dp_Items : list DlqRecord; dp_Page : Z; dp_PageSize : Z; dp_Total : Z }.

Record DlqListQuery := mkDlqListQuery {
  dq_OwnerUserID : option uuid; dq_Page : Z; dq_PageSize : Z; dq_OpenOnly : bool }.

Record ReplayCommand := mkReplay {
  rc_RecordID : uuid; rc_ActorUserID : uuid; rc_AllowCrossOwner : bool; rc_TraceID : string;
  rc_RequestID : string }.

Record ReplayResult := mkReplayResult { rr_Record : DlqRecord; rr_JobID : uuid; rr_AttemptID : uuid }.

(** [job_dead_letters d JOIN processing_jobs j]. *)
Definition dlq_record (d : DB) (r : DeadLetterRow) : option DlqRecord :=
  j ← t_jobs d !! l_job_id r; Some (mkDlqRecord r (j_owner_user_id j)).

Definition dlq_matches (q : DlqListQuery) (r : DlqRecord) : bool :=
  match dq_OwnerUserID q with None => true | Some o => bool_decide (dr_OwnerUserID r = o) end
  && (negb (dq_OpenOnly q) || bool_decide (l_replayed_at (dr_row r) = None)).

(** [ORDER BY d.created_at DESC, d.id]. *)
Definition dlq_before (x y : DlqRecord) : bool :=
  (l_created_at (dr_row y) <? l_created_at (dr_row x))
  || ((l_created_at (dr_row x) =? l_created_at (dr_row y)) && (l_id (dr_row x) <? l_id (dr_row y))%N).

Definition Dlq_List (q : DlqListQuery) : Tx DB DlqPage :=
  _ ← require (negb ((dq_Page q <? 1) || (dq_PageSize q <? 1) || (DlqMaxPageSize <? dq_PageSize q)))
        ErrDlqInvalidInput;
  d ← get_db;
  let matching := filter (λ r, dlq_matches q r = true) (omap (dlq_record d) (rows (t_dead_letters d))) in
  items ← sql_page (dq_Page q) (dq_PageSize q) (sort_by dlq_before matching);
  mret (mkDlqPage items (dq_Page q) (dq_PageSize q) (Z.of_nat (length matching))).

Definition Dlq_Get (recordID : uuid) : Tx DB DlqRecord :=
  d ← get_db;
  r ← lift_opt ErrDlqNotFound (t_dead_letters d !! recordID);
  lift_opt ErrDlqNotFound (dlq_record d r).

Definition replayed_job (now : time) (r : JobRow) : JobRow :=
  set_j_state Queued (set_j_next_attempt_at None (set_j_queued_at (Some now) (set_j_updated_at now
    (set_j_last_error_code None (set_j_last_error_message None r))))).

Definition replayed_row (now : time) (actor : uuid) (r : DeadLetterRow) : DeadLetterRow :=
  set_l_replayed_at (Some now) (set_l_replayed_by (Some actor) r).

(** The payload of the replay command. *)
Definition replay_payload (jobID datasetVersionID : uuid) (ops : list Operation) : json :=
  JObj [("jobId", json_uuid jobID); ("datasetVersionId", json_uuid datasetVersionID);
        ("operations", JArr (map json_operation ops))].

Section repository.
Context `{!Enqueuer}.

Definition replay_enqueue (command : ReplayCommand) (j : JobRow) (now : time) : Tx DB unit :=
  let traceID := valueOrDefault (rc_TraceID command) (uuid_string (j_id j)) in
  e ← NewEnvelope MessageJobRequested traceID (uuid_string (j_id j))
        (valueOrDefault (rc_RequestID command) traceID)
        (replay_payload (j_id j) (j_dataset_version_id j) (j_operations j));
  Enqueue (message e (MessageType e) now).

Definition Replay (command : ReplayCommand) : Tx DB ReplayResult :=
  _ ← require (negb (bool_decide (rc_RecordID command = uuid_nil ∨ rc_ActorUserID command = uuid_nil)))
        ErrDlqInvalidInput;
  now ← time_now;
  d ← get_db;
  r ← lift_opt ErrDlqNotFound (t_dead_letters d !! rc_RecordID command);
  j ← lift_opt ErrDlqNotFound (t_jobs d !! l_job_id r);
  _ ← require (rc_AllowCrossOwner command || bool_decide (j_owner_user_id j = rc_ActorUserID command))
        ErrForbidden;
  _ ← require (bool_decide (l_replayed_at r = None)) ErrAlreadyReplayed;
  _ ← require (bool_decide (j_state j = DeadLettered)) ErrDlqJobState;
  _ ← require (negb ((j_max_attempts j <? 1) || (JobMaxAttempts <? j_max_attempts j))) ErrDlqInvalidInput;
  _ ← incrementQuota_at 100 ErrDlqQuotaExceeded (j_owner_user_id j);
  let nextAttemptNumber := next_attempt_number d (j_id j) in
  attemptID ← uuid_new;
  _ ← insert_attempt attemptID (j_id j) nextAttemptNumber now;
  _ ← update_job (j_id j) (replayed_job now);
  _ ← modify (on_dead_letters (alter (replayed_row now (rc_ActorUserID command)) (l_id r)));
  _ ← append_history (mkHistoryRow (j_id j) (Some DeadLettered) Queued "dead_letter_replayed"
        (Some (rc_ActorUserID command)));
  _ ← replay_enqueue command j now;
  _ ← modify (on_audit (λ l, l ++ [mkAuditRow (Some (rc_ActorUserID command)) "job.dead_letter_replayed"
        "processing_job" (uuid_string (j_id j)) (rc_RequestID command)]));
  mret (mkReplayResult (mkDlqRecord (replayed_row now (rc_ActorUserID command) r) (j_owner_user_id j))
          (j_id j) attemptID).

(** ** The service *)

Definition dlq_normalizePagination (page pageSize : Z) : res (Z * Z) :=
  let page := if bool_decide (page = 0) then 1 else page in
  let pageSize := if bool_decide (pageSize = 0) then 20 else pageSize in
  if (page <? 1) || (pageSize <? 1) || (DlqMaxPageSize <? pageSize) then Err ErrDlqInvalidInput
  else Ok (page, pageSize).

Definition DlqService_List (p : Principal) (page pageSize : Z) (openOnly : bool) : Tx DB DlqPage :=
  _ ← lift_res (RequireScope p ScopeJobsRead);
  pg ← lift_res (dlq_normalizePagination page pageSize);
  let ownerID := if bool_decide (Role p = RoleAdmin) then None else Some (UserID p) in
  Dlq_List (mkDlqListQuery ownerID pg.1 pg.2 openOnly).

(** [Get] and [Replay] of the store are two transactions; the state between
    them is whatever other transactions left. *)
Definition DlqService_Replay (p : Principal) (command : ReplayCommand) (o : Oracle) (d d' : DB)
  : res ReplayResult * DB :=
  match RequireScope p ScopeJobsWrite with
  | Err e => (Err e, d)
  | Ok _ =>
      if bool_decide (rc_RecordID command = uuid_nil) then (Err ErrDlqInvalidInput, d)
      else match (transact (Dlq_Get (rc_RecordID command)) o d).1 with
      | Err e => (Err e, d)
      | Ok item =>
          if CanAccessOwner p (dr_OwnerUserID item) ScopeJobsWrite
          then transact (Replay (mkReplay (rc_RecordID command) (UserID p)
                 (bool_decide (Role p = RoleAdmin)) (trim_space (rc_TraceID command))
                 (trim_space (rc_RequestID command)))) o d'
          else (Err ErrForbidden, d)
      end
  end.

(** ** Properties *)

Lemma replay_enqueue_fails command j now o w Q : wp o (replay_enqueue command j now) Q w.
Proof.
  unfold replay_enqueue. apply wp_bind, wp_NewEnvelope. intros e n Hv Hty _ _ _ Hp. exfalso.
  eapply (Envelope_Validate_missing e _ _ "leaseId"); [by rw Hp|by rw Hty| | |exact Hv].
  - apply list_elem_of_In. simpl. auto 10.
  - reflexivity.
Qed.

Lemma Replay_fails (command : ReplayCommand) (o : Oracle) (d : DB) :
  ∃ e, transact (Replay command) o d = (Err e, d).
Proof.
  destruct (wp_False o (Replay command) (mkWorld d 0)) as [e He]; [|exists e; by rw /transact He].
  unfold Replay. do 15 (apply wp_skip; intros ? ?). apply wp_bind, replay_enqueue_fails.
Qed.

(** A listing shows the dead letters of the caller's own jobs, and reads only. *)
Lemma DlqService_List_confined p page pageSize openOnly o d pg d' :
  transact (DlqService_List p page pageSize openOnly) o d = (Ok pg, d') →
  d' = d ∧ ∀ r, r ∈ dp_Items pg → Role p = RoleAdmin ∨ dr_OwnerUserID r = UserID p.
Proof.
  intros H1. apply (transact_inv _ _ _ _ _ _ H1). clear H1. unfold DlqService_List, Dlq_List. wp_steps.
  apply sql_page_elem. intros items Hin _. wp_steps. intros -> ->. split; [done|]. intros r Hr. simpl in Hr.
  apply Hin, elem_of_sort_by, list_elem_of_filter in Hr as [Hr _]. unfold dlq_matches in Hr. simpl in Hr.
  apply andb_true_iff in Hr as [Hr _]. case_bool_decide; [by left|]. right. by apply bool_decide_eq_true in Hr.
Qed.

(** C40. [Replay] never succeeds: the [processing.job.requested] envelope it
    builds carries neither attempt, lease, worker nor source, which the
    envelope contract requires, so every replay, of an eligible record too,
    ends in an error and is rolled back. *)
Theorem Replay_always_fails (command : ReplayCommand) (o : Oracle) (d : DB) :
  ∃ e, transact (Replay command) o d = (Err e, d).
Proof. apply Replay_fails. Qed.
End repository.
