(* ===== verification/Lifecycle.v ===== *)
(** The abstract job lifecycle: what the job, lease and result packages
    together promise about jobs, attempts, quota counters and history.  The
    state is the part of the database those promises are about; every committed
    transaction of the packages is a sequence of the steps below (Refinement),
    so what is invariant here holds of every database the system reaches. *)

From S2P Require Import Prelude Json Queue JobModel.

Open Scope Z_scope.

(** What was asked for, which no step changes. *)
Record Request := mkRequest {
  rq_version : uuid; rq_operations : list Operation; rq_fingerprint : string;
  rq_priority : Z; rq_max_attempts : Z }.

Record JView := mkJView { jv_id : uuid; jv_owner : uuid; jv_request : Request; jv_state : JobState }.
Abbreviation jv_max v := (rq_max_attempts (jv_request v)).
Record AView := mkAView {
  av_id : uuid; av_job : uuid; av_number : Z; av_state : AttemptState; av_lease : option uuid }.
Record HView := mkHView { hv_job : uuid; hv_from : option JobState; hv_to : JobState }.

Record LState := mkLState {
  L_jobs : gmap uuid JView;
  L_attempts : gmap uuid AView;
  L_quotas : gmap uuid (Z * Z);
  L_history : list HView
}.

Definition move_job (v : JView) (s : JobState) : JView := mkJView (jv_id v) (jv_owner v) (jv_request v) s.
Definition move_attempt (w : AView) (s : AttemptState) : AView :=
  mkAView (av_id w) (av_job w) (av_number w) s (av_lease w).
Definition grant_lease (w : AView) (l : uuid) : AView :=
  mkAView (av_id w) (av_job w) (av_number w) AttemptLeased (Some l).
Definition fresh_attempt (a j : uuid) (n : Z) : AView := mkAView a j n AttemptCreated None.

(** The counters of an owner; an absent row counts nothing. *)
Definition bump (owner : uuid) (dq da : Z) (m : gmap uuid (Z * Z)) : gmap uuid (Z * Z) :=
  let c := default (0, 0) (m !! owner) in <[owner := (c.1 + dq, c.2 + da)]> m.

Definition put_attempt (w : AView) (m : gmap uuid AView) : gmap uuid AView := <[av_id w := w]> m.

(** A job moves to [s'] while the attempts [ws] are written and the owner's
    counters change by [dq] and [da]; the move is recorded. *)
Definition advance (v : JView) (s' : JobState) (ws : list AView) (dq da : Z) (L : LState) : LState :=
  mkLState (<[jv_id v := move_job v s']> (L_jobs L)) (foldr put_attempt (L_attempts L) ws)
    (bump (jv_owner v) dq da (L_quotas L))
    (L_history L ++ [mkHView (jv_id v) (Some (jv_state v)) s']).

(** The attempt a job is at: the one with the highest number. *)
Definition current (m : gmap uuid AView) (j : uuid) (w : AView) : Prop :=
  m !! av_id w = Some w ∧ av_job w = j
  ∧ ∀ b w', m !! b = Some w' → av_job w' = j → b ≠ av_id w → av_number w' < av_number w.

Definition open_attempt (s : AttemptState) : bool :=
  bool_decide (s = AttemptCreated ∨ s = AttemptLeased ∨ s = AttemptRunning).

Definition held_attempt (s : AttemptState) : bool :=
  bool_decide (s = AttemptLeased ∨ s = AttemptRunning).

Definition held_job (s : JobState) : bool :=
  bool_decide (s = Leased ∨ s = Running ∨ s = CancelRequested).

(** The states a job and its current attempt may be in together. *)
Definition agree (s : JobState) (t : AttemptState) : bool :=
  match s, t with
  | Queued, AttemptCreated | Leased, AttemptLeased | Running, AttemptRunning
  | CancelRequested, AttemptLeased | CancelRequested, AttemptRunning
  | Succeeded, AttemptSucceeded | FailedPermanent, AttemptFailed
  | DeadLettered, AttemptFailed | DeadLettered, AttemptTimedOut
  | Cancelled, AttemptCancelled => true
  | _, _ => false
  end.

(** How a held job may end: job and attempt states before and after. *)
Definition ends (s : JobState) (s' : JobState) (t' : AttemptState) : bool :=
  match s, s', t' with
  | Running, Succeeded, AttemptSucceeded
  | Running, FailedPermanent, AttemptFailed
  | Running, DeadLettered, AttemptFailed
  | Running, DeadLettered, AttemptTimedOut
  | Leased, DeadLettered, AttemptTimedOut
  | CancelRequested, Cancelled, AttemptCancelled => true
  | _, _, _ => false
  end.

Definition at_job (L : LState) (v : JView) (w : AView) : Prop :=
  L_jobs L !! jv_id v = Some v ∧ current (L_attempts L) (jv_id v) w.

(** No other attempt carries the lease. *)
Definition lease_free (L : LState) (w : AView) (l : uuid) : Prop :=
  ∀ a x, L_attempts L !! a = Some x → av_lease x = Some l → a = av_id w.

Inductive step (L : LState) : LState → Prop :=
  | step_submit j owner rq a :
      L_jobs L !! j = None → L_attempts L !! a = None →
      step L (mkLState (<[j := mkJView j owner rq Queued]> (L_jobs L))
                (put_attempt (fresh_attempt a j 1) (L_attempts L))
                (bump owner 1 0 (L_quotas L)) (L_history L ++ [mkHView j None Queued]))
  | step_cancel_queued v w :
      at_job L v w → jv_state v = Queued →
      step L (advance v Cancelled [move_attempt w AttemptCancelled] (-1) 0 L)
  | step_cancel_request v w :
      at_job L v w → jv_state v = Leased ∨ jv_state v = Running →
      step L (advance v CancelRequested [] 0 0 L)
  | step_resubmit v w a :
      at_job L v w → jv_state v = FailedPermanent ∨ jv_state v = DeadLettered →
      L_attempts L !! a = None →
      step L (advance v Queued [fresh_attempt a (jv_id v) (av_number w + 1)] 1 0 L)
  | step_lease v w l :
      at_job L v w → jv_state v = Queued → lease_free L w l →
      step L (advance v Leased [grant_lease w l] (-1) 1 L)
  | step_start v w :
      at_job L v w → jv_state v = Leased →
      step L (advance v Running [move_attempt w AttemptRunning] 0 0 L)
  | step_end v w s' t' :
      at_job L v w → ends (jv_state v) s' t' = true →
      step L (advance v s' [move_attempt w t'] 0 (-1) L)
  | step_requeue v w t' a :
      at_job L v w →
      (jv_state v = Running ∧ t' = AttemptFailed)
        ∨ ((jv_state v = Leased ∨ jv_state v = Running) ∧ t' = AttemptTimedOut) →
      L_attempts L !! a = None → av_number w < jv_max v →
      step L (advance v Queued
        [fresh_attempt a (jv_id v) (av_number w + 1); move_attempt w t'] 1 (-1) L).

(** ** The invariant *)

Definition job_count (P : JView → bool) (m : gmap uuid JView) : Z :=
  Z.of_nat (size (filter (λ kv : uuid * JView, P kv.2 = true) m)).

Definition queued_of (owner : uuid) (v : JView) : bool :=
  bool_decide (jv_owner v = owner) && bool_decide (jv_state v = Queued).
Definition held_of (owner : uuid) (v : JView) : bool :=
  bool_decide (jv_owner v = owner) && held_job (jv_state v).

(** Replay of the history: every row continues its job from the state the job
    was in, along an edge [ValidateTransition] allows. *)
Definition replay_row (h : HView) (m : gmap uuid JobState) : option (gmap uuid JobState) :=
  match hv_from h, m !! hv_job h with
  | None, None => Some (<[hv_job h := hv_to h]> m)
  | Some s, Some s0 =>
      if bool_decide (s = s0) && is_ok (ValidateTransition (job_state_string s) (job_state_string (hv_to h)))
      then Some (<[hv_job h := hv_to h]> m) else None
  | _, _ => None
  end.

Definition replay_history (l : list HView) : option (gmap uuid JobState) :=
  foldl (λ m h, m ≫= replay_row h) (Some ∅) l.

Definition keys_ok (L : LState) : Prop :=
  (∀ k v, L_jobs L !! k = Some v → jv_id v = k)
  ∧ ∀ k w, L_attempts L !! k = Some w → av_id w = k ∧ is_Some (L_jobs L !! av_job w).

Definition job_coherent (m : gmap uuid AView) (v : JView) : Prop :=
  ∃ w, current m (jv_id v) w ∧ agree (jv_state v) (av_state w) = true
    ∧ ∀ b w', m !! b = Some w' → av_job w' = jv_id v → b ≠ av_id w → open_attempt (av_state w') = false.

Definition attempts_coherent (L : LState) : Prop :=
  ∀ k v, L_jobs L !! k = Some v → job_coherent (L_attempts L) v.

Definition leases_ok (L : LState) : Prop :=
  (∀ a w, L_attempts L !! a = Some w → held_attempt (av_state w) = true → is_Some (av_lease w))
  ∧ ∀ a b w w' l, L_attempts L !! a = Some w → L_attempts L !! b = Some w' →
      av_lease w = Some l → av_lease w' = Some l → a = b.

Definition quotas_exact (L : LState) : Prop :=
  ∀ owner, default (0, 0) (L_quotas L !! owner)
    = (job_count (queued_of owner) (L_jobs L), job_count (held_of owner) (L_jobs L)).

Definition history_faithful (L : LState) : Prop :=
  replay_history (L_history L) = Some (jv_state <$> L_jobs L).

Record lifecycle_ok (L : LState) : Prop := {
  lo_keys : keys_ok L;
  lo_coherent : attempts_coherent L;
  lo_leases : leases_ok L;
  lo_quotas : quotas_exact L;
  lo_history : history_faithful L
}.

(** ** Preservation *)

Definition b2z (b : bool) : Z := if b then 1 else 0.

Lemma job_count_fresh P m k v :
  m !! k = None → job_count P (<[k := v]> m) = job_count P m + b2z (P v).
Proof.
  intros Hk. unfold job_count, b2z. rw map_filter_insert. case_decide as HP; simpl in HP.
  - rw map_size_insert_None; [by rw map_lookup_filter_None; left|]. rw HP. lia.
  - rw map_filter_delete delete_id; [by rw map_lookup_filter_None; left|].
    destruct (P v); [done|lia].
Qed.

Lemma job_count_insert P m k v v' :
  m !! k = Some v → job_count P (<[k := v']> m) = job_count P m + b2z (P v') - b2z (P v).
Proof.
  intros Hk. rw -(insert_delete_id m k v Hk) insert_insert_eq.
  rw !job_count_fresh; [apply lookup_delete_eq..|lia].
Qed.

Lemma bump_lookup o dq da m o' :
  default (0, 0) (bump o dq da m !! o')
  = let c := default (0, 0) (m !! o') in if bool_decide (o = o') then (c.1 + dq, c.2 + da) else c.
Proof.
  unfold bump. case_bool_decide as H; [subst; by rw lookup_insert_eq|by rw lookup_insert_ne].
Qed.

Lemma replay_history_app l h m :
  replay_history l = Some m → replay_history (l ++ [h]) = replay_row h m.
Proof. intros H. unfold replay_history in *. by rw foldl_app H. Qed.

Lemma fmap_move_job (m : gmap uuid JView) v s :
  jv_state <$> <[jv_id v := move_job v s]> m = <[jv_id v := s]> (jv_state <$> m).
Proof. by rw fmap_insert. Qed.

Lemma history_advance L v s' ws dq da :
  history_faithful L → L_jobs L !! jv_id v = Some v → edge (jv_state v) s' = true →
  history_faithful (advance v s' ws dq da L).
Proof.
  unfold history_faithful, advance. simpl. intros H Hj He.
  rw (replay_history_app _ _ _ H) /replay_row /= lookup_fmap Hj /= bool_decide_eq_true_2 //.
  by rw ValidateTransition_edge He fmap_move_job.
Qed.

Lemma quotas_advance L v s' ws dq da :
  quotas_exact L → L_jobs L !! jv_id v = Some v →
  dq = b2z (bool_decide (s' = Queued)) - b2z (bool_decide (jv_state v = Queued)) →
  da = b2z (held_job s') - b2z (held_job (jv_state v)) →
  quotas_exact (advance v s' ws dq da L).
Proof.
  intros H Hj -> -> o. unfold advance. cbn [L_quotas L_jobs]. rw bump_lookup (H o).
  rw !(job_count_insert _ _ _ _ _ Hj). unfold queued_of, held_of. simpl.
  case_bool_decide; simpl; f_equal; lia.
Qed.

(** Frame rules for the attempts. *)
Lemma current_functional m j w w' : current m j w → current m j w' → w = w'.
Proof.
  intros (H1&Hj&Hm) (H1'&Hj'&Hm'). destruct (decide (av_id w = av_id w')) as [He|Hne].
  - rw He in H1. congruence.
  - pose proof (Hm _ _ H1' Hj' ltac:(congruence)). pose proof (Hm' _ _ H1 Hj ltac:(congruence)). lia.
Qed.

(** A job that is not the one an attempt belongs to does not see it. *)
Lemma coherent_frame m v w :
  (∀ w0, m !! av_id w = Some w0 → av_job w0 ≠ jv_id v) → av_job w ≠ jv_id v →
  job_coherent m v → job_coherent (put_attempt w m) v.
Proof.
  intros Hold Hnew (c&(Hc&Hcj&Hmax)&Hag&Hcl). exists c. unfold put_attempt.
  assert (av_id w ≠ av_id c) as Hne. { intros E. rw E in Hold. by apply (Hold _ Hc). }
  split_and!; [|done|].
  - split_and!; [by rw lookup_insert_ne|done|]. intros b w' [[<- <-]|[? ?]]%lookup_insert_Some; [done|eauto].
  - intros b w' [[<- <-]|[? ?]]%lookup_insert_Some; [done|eauto].
Qed.

(** The current attempt is rewritten, its number kept. *)
Lemma current_put m j w w' :
  current m j w → av_id w' = av_id w → av_job w' = av_job w → av_number w' = av_number w →
  current (put_attempt w' m) j w'.
Proof.
  intros (Hw&Hj&Hmax) Hid Hj' Hn. unfold put_attempt.
  split_and!; [apply lookup_insert_eq|by rw Hj'|]. rw Hid Hn.
  intros b x [[<- <-]|[? ?]]%lookup_insert_Some; [done|eauto].
Qed.

Lemma closed_put m j w w' :
  (∀ b x, m !! b = Some x → av_job x = j → b ≠ av_id w → open_attempt (av_state x) = false) →
  av_id w' = av_id w →
  ∀ b x, put_attempt w' m !! b = Some x → av_job x = j → b ≠ av_id w' → open_attempt (av_state x) = false.
Proof.
  unfold put_attempt. intros Hcl Hid b x [[<- <-]|[? ?]]%lookup_insert_Some; [done|]. rw Hid. eauto.
Qed.

Lemma coherent_move m v w w' s' :
  current m (jv_id v) w →
  (∀ b x, m !! b = Some x → av_job x = jv_id v → b ≠ av_id w → open_attempt (av_state x) = false) →
  av_id w' = av_id w → av_job w' = av_job w → av_number w' = av_number w →
  agree s' (av_state w') = true →
  job_coherent (put_attempt w' m) (move_job v s').
Proof.
  intros Hw Hcl Hid Hj' Hn Hag. exists w'. split_and!; [by eapply current_put|done|].
  by eapply closed_put.
Qed.

(** A new attempt follows a current attempt that is closed. *)
Lemma coherent_next m v w a s' :
  current m (jv_id v) w → open_attempt (av_state w) = false →
  (∀ b x, m !! b = Some x → av_job x = jv_id v → b ≠ av_id w → open_attempt (av_state x) = false) →
  m !! a = None → agree s' AttemptCreated = true →
  job_coherent (put_attempt (fresh_attempt a (jv_id v) (av_number w + 1)) m) (move_job v s').
Proof.
  intros (Hw&Hj&Hmax) Hcw Hcl Ha Hag. eexists. unfold put_attempt. simpl.
  split_and!; [split_and!; [apply lookup_insert_eq|done|]|done|]; simpl.
  - intros b x [[<- <-]|[? Hx]]%lookup_insert_Some Hxj Hne; simpl; [done|].
    destruct (decide (b = av_id w)) as [->|Hb]; [rw Hw in Hx; injection Hx as <-; lia|].
    specialize (Hmax _ _ Hx Hxj Hb). lia.
  - intros b x [[<- <-]|[? Hx]]%lookup_insert_Some Hxj ?; [done|].
    destruct (decide (b = av_id w)) as [->|Hb]; [congruence|eauto].
Qed.

(** The attempts a step writes belong to the job it moves. *)
Definition owned (m : gmap uuid AView) (j : uuid) (w : AView) : Prop :=
  av_job w = j ∧ ∀ w0, m !! av_id w = Some w0 → av_job w0 = j.

Lemma put_attempts_lookup m ws k x :
  foldr put_attempt m ws !! k = Some x → (x ∈ ws ∧ av_id x = k) ∨ m !! k = Some x.
Proof.
  induction ws as [|w ws IH]; simpl; [auto|].
  unfold put_attempt at 1. intros [[<- <-]|[_ H]]%lookup_insert_Some; [left; split; [by left|done]|].
  destruct (IH H) as [[? ?]|?]; [left; split; [by right|done]|by right].
Qed.

Lemma coherent_frames m v ws j :
  Forall (owned m j) ws → j ≠ jv_id v → job_coherent m v → job_coherent (foldr put_attempt m ws) v.
Proof.
  intros Hws Hne Hc. induction ws as [|w ws IH]; [done|].
  apply list.Forall_cons in Hws as [[Hw Hw0] Hws]. simpl. apply coherent_frame; [|congruence|auto].
  intros w0 [[Hin He]|Hl]%put_attempts_lookup; [|rw (Hw0 _ Hl) //].
  rw list.Forall_forall in Hws. destruct (Hws _ Hin) as [-> _]. done.
Qed.

Lemma advance_ok L v s' ws dq da :
  lifecycle_ok L → L_jobs L !! jv_id v = Some v → edge (jv_state v) s' = true →
  dq = b2z (bool_decide (s' = Queued)) - b2z (bool_decide (jv_state v = Queued)) →
  da = b2z (held_job s') - b2z (held_job (jv_state v)) →
  Forall (owned (L_attempts L) (jv_id v)) ws →
  job_coherent (foldr put_attempt (L_attempts L) ws) (move_job v s') →
  leases_ok (advance v s' ws dq da L) →
  lifecycle_ok (advance v s' ws dq da L).
Proof.
  intros [[Hkj Hka] Hco Hle Hq Hh] Hv He Hdq Hda Hws Hc Hl. split; [| |done|by apply quotas_advance|by apply history_advance].
  - split; cbn [L_jobs L_attempts advance].
    + by intros k x [[<- <-]|[? ?%Hkj]]%lookup_insert_Some.
    + intros k x [[Hin He']|[? ?]%Hka]%put_attempts_lookup; (split; [done|]); rw lookup_insert_is_Some'; [left|by right].
      rw list.Forall_forall in Hws. by destruct (Hws _ Hin) as [-> _].
  - intros k x. cbn [L_jobs L_attempts advance]. intros [[<- <-]|[Hne Hx]]%lookup_insert_Some; [done|].
    eapply coherent_frames; [done| |by eapply Hco]. by rw (Hkj _ _ Hx).
Qed.

(** The attempts of a coherent job, by its state. *)
Lemma at_job_current L v w :
  lifecycle_ok L → at_job L v w →
  agree (jv_state v) (av_state w) = true
  ∧ ∀ b x, L_attempts L !! b = Some x → av_job x = jv_id v → b ≠ av_id w → open_attempt (av_state x) = false.
Proof.
  intros [_ Hco _ _ _] [Hv Hw]. destruct (Hco _ _ Hv) as (w'&Hw'&Hag&Hcl).
  by rw (current_functional _ _ _ _ Hw Hw').
Qed.

Lemma owned_current L v w w' :
  at_job L v w → av_id w' = av_id w → av_job w' = av_job w → owned (L_attempts L) (jv_id v) w'.
Proof. intros [_ (Hw&Hj&_)] Hid Hj'. split; [congruence|]. rw Hid Hw. by intros ? [= <-]. Qed.

Lemma owned_fresh L v a n :
  L_attempts L !! a = None → owned (L_attempts L) (jv_id v) (fresh_attempt a (jv_id v) n).
Proof. intros Ha. split; [done|]. simpl. by rw Ha. Qed.

Lemma leases_put m w :
  leases_ok (mkLState ∅ m ∅ []) → (held_attempt (av_state w) = true → is_Some (av_lease w)) →
  (∀ l a x, av_lease w = Some l → m !! a = Some x → av_lease x = Some l → a = av_id w) →
  leases_ok (mkLState ∅ (put_attempt w m) ∅ []).
Proof.
  intros [Hs Hu] Hw Huw. unfold put_attempt. split; simpl in *.
  - intros a x [[<- <-]|[? ?]]%lookup_insert_Some; [done|eauto].
  - intros a b x y l [[<- <-]|[? Hx]]%lookup_insert_Some [[<- <-]|[? Hy]]%lookup_insert_Some Hl Hl';
      [done|symmetry; eauto|eauto|eauto].
Qed.

(** Keeping or dropping a lease creates no clash. *)
Lemma leases_move m w t' :
  leases_ok (mkLState ∅ m ∅ []) → m !! av_id w = Some w →
  (held_attempt t' = true → held_attempt (av_state w) = true) →
  leases_ok (mkLState ∅ (put_attempt (move_attempt w t') m) ∅ []).
Proof.
  intros Hok Hw Ht. apply leases_put; [done| |].
  - simpl. intros Hh%Ht. by apply (proj1 Hok _ _ Hw).
  - simpl. intros l a x Hl Hx Hxl. exact (proj2 Hok _ _ _ _ _ Hx Hw Hxl Hl).
Qed.

Lemma leases_fresh m a j n :
  leases_ok (mkLState ∅ m ∅ []) → leases_ok (mkLState ∅ (put_attempt (fresh_attempt a j n) m) ∅ []).
Proof. intros H. by apply leases_put. Qed.

Lemma submit_ok L j owner rq a :
  lifecycle_ok L → L_jobs L !! j = None → L_attempts L !! a = None →
  lifecycle_ok (mkLState (<[j := mkJView j owner rq Queued]> (L_jobs L))
    (put_attempt (fresh_attempt a j 1) (L_attempts L))
    (bump owner 1 0 (L_quotas L)) (L_history L ++ [mkHView j None Queued])).
Proof.
  intros [[Hkj Hka] Hco Hle Hq Hh] Hj Ha. split.
  - split; simpl; [by intros k x [[<- <-]|[? ?%Hkj]]%lookup_insert_Some|].
    unfold put_attempt. intros k x [[<- <-]|[? [? ?]%Hka]]%lookup_insert_Some;
      (split; [done|]); rw lookup_insert_is_Some'; auto.
  - intros k x. simpl. intros [[<- <-]|[Hne Hx]]%lookup_insert_Some.
    + exists (fresh_attempt a j 1).
      assert (∀ b w', put_attempt (fresh_attempt a j 1) (L_attempts L) !! b = Some w' → av_job w' = j → b = a) as Hb.
      { unfold put_attempt. intros b w' [[<- <-]|[? [_ Hs]%Hka]]%lookup_insert_Some Hw'; [done|].
        rw Hw' Hj in Hs. by destruct Hs. }
      split_and!; [split_and!; [apply lookup_insert_eq|done|]|done|]; simpl;
        intros b w' Hw' Hwj Hne; by destruct Hne; apply (Hb b w').
    + apply coherent_frame; [by rw /= Ha|simpl; rw (Hkj _ _ Hx); done|by eapply Hco].
  - by apply (leases_fresh (L_attempts L)).
  - intros o. cbn [L_quotas L_jobs]. rw bump_lookup (Hq o) !job_count_fresh //.
    unfold queued_of, held_of. simpl. case_bool_decide; simpl; f_equal; lia.
  - unfold history_faithful in *. cbn [L_history L_jobs].
    by rw (replay_history_app _ _ _ Hh) /replay_row /= lookup_fmap Hj /= fmap_insert.
Qed.

(** Guards of a step, unpacked. *)
Ltac unpack_at_job Hok Hat :=
  let Hv := fresh "Hv" in let Hcur := fresh "Hcur" in
  let Hag := fresh "Hag" in let Hcl := fresh "Hcl" in
  pose proof (at_job_current _ _ _ Hok Hat) as [Hag Hcl];
  pose proof Hat as [Hv Hcur].

(** Every step preserves the invariant. *)
Lemma step_ok L L' : lifecycle_ok L → step L L' → lifecycle_ok L'.
Proof.
  intros Hok Hs. pose proof (lo_leases _ Hok) as Hle.
  destruct Hs as [j owner mx a Hj Ha|v w Hat Hst|v w Hat Hst|v w a Hat Hst Ha|v w l Hat Hst Hl
                 |v w Hat Hst|v w s' t' Hat He|v w t' a Hat Hst Ha Hb].
  - by apply submit_ok.
  - unpack_at_job Hok Hat. rw Hst in Hag. apply advance_ok; rw ?Hst; try done.
    + constructor; [by eapply owned_current|constructor].
    + by eapply coherent_move.
    + by apply (leases_move (L_attempts L)); [|destruct Hcur|].
  - unpack_at_job Hok Hat. apply advance_ok; try done; try (by destruct Hst as [->| ->]).
    + simpl. exists w. split_and!; [done| |done]. simpl.
      by destruct Hst as [Hst|Hst]; rw Hst in Hag; destruct (av_state w).
  - unpack_at_job Hok Hat. apply advance_ok; try done; try (by destruct Hst as [->| ->]).
    + constructor; [by apply owned_fresh|constructor].
    + apply coherent_next; try done. by destruct Hst as [Hst|Hst]; rw Hst in Hag; destruct (av_state w).
    + by apply (leases_fresh (L_attempts L)).
  - unpack_at_job Hok Hat. apply advance_ok; rw ?Hst; try done.
    + constructor; [by eapply owned_current|constructor].
    + by eapply coherent_move.
    + apply (leases_put (L_attempts L)); [done|simpl; eauto|]. simpl. intros ? b x [= <-]. apply Hl.
  - unpack_at_job Hok Hat. rw Hst in Hag. apply advance_ok; rw ?Hst; try done.
    + constructor; [by eapply owned_current|constructor].
    + by eapply coherent_move.
    + apply (leases_move (L_attempts L)); [done|by destruct Hcur|]. by destruct (av_state w).
  - unpack_at_job Hok Hat. apply advance_ok; try done;
      try (by destruct (jv_state v), s', t').
    + constructor; [by eapply owned_current|constructor].
    + eapply coherent_move; try done. by destruct (jv_state v), s', t'.
    + apply (leases_move (L_attempts L)); [done|by destruct Hcur|]. by destruct (jv_state v), s', t'.
  - unpack_at_job Hok Hat. apply advance_ok; try done; try (by destruct Hst as [[-> _]|[[->| ->] _]]).
    + constructor; [by apply owned_fresh|]. constructor; [by eapply owned_current|constructor].
    + apply (coherent_next _ v (move_attempt w t')); try done.
      * by eapply current_put.
      * by destruct Hst as [[_ ->]|[_ ->]].
      * by eapply closed_put.
      * unfold put_attempt. rw lookup_insert_None. split; [done|]. simpl.
        intros E. destruct Hcur as [Hcur _]. congruence.
    + apply (leases_fresh (put_attempt _ _)). apply (leases_move (L_attempts L)); [done|by destruct Hcur|].
      by destruct Hst as [[_ ->]|[_ ->]].
Qed.

Lemma steps_ok L L' : lifecycle_ok L → rtc step L L' → lifecycle_ok L'.
Proof. intros HL Hs. induction Hs; eauto using step_ok. Qed.

(** ** What the invariant gives the transactions *)

(** The row of a job's owner exists and counts the job. *)
Lemma count_positive P m k v : m !! k = Some v → P v = true → 1 <= job_count P m.
Proof.
  intros Hk HP. unfold job_count.
  assert (filter (λ kv : uuid * JView, P kv.2 = true) m !! k = Some v) as Hf by by apply map_lookup_filter_Some.
  assert (size (filter (λ kv : uuid * JView, P kv.2 = true) m) ≠ 0%nat); [|lia].
  rw map_size_non_empty_iff. intros E. by rw E lookup_empty in Hf.
Qed.

Lemma quota_queued L v :
  lifecycle_ok L → L_jobs L !! jv_id v = Some v → jv_state v = Queued →
  ∃ q a, L_quotas L !! jv_owner v = Some (q, a) ∧ 1 <= q.
Proof.
  intros Hok Hv Hs. pose proof (lo_quotas _ Hok (jv_owner v)) as Hq.
  pose proof (count_positive (queued_of (jv_owner v)) _ _ _ Hv) as Hc.
  unfold queued_of in Hc at 1. rw !bool_decide_eq_true_2 // in Hc. specialize (Hc eq_refl).
  destruct (L_quotas L !! jv_owner v) as [[q a]|]; simpl in Hq; injection Hq as Hq1 Hq2; [|lia]. exists q, a. split; [done|lia].
Qed.

Lemma quota_held L v :
  lifecycle_ok L → L_jobs L !! jv_id v = Some v → held_job (jv_state v) = true →
  ∃ q a, L_quotas L !! jv_owner v = Some (q, a) ∧ 1 <= a.
Proof.
  intros Hok Hv Hs. pose proof (lo_quotas _ Hok (jv_owner v)) as Hq.
  pose proof (count_positive (held_of (jv_owner v)) _ _ _ Hv) as Hc.
  unfold held_of in Hc at 1. rw bool_decide_eq_true_2 // Hs in Hc. specialize (Hc eq_refl).
  destruct (L_quotas L !! jv_owner v) as [[q a]|]; simpl in Hq; injection Hq as Hq1 Hq2; [|lia]. exists q, a. split; [done|lia].
Qed.

Lemma bump_Some o dq da m q a : m !! o = Some (q, a) → bump o dq da m = <[o := (q + dq, a + da)]> m.
Proof. intros H. unfold bump. by rw H. Qed.

Lemma empty_ok : lifecycle_ok (mkLState ∅ ∅ ∅ []).
Proof.
  split; [split|..|done]; try (intros ? ? H; by rw lookup_empty in H).
  - split; intros *; by rw lookup_empty.
  - intros o. by rw lookup_empty.
Qed.

(** ** Jobs move along the edges of the transition table *)

Definition job_follows (v v' : JView) : Prop :=
  jv_id v' = jv_id v ∧ jv_owner v' = jv_owner v ∧ jv_request v' = jv_request v
  ∧ rtc (λ s t, edge s t = true) (jv_state v) (jv_state v').

#[export] Instance job_follows_preorder : PreOrder job_follows.
Proof.
  split; unfold job_follows; [intros v; split_and!; reflexivity|].
  intros x y z (?&?&?&?) (?&?&?&?). split_and!; [congruence..|by etrans].
Qed.

Lemma step_edge L L' :
  step L L' →
  (∃ v s' ws dq da, L' = advance v s' ws dq da L ∧ L_jobs L !! jv_id v = Some v ∧ edge (jv_state v) s' = true)
  ∨ ∃ j x, L_jobs L !! j = None ∧ L_jobs L' = <[j := x]> (L_jobs L).
Proof.
  intros [j owner mx a Hj Ha|v w [Hv _] Hs|v w [Hv _] Hs|v w a [Hv _] Hs Ha|v w l [Hv _] Hs Hl
         |v w [Hv _] Hs|v w s' t' [Hv _] He|v w t' a [Hv _] Hs Ha Hb]; [right; eexists j, _; by split|left..];
    (eexists _, _, _, _, _; split_and!; [reflexivity|exact Hv|]).
  - by rw Hs.
  - by destruct Hs as [->| ->].
  - by destruct Hs as [->| ->].
  - by rw Hs.
  - by rw Hs.
  - by destruct (jv_state v), s', t'.
  - by destruct Hs as [[-> _]|[[->| ->] _]].
Qed.

Lemma step_follows L L' k v :
  step L L' → L_jobs L !! k = Some v → ∃ v', L_jobs L' !! k = Some v' ∧ job_follows v v'.
Proof.
  intros [(v0&s'&ws&dq&da&->&Hv0&He)|(j&x&Hj&->)]%step_edge Hk; simpl.
  - destruct (decide (jv_id v0 = k)) as [<-|Hne].
    + rw Hv0 in Hk. injection Hk as ->. rw lookup_insert_eq. eexists; split; [done|].
      split_and!; try done. simpl. by apply rtc_once.
    + rw lookup_insert_ne //. exists v. by split.
  - rw lookup_insert_ne; [congruence|]. eexists; split; [done|reflexivity].
Qed.

Lemma steps_follow L L' k v :
  rtc step L L' → L_jobs L !! k = Some v → ∃ v', L_jobs L' !! k = Some v' ∧ job_follows v v'.
Proof.
  intros Hs. revert v. induction Hs as [L|L L1 L2 Hs _ IH]; intros v Hk; [eexists; split; [done|reflexivity]|].
  destruct (step_follows _ _ _ _ Hs Hk) as (v1&Hk1&?). destruct (IH _ Hk1) as (v2&?&?).
  exists v2. split; [done|by etrans].
Qed.

(** A terminal state is never left. *)
Lemma terminal_stays s t :
  IsTerminal (job_state_string s) = true → rtc (λ s t, edge s t = true) s t → t = s.
Proof.
  intros Ht Hs. destruct Hs as [|s u t He _]; [done|]. by destruct s, u.
Qed.
