(* ===== verification/Refinement.v ===== *)
(** Refinement: every committed transaction of the job, lease, result and
    dead-letter packages is a sequence of lifecycle steps. *)

From S2P Require Import Prelude GoStrings Retry Json Queue JobModel Schema Sql Outbox JobStore WorkerRegistry Authz Lease Result Dlq Lifecycle.

Open Scope Z_scope.

(** ** The abstraction function *)

Definition job_request (r : JobRow) : Request :=
  mkRequest (j_dataset_version_id r) (j_operations r) (j_request_fingerprint r) (j_priority r) (j_max_attempts r).
Definition abs_job (r : JobRow) : JView := mkJView (j_id r) (j_owner_user_id r) (job_request r) (j_state r).
Definition abs_attempt (a : AttemptRow) : AView :=
  mkAView (a_id a) (a_job_id a) (a_attempt_number a) (a_state a) (a_lease_id a).
Definition abs_quota (q : QuotaRow) : Z * Z := (q_queued_count q, q_active_count q).
Definition abs_history (h : HistoryRow) : HView := mkHView (h_job_id h) (h_from_state h) (h_to_state h).

Definition abs (d : DB) : LState :=
  mkLState (abs_job <$> t_jobs d) (abs_attempt <$> t_attempts d) (abs_quota <$> t_quotas d)
    (abs_history <$> t_history d).

Definition db_ok (d : DB) : Prop := lifecycle_ok (abs d).

Definition refines {A} (m : Tx DB A) : Prop :=
  ∀ o w, db_ok (st w) → wp o m (λ _ w', rtc step (abs (st w)) (abs (st w'))) w.

Lemma fmap_alter_Some {A B} (g : A → B) f k (m : gmap uuid A) x :
  m !! k = Some x → g <$> alter f k m = <[k := g (f x)]> (g <$> m).
Proof.
  intros Hk. apply map_eq. intros i. rw lookup_fmap. destruct (decide (k = i)) as [->|Hne].
  - by rw lookup_alter_eq Hk lookup_insert_eq.
  - rw lookup_alter_ne // lookup_insert_ne // lookup_fmap //.
Qed.

Lemma step_to L L' X : step L L' → X = L' → rtc step L X.
Proof. intros H ->. by apply rtc_once. Qed.

(** ** Reading the invariant at the rows *)

Section rows.
Context (d : DB) (Hok : db_ok d).

Lemma job_key j r : t_jobs d !! j = Some r → j_id r = j.
Proof. intros Hj. apply (proj1 (lo_keys _ Hok) j (abs_job r)). simpl. by rw lookup_fmap Hj. Qed.

Lemma attempt_key k a : t_attempts d !! k = Some a → a_id a = k.
Proof. intros Ha. apply (proj2 (lo_keys _ Hok) k (abs_attempt a)). simpl. by rw lookup_fmap Ha. Qed.

Lemma abs_job_at j r : t_jobs d !! j = Some r → L_jobs (abs d) !! jv_id (abs_job r) = Some (abs_job r).
Proof. intros Hj. simpl. by rw (job_key _ _ Hj) lookup_fmap Hj. Qed.

(** The attempt [ORDER BY attempt_number DESC LIMIT 1] returns is the current one. *)
Lemma latest_at_job j r a :
  t_jobs d !! j = Some r → latest_attempt d j = Some a → at_job (abs d) (abs_job r) (abs_attempt a).
Proof.
  intros Hj (Haj&(k&Hk)&Hmax)%latest_attempt_Some. split; [by eapply abs_job_at|].
  pose proof (attempt_key _ _ Hk) as Hid. simpl. rw (job_key _ _ Hj).
  destruct (lo_coherent _ Hok _ _ (abs_job_at _ _ Hj)) as (w&Hcur&_&_).
  simpl in Hcur. rw (job_key _ _ Hj) in Hcur. pose proof Hcur as (Hw&Hwj&Hwmax).
  destruct (decide (k = av_id w)) as [->|Hne].
  - simpl in Hw. rw lookup_fmap Hk /= in Hw. injection Hw as Hw. by rw Hw.
  - exfalso. specialize (Hwmax k (abs_attempt a)). rw lookup_fmap Hk in Hwmax.
    specialize (Hwmax eq_refl Haj Hne).
    simpl in Hw. rw lookup_fmap in Hw. destruct (t_attempts d !! av_id w) as [b|] eqn:Hb; [|done].
    injection Hw as <-. specialize (Hmax _ _ Hb Hwj). simpl in Hwmax. lia.
Qed.

(** A job has attempts. *)
Lemma latest_exists j r : t_jobs d !! j = Some r → ∃ a, latest_attempt d j = Some a.
Proof.
  intros Hj. destruct (latest_attempt d j) as [a|] eqn:E; [eauto|]. exfalso.
  destruct (lo_coherent _ Hok _ _ (abs_job_at _ _ Hj)) as (w&(Hw&Hwj&_)&_&_).
  simpl in Hw, Hwj. rw lookup_fmap in Hw. destruct (t_attempts d !! av_id w) as [b|] eqn:Hb; [|done].
  injection Hw as <-. apply (latest_attempt_None _ _ E _ _ Hb). simpl in Hwj. by rw Hwj (job_key _ _ Hj).
Qed.

(** An attempt that is still open is the current one of its job. *)
Lemma open_at_job j r k a :
  t_jobs d !! j = Some r → t_attempts d !! k = Some a → a_job_id a = j →
  open_attempt (a_state a) = true → at_job (abs d) (abs_job r) (abs_attempt a).
Proof.
  intros Hj Hk Haj Ho. split; [by eapply abs_job_at|].
  destruct (lo_coherent _ Hok _ _ (abs_job_at _ _ Hj)) as (w&Hcur&_&Hcl).
  pose proof Hcur as (Hw&_&_). destruct (decide (k = av_id w)) as [->|Hne].
  - simpl in Hw. rw lookup_fmap Hk /= in Hw. injection Hw as Hw. by rw Hw.
  - specialize (Hcl k (abs_attempt a)). simpl in Hcl. rw lookup_fmap Hk in Hcl.
    rw Hcl // in Ho. by rw (job_key _ _ Hj).
Qed.

(** The owner's counters, as rows. *)
Lemma quota_row_queued j r :
  t_jobs d !! j = Some r → j_state r = Queued →
  ∃ q, t_quotas d !! j_owner_user_id r = Some q ∧ 1 <= q_queued_count q.
Proof.
  intros Hj Hs. destruct (quota_queued _ _ Hok (abs_job_at _ _ Hj) Hs) as (q&a&Hq&?).
  simpl in Hq. rw lookup_fmap in Hq. destruct (t_quotas d !! _) as [x|] eqn:E; [|done].
  injection Hq as <- <-. eauto.
Qed.

Lemma quota_row_held j r :
  t_jobs d !! j = Some r → held_job (j_state r) = true →
  ∃ q, t_quotas d !! j_owner_user_id r = Some q ∧ 1 <= q_active_count q.
Proof.
  intros Hj Hs. destruct (quota_held _ _ Hok (abs_job_at _ _ Hj) Hs) as (q&a&Hq&?).
  simpl in Hq. rw lookup_fmap in Hq. destruct (t_quotas d !! _) as [x|] eqn:E; [|done].
  injection Hq as <- <-. eauto.
Qed.

Lemma job_attempt_agree j r w : t_jobs d !! j = Some r → at_job (abs d) (abs_job r) w →
  agree (j_state r) (av_state w) = true.
Proof. intros Hj Hat. apply (at_job_current _ _ _ Hok Hat). Qed.
End rows.

(** *** Components of an abstract successor *)

Lemma abs_jobs_alter d f j r v s :
  t_jobs d !! j = Some r → abs_job r = v → j_id r = j → abs_job (f r) = move_job v s →
  abs_job <$> alter f j (t_jobs d) = <[jv_id v := move_job v s]> (abs_job <$> t_jobs d).
Proof. intros Hj <- Hid Hf. rw (fmap_alter_Some _ _ _ _ _ Hj) Hf /= Hid //. Qed.

Lemma abs_attempts_alter d f k a w' :
  t_attempts d !! k = Some a → abs_attempt (f a) = w' → av_id w' = k →
  abs_attempt <$> alter f k (t_attempts d) = put_attempt w' (abs_attempt <$> t_attempts d).
Proof. intros Ha Hf Hid. unfold put_attempt. rw (fmap_alter_Some _ _ _ _ _ Ha) Hf Hid //. Qed.

Lemma abs_quota_alter d f o q dq da :
  t_quotas d !! o = Some q → abs_quota (f q) = (q_queued_count q + dq, q_active_count q + da) →
  abs_quota <$> alter f o (t_quotas d) = bump o dq da (abs_quota <$> t_quotas d).
Proof.
  intros Hq Hf. rw (fmap_alter_Some _ _ _ _ _ Hq) Hf.
  rw (bump_Some _ _ _ _ (q_queued_count q) (q_active_count q)) //. by rw lookup_fmap Hq.
Qed.

Lemma abs_quota_same d o q :
  t_quotas d !! o = Some q → abs_quota <$> t_quotas d = bump o 0 0 (abs_quota <$> t_quotas d).
Proof.
  intros Hq. rw (bump_Some _ _ _ _ (q_queued_count q) (q_active_count q)); [by rw lookup_fmap Hq|].
  rw !Z.add_0_r insert_id //. by rw lookup_fmap Hq.
Qed.

Lemma abs_history_app d h v s :
  abs_history h = mkHView (jv_id v) (Some (jv_state v)) s →
  abs_history <$> t_history d ++ [h]
  = (abs_history <$> t_history d) ++ [mkHView (jv_id v) (Some (jv_state v)) s].
Proof. intros Hh. rw fmap_app /=. by rw Hh. Qed.

(** Incrementing the queued counter, as [Create], [RequestRetry] and [Replay] do. *)
Lemma wp_incrementQuota_at limit exceeded owner o w (Q : unit → World DB → Prop) :
  (∀ f, (abs_quota <$> f (t_quotas (st w)) = bump owner 1 0 (abs_quota <$> t_quotas (st w))) →
        Q tt (mkWorld (on_quotas f (st w)) (tick w))) →
  wp o (incrementQuota_at limit exceeded owner) Q w.
Proof.
  intros HQ. unfold incrementQuota_at. wp_steps. destruct (t_quotas (st w) !! owner) as [q|] eqn:E; wp_steps; apply HQ.
  - rw fmap_insert (bump_Some _ _ _ _ (q_queued_count q) (q_active_count q)); [by rw lookup_fmap E|].
    unfold abs_quota at 1. simpl. by rw Z.add_0_r.
  - rw fmap_insert. unfold bump. by rw lookup_fmap E.
Qed.

(** Symbolic execution through the shared helpers. *)
Ltac wp_go :=
  repeat (first
    [ wp_step
    | match goal with
      | |- wp _ (update_job _ _) _ _ => unfold update_job
      | |- wp _ (update_attempt _ _) _ _ => unfold update_attempt
      | |- wp _ (update_quota _ _) _ _ => unfold update_quota
      | |- wp _ (append_history _) _ _ => unfold append_history
      | |- wp _ (recordHistory _ _ _ _ _) _ _ => unfold recordHistory
      | |- wp _ (lease_recordHistory _ _ _ _) _ _ => unfold lease_recordHistory
      | |- wp _ (result_recordHistory _ _ _ _) _ _ => unfold result_recordHistory
      | |- wp _ (decrementQuota _) _ _ => unfold decrementQuota
      | |- wp _ (release_quota _ _) _ _ => unfold release_quota
      | |- wp _ (requeue_quota _ _) _ _ => unfold requeue_quota
      | |- wp _ (project_if_absent _ _ _) _ _ => unfold project_if_absent
      | |- wp _ (getJobTx _) _ _ => unfold getJobTx
      | |- wp _ (ignored _) _ _ => unfold ignored
      | |- wp _ (applied _) _ _ => unfold applied
      | |- wp _ (insertResultProjection _ _ _ _ _) _ _ => unfold insertResultProjection
      | |- wp _ (NewEnvelope _ _ _ _ _) _ _ => apply wp_NewEnvelope; intros ? ? ? ? ? ? ? ?; cbn [st tick]
      | |- wp _ (Enqueue _) _ _ => apply wp_Enqueue; intros ? ? ? ? ? ? ? ? ? ?; cbn [st tick]
      | |- wp _ (insert_attempt _ _ _ _) _ _ => apply wp_insert_attempt; intros ? ?; cbn [st tick]
      | |- wp _ (insert_row _ _ _ _) _ _ => apply wp_insert_row; intros ?; cbn [st tick]
      | |- wp _ (incrementQuota_at _ _ _) _ _ => apply wp_incrementQuota_at; intros ? ?; cbn [st tick]
      end ]).

(** ** The job repository *)

Section job.
Context `{!Enqueuer}.

Lemma create_record_refines command fp j o w (L : LState) :
  abs (st w) = L → wp o (create_record command fp j) (λ _ w', abs (st w') = L) w.
Proof.
  intros HL. unfold create_record, create_finish, create_enqueue, findIdempotentJob.
  case_bool_decide; wp_go; [done|]. case_match; wp_go; [|done].
  case_match; wp_go; done.
Qed.

Lemma create_new_refines command fp : refines (create_new command fp).
Proof.
  intros o w Hok. unfold create_new, lockAvailableVersion, incrementQuota, insert_job. wp_go.
  eapply wp_mono; [|by apply create_record_refines]. intros oc w' ->. simpl in *.
  eapply step_to.
  - eapply (step_submit _ u (c_OwnerUserID command) _ u0); simpl; by rw lookup_fmap fmap_None.
  - unfold abs. simpl. rw fmap_app !fmap_insert /=. f_equal. done.
Qed.

Lemma create_tx_refines command fp : refines (create_tx command fp).
Proof.
  intros o w Hok. unfold create_tx, findIdempotentJob. case_bool_decide; [by apply create_new_refines|].
  wp_go. case_match; wp_go; [done|by apply create_new_refines].
Qed.

Lemma cancel_queued_refines r reason now actor o w :
  db_ok (st w) → t_jobs (st w) !! j_id r = Some r → j_state r = Queued →
  wp o (cancel_queued r reason now actor) (λ _ w', rtc step (abs (st w)) (abs (st w'))) w.
Proof.
  intros Hok Hj Hs. unfold cancel_queued. wp_go.
  destruct (latest_exists _ Hok _ _ Hj) as [a Ha].
  change (latest_attempt _ (j_id r)) with (latest_attempt (st w) (j_id r)). rw Ha.
  pose proof (latest_at_job _ Hok _ _ _ Hj Ha) as Hat.
  apply latest_attempt_Some in Ha as (_&(k&Hk)&_). pose proof (attempt_key _ Hok _ _ Hk) as <-.
  destruct (quota_row_queued _ Hok _ _ Hj Hs) as (q&Hq&Hq1).
  wp_go. eapply step_to; [by eapply step_cancel_queued|].
  unfold abs, advance. simpl. f_equal.
  - by eapply abs_jobs_alter.
  - by eapply abs_attempts_alter.
  - eapply abs_quota_alter; [done|]. unfold abs_quota. simpl. f_equal; lia.
  - by apply (abs_history_app _ _ (abs_job r)).
Qed.

Lemma wp_currentCancellationTarget j o w (Q : cancellationTarget → World DB → Prop) :
  (∀ t, Q t w) → wp o (currentCancellationTarget j) Q w.
Proof. intros HQ. unfold currentCancellationTarget. wp_go. destruct w. repeat case_match; wp_go; done. Qed.

Lemma cancel_active_refines r reason now command o w :
  db_ok (st w) → t_jobs (st w) !! j_id r = Some r → j_state r = Leased ∨ j_state r = Running →
  wp o (cancel_active r reason now command) (λ _ w', rtc step (abs (st w)) (abs (st w'))) w.
Proof.
  intros Hok Hj Hs. unfold cancel_active, enqueueCancel, enqueueEnvelopeWithRoutingKey.
  destruct (latest_exists _ Hok _ _ Hj) as [a Ha].
  pose proof (latest_at_job _ Hok _ _ _ Hj Ha) as Hat.
  destruct (quota_row_held _ Hok _ _ Hj) as (q&Hq&_); [by destruct Hs as [->| ->]|].
  apply wp_bind, wp_currentCancellationTarget. intros target. wp_go.
  eapply step_to; [by eapply step_cancel_request|].
  unfold abs, advance. simpl. f_equal.
  - by eapply abs_jobs_alter.
  - by eapply abs_quota_same.
  - by apply (abs_history_app _ _ (abs_job r)).
Qed.

Lemma RequestCancel_refines command : refines (RequestCancel command).
Proof.
  intros o w Hok. unfold RequestCancel. wp_go. rename a into r.
  rename select (t_jobs _ !! _ = Some r) into Hj.
  pose proof (job_key _ Hok _ _ Hj) as Hid. rw -Hid in Hj.
  wp_if as Hs; wp_go; [done|]. wp_if as Hq.
  - by apply (cancel_queued_refines r _ _ _ o (mkWorld (st w) _)).
  - apply (cancel_active_refines r _ _ _ o (mkWorld (st w) _)); [done|done|].
    rename select (is_ok _ = true) into He. rw ValidateTransition_edge in He.
    destruct (j_state r); naive_solver.
Qed.

Lemma RequestRetry_refines command : refines (RequestRetry command).
Proof.
  intros o w Hok. unfold RequestRetry, incrementQuota, enqueueRetryQueued, enqueueEnvelope,
    enqueueEnvelopeWithRoutingKey. wp_go. rename select (t_jobs _ !! _ = Some _) into Hj. rename select JobRow into r.
  pose proof (job_key _ Hok _ _ Hj) as Hid. rw -Hid in Hj.
  wp_if as Hs; wp_go; [done|].
  destruct (latest_exists _ Hok _ _ Hj) as [att Ha].
  pose proof (latest_at_job _ Hok _ _ _ Hj Ha) as Hat.
  pose proof (job_attempt_agree _ Hok _ _ _ Hj Hat) as Hag.
  rename select (retryable_state _ = true) into Hr. unfold retryable_state in Hr. reflect_bool.
  eapply step_to.
  - eapply (step_resubmit _ _ _ _ Hat).
    + destruct Hr as [Hr|[Hr|Hr]]; [|by left|by right]. by rw Hr in Hag.
    + simpl in *. rw lookup_fmap fmap_None. done.
  - unfold abs, advance. simpl. f_equal.
    + by eapply abs_jobs_alter.
    + rw fmap_insert. unfold put_attempt, next_attempt_number.
      change (latest_attempt _ (j_id r)) with (latest_attempt (st w) (j_id r)). rw Ha. done.
    + done.
    + by apply (abs_history_app _ _ (abs_job r)).
Qed.
End job.

(** ** The lease repository *)

Section lease.
Context `{!Enqueuer, !WorkerSelector}.

Lemma lease_id_taken_false d a l w :
  db_ok d → lease_id_taken d a l = false → av_id w = a → lease_free (abs d) w l.
Proof.
  intros Hok Htk Hid k x Hx Hl. simpl in Hx. rw lookup_fmap in Hx.
  destruct (t_attempts d !! k) as [b|] eqn:Hb; [|done]. injection Hx as <-.
  destruct (decide (k = av_id w)) as [|Hne]; [done|]. exfalso.
  enough (lease_id_taken d a l = true) by congruence.
  apply existsb_exists. exists b. rw -list_elem_of_In elem_of_rows bool_decide_eq_true.
  split; [eauto|]. split; [done|]. rw (attempt_key _ Hok _ _ Hb). congruence.
Qed.

Lemma wp_lockLeaseCandidate j o w (Q : leaseCandidate → World DB → Prop) :
  (∀ r a v, t_jobs (st w) !! j = Some r → latest_attempt (st w) (j_id r) = Some a →
     t_versions (st w) !! j_dataset_version_id r = Some v →
     Q (mkCandidate (j_id r) (j_state r) (j_next_attempt_at r) (j_dataset_version_id r)
          (j_operations r) (a_id a) (a_attempt_number a) (a_state a) (v_object_key v) (v_content_type v)
          (v_format v) (v_size_bytes v)) w) →
  wp o (lockLeaseCandidate j) Q w.
Proof. intros HQ. unfold lockLeaseCandidate. wp_go. by apply HQ. Qed.

Lemma assignLease_refines item l r att o w :
  db_ok (st w) → t_jobs (st w) !! j_id r = Some r → latest_attempt (st w) (j_id r) = Some att →
  j_state r = Queued → lk_JobID item = j_id r → lk_AttemptID item = a_id att →
  wp o (assignLease item l) (λ _ w', rtc step (abs (st w)) (abs (st w'))) w.
Proof.
  intros Hok Hj Ha Hs Hji Hai. unfold assignLease, lease_quota. rw Hji Hai. wp_go.
  rename select (negb _ = true) into Hfree. reflect_bool. simpl. rw lookup_alter_eq Hj /=.
  pose proof (latest_at_job _ Hok _ _ _ Hj Ha) as Hat.
  apply latest_attempt_Some in Ha as (_&(k&Hk)&_). pose proof (attempt_key _ Hok _ _ Hk) as <-.
  destruct (quota_row_queued _ Hok _ _ Hj Hs) as (q&Hq&Hq1).
  wp_go. eapply step_to; [by eapply step_lease, lease_id_taken_false|].
  unfold abs, advance. simpl. f_equal.
  - by eapply abs_jobs_alter.
  - by eapply abs_attempts_alter.
  - eapply abs_quota_alter; [done|]. unfold abs_quota. simpl. f_equal; lia.
  - apply (abs_history_app _ _ (abs_job r)). simpl. by rw Hs.
Qed.

Lemma Acquire_refines c command : refines (Acquire c command).
Proof.
  intros o w Hok. unfold Acquire. do 5 wp_step.
  apply wp_lockLeaseCandidate. intros r att v Hj Ha _. pose proof (job_key _ Hok _ _ Hj) as Hid.
  rw -Hid in Hj. wp_go. rename select (bool_decide (_ ∧ _) = true) into Hst.
  apply bool_decide_eq_true in Hst as [Hs _].
  apply wp_SelectForLease. intros sel f n1 _. wp_go.
  unfold enqueueAcquireCommand, newAcquireCommand.
  eapply wp_mono; [|by apply (assignLease_refines _ _ r att o (mkWorld (on_workers f (st w)) _))].
  intros [] w' Hw'. wp_go. exact Hw'.
Qed.

Lemma Renew_refines c command : refines (Renew c command).
Proof.
  intros o w Hok. unfold Renew. wp_go. apply reflexive_eq. unfold abs. simpl. f_equal.
  rw -map_fmap_compose. apply map_fmap_ext. intros k x _. simpl. by match goal with |- context [if ?b then _ else _] => destruct b end.
Qed.
(** A scanned row that still describes its job and attempt. *)
Definition cand_ok (d : DB) (item : expiredCandidate) : Prop :=
  ∃ r a, t_jobs d !! ex_JobID item = Some r ∧ t_attempts d !! ex_AttemptID item = Some a
    ∧ a_job_id a = ex_JobID item ∧ active_attempt a = true ∧ held_job (j_state r) = true
    ∧ item = mkExpired (j_id r) (a_id a) (ex_LeaseID item) (ex_WorkerID item) (j_owner_user_id r)
               (j_state r) (a_state a) (a_attempt_number a) (j_max_attempts r).

(** A transaction step that stays within one job. *)
Definition only_job (j : uuid) (d d' : DB) : Prop :=
  (∀ k, k ≠ j → t_jobs d' !! k = t_jobs d !! k)
  ∧ ∀ k a, t_attempts d !! k = Some a → a_job_id a ≠ j → t_attempts d' !! k = Some a.

Lemma cand_ok_frame d d' j item : only_job j d d' → ex_JobID item ≠ j → cand_ok d item → cand_ok d' item.
Proof.
  intros [Hj Ha] Hne (r&a&Hr&Hat&Haj&Hact&Hh&E). exists r, a. rw (Hj _ Hne) (Ha _ _ Hat); [congruence|].
  split_and!; done.
Qed.

Lemma alter_other_attempt {d : DB} {f k a k' a'} :
  t_attempts d !! k = Some a → t_attempts d !! k' = Some a' → a_job_id a' ≠ a_job_id a →
  alter f k (t_attempts d) !! k' = Some a'.
Proof. intros Hk Hk' Hne. rw lookup_alter_ne //. intros ->. congruence. Qed.

Definition sweep_post (d : DB) (item : expiredCandidate) (d' : DB) : Prop :=
  rtc step (abs d) (abs d') ∧ only_job (ex_JobID item) d d'.

(** One expired lease, its job and attempt rows being as scanned. *)
Section expire.
Context (d : DB) (r : JobRow) (a : AttemptRow) (item : expiredCandidate).
Context (Hok : db_ok d) (Hr : t_jobs d !! j_id r = Some r) (Ha : t_attempts d !! a_id a = Some a)
        (Haj : a_job_id a = j_id r) (Hh : held_job (j_state r) = true)
        (Hat : at_job (abs d) (abs_job r) (abs_attempt a)).
Context (Hji : ex_JobID item = j_id r) (Hai : ex_AttemptID item = a_id a)
        (Hoi : ex_OwnerUserID item = j_owner_user_id r) (Hsi : ex_JobState item = j_state r)
        (Hni : ex_AttemptNumber item = a_attempt_number a) (Hmi : ex_MaxAttempts item = j_max_attempts r).

Definition timed_out (now : time) : DB := on_attempts (alter (timed_out_row now) (a_id a)) d.

Lemma expire_only_attempt f d' :
  t_attempts d' = alter f (a_id a) (t_attempts d) → (∀ k, k ≠ j_id r → t_jobs d' !! k = t_jobs d !! k) →
  only_job (j_id r) d d'.
Proof using Ha Haj.
  intros Hatt Hj. split; [done|]. intros k b Hb Hne. rw Hatt.
  eapply alter_other_attempt; [exact Ha|done|]. congruence.
Qed.

Lemma expire_cancelled_refines now o n :
  j_state r = CancelRequested →
  wp o (expire_cancelled item now) (λ _ w', sweep_post d item (st w')) (mkWorld (timed_out now) n).
Proof using All.
  intros Hs. destruct (quota_row_held _ Hok _ _ Hr Hh) as (q&Hq&Hq1).
  unfold expire_cancelled. rw Hji Hai Hoi. wp_go. unfold sweep_post. rw Hji. split.
  - eapply step_to; [eapply (step_end _ _ _ Cancelled AttemptCancelled Hat); by rw /= Hs|].
    unfold abs, advance. simpl. rw alter_alter. f_equal.
    + by eapply abs_jobs_alter.
    + by eapply abs_attempts_alter.
    + eapply abs_quota_alter; [done|]. unfold abs_quota. simpl. f_equal; lia.
    + apply (abs_history_app _ _ (abs_job r)). simpl. by rw Hs.
  - eapply expire_only_attempt; simpl; [apply alter_alter|]. intros k ?. by rw lookup_alter_ne.
Qed.

Lemma expire_retry_refines c now o n :
  j_state r = Leased ∨ j_state r = Running → can_retry item = true →
  wp o (expire_retry c item now) (λ _ w', sweep_post d item (st w')) (mkWorld (timed_out now) n).
Proof using All.
  intros Hs Hcan. destruct (quota_row_held _ Hok _ _ Hr Hh) as (q&Hq&Hq1).
  unfold can_retry in Hcan. reflect_bool. unfold expire_retry, enqueueRetry. rw Hji Hoi Hni Hmi Hsi. wp_go.
  rename select (t_attempts _ !! _ = None) into Hfresh. simpl in Hfresh. apply lookup_alter_None in Hfresh.
  unfold sweep_post. rw Hji. split.
  - eapply step_to.
    + eapply (step_requeue _ _ _ AttemptTimedOut u Hat); [by right|by rw /= lookup_fmap Hfresh|simpl; lia].
    + unfold abs, advance. simpl. f_equal.
      * by eapply abs_jobs_alter.
      * rw fmap_insert. unfold put_attempt at 1. simpl. f_equal. by eapply abs_attempts_alter.
      * eapply abs_quota_alter; [done|]. unfold abs_quota. simpl. f_equal; lia.
      * by apply (abs_history_app _ _ (abs_job r)).
  - split; simpl; [intros k ?; by rw lookup_alter_ne|]. intros k b Hb Hne.
    rw lookup_insert_ne; [congruence|]. eapply alter_other_attempt; [exact Ha|done|]. congruence.
Qed.

Lemma expire_dead_letter_refines now o n :
  j_state r = Leased ∨ j_state r = Running →
  wp o (expire_dead_letter item now) (λ _ w', sweep_post d item (st w')) (mkWorld (timed_out now) n).
Proof using All.
  intros Hs. destruct (quota_row_held _ Hok _ _ Hr Hh) as (q&Hq&Hq1).
  assert (∀ f, sweep_post d item (on_history (λ l, l ++
            [mkHistoryRow (j_id r) (Some (j_state r)) DeadLettered "lease_expired_dead_lettered" None])
           (on_dead_letters f (on_quotas (alter (λ q, set_q_active_count (Z.max (q_active_count q - 1) 0)
              (set_q_updated_at now q)) (j_owner_user_id r))
            (on_jobs (alter (dead_lettered_job now) (j_id r)) (timed_out now)))))) as Hpost.
  { intros f. unfold sweep_post. rw Hji. split.
    - eapply step_to; [eapply (step_end _ _ _ DeadLettered AttemptTimedOut Hat); by destruct Hs as [Hs|Hs]; rw /= Hs|].
      unfold abs, advance. simpl. f_equal.
      + by eapply abs_jobs_alter.
      + by eapply abs_attempts_alter.
      + eapply abs_quota_alter; [done|]. unfold abs_quota. simpl. f_equal; lia.
      + by apply (abs_history_app _ _ (abs_job r)).
    - eapply expire_only_attempt; simpl; [done|]. intros k ?. by rw lookup_alter_ne. }
  unfold expire_dead_letter, insert_dead_letter. rw Hji Hai Hoi Hsi. wp_go. wp_if as Hdup; wp_go; [|apply Hpost].
  exact (Hpost (λ t, t)).
Qed.
End expire.

Lemma expireOne_refines c item now rep o w :
  db_ok (st w) → cand_ok (st w) item →
  wp o (expireOne c item now rep) (λ _ w', sweep_post (st w) item (st w')) w.
Proof.
  intros Hok (r&a&Hr&Ha&Haj&Hact&Hh&E). pose proof (job_key _ Hok _ _ Hr) as Hid.
  pose proof (attempt_key _ Hok _ _ Ha) as Hida.
  assert (open_attempt (a_state a) = true) as Hopen.
  { unfold active_attempt in Hact. unfold open_attempt. reflect_bool. apply bool_decide_eq_true. tauto. }
  pose proof (open_at_job _ Hok _ _ _ _ Hr Ha Haj Hopen) as Hat.
  rw -Hid in Hr, Haj. rw -Hida in Ha. 
  pose proof (f_equal ex_OwnerUserID E) as Ho. pose proof (f_equal ex_JobState E) as Hs.
  pose proof (f_equal ex_AttemptNumber E) as Hn. pose proof (f_equal ex_MaxAttempts E) as Hm.
  cbn [ex_OwnerUserID ex_JobState ex_AttemptNumber ex_MaxAttempts] in Ho, Hs, Hn, Hm. clear E.
  unfold expireOne, update_attempt. rw -Hida Hs. wp_steps.
  assert (j_state r ≠ CancelRequested → j_state r = Leased ∨ j_state r = Running) as Hcase.
  { unfold held_job in Hh. reflect_bool. tauto. }
  wp_if as Hc; [|wp_if as Hcan]; apply wp_bind.
  - eapply wp_mono; [|by apply (expire_cancelled_refines _ r a)]. by intros [] w' ?.
  - eapply wp_mono; [|apply (expire_retry_refines _ r a); auto]. by intros [] w' ?.
  - eapply wp_mono; [|apply (expire_dead_letter_refines _ r a); auto]. by intros [] w' ?.
Qed.

Lemma sweep_loop_refines c now items rep o w :
  db_ok (st w) → Forall (cand_ok (st w)) items → NoDup (ex_JobID <$> items) →
  wp o (sweep_loop c now items rep) (λ _ w', rtc step (abs (st w)) (abs (st w'))) w.
Proof.
  revert w rep. induction items as [|item items IH]; intros w rep Hok Hc Hnd; simpl; wp_steps; [done|].
  apply list.Forall_cons in Hc as [Hitem Hc]. apply list.NoDup_cons in Hnd as [Hnin Hnd].
  eapply wp_mono; [|by apply expireOne_refines]. intros rep' w' [Hsteps Honly].
  eapply wp_mono; [|apply IH; [by eapply steps_ok| |done]]; [intros ? ? ?; by etrans|].
  rw list.Forall_forall in Hc. apply list.Forall_forall. intros x Hx.
  eapply cand_ok_frame; [done| |by apply Hc]. intros E. apply Hnin. rw -E. by apply list_elem_of_fmap_2.
Qed.

(** The rows the sweep scans: each is valid, and no job is scanned twice. *)
Lemma sweepable_rows d locked now a :
  db_ok d → sweepable d locked now a = true → (∃ k, t_attempts d !! k = Some a) →
  ∃ r, t_jobs d !! a_job_id a = Some r ∧ active_attempt a = true ∧ held_job (j_state r) = true
    ∧ t_attempts d !! a_id a = Some a.
Proof.
  intros Hok Hs (k&Hk). unfold sweepable, attempt_expired in Hs. reflect_bool.
  pose proof (attempt_key _ Hok _ _ Hk) as <-.
  destruct (t_jobs d !! a_job_id a) as [r|]; [|done]. exists r. split_and!; done.
Qed.

(** Two held attempts of one job are the same row. *)
Lemma held_unique d a b r :
  db_ok d → t_jobs d !! a_job_id a = Some r → a_job_id b = a_job_id a →
  t_attempts d !! a_id a = Some a → t_attempts d !! a_id b = Some b →
  active_attempt a = true → active_attempt b = true → a = b.
Proof.
  intros Hok Hr Hj Ha Hb Hacta Hactb. assert (a_id a = a_id b) as E; [|rw E in Ha; congruence].
  assert (∀ c, active_attempt c = true → open_attempt (a_state c) = true) as Hopen.
  { intros c. unfold active_attempt, open_attempt. rw !bool_decide_eq_true. tauto. }
  destruct (open_at_job _ Hok _ _ _ _ Hr Ha eq_refl (Hopen _ Hacta)) as [_ Hca].
  destruct (open_at_job _ Hok _ _ _ _ Hr Hb Hj (Hopen _ Hactb)) as [_ Hcb].
  exact (f_equal av_id (current_functional _ _ _ _ Hca Hcb)).
Qed.

Lemma expired_candidates_ok d locked now limit :
  db_ok d →
  Forall (cand_ok d) (expired_candidates d locked now limit)
  ∧ NoDup (ex_JobID <$> expired_candidates d locked now limit).
Proof.
  intros Hok. unfold expired_candidates. set (l := select_limit _ _ _ _).
  assert (NoDup l) as Hnd.
  { apply (NoDup_fmap_1 a_id), select_limit_NoDup, rows_NoDup. apply (attempt_key _ Hok). }
  assert (∀ a, a ∈ l → ∃ r, t_jobs d !! a_job_id a = Some r ∧ active_attempt a = true
    ∧ held_job (j_state r) = true ∧ t_attempts d !! a_id a = Some a) as Hl.
  { intros a [Hs Ha%elem_of_rows]%elem_of_select_limit. by eapply sweepable_rows. }
  clearbody l. induction l as [|a l IH]; [split; [constructor|apply NoDup_nil_2]|].
  apply list.NoDup_cons in Hnd as [Hnin Hnd].
  destruct IH as [IH1 IH2]; [done|intros b Hb; apply Hl; by right|].
  destruct (Hl a) as (r&Hr&Hact&Hh&Ha); [by left|]. pose proof (job_key _ Hok _ _ Hr) as Hid.
  assert (expired_candidate d a = Some (mkExpired (j_id r) (a_id a) (default uuid_nil (a_lease_id a))
    (default uuid_nil (a_worker_id a)) (j_owner_user_id r) (j_state r) (a_state a) (a_attempt_number a)
    (j_max_attempts r))) as E by (unfold expired_candidate; by rw Hr).
  cbn [omap list_omap]. rw E. cbn [fmap list_fmap]. split.
  - constructor; [|done]. exists r, a. simpl. rw Hid. done.
  - apply list.NoDup_cons. split; [|done]. intros (item&Hitem&Hin)%list_elem_of_fmap.
    apply list_elem_of_omap in Hin as (b&Hb&Hbi). destruct (Hl b) as (rb&Hrb&Hactb&_&Hbk); [by right|].
    unfold expired_candidate in Hbi. rw Hrb in Hbi. injection Hbi as <-. simpl in Hitem.
    rw (job_key _ Hok _ _ Hrb) Hid in Hitem. apply Hnin.
    by rw (held_unique d a b r).
Qed.

Lemma SweepExpired_refines c limit : refines (SweepExpired c limit).
Proof.
  intros o w Hok. unfold SweepExpired. wp_go.
  apply (sweep_loop_refines _ _ _ _ o (mkWorld (st w) _)); [done|by apply expired_candidates_ok..].
Qed.
End lease.

(** ** The result repository *)

Section result.
Context `{!Enqueuer}.

Definition context_of (r : JobRow) (a : AttemptRow) : attemptContext :=
  mkContext (j_owner_user_id r) (j_state r) (j_id r) (j_max_attempts r) (a_id a)
    (a_attempt_number a) (a_state a) (a_lease_id a) (a_worker_id a).

Lemma wp_with_attempt j k f o w (Q : Outcome → World DB → Prop) :
  db_ok (st w) →
  (∀ r a, t_jobs (st w) !! j_id r = Some r → t_attempts (st w) !! a_id a = Some a →
     a_job_id a = j_id r → j = j_id r → k = a_id a → wp o (f (context_of r a)) Q w) →
  (∀ reason, Q (mkOutcome OutcomeIgnored reason) w) → wp o (with_attempt j k f) Q w.
Proof.
  intros Hok Hf Hi. unfold with_attempt, lockAttempt, ignored. wp_go.
  destruct (t_jobs (st w) !! j) as [r|] eqn:Hj; simpl; [|wp_go; apply Hi].
  destruct (t_attempts (st w) !! k) as [a|] eqn:Hk; simpl; [|wp_go; apply Hi].
  case_bool_decide as Hb; [|wp_go; apply Hi]. destruct Hb as [Haj _].
  pose proof (job_key _ Hok _ _ Hj) as Hid. pose proof (attempt_key _ Hok _ _ Hk) as Hida.
  apply Hf; congruence.
Qed.

(** The state of a held job under one of the handlers. *)
Lemma held_at_job d r a :
  db_ok d → t_jobs d !! j_id r = Some r → t_attempts d !! a_id a = Some a → a_job_id a = j_id r →
  active_attempt_state (a_state a) = true →
  at_job (abs d) (abs_job r) (abs_attempt a) ∧ agree (j_state r) (a_state a) = true
  ∧ ∃ q, t_quotas d !! j_owner_user_id r = Some q ∧ 1 <= q_active_count q.
Proof.
  intros Hok Hr Ha Haj Hact.
  assert (open_attempt (a_state a) = true) as Hopen.
  { unfold active_attempt_state in Hact. unfold open_attempt. reflect_bool. apply bool_decide_eq_true. tauto. }
  pose proof (open_at_job _ Hok _ _ _ _ Hr Ha Haj Hopen) as Hat.
  pose proof (job_attempt_agree _ Hok _ _ _ Hr Hat) as Hag. split_and!; [done..|].
  apply (quota_row_held _ Hok _ _ Hr). unfold active_attempt_state in Hact.
  simpl in Hag. by destruct (j_state r), (a_state a).
Qed.

Lemma applyStarted_refines e : refines (applyStarted e).
Proof.
  intros o w Hok. unfold applyStarted. apply wp_with_attempt; [done| |done].
  intros r a Hr Ha Haj -> ->. cbn [cx_JobState cx_AttemptState cx_AttemptNumber context_of].
  wp_if as Hm; [wp_go; done|]. wp_if as Hst; [wp_go; done|]. reflect_bool.
  destruct (held_at_job _ _ _ Hok Hr Ha Haj) as (Hat&Hag&q&Hq&_); [done|]. wp_go.
  rename select (j_state r = Leased ∨ _) into Hs. destruct Hs as [Hs|Hs]; rw Hs in Hag.
  - assert (a_state a = AttemptLeased) as -> by by destruct (a_state a).
    rw Hs !bool_decide_eq_true_2 //. wp_go.
    eapply step_to; [by eapply step_start|]. unfold abs, advance. simpl. f_equal.
    + by eapply abs_jobs_alter.
    + by eapply abs_attempts_alter.
    + by eapply abs_quota_same.
    + apply (abs_history_app _ _ (abs_job r)). simpl. by rw Hs.
  - assert (a_state a = AttemptRunning) as -> by by destruct (a_state a).
    rw Hs !bool_decide_eq_false_2 //. wp_go. done.
Qed.

Lemma applyProgressed_refines e : refines (applyProgressed e).
Proof.
  intros o w Hok. unfold applyProgressed. apply wp_with_attempt; [done| |done].
  intros r a Hr Ha Haj _ _. wp_if as Hm; [wp_go; done|]. wp_if as Hst; wp_go; [done|].
  wp_if as Hp; wp_go; done.
Qed.

Lemma applyArtifact_refines e : refines (applyArtifact e).
Proof.
  intros o w Hok. unfold applyArtifact, upsert_artifact. apply wp_with_attempt; [done| |done].
  intros r a Hr Ha Haj _ _. wp_if as Hm; [wp_go; done|]. wp_if as Hst; wp_go; [done|].
  wp_if as Hc; wp_go; [done|]. wp_if as Hat; wp_go; done.
Qed.

(** A handler that ends the job with the attempt in [t']. *)
Lemma end_refines d r a f g h q' s' t' :
  db_ok d → t_jobs d !! j_id r = Some r → t_attempts d !! a_id a = Some a → a_job_id a = j_id r →
  active_attempt_state (a_state a) = true → ends (j_state r) s' t' = true →
  abs_job (f r) = move_job (abs_job r) s' → abs_attempt (g a) = move_attempt (abs_attempt a) t' →
  abs_history h = mkHView (j_id r) (Some (j_state r)) s' →
  (∀ q, abs_quota (q' q) = (q_queued_count q, Z.max (q_active_count q - 1) 0)) →
  rtc step (abs d) (mkLState (abs_job <$> alter f (j_id r) (t_jobs d))
    (abs_attempt <$> alter g (a_id a) (t_attempts d))
    (abs_quota <$> alter q' (j_owner_user_id r) (t_quotas d)) (abs_history <$> t_history d ++ [h])).
Proof.
  intros Hok Hr Ha Haj Hact He Hf Hg Hh Hq'.
  destruct (held_at_job _ _ _ Hok Hr Ha Haj Hact) as (Hat&Hag&q&Hq&Hq1).
  eapply step_to; [by apply (step_end _ _ _ s' t' Hat)|]. unfold advance. simpl. f_equal.
  - by eapply abs_jobs_alter.
  - by eapply abs_attempts_alter.
  - eapply abs_quota_alter; [done|]. rw Hq'. f_equal; lia.
  - by apply (abs_history_app _ _ (abs_job r)).
Qed.

Lemma applySucceeded_refines e : refines (applySucceeded e).
Proof.
  intros o w Hok. unfold applySucceeded. apply wp_with_attempt; [done| |done].
  intros r a Hr Ha Haj -> ->. wp_if as Hm; [wp_go; done|]. wp_if as Hst; wp_go; [done|].
  reflect_bool. cbn [cx_JobState cx_AttemptState context_of] in Hst. destruct Hst as [Hs Hsa].
  wp_if as Hart; wp_go; (apply (end_refines (st w) r a _ _ _ _ Succeeded AttemptSucceeded); try done;
    by rw ?Hs ?Hsa).
Qed.

Lemma applyCancelled_refines e : refines (applyCancelled e).
Proof.
  intros o w Hok. unfold applyCancelled. apply wp_with_attempt; [done| |done].
  intros r a Hr Ha Haj -> ->. wp_if as Hm; [wp_go; done|]. wp_if as Hst; wp_go; [done|].
  reflect_bool. rename select (cx_JobState _ = _) into Hs. simpl in Hs.
  apply (end_refines (st w) r a _ _ _ _ Cancelled AttemptCancelled); try done; simpl; by rw ?Hs.
Qed.
(** The failure branches, from the state in which the attempt is marked
    failed and its result projected. *)
Section failure.
Context (d : DB) (e : FailedEvent) (r : JobRow) (a : AttemptRow) (now : time)
        (p : gmap (uuid * uuid) ProjectionRow → gmap (uuid * uuid) ProjectionRow).
Context (Hok : db_ok d) (Hr : t_jobs d !! j_id r = Some r) (Ha : t_attempts d !! a_id a = Some a)
        (Haj : a_job_id a = j_id r) (Hs : j_state r = Running) (Hsa : a_state a = AttemptRunning)
        (Hje : fe_JobID e = j_id r) (Hae : fe_AttemptID e = a_id a).

Definition failed_db : DB :=
  on_projections p (on_attempts (alter (failed_row (fe_Error e) now) (a_id a)) d).

Lemma fail_retry_refines o n :
  a_attempt_number a < j_max_attempts r →
  wp o (fail_retry e (context_of r a) now) (λ _ w', rtc step (abs d) (abs (st w'))) (mkWorld failed_db n).
Proof using All.
  intros Hlt. destruct (held_at_job _ _ _ Hok Hr Ha Haj) as (Hat&Hag&q&Hq&Hq1); [by rw Hsa|].
  unfold fail_retry, enqueueResultRetry. rw Hje.
  cbn [cx_AttemptNumber cx_MaxAttempts cx_OwnerUserID cx_JobID context_of]. wp_go.
  rename select (t_attempts _ !! _ = None) into Hfresh. simpl in Hfresh. apply lookup_alter_None in Hfresh.
  eapply step_to.
  - eapply (step_requeue _ _ _ AttemptFailed u Hat); [by left|by rw /= lookup_fmap Hfresh|done].
  - unfold abs, advance. simpl. f_equal.
    + by eapply abs_jobs_alter.
    + rw fmap_insert. unfold put_attempt at 1. simpl. f_equal. by eapply abs_attempts_alter.
    + eapply abs_quota_alter; [done|]. unfold abs_quota. simpl. f_equal; lia.
    + apply (abs_history_app _ _ (abs_job r)). simpl. by rw Hs.
Qed.

Lemma fail_final_refines o n :
  wp o (fail_final e (context_of r a) now) (λ _ w', rtc step (abs d) (abs (st w'))) (mkWorld failed_db n).
Proof using All.
  unfold fail_final, insert_dead_letter. rw Hje. cbn [cx_OwnerUserID context_of].
  destruct (fi_Retryable (fe_Error e)); wp_go; [wp_if as Hdup; wp_go|].
  - apply (end_refines d r a _ _ _ _ DeadLettered AttemptFailed); try done; by rw ?Hs ?Hsa.
  - apply (end_refines d r a _ _ _ _ DeadLettered AttemptFailed); try done; by rw ?Hs ?Hsa.
  - apply (end_refines d r a _ _ _ _ FailedPermanent AttemptFailed); try done; by rw ?Hs ?Hsa.
Qed.
End failure.

Lemma applyFailed_refines e : refines (applyFailed e).
Proof.
  intros o w Hok. unfold applyFailed. apply wp_with_attempt; [done| |done].
  intros r a Hr Ha Haj Hje Hae. wp_if as Hm; [wp_go; done|]. wp_if as Hst; wp_go; [done|].
  reflect_bool. cbn [cx_JobState cx_AttemptState context_of] in Hst. destruct Hst as [Hs Hsa].
  rw Hae. wp_if as Hretry; reflect_bool.
  - apply (fail_retry_refines (st w)); try done. rename select ((_ <? _) = true) into Hlt. simpl in Hlt. lia.
  - by apply (fail_final_refines (st w)).
Qed.

Lemma applyEvent_refines event : refines (applyEvent event).
Proof.
  destruct event; simpl; eauto using applyStarted_refines, applyProgressed_refines, applySucceeded_refines,
    applyFailed_refines, applyCancelled_refines, applyArtifact_refines.
Qed.

Lemma Process_refines dec env : refines (Process dec env).
Proof.
  intros o w Hok. unfold Process, process_tx, insertInbox, mark_inbox. wp_go.
  wp_if as Hin; wp_go; [done|].
  eapply wp_mono; [|by apply (applyEvent_refines _ o (mkWorld (on_inbox _ (st w)) _))].
  intros oc w' Hw'. wp_go. exact Hw'.
Qed.

(** ** The dead-letter repository *)

Lemma Replay_refines command : refines (Replay command).
Proof.
  intros o w Hok. unfold Replay. do 15 (apply wp_skip; intros ? ?). apply wp_bind, replay_enqueue_fails.
Qed.
End result.

#[export] Hint Resolve create_tx_refines RequestCancel_refines RequestRetry_refines Acquire_refines Renew_refines
  SweepExpired_refines Process_refines Replay_refines : refines.
