(* ===== verification/System.v ===== *)
(** The control plane as a whole: any interleaving of committed transactions of
    the job, lease, result, dead-letter, outbox and worker-registry packages,
    and what holds of every database it reaches. *)

From S2P Require Import Prelude GoStrings Retry Json Queue JobModel Schema Sql Outbox JobStore WorkerRegistry Authz Lease Result Dlq Lifecycle Refinement.

Open Scope Z_scope.

(** One transaction of the running system. *)
Inductive Command :=
  | CmdCreate (validated : res string) (c : CreateCommand)
  | CmdCancel (c : CancelCommand)
  | CmdRetry (c : RetryCommand)
  | CmdAcquire (cfg : LeaseConfig) (c : AcquireCommand)
  | CmdRenew (cfg : LeaseConfig) (c : RenewCommand)
  | CmdSweep (cfg : LeaseConfig) (limit : Z)
  | CmdProcess (dec : Decoders) (env : Envelope)
  | CmdReplay (c : ReplayCommand)
  | CmdWorker (e : WorkerEvent)
  | CmdClaim (now : time) (lease : duration) (limit : Z)
  | CmdPublished (id token : uuid) (at_ : time)
  | CmdPublishFailed (id token : uuid) (next : time) (err : string) (maxAttempts : Z).

Section system.
Context `{!Enqueuer, !WorkerSelector}.

Definition exec (cmd : Command) (o : Oracle) (d : DB) : DB :=
  match cmd with
  | CmdCreate validated c => (Create validated c o d).2
  | CmdCancel c => (transact (RequestCancel c) o d).2
  | CmdRetry c => (transact (RequestRetry c) o d).2
  | CmdAcquire cfg c => (transact (Acquire cfg c) o d).2
  | CmdRenew cfg c => (transact (Renew cfg c) o d).2
  | CmdSweep cfg limit => (transact (SweepExpired cfg limit) o d).2
  | CmdProcess dec env => (transact (Process dec env) o d).2
  | CmdReplay c => (transact (Replay c) o d).2
  | CmdWorker e => (transact (apply_worker_event e) o d).2
  | CmdClaim now lease limit => (transact (Claim now lease limit) o d).2
  | CmdPublished id token t => (transact (MarkPublished id token t) o d).2
  | CmdPublishFailed id token next err mx => (transact (MarkRetry id token next err mx) o d).2
  end.

(** The tables that remember requests already served: the inbox of results and
    the idempotency keys of submissions. *)
Definition logs (d : DB) := (t_inbox d, t_idempotency d).

(** A system transition: a transaction of the packages, or anything else the
    program does to the tables outside the lifecycle and the logs (datasets,
    uploads, rules, accounts). *)
Inductive transition (d : DB) : DB → Prop :=
  | tr_command cmd o : transition d (exec cmd o d)
  | tr_other d' : abs d' = abs d → logs d' = logs d → transition d d'.

(** The databases the system reaches from one without jobs and requests. *)
Definition reachable (d : DB) : Prop :=
  ∃ d0, abs d0 = mkLState ∅ ∅ ∅ [] ∧ logs d0 = (∅, ∅) ∧ rtc transition d0 d.

Lemma refines_transact {A} (m : Tx DB A) o d :
  refines m → db_ok d → rtc step (abs d) (abs (transact m o d).2).
Proof.
  intros Hm Hok. apply (transact_wp o m d (λ _ d', rtc step (abs d) (abs d'))); [done|].
  by apply (Hm o (mkWorld d 0)).
Qed.

Lemma Create_refines validated c o d : db_ok d → rtc step (abs d) (abs (Create validated c o d).2).
Proof.
  intros Hok. unfold Create. destruct validated as [fp|]; [|done].
  pose proof (create_tx_refines c fp o (mkWorld d 0) Hok) as Hw. unfold wp in Hw.
  destruct (create_tx c fp o (mkWorld d 0)) as [[[] w']|]; simpl in *; try done. by case_match.
Qed.

(** Transactions that leave the lifecycle tables alone. *)
Lemma worker_event_refines e : refines (apply_worker_event e).
Proof. intros o w Hok. destruct e; simpl; unfold ApplyRegistration, ApplyHeartbeat; wp_go; done. Qed.

Lemma claim_loop_abs now lease ms o w : wp o (claim_loop now lease ms) (λ _ w', abs (st w') = abs (st w)) w.
Proof.
  revert w. induction ms as [|m ms IH]; intros w; simpl; wp_go; [done|].
  eapply wp_mono; [|apply IH]. intros l w' Hw'. wp_go. by rw Hw'.
Qed.

Lemma Claim_refines now lease limit : refines (Claim now lease limit).
Proof.
  intros o w Hok. unfold Claim. wp_go. eapply wp_mono; [|apply claim_loop_abs]. by intros l w' ->.
Qed.

Lemma MarkPublished_refines id tok t : refines (MarkPublished id tok t).
Proof. intros o w Hok. unfold MarkPublished. wp_go. done. Qed.

Lemma MarkRetry_refines id tok next err mx : refines (MarkRetry id tok next err mx).
Proof. intros o w Hok. unfold MarkRetry. wp_go. done. Qed.

#[local] Hint Resolve worker_event_refines Claim_refines MarkPublished_refines MarkRetry_refines : refines.

Lemma exec_steps cmd o d : db_ok d → rtc step (abs d) (abs (exec cmd o d)).
Proof.
  intros Hok. destruct cmd; simpl; [by apply Create_refines|apply refines_transact; auto with refines..].
Qed.

Lemma transition_steps d d' : db_ok d → transition d d' → rtc step (abs d) (abs d').
Proof. intros Hok [cmd o|d1 E _]; [by apply exec_steps|by rw E]. Qed.

Lemma transitions_steps d d' : db_ok d → rtc transition d d' → rtc step (abs d) (abs d').
Proof.
  intros Hok Hs. induction Hs as [|d d1 d2 Ht _ IH]; [done|].
  pose proof (transition_steps _ _ Hok Ht). etrans; [done|]. apply IH. by eapply steps_ok.
Qed.

Lemma reachable_rtc d d' : reachable d → rtc transition d d' → reachable d'.
Proof. intros (d0&?&?&?) Hr. exists d0. split_and!; [done..|]. by etrans. Qed.

Lemma reachable_ok d : reachable d → db_ok d.
Proof.
  intros (d0&E&_&Hs). assert (db_ok d0) as Hd0 by (unfold db_ok; rw E; apply empty_ok).
  eapply steps_ok; [exact Hd0|by apply transitions_steps].
Qed.
(** ** Properties of the whole system *)

(** C5. Refinement: in a coherent database every transaction of the packages,
    whatever its inputs and the environment, is a sequence of steps of the
    abstract lifecycle, and leaves a coherent database. *)
Theorem exec_refines cmd o d :
  db_ok d → rtc step (abs d) (abs (exec cmd o d)) ∧ db_ok (exec cmd o d).
Proof.
  intros Hok. pose proof (exec_steps cmd o d Hok) as Hs. split; [done|by eapply steps_ok].
Qed.

(** C1. The state history is a faithful event log: in every database the
    system reaches, replaying [job_state_history], checking each row against
    the state its job was in and against [ValidateTransition], succeeds and
    yields exactly the state of every job. *)
Theorem history_reconstructs_jobs d :
  reachable d → replay_history (abs_history <$> t_history d) = Some (j_state <$> t_jobs d).
Proof.
  intros Hok%reachable_ok. pose proof (lo_history _ Hok) as Hh. unfold history_faithful in Hh.
  simpl in Hh. by rw Hh -map_fmap_compose.
Qed.

Definition jobs_of (d : DB) (owner : uuid) (P : JobState → bool) : list JobRow :=
  filter (λ r, j_owner_user_id r = owner ∧ P (j_state r) = true) (rows (t_jobs d)).

Lemma job_count_rows (P : JView → bool) (Q : JobRow → Prop) `{!∀ r, Decision (Q r)} (m : gmap uuid JobRow) :
  (∀ r, P (abs_job r) = true ↔ Q r) → job_count P (abs_job <$> m) = Z.of_nat (length (filter Q (rows m))).
Proof.
  intros HPQ. induction m as [|k x m Hk IH] using map_ind.
  { rw fmap_empty. unfold job_count, rows. by rw map_to_list_empty. }
  assert (rows (<[k := x]> m) ≡ₚ x :: rows m) as Hp by (unfold rows; by rw map_to_list_insert).
  rw fmap_insert job_count_fresh; [by rw lookup_fmap Hk|]. rw IH Hp filter_cons.
  unfold b2z. specialize (HPQ x). case_decide; destruct (P (abs_job x)); simpl; naive_solver lia.
Qed.

(** C2. The quota counters are exact: in every database the system reaches,
    the counters of an owner (zero when it has no row) are the numbers of its
    jobs that are queued, and that a worker holds; [GREATEST(.., 0)] never
    hides an underflow. *)
Theorem quota_counters_exact d owner :
  reachable d →
  default (0, 0) (abs_quota <$> t_quotas d !! owner)
  = (Z.of_nat (length (jobs_of d owner (λ s, bool_decide (s = Queued)))),
     Z.of_nat (length (jobs_of d owner held_job))).
Proof.
  intros Hok%reachable_ok. pose proof (lo_quotas _ Hok owner) as Hq. simpl in Hq.
  rw lookup_fmap in Hq. rw Hq. unfold jobs_of, queued_of, held_of.
  f_equal; apply job_count_rows; intros r; simpl; by rw andb_true_iff bool_decide_eq_true.
Qed.

(** C3. At most one worker holds a job: in every database the system reaches
    a job's newest attempt is in the state that goes with the job's, every
    older attempt is closed, and an attempt under lease carries a lease
    identifier no other attempt has. *)
Theorem single_open_attempt d j r :
  reachable d → t_jobs d !! j = Some r →
  ∃ a, latest_attempt d j = Some a ∧ agree (j_state r) (a_state a) = true
    ∧ (∀ b, a_job_id b = j → t_attempts d !! a_id b = Some b → open_attempt (a_state b) = true → b = a)
    ∧ (held_attempt (a_state a) = true → ∃ l, a_lease_id a = Some l
         ∧ ∀ k b, t_attempts d !! k = Some b → a_lease_id b = Some l → b = a).
Proof.
  intros Hok%reachable_ok Hj. destruct (latest_exists _ Hok _ _ Hj) as [a Ha].
  pose proof (latest_at_job _ Hok _ _ _ Hj Ha) as Hat. exists a. split; [done|].
  split; [exact (job_attempt_agree _ Hok _ _ _ Hj Hat)|].
  apply latest_attempt_Some in Ha as (_&(k&Hk)&_). pose proof (attempt_key _ Hok _ _ Hk) as <-.
  destruct (lo_leases _ Hok) as [Hsome Huniq]. split.
  - intros b Hbj Hb Hopen. destruct (open_at_job _ Hok _ _ _ _ Hj Hb Hbj Hopen) as [_ Hcb].
    destruct Hat as [_ Hca]. pose proof (f_equal av_id (current_functional _ _ _ _ Hcb Hca)) as E.
    simpl in E. rw E in Hb. congruence.
  - intros Hh. assert (L_attempts (abs d) !! a_id a = Some (abs_attempt a)) as Hla by by rw /= lookup_fmap Hk.
    destruct (Hsome _ _ Hla Hh) as [l Hl]. exists l. split; [done|]. intros k b Hb Hbl.
    assert (L_attempts (abs d) !! k = Some (abs_attempt b)) as Hlb by by rw /= lookup_fmap Hb.
    pose proof (Huniq _ _ _ _ _ Hlb Hla Hbl Hl) as ->. congruence.
Qed.

(** C4. Jobs are never lost and only move along allowed transitions: between
    any two databases of a run a job keeps its owner and its request (dataset
    version, operations, fingerprint, priority and attempt budget), its
    state follows edges of [ValidateTransition], and a job that succeeded or
    was cancelled stays so. *)
Theorem jobs_follow_lifecycle d d' j r :
  reachable d → rtc transition d d' → t_jobs d !! j = Some r →
  ∃ r', t_jobs d' !! j = Some r' ∧ j_owner_user_id r' = j_owner_user_id r
    ∧ job_request r' = job_request r
    ∧ rtc (λ s t, ValidateTransition (job_state_string s) (job_state_string t) = Ok tt) (j_state r) (j_state r')
    ∧ (IsTerminal (job_state_string (j_state r)) = true → j_state r' = j_state r).
Proof.
  intros Hok%reachable_ok Hs Hj. pose proof (transitions_steps _ _ Hok Hs) as Hsteps.
  destruct (steps_follow _ _ j (abs_job r) Hsteps) as (v'&Hv'&_&Ho&Hm&Hr); [by rw /= lookup_fmap Hj|].
  simpl in Hv'. rw lookup_fmap in Hv'. destruct (t_jobs d' !! j) as [r'|]; [|done].
  injection Hv' as <-. exists r'. split_and!; try done.
  - clear -Hr. simpl in Hr. induction Hr; [done|]. eapply rtc_l; [|done]. by apply ValidateTransition_ok_edge.
  - intros Ht. by apply terminal_stays.
Qed.
End system.

(** ** A run

    User 7 submits a profile job; worker 30 leases it and starts; the attempt
    fails with a retryable error, is retried, started again and cancelled while
    it runs; the worker acknowledges. *)
#[local] Instance run_selector : WorkerSelector := registry_selector DefaultHeartbeatTTL.

Definition run (d : DB) (cmds : list (Command * Oracle)) : DB :=
  foldl (λ d c, exec c.1 c.2 d) d cmds.

Lemma run_transitions d cmds : rtc transition d (run d cmds).
Proof.
  revert d. induction cmds as [|c cmds IH]; intros d; simpl; [done|].
  eapply rtc_l; [|apply IH]. apply tr_command.
Qed.

Definition ex_operation : Operation := mkOperation "PROFILE_DATASET" None.

Definition ex_seed : DB :=
  on_workers (λ _, {[ 30%N := mkWorkerRow 30 "i" "h" ["PROFILE_DATASET"] "1" StatusReady 0 2 10 900 (Some 900) None 10 900 ]})
  (on_versions (λ _, {[ 20%N := mkVersionRow 20 21 "AVAILABLE" "k.csv" "text/csv" "CSV" (Some 10) ]})
  (on_datasets (λ _, {[ 21%N := mkDatasetRow 21 7 "ACTIVE" None ]}) empty_db)).

Definition ex_env (base : N) (now : time) : Oracle := {|
  o_uuid := λ n, (base + N.of_nat n)%N; o_time := λ _, now; o_sqlnow := now;
  o_locked := λ _, false; o_rand := λ _ _, 0 |}.

Definition ex_create : CreateCommand := mkCreateCommand 7 7 20 [ex_operation] "" 0 5 "trace" "" "".

Definition ex_lease_config : LeaseConfig :=
  mkLeaseConfig DefaultLeaseDuration DefaultRenewalWindow DefaultSweepBatchLimit DefaultPolicy.

(** Identifiers drawn along the run: the job, its attempts and leases. *)
Definition ex_job : uuid := 101.
Definition ex_attempt1 : uuid := 102.
Definition ex_lease1 : uuid := 201.
Definition ex_attempt2 : uuid := 401.
Definition ex_lease2 : uuid := 501.

Definition ex_no_decoders : Decoders :=
  mkDecoders (λ _, None) (λ _, None) (λ _, None) (λ _, None) (λ _, None) (λ _, None).

Definition ex_decode_started (e : StartedEvent) : Decoders :=
  mkDecoders (λ _, Some e) (λ _, None) (λ _, None) (λ _, None) (λ _, None) (λ _, None).
Definition ex_decode_failed (e : FailedEvent) : Decoders :=
  mkDecoders (λ _, None) (λ _, None) (λ _, None) (λ _, Some e) (λ _, None) (λ _, None).
Definition ex_decode_cancelled (e : CancelledEvent) : Decoders :=
  mkDecoders (λ _, None) (λ _, None) (λ _, None) (λ _, None) (λ _, Some e) (λ _, None).

Definition ex_fields (l : list string) : json := JObj (map (λ f, (f, JStr "x")) l).

Definition ex_event (id : uuid) (ty : string) : Envelope :=
  mkEnvelope id ty 1 1000 "t" "c" "k" (raw_of (ex_fields (default [] (required_fields ty)))).

Definition ex_started (n : Z) (a l : uuid) : Decoders := ex_decode_started (mkStarted ex_job a l 30 n).

Definition ex_commands : list (Command * Oracle) := [
  (CmdCreate (Ok "fp") ex_create, ex_env 100 1000);
  (CmdAcquire ex_lease_config (mkAcquire ex_job 0), ex_env 200 1000);
  (CmdProcess (ex_started 1 ex_attempt1 ex_lease1) (ex_event 301 MessageJobStarted), ex_env 300 1000);
  (CmdProcess (ex_decode_failed (mkFailed ex_job ex_attempt1 ex_lease1 30 (mkFailure "E" "m" true None)))
     (ex_event 302 MessageJobFailed), ex_env 400 1000);
  (CmdWorker (Beat (mkHeartbeat 30 "i" "h" ["PROFILE_DATASET"] "1" StatusReady 0 2 (900 + Hour))),
     ex_env 450 (900 + Hour));
  (CmdAcquire ex_lease_config (mkAcquire ex_job 0), ex_env 500 (1000 + Hour));
  (CmdProcess (ex_started 2 ex_attempt2 ex_lease2) (ex_event 303 MessageJobStarted), ex_env 600 (1000 + Hour));
  (CmdCancel (mkCancelCommand ex_job 7 "" "" "" false), ex_env 700 (1000 + Hour));
  (CmdProcess (ex_decode_cancelled (mkCancelled ex_job ex_attempt2 ex_lease2 30 "stop"))
     (ex_event 304 MessageJobCancelled), ex_env 800 (1000 + Hour)) ].

Definition ex_run (n : nat) : DB := run ex_seed (take n ex_commands).

Lemma ex_run_reachable n : reachable (ex_run n).
Proof. exists ex_seed. split; [reflexivity|split; [reflexivity|apply run_transitions]]. Defined.

Lemma ex_run_later n m : (n <= m)%nat → rtc transition (ex_run n) (ex_run m).
Proof.
  intros Hnm. unfold ex_run. rw -(take_drop n (take m ex_commands)) take_take.
  replace (n `min` m)%nat with n by lia. unfold run. rw foldl_app. apply run_transitions.
Qed.

Lemma exec_refines_witness :
  db_ok (ex_run 3) ∧ db_ok (exec (CmdCancel (mkCancelCommand ex_job 7 "" "" "" false)) (ex_env 700 1000) (ex_run 3))
  ∧ j_state <$> t_jobs (exec (CmdCancel (mkCancelCommand ex_job 7 "" "" "" false)) (ex_env 700 1000) (ex_run 3))
      !! ex_job = Some CancelRequested.
Proof.
  pose proof (reachable_ok _ (ex_run_reachable 3)) as Hok. split; [exact Hok|].
  split; [|vm_compute; reflexivity].
  destruct (exec_refines (CmdCancel (mkCancelCommand ex_job 7 "" "" "" false)) (ex_env 700 1000) _ Hok) as [_ H].
  exact H.
Defined.

Lemma history_reconstructs_jobs_witness :
  replay_history (abs_history <$> t_history (ex_run 9)) = Some (j_state <$> t_jobs (ex_run 9))
  ∧ length (t_history (ex_run 9)) = 8%nat.
Proof. split; [apply (history_reconstructs_jobs (ex_run 9) (ex_run_reachable 9))|vm_compute; reflexivity]. Defined.

Lemma quota_counters_exact_witness :
  default (0, 0) (abs_quota <$> t_quotas (ex_run 3) !! 7%N)
    = (Z.of_nat (length (jobs_of (ex_run 3) 7 (λ s, bool_decide (s = Queued)))),
       Z.of_nat (length (jobs_of (ex_run 3) 7 held_job)))
  ∧ length (jobs_of (ex_run 3) 7 held_job) = 1%nat.
Proof. split; [apply (quota_counters_exact (ex_run 3) 7 (ex_run_reachable 3))|vm_compute; reflexivity]. Defined.

Definition ex_row (d : DB) : JobRow :=
  default (mkJobRow 0 0 0 Created [] "" None 0 0 0 0 None None None None None None None None) (t_jobs d !! ex_job).

Lemma single_open_attempt_witness :
  ∃ a, latest_attempt (ex_run 7) ex_job = Some a ∧ a_id a = ex_attempt2
    ∧ (∀ b, a_job_id b = ex_job → t_attempts (ex_run 7) !! a_id b = Some b → open_attempt (a_state b) = true → b = a).
Proof.
  destruct (single_open_attempt (ex_run 7) ex_job (ex_row (ex_run 7)) (ex_run_reachable 7)) as (a&Ha&_&Hone&_);
    [vm_compute; reflexivity|].
  exists a. split; [exact Ha|]. split; [|exact Hone].
  assert (a_id <$> latest_attempt (ex_run 7) ex_job = Some ex_attempt2) as E by (vm_compute; reflexivity).
  rw Ha in E. injection E as E. exact E.
Defined.

Lemma jobs_follow_lifecycle_witness :
  ∃ r', t_jobs (ex_run 9) !! ex_job = Some r'
    ∧ rtc (λ s t, ValidateTransition (job_state_string s) (job_state_string t) = Ok tt) Queued (j_state r')
    ∧ j_state r' = Cancelled.
Proof.
  destruct (jobs_follow_lifecycle (ex_run 1) (ex_run 9) ex_job (ex_row (ex_run 1)) (ex_run_reachable 1))
    as (r'&Hr'&_&_&Hrtc&_); [|vm_compute; reflexivity|].
  - apply ex_run_later. lia.
  - exists r'. split; [exact Hr'|]. split; [exact Hrtc|].
    assert (j_state <$> t_jobs (ex_run 9) !! ex_job = Some Cancelled) as E by (vm_compute; reflexivity).
    rw Hr' in E. injection E as E. exact E.
Defined.
