(* ===== verification/Logs.v ===== *)
(** Requests already served: which transactions write the inbox, the idempotency
    keys and the requests of jobs, and that none ever loses an entry. *)

From S2P Require Import Prelude GoStrings Retry Json Queue JobModel Schema Sql Outbox JobStore WorkerRegistry Authz Lease Result Dlq Lifecycle Refinement System.

Open Scope Z_scope.

Create HintDb logs.

Ltac wp_auto := repeat (first [wp_if | progress wp_go]).

Definition requests (d : DB) : gmap uuid Request := job_request <$> t_jobs d.

Lemma requests_alter f j (m : gmap uuid JobRow) :
  (∀ r, job_request (f r) = job_request r) → job_request <$> alter f j m = job_request <$> m.
Proof.
  intros Hf. apply map_eq. intros k. rw !lookup_fmap. destruct (decide (j = k)) as [<-|].
  - rw lookup_alter_eq. destruct (m !! j); [|done]. simpl. by rw Hf.
  - by rw lookup_alter_ne.
Qed.

(** Rows of jobs are only updated in columns that are not part of the request. *)
Ltac same_logs := unfold logs, requests; simpl; rw ?requests_alter; done.

Section logs.
Context `{!Enqueuer, !WorkerSelector}.

Definition duplicate : Outcome := mkOutcome OutcomeDuplicate "message_id_already_processed".

(** Only [Process] writes the inbox, only [Create] the idempotency keys and the
    requests of jobs. *)
Definition keeps_logs {A} (m : Tx DB A) : Prop :=
  ∀ o w, wp o m (λ _ w', (logs (st w'), requests (st w')) = (logs (st w), requests (st w))) w.

Lemma keeps_logs_bind {A B} (m : Tx DB A) (f : A → Tx DB B) :
  keeps_logs m → (∀ a, keeps_logs (f a)) → keeps_logs (m ≫= f).
Proof.
  intros Hm Hf o w. apply wp_bind. eapply wp_mono; [|apply Hm]. intros a w' <-. apply Hf.
Qed.

Lemma RequestCancel_logs command : keeps_logs (RequestCancel command).
Proof.
  intros o w. unfold RequestCancel, cancel_queued, cancel_active, enqueueCancel, enqueueEnvelopeWithRoutingKey,
    currentCancellationTarget. wp_auto; same_logs.
Qed.

Lemma RequestRetry_logs command : keeps_logs (RequestRetry command).
Proof.
  intros o w. unfold RequestRetry, incrementQuota, enqueueRetryQueued, enqueueEnvelope,
    enqueueEnvelopeWithRoutingKey. wp_auto; same_logs.
Qed.

Lemma Acquire_logs c command : keeps_logs (Acquire c command).
Proof.
  intros o w. unfold Acquire, lockLeaseCandidate. wp_go. apply wp_SelectForLease. intros r f n1 _.
  unfold assignLease, lease_quota, enqueueAcquireCommand, newAcquireCommand. wp_auto; same_logs.
Qed.

Lemma Renew_logs c command : keeps_logs (Renew c command).
Proof. intros o w. unfold Renew. wp_auto; same_logs. Qed.

Lemma expireOne_logs c item now r : keeps_logs (expireOne c item now r).
Proof.
  intros o w. unfold expireOne, expire_cancelled, expire_retry, expire_dead_letter, enqueueRetry,
    insert_dead_letter. wp_auto; same_logs.
Qed.

Lemma sweep_loop_logs c now items r : keeps_logs (sweep_loop c now items r).
Proof.
  revert r. induction items as [|item items IH]; intros r; simpl; [by intros o w|].
  apply keeps_logs_bind; [apply expireOne_logs|apply IH].
Qed.

Lemma SweepExpired_logs c limit : keeps_logs (SweepExpired c limit).
Proof. intros o w. unfold SweepExpired. wp_go. apply (sweep_loop_logs _ _ _ _ o (mkWorld (st w) _)). Qed.

Lemma claim_loop_logs now lease ms : keeps_logs (claim_loop now lease ms).
Proof.
  induction ms as [|m ms IH]; intros o w; simpl; wp_go; [done|].
  eapply wp_mono; [|apply IH]. intros l w' Hw'. wp_go. exact Hw'.
Qed.

Lemma Claim_logs now lease limit : keeps_logs (Claim now lease limit).
Proof. intros o w. unfold Claim. wp_go. apply claim_loop_logs. Qed.

Lemma worker_event_logs e : keeps_logs (apply_worker_event e).
Proof. intros o w. destruct e; simpl; unfold ApplyRegistration, ApplyHeartbeat; wp_auto; same_logs. Qed.

Lemma Replay_logs command : keeps_logs (Replay command).
Proof. intros o w. unfold Replay. do 15 (apply wp_skip; intros ? ?). apply wp_bind, replay_enqueue_fails. Qed.

Lemma MarkPublished_logs id tok t : keeps_logs (MarkPublished id tok t).
Proof. intros o w. unfold MarkPublished. wp_auto; same_logs. Qed.

Lemma MarkRetry_logs id tok next err mx : keeps_logs (MarkRetry id tok next err mx).
Proof. intros o w. unfold MarkRetry. wp_auto; same_logs. Qed.

#[local] Hint Resolve RequestCancel_logs RequestRetry_logs Acquire_logs Renew_logs SweepExpired_logs Replay_logs
  worker_event_logs Claim_logs MarkPublished_logs MarkRetry_logs : logs.

Lemma with_attempt_logs j k f : (∀ item, keeps_logs (f item)) → keeps_logs (with_attempt j k f).
Proof. intros Hf o w. unfold with_attempt, lockAttempt. wp_go. wp_if; [apply Hf|wp_go; done]. Qed.

Lemma applyEvent_logs event : keeps_logs (applyEvent event).
Proof.
  destruct event; simpl; apply with_attempt_logs; intros item o w;
    unfold fail_retry, fail_final, enqueueResultRetry, upsert_artifact, insert_dead_letter; wp_auto; same_logs.
Qed.

Lemma process_tx_logs env event o w :
  wp o (process_tx env event) (λ oc w',
    (oc = duplicate ∧ is_Some (t_inbox (st w) !! MessageID env) ∧ st w' = st w)
    ∨ (t_inbox (st w) !! MessageID env = None
       ∧ ∃ row, logs (st w') = (<[MessageID env := row]> (t_inbox (st w)), t_idempotency (st w))
         ∧ requests (st w') = requests (st w))) w.
Proof.
  unfold process_tx, insertInbox, mark_inbox. wp_go.
  destruct (t_inbox (st w) !! MessageID env) as [x|] eqn:Hx; wp_go; [left; by eauto|].
  eapply wp_mono; [|apply applyEvent_logs]. intros oc w' Hw'. injection Hw' as Hin Hid Hrq. wp_go.
  right. split; [done|]. unfold logs. simpl. rw Hin Hid. eexists. split; [|done]. f_equal.
  apply map_eq. intros i. destruct (decide (MessageID env = i)) as [<-|Hne].
  - by rw lookup_alter_eq !lookup_insert_eq /=.
  - by rw lookup_alter_ne // !lookup_insert_ne.
Qed.

(** How a submission ends, on the idempotency keys. *)
Definition created_logs (command : CreateCommand) (fp : string) (d : DB) (item : JobRow) (d' : DB) : Prop :=
  let k := (c_OwnerUserID command, c_IdempotencyKey command) in
  t_inbox d' = t_inbox d ∧ t_jobs d' !! j_id item = Some item ∧ j_owner_user_id item = c_OwnerUserID command
  ∧ if bool_decide (c_IdempotencyKey command = "") then t_idempotency d' = t_idempotency d
    else t_idempotency d !! k = None
         ∧ ∃ id, t_idempotency d' = <[k := mkIdemRow id fp (j_id item)]> (t_idempotency d).

Definition create_logs (command : CreateCommand) (fp : string) (d : DB) (oc : CreateOutcome) (d' : DB) : Prop :=
  match oc with
  | CreatedJob item => created_logs command fp d item d'
  | ReplayedJob item =>
      d' = d ∧ ∃ row, t_idempotency d !! (c_OwnerUserID command, c_IdempotencyKey command) = Some row
        ∧ i_request_fingerprint row = fp ∧ t_jobs d !! i_job_id row = Some item
  | RolledBack _ => False
  end.

Lemma create_record_logs command fp j r o w :
  t_jobs (st w) !! j = Some r → j_id r = j → j_owner_user_id r = c_OwnerUserID command →
  (c_IdempotencyKey command ≠ "" →
     t_idempotency (st w) !! (c_OwnerUserID command, c_IdempotencyKey command) = None) →
  wp o (create_record command fp j) (λ oc w',
    ∃ item, oc = CreatedJob item ∧ created_logs command fp (st w) item (st w')) w.
Proof.
  intros Hj Hid Ho Hnone. unfold create_record, create_finish, create_enqueue, created_logs.
  wp_if as Hk; wp_go; [|rw Hnone //; wp_go]; simplify_eq/=; eexists; split_and!; try done; eauto.
Qed.

Lemma create_new_logs command fp o w :
  (c_IdempotencyKey command ≠ "" →
     t_idempotency (st w) !! (c_OwnerUserID command, c_IdempotencyKey command) = None) →
  wp o (create_new command fp) (λ oc w', create_logs command fp (st w) oc (st w')) w.
Proof.
  intros Hnone. unfold create_new, lockAvailableVersion, incrementQuota, insert_job. wp_go.
  eapply wp_mono; [|eapply create_record_logs; [apply lookup_insert_eq|done|done|exact Hnone]].
  by intros oc w' (item&->&Hc).
Qed.

Lemma create_tx_logs command fp o w :
  wp o (create_tx command fp) (λ oc w', create_logs command fp (st w) oc (st w')) w.
Proof.
  unfold create_tx, findIdempotentJob. wp_if as Hk; [by apply create_new_logs|]. wp_go.
  wp_if as Hrow; wp_go; [|by apply create_new_logs]. reflect_bool. split; [done|]. by eexists.
Qed.

(** Entries stay. *)
Definition logs_grow (d d' : DB) : Prop :=
  t_inbox d ⊆ t_inbox d' ∧ t_idempotency d ⊆ t_idempotency d'.

#[export] Instance logs_grow_preorder : PreOrder logs_grow.
Proof. split; unfold logs_grow; [done|]. intros x y z [? ?] [? ?]. split; by etrans. Qed.

Lemma logs_grow_eq d d' : logs d' = logs d → logs_grow d d'.
Proof. intros [= Hi Hd]. unfold logs_grow. by rw Hi Hd. Qed.

Lemma Process_grows dec env o w : wp o (Process dec env) (λ _ w', logs_grow (st w) (st w')) w.
Proof.
  unfold Process. wp_steps. eapply wp_mono; [|apply process_tx_logs].
  intros oc w' [(_&_&->)|(Hn&row&[= Hi Hd]&_)]; [done|]. unfold logs_grow. rw Hi Hd. split; [by apply insert_subseteq|done].
Qed.

Lemma keeps_grows {A} (m : Tx DB A) o d : keeps_logs m → logs_grow d (transact m o d).2.
Proof.
  intros Hm. apply (transact_wp o m d (λ _ d', logs_grow d d')); [done|].
  eapply wp_mono; [|apply Hm]. intros ? w' [= E]. apply logs_grow_eq. unfold logs. congruence.
Qed.

Lemma Create_grows validated c o d : logs_grow d (Create validated c o d).2.
Proof.
  unfold Create. destruct validated as [fp|]; [|done].
  pose proof (create_tx_logs c fp o (mkWorld d 0)) as Hw. unfold wp in Hw.
  destruct (create_tx c fp o (mkWorld d 0)) as [[[item|item|j] w']|]; simpl in *; try done.
  - destruct Hw as (Hi&_&_&Hd). unfold logs_grow. rw Hi. split; [done|]. case_bool_decide; [by rw Hd|].
    destruct Hd as (Hn&id&->). by apply insert_subseteq.
  - by destruct Hw as [-> _].
Qed.

Lemma exec_grows cmd o d : logs_grow d (exec cmd o d).
Proof.
  destruct cmd; simpl; try (apply keeps_grows; auto with logs; fail).
  - apply Create_grows.
  - apply (transact_wp o (Process dec env) d (λ _ d', logs_grow d d')); [done|]. apply Process_grows.
Qed.

Lemma transitions_grow d d' : rtc transition d d' → logs_grow d d'.
Proof.
  intros Hs. induction Hs as [|d d1 d2 Ht _ IH]; [done|].
  etrans; [|done]. destruct Ht as [cmd o|d1 _ E]; [apply exec_grows|by apply logs_grow_eq].
Qed.
(** A job survives any run, under its identifier and owner. *)
Lemma job_survives d d' j r :
  db_ok d → rtc transition d d' → t_jobs d !! j = Some r →
  ∃ r', t_jobs d' !! j = Some r' ∧ j_id r' = j_id r ∧ j_owner_user_id r' = j_owner_user_id r.
Proof.
  intros Hok Hs Hj. pose proof (transitions_steps _ _ Hok Hs) as Hsteps.
  destruct (steps_follow _ _ j (abs_job r) Hsteps) as (v'&Hv'&Hid&Ho&_); [by rw /= lookup_fmap Hj|].
  simpl in Hv'. rw lookup_fmap in Hv'. destruct (t_jobs d' !! j) as [r'|]; [|done].
  injection Hv' as <-. by exists r'.
Qed.

(** An entry of the idempotency table names a job of the user it belongs to. *)
Definition idem_owned (d : DB) (k : uuid * string) (row : IdemRow) : Prop :=
  ∃ r, t_jobs d !! i_job_id row = Some r ∧ j_owner_user_id r = k.1.

Lemma keeps_idempotency {A} (m : Tx DB A) o d : keeps_logs m → t_idempotency (transact m o d).2 = t_idempotency d.
Proof.
  intros Hm. apply (transact_wp o m d (λ _ d', t_idempotency d' = t_idempotency d)); [done|].
  eapply wp_mono; [|apply Hm]. by intros ? w' [= _ ->].
Qed.

Lemma Process_idempotency dec env o d : t_idempotency (transact (Process dec env) o d).2 = t_idempotency d.
Proof.
  apply (transact_wp o _ d (λ _ d', t_idempotency d' = t_idempotency d)); [done|]. unfold Process. wp_steps.
  eapply wp_mono; [|apply process_tx_logs]. by intros oc w' [(_&_&->)|(_&row&[= _ ->]&_)].
Qed.

Lemma Create_idempotency validated c o d k row :
  t_idempotency (Create validated c o d).2 !! k = Some row →
  t_idempotency d !! k = Some row ∨ idem_owned (Create validated c o d).2 k row.
Proof.
  unfold Create. destruct validated as [fp|]; [|by left].
  pose proof (create_tx_logs c fp o (mkWorld d 0)) as Hw. unfold wp in Hw.
  destruct (create_tx c fp o (mkWorld d 0)) as [[[item|item|j] w']|]; simpl in *;
    [|destruct Hw as [-> _]; by left|done|by left].
  destruct Hw as (_&Hitem&Ho&Hd). case_bool_decide; [rw Hd; by left|]. destruct Hd as (_&id&->).
  rw lookup_insert_Some. intros [[<- <-]|[_ ?]]; [right|by left]. by exists item.
Qed.

Lemma transition_idempotency d d' k row :
  transition d d' → t_idempotency d' !! k = Some row →
  t_idempotency d !! k = Some row ∨ idem_owned d' k row.
Proof.
  intros [cmd o|d1 _ [= _ ->]]; [|by left]. destruct cmd; simpl; try (rw keeps_idempotency; [auto with logs; fail|by left]).
  - apply Create_idempotency.
  - rw Process_idempotency. by left.
Qed.

Lemma idempotency_owned d k row : reachable d → t_idempotency d !! k = Some row → idem_owned d k row.
Proof.
  intros (d0&E&El&Hs). assert (db_ok d0) as Hd0 by (unfold db_ok; rw E; apply empty_ok).
  revert k row. apply (rtc_ind_r (R := transition) (λ d, ∀ k row, t_idempotency d !! k = Some row → idem_owned d k row) d0); [| |done].
  { intros k row. injection El as _ ->. by rw lookup_empty. }
  clear d Hs. intros d d' Hs Ht IH k row.
  intros [Hk|?]%(transition_idempotency _ _ _ _ Ht); [|done].
  destruct (IH _ _ Hk) as (r&Hr&Ho).
  assert (db_ok d) as Hok by (eapply steps_ok; [exact Hd0|by apply transitions_steps]).
  destruct (job_survives d d' _ _ Hok (rtc_once _ _ Ht) Hr) as (r'&Hr'&_&Ho'). exists r'. split; [done|congruence].
Qed.

(** C6. Exactly-once effect: once a message has been processed, processing it
    again after any further run of the system is reported as a duplicate and
    changes nothing. *)
Theorem Process_exactly_once dec env o d oc d' o' d'' :
  transact (Process dec env) o d = (Ok oc, d') → rtc transition d' d'' →
  transact (Process dec env) o' d'' = (Ok duplicate, d'').
Proof.
  intros H1 Hrun. assert (∃ event, DecodeEvent dec env = Ok event) as [event Hev].
  { apply (transact_inv _ _ _ _ _ _ H1). unfold Process. wp_step. wp_step. apply wp_True. eauto. }
  assert (is_Some (t_inbox d' !! MessageID env)) as [x Hx].
  { apply (transact_inv _ _ _ _ _ _ H1). unfold Process. wp_step. wp_step.
    eapply wp_mono; [|apply process_tx_logs]. simpl.
    intros b w' [(_&Hd&Hw')|(_&row&[= Hw' _]&_)] _ ->; rw Hw'; [done|]. rw lookup_insert_eq. eauto. }
  pose proof (lookup_weaken _ _ _ _ Hx (proj1 (transitions_grow _ _ Hrun))) as Hy.
  unfold transact, Process, process_tx, insertInbox, mbind, tx_bind. simpl. by rw Hev /= Hy /=.
Qed.
End logs.

#[export] Hint Resolve RequestCancel_logs RequestRetry_logs Acquire_logs Renew_logs SweepExpired_logs Replay_logs
  worker_event_logs Claim_logs MarkPublished_logs MarkRetry_logs : logs.

#[local] Instance logs_selector : WorkerSelector := registry_selector DefaultHeartbeatTTL.

Lemma Process_exactly_once_witness :
  transact (Process (ex_started 1 ex_attempt1 ex_lease1) (ex_event 301 MessageJobStarted)) (ex_env 900 5000) (ex_run 9)
  = (Ok duplicate, ex_run 9).
Proof.
  eapply (Process_exactly_once (ex_started 1 ex_attempt1 ex_lease1) (ex_event 301 MessageJobStarted)
    (ex_env 300 1000) (ex_run 2) (mkOutcome OutcomeApplied "started") (ex_run 3)).
  - vm_compute. reflexivity.
  - apply ex_run_later. lia.
Defined.
