(* ===== verification/ResultProps.v ===== *)
(** Properties of the result consumer: stale workers are fenced off. *)

From S2P Require Import Prelude GoStrings Retry Json Queue JobModel Schema Sql Outbox JobStore WorkerRegistry Authz Lease Result Dlq Lifecycle Refinement System Logs.
From Stdlib Require Import QArith.

Open Scope Z_scope.

(** ** Fencing *)

(** Job, attempt and lease an event names, and the worker when it names one. *)
Definition event_fence (event : ResultEvent) : uuid * uuid * uuid * uuid :=
  match event with
  | EvStarted e => (se_JobID e, se_AttemptID e, se_LeaseID e, se_WorkerID e)
  | EvProgressed e => (pe_JobID e, pe_AttemptID e, pe_LeaseID e, uuid_nil)
  | EvSucceeded e => (ue_JobID e, ue_AttemptID e, ue_LeaseID e, ue_WorkerID e)
  | EvFailed e => (fe_JobID e, fe_AttemptID e, fe_LeaseID e, fe_WorkerID e)
  | EvCancelled e => (ce_JobID e, ce_AttemptID e, ce_LeaseID e, ce_WorkerID e)
  | EvArtifact e => (ae_JobID e, ae_AttemptID e, ae_LeaseID e, uuid_nil)
  end.

(** The sender holds the job: the attempt belongs to the job, carries the
    event's lease (and worker), and is still open under it. *)
Definition sender_holds (d : DB) (fence : uuid * uuid * uuid * uuid) : Prop :=
  let '(j, k, lease, worker) := fence in
  ∃ r a, t_jobs d !! j = Some r ∧ t_attempts d !! k = Some a ∧ a_job_id a = j
    ∧ a_lease_id a = Some lease ∧ (worker = uuid_nil ∨ a_worker_id a = Some worker)
    ∧ active_attempt a = true.

(** An artifact may be announced after its attempt was closed, but never under
    a lease that is not its attempt's: the job is leased or running, or it has
    succeeded and the result of that very attempt names the object. *)
Definition artifact_admitted (d : DB) (e : ArtifactCreatedEvent) : Prop :=
  ∃ r a, t_jobs d !! ae_JobID e = Some r ∧ t_attempts d !! ae_AttemptID e = Some a
    ∧ a_job_id a = ae_JobID e ∧ a_lease_id a = Some (ae_LeaseID e)
    ∧ (j_state r = Leased ∨ j_state r = Running
       ∨ (j_state r = Succeeded ∧ artifact_canonical d e = true)).

(** What an announcement may change: rows of [job_artifacts] for its own job,
    attempt and object, made canonical only for an object the attempt's result
    names (or that was canonical already). *)
Definition artifact_recorded (d d' : DB) (e : ArtifactCreatedEvent) : Prop :=
  (∃ f g, d' = on_inbox f (on_artifacts g d))
  ∧ (∀ id, is_Some (t_artifacts d !! id) → is_Some (t_artifacts d' !! id))
  ∧ ∀ id y, t_artifacts d' !! id = Some y → t_artifacts d !! id = Some y
      ∨ (f_job_id y = ae_JobID e ∧ f_attempt_id y = ae_AttemptID e ∧ f_object_key y = ae_ObjectKey e
         ∧ (f_state y = "CANONICAL" → artifact_canonical d e = true
            ∨ ∃ x, t_artifacts d !! id = Some x ∧ f_state x = "CANONICAL")).

(** The condition under which the consumer applies an event, with what an
    artifact announcement may then do. *)
Definition admitted (d : DB) (event : ResultEvent) (d' : DB) : Prop :=
  match event with
  | EvArtifact e => artifact_admitted d e ∧ artifact_recorded d d' e
  | _ => sender_holds d (event_fence event)
  end.

Section fencing.
Context `{!Enqueuer, !WorkerSelector}.

Definition fenced (d : DB) (event : ResultEvent) (oc : Outcome) (d' : DB) : Prop :=
  (oc_Status oc = OutcomeApplied ∧ admitted d event d')
  ∨ (oc_Status oc = OutcomeIgnored ∧ d' = d).

(** Neither the condition nor the effect looks at the inbox. *)
Lemma admitted_inbox f g d event d' :
  admitted (on_inbox f d) event d' → admitted d event (on_inbox g d').
Proof.
  destruct event; try done. intros [Ha ([f' [g' ->]]&Hk&Hy)]. split; [done|]. split; [|done].
  by exists (λ t, g (f' (f t))), g'.
Qed.

(** The upsert of an artifact row. *)
Lemma upsert_artifact_recorded e owner state o w :
  (state = "CANONICAL" → artifact_canonical (st w) e = true) →
  wp o (upsert_artifact e owner state) (λ _ w', artifact_recorded (st w) (st w') e) w.
Proof.
  intros Hst. unfold upsert_artifact, same_artifact. wp_go. unfold artifact_recorded.
  wp_if as Hex; wp_go; (split_and!; [by exists (λ t, t); eexists| |]); simpl.
  - intros id. by rw lookup_fmap fmap_is_Some.
  - intros id y. rw lookup_fmap. intros (x&->&Hx)%fmap_Some. case_bool_decide as He; [|by left; rw Hx].
    right. rw Hx. destruct He as (?&?&?). simpl. split_and!; [done..|].
    case_bool_decide; [intros _; right; by exists x|auto].
  - intros id Hid. by apply lookup_insert_is_Some'; right.
  - intros id y [[<- <-]|[_ Hy]]%lookup_insert_Some; [|by left]. right. simpl. split_and!; auto.
Qed.

Lemma matchesLease_holds d r a j k lease worker :
  t_jobs d !! j_id r = Some r → t_attempts d !! a_id a = Some a → a_job_id a = j_id r →
  j = j_id r → k = a_id a → matchesLease (context_of r a) lease worker = true →
  active_attempt_state (a_state a) = true → sender_holds d (j, k, lease, worker).
Proof.
  intros Hr Ha Haj -> -> Hm Hact. unfold matchesLease in Hm. simpl in Hm.
  apply andb_true_iff in Hm as [Hl%bool_decide_eq_true Hw]. exists r, a. split_and!; try done.
  apply orb_true_iff in Hw as [Hw|Hw]; apply bool_decide_eq_true in Hw; auto.
Qed.

(** Past its guards a handler either applies the event or leaves the state. *)
Ltac finish_fenced :=
  unfold fail_retry, fail_final, enqueueResultRetry, upsert_artifact, insert_dead_letter;
  wp_auto; first [right; by split | left; by split].

Lemma applyEvent_fenced event o w :
  db_ok (st w) → wp o (applyEvent event) (λ oc w', fenced (st w) event oc (st w')) w.
Proof.
  intros Hok. destruct event as [e|e|e|e|e|e]; simpl; apply wp_with_attempt; try done; try (by right);
    intros r a Hr Ha Haj Hj Hk; cbn [cx_JobState cx_AttemptState cx_AttemptNumber context_of];
    (wp_if as Hm; [wp_go; by right|]); (wp_if as Hst; [wp_go; by right|]); reflect_bool.
  - assert (sender_holds (st w) (event_fence (EvStarted e))) by by eapply matchesLease_holds. finish_fenced.
  - destruct Hst as [_ Hst]. assert (sender_holds (st w) (event_fence (EvProgressed e))) by
      (eapply matchesLease_holds; try done; by rw Hst). finish_fenced.
  - destruct Hst as [_ Hst]. assert (sender_holds (st w) (event_fence (EvSucceeded e))) by
      (eapply matchesLease_holds; try done; by rw Hst). finish_fenced.
  - destruct Hst as [_ Hst]. assert (sender_holds (st w) (event_fence (EvFailed e))) by
      (eapply matchesLease_holds; try done; by rw Hst). finish_fenced.
  - assert (sender_holds (st w) (event_fence (EvCancelled e))) by by eapply matchesLease_holds. finish_fenced.
  - wp_go. wp_if as Hc; wp_go; [by right|]. apply andb_false_iff in Hc.
    eapply wp_mono; [|apply upsert_artifact_recorded; by destruct (artifact_canonical (st w) e)].
    intros ? w1 Hw1. wp_go. left. split; [done|]. split; [|done].
    apply andb_true_iff in Hm as [Hl%bool_decide_eq_true _]. exists r, a.
    split_and!; [by rw Hj|by rw Hk|by rw Hj|done|]. rw bool_decide_eq_false negb_false_iff in Hc.
    destruct Hst as [?|[?|?]]; auto. destruct Hc; [done|auto].
Qed.

(** C7. Stale workers are fenced out.  Every event the consumer accepts is
    either applied, or it is ignored or a duplicate and then nothing but the
    inbox changes.  When a start, progress, success, failure or cancellation is
    applied its sender held the job: the attempt is the one under the event's
    lease (and worker, when the event names one) and is still open.  When an
    artifact announcement is applied its lease is that of its attempt and the
    job is leased or running, or has succeeded with a result of that attempt
    which names the object; then only the inbox and the artifact row of that
    job, attempt and object change, and the row becomes canonical only when that
    result names the object. *)
Theorem Process_fenced dec env event o d oc d' :
  reachable d → DecodeEvent dec env = Ok event → transact (Process dec env) o d = (Ok oc, d') →
  (oc_Status oc = OutcomeApplied ∧ admitted d event d')
  ∨ (oc_Status oc ≠ OutcomeApplied ∧ ∃ f, d' = on_inbox f d).
Proof.
  intros Hok%reachable_ok Hev H1. apply (transact_inv _ _ _ _ _ _ H1). clear H1.
  unfold Process, process_tx, insertInbox, mark_inbox. wp_steps. assert (a = event) as -> by congruence.
  wp_if as Hin; wp_go.
  { intros -> ->. right. split; [done|]. exists (λ t, t). by destruct d. }
  eapply wp_mono; [|by apply (applyEvent_fenced event o (mkWorld (on_inbox _ d) _))].
  intros oc' w' Hf. wp_go. intros -> ->. destruct Hf as [[? Hf]|[Hs ->]].
  { left. split; [done|]. by eapply admitted_inbox. }
  right.
  split; [by rw Hs|]. simpl. eexists (λ t, _ (_ t)). reflexivity.
Qed.
End fencing.
#[local] Instance props_selector : WorkerSelector := registry_selector DefaultHeartbeatTTL.

(** The worker of the failed first attempt reports a success late. *)
Definition ex_late : Decoders :=
  mkDecoders (λ _, None) (λ _, None) (λ _, Some (mkSucceeded ex_job ex_attempt1 ex_lease1 30 ["out/a.csv"]))
    (λ _, None) (λ _, None) (λ _, None).

Lemma Process_fenced_witness :
  ∃ f, (transact (Process ex_late (ex_event 399 MessageJobSucceeded)) (ex_env 900 5000) (ex_run 7)).2
       = on_inbox f (ex_run 7).
Proof.
  destruct (Process_fenced ex_late (ex_event 399 MessageJobSucceeded)
    (EvSucceeded (mkSucceeded ex_job ex_attempt1 ex_lease1 30 ["out/a.csv"])) (ex_env 900 5000) (ex_run 7)
    (mkOutcome OutcomeIgnored "result_before_start_or_terminal_attempt")
    (transact (Process ex_late (ex_event 399 MessageJobSucceeded)) (ex_env 900 5000) (ex_run 7)).2)
    as [[H _]|[_ H]].
  - exact (ex_run_reachable 7).
  - vm_compute. reflexivity.
  - vm_compute. reflexivity.
  - discriminate H.
  - exact H.
Defined.
