(* ===== verification/JobProps.v ===== *)
(** Properties of the job repository: idempotent submission, cancellation,
    leases and the sweep. *)

From S2P Require Import Prelude GoStrings Retry Json Queue JobModel Schema Sql Outbox JobStore WorkerRegistry Authz Lease Result Dlq Lifecycle Refinement System Logs.

Open Scope Z_scope.

Section submission.
Context `{!Enqueuer, !WorkerSelector}.

(** A submission whose key is recorded. *)
Lemma Create_recorded fp command o d row r :
  c_IdempotencyKey command ≠ "" →
  t_idempotency d !! (c_OwnerUserID command, c_IdempotencyKey command) = Some row →
  t_jobs d !! i_job_id row = Some r →
  Create (Ok fp) command o d
  = (if bool_decide (i_request_fingerprint row = fp) then Ok (r, true) else Err ErrIdempotencyConflict, d).
Proof.
  intros Hk Hrow Hr. unfold Create, create_tx. rw bool_decide_eq_false_2 //.
  unfold findIdempotentJob, getJobTx, mbind, tx_bind, gets. simpl. rw Hrow /require.
  case_bool_decide; [|done]. unfold mret, tx_ret. simpl. by rw Hr.
Qed.

Lemma Create_created fp command o d item d' :
  Create (Ok fp) command o d = (Ok (item, false), d') → created_logs command fp d item d'.
Proof.
  unfold Create. pose proof (create_tx_logs command fp o (mkWorld d 0)) as Hw. unfold wp in Hw.
  destruct (create_tx command fp o (mkWorld d 0)) as [[[i|i|j] w']|]; simpl in *; intros; by simplify_eq.
Qed.

(** The answer to a submission whose key was recorded with fingerprint [fp] for
    the job [item], when the new request has fingerprint [fp']. *)
Definition recorded_answer (fp fp' : string) (item : JobRow) : res (JobRow * bool) :=
  if bool_decide (fp = fp') then Ok (item, true) else Err ErrIdempotencyConflict.

(** After a submission under a key created a job, later ones by the same owner get
    the recorded answer and change nothing. *)
Lemma Create_idempotent fp fp' command command' o o' d item d' d'' :
  reachable d → c_IdempotencyKey command ≠ "" →
  Create (Ok fp) command o d = (Ok (item, false), d') → rtc transition d' d'' →
  c_OwnerUserID command' = c_OwnerUserID command → c_IdempotencyKey command' = c_IdempotencyKey command →
  ∃ item', j_id item' = j_id item
    ∧ Create (Ok fp') command' o' d'' = (recorded_answer fp fp' item', d'').
Proof.
  intros Hok%reachable_ok Hk Hc Hrun Ho Hkey. pose proof (Create_refines (Ok fp) command o d Hok) as Hsteps.
  rw Hc in Hsteps. pose proof (steps_ok _ _ Hok Hsteps) as Hok'. simpl in Hok'.
  apply Create_created in Hc as (_&Hitem&_&Hlog). rw bool_decide_eq_false_2 // in Hlog.
  destruct Hlog as (_&id&Hlog). destruct (job_survives _ _ _ _ Hok' Hrun Hitem) as (item'&Hitem'&Hid&_).
  exists item'. split; [done|].
  apply (Create_recorded fp' command' o' d'' (mkIdemRow id fp (j_id item)) item'); rw ?Hkey ?Ho; try done.
  eapply lookup_weaken; [|apply (transitions_grow _ _ Hrun)]. by rw Hlog lookup_insert_eq.
Qed.
End submission.

(** ** Acquisition *)

Section acquisition.
Context `{!Enqueuer, !WorkerSelector}.

Lemma activeLeases_assign d k a l :
  t_attempts d !! k = Some a → active_attempt a = false →
  activeLeases (on_attempts (alter (assign_row l) k) d) (WorkerID l) = S (activeLeases d (WorkerID l)).
Proof.
  intros Hk Hact. unfold activeLeases. simpl.
  assert (alter (assign_row l) k (t_attempts d) = <[k := assign_row l a]> (t_attempts d)) as ->.
  { apply map_eq. intros i. destruct (decide (k = i)) as [<-|Hne].
    - by rw lookup_alter_eq lookup_insert_eq Hk.
    - by rw lookup_alter_ne // lookup_insert_ne. }
  destruct (rows_insert _ _ _ (assign_row l a) Hk) as (rest&H1&H2). rw H1 H2 !filter_cons.
  rw decide_True; [by split|]. rw decide_False; [by intros [_ ?]; congruence|]. done.
Qed.

(** What a granted lease looks like in the database. *)
Record granted (c : LeaseConfig) (command : AcquireCommand) (d : DB) (l : Lease) (d' : DB) : Prop := {
  gr_job : ∃ r, t_jobs d !! ac_JobID command = Some r ∧ j_state r = Queued
    ∧ (∀ t, j_next_attempt_at r = Some t → t <= LeasedAt l)
    ∧ t_jobs d' !! ac_JobID command = Some (leased_job (LeasedAt l) r);
  gr_attempt : ∃ a, latest_attempt d (ac_JobID command) = Some a ∧ a_id a = AttemptID l
    ∧ a_state a = AttemptCreated ∧ t_attempts d' !! AttemptID l = Some (assign_row l a);
  gr_duration : ∃ dur, LeaseExpiresAt l = LeasedAt l + dur ∧ 0 < dur <= MaxLeaseDuration;
  gr_capacity : workers_ok d → ∃ wk, t_workers d !! WorkerID l = Some wk
    ∧ Z.of_nat (activeLeases d' (WorkerID l)) <= w_max_concurrency wk;
  gr_command : ∃ row, t_outbox d !! o_id row = None ∧ t_outbox d' = <[o_id row := row]> (t_outbox d)
    ∧ o_state row = OutboxPending ∧ MessageType (o_envelope row) = MessageJobRequested
    ∧ WorkerRoutingKey MessageJobRequested (WorkerID l) = Ok (o_routing_key row)
    ∧ ∃ obj, payload_object (Payload (o_envelope row)) = Some obj
        ∧ assoc_last "jobId" obj = Some (json_uuid (ac_JobID command))
        ∧ assoc_last "attemptId" obj = Some (json_uuid (AttemptID l))
        ∧ assoc_last "leaseId" obj = Some (json_uuid (LeaseID l))
        ∧ assoc_last "workerId" obj = Some (json_uuid (WorkerID l))
}.

Lemma normalizeDuration_ok v f x : normalizeDuration v f = Ok x → 0 < x <= MaxLeaseDuration.
Proof.
  unfold normalizeDuration. set (y := if bool_decide (v = 0) then f else v). clearbody y.
  destruct (Z.leb_spec y 0), (Z.ltb_spec MaxLeaseDuration y); simpl; intros; simplify_eq; lia.
Qed.

Lemma wp_assignLease item l r o w (Q : unit → World DB → Prop) :
  t_jobs (st w) !! lk_JobID item = Some r →
  (∀ f g, Q tt (mkWorld (on_history f (on_quotas g (on_jobs (alter (leased_job (LeasedAt l)) (lk_JobID item))
            (on_attempts (alter (assign_row l) (lk_AttemptID item)) (st w))))) (tick w))) →
  wp o (assignLease item l) Q w.
Proof.
  intros Hr HQ. unfold assignLease, lease_quota. wp_go. simpl. rw lookup_alter_eq Hr. wp_go. apply HQ.
Qed.

Lemma wp_enqueueAcquireCommand item l now o w (Q : unit → World DB → Prop) :
  (∀ row n size, t_outbox (st w) !! o_id row = None → o_state row = OutboxPending →
     MessageType (o_envelope row) = MessageJobRequested →
     WorkerRoutingKey MessageJobRequested (WorkerID l) = Ok (o_routing_key row) →
     Payload (o_envelope row) = raw_of (requested_payload item l size) →
     Q tt (mkWorld (on_outbox (insert (o_id row) row) (st w)) n)) →
  wp o (enqueueAcquireCommand item l now) Q w.
Proof.
  intros HQ. unfold enqueueAcquireCommand, newAcquireCommand. wp_steps. apply wp_NewEnvelope.
  intros e n Hv Hty _ _ _ Hp. wp_steps. apply wp_Enqueue. simpl.
  intros row n' Hfresh Hrid Henv _ Hrk Hst _ _. rw -Hrid. eapply HQ; rw ?Hrid ?Henv ?Hrk //.
Qed.

Lemma Acquire_granted c command o d l d' :
  reachable d → transact (Acquire c command) o d = (Ok l, d') → granted c command d l d'.
Proof.
  intros Hok%reachable_ok H1. apply (transact_inv _ _ _ _ _ _ H1). clear H1.
  unfold Acquire. do 5 wp_step. apply wp_lockLeaseCandidate. intros r att v Hj Ha _.
  pose proof (job_key _ Hok _ _ Hj) as Hid. simpl in Hj, Ha. wp_go.
  rename select (normalizeDuration _ _ = _) into Hdur. rename select (bool_decide (_ ∧ _) = true) into Hst.
  apply bool_decide_eq_true in Hst as [Hs Hsa]. cbn [lk_JobState lk_AttemptState lk_NextAttemptAt] in *.
  rename select (match j_next_attempt_at r with Some x => x <=? t | None => true end = true) into Hdue.
  apply wp_SelectForLease. intros sel f n1 Hslot. wp_steps. reflect_bool.
  apply (wp_assignLease _ _ r); [by rw /= Hid|]. intros g h. wp_steps.
  apply wp_enqueueAcquireCommand. cbn [st tick lk_JobID lk_AttemptID lk_AttemptNumber LeasedAt AttemptID].
  intros row n2 size Hfresh Hpend Hty Hrk Hp. wp_steps. intros -> ->.
  rw Hid in Ha. pose proof Ha as (_&(k&Hk)&_)%latest_attempt_Some.
  pose proof (attempt_key _ Hok _ _ Hk) as <-. split; simpl.
  - exists r. rw Hid lookup_alter_eq Hj. split_and!; try done.
    intros t' Ht'. rw Ht' in Hdue. by apply Z.leb_le.
  - exists att. rw lookup_alter_eq Hk. done.
  - exists a. split; [done|by eapply normalizeDuration_ok].
  - intros Hwk. destruct (Hslot Hwk) as (wk&Hwk'&Hlt); [done|]. exists wk. split; [done|].
    set (l := mkLease _ _ _ _ _ _ _ _). 
    pose proof (activeLeases_assign d _ _ l Hk) as Hcount. simpl in Hcount.
    unfold active_attempt in Hcount. rw Hsa in Hcount. specialize (Hcount eq_refl).
    change (activeLeases _ sel.1) with (activeLeases (on_attempts (alter (assign_row l) (a_id att)) d) sel.1).
    rw Hcount. cbn [st] in Hlt. lia.
  - exists row. split_and!; try done. eexists. split; [by rw Hp|]. rw -Hid. done.
Qed.

(** C11. A lease is granted only for a queued, due job whose newest attempt is
    unassigned, to a worker with a free slot, which is not exceeded by the
    grant; job and attempt move together, the lease is bounded, and the same
    transaction leaves exactly one new outbox message: the execution command
    for this job, attempt, lease and worker, routed to that worker. *)
Theorem Acquire_grants c command o d l d' :
  reachable d → transact (Acquire c command) o d = (Ok l, d') → granted c command d l d'.
Proof. apply Acquire_granted. Qed.
End acquisition.

(** ** The sweep *)

Section sweep.
Context `{!Enqueuer, !WorkerSelector}.

(** The attempt [k] is closed, every other attempt kept. *)
Definition closes (k : uuid) (d d' : DB) : Prop :=
  (∀ k' a, k' ≠ k → t_attempts d !! k' = Some a → t_attempts d' !! k' = Some a)
  ∧ ∀ a, t_attempts d !! k = Some a → ∃ a', t_attempts d' !! k = Some a' ∧ open_attempt (a_state a') = false.

Lemma closes_alter k f d d' :
  t_attempts d' = alter f k (t_attempts d) → (∀ a, open_attempt (a_state (f a)) = false) → closes k d d'.
Proof.
  intros E Hf. split; rw E.
  - intros k' a Hne Ha. by rw lookup_alter_ne.
  - intros a Ha. rw lookup_alter_eq Ha. simpl. eauto.
Qed.

Lemma closes_alter_insert k f d d' new x :
  t_attempts d' = <[new := x]> (alter f k (t_attempts d)) → alter f k (t_attempts d) !! new = None →
  (∀ a, open_attempt (a_state (f a)) = false) → closes k d d'.
Proof.
  intros E Hnew Hf. apply lookup_alter_None in Hnew. split; rw E.
  - intros k' a Hne Ha. rw lookup_insert_ne; [congruence|]. by rw lookup_alter_ne.
  - intros a Ha. rw lookup_insert_ne; [congruence|]. rw lookup_alter_eq Ha. simpl. eauto.
Qed.

Definition handled (r : SweepReport) : Z := Retried r + DeadLettered_ r + Cancelled_ r.

Lemma expireOne_closes c item now r o w :
  wp o (expireOne c item now r) (λ r' w',
    closes (ex_AttemptID item) (st w) (st w') ∧ Claimed r' = Claimed r ∧ handled r' = handled r + 1) w.
Proof.
  unfold expireOne, expire_cancelled, expire_retry, expire_dead_letter, enqueueRetry, insert_dead_letter, handled.
  repeat (first [wp_if | progress wp_go]); (split; [|simpl; lia]).
  - eapply closes_alter; [apply alter_alter|done].
  - by eapply closes_alter_insert.
  - by eapply closes_alter.
  - by eapply closes_alter.
Qed.

Lemma sweep_loop_closes c now items r o w :
  NoDup (ex_AttemptID <$> items) → Forall (λ i, is_Some (t_attempts (st w) !! ex_AttemptID i)) items →
  wp o (sweep_loop c now items r) (λ r' w',
    Claimed r' = Claimed r ∧ handled r' = handled r + Z.of_nat (length items)
    ∧ (∀ k a, t_attempts (st w) !! k = Some a → k ∉ ex_AttemptID <$> items → t_attempts (st w') !! k = Some a)
    ∧ Forall (λ i, ∃ a', t_attempts (st w') !! ex_AttemptID i = Some a' ∧ open_attempt (a_state a') = false) items) w.
Proof.
  revert r w. induction items as [|item items IH]; intros r w Hnd Hall; simpl.
  { wp_steps. split_and!; [done|lia|done|constructor]. }
  apply list.NoDup_cons in Hnd as [Hnin Hnd]. apply list.Forall_cons in Hall as [[a Ha] Hall].
  wp_steps. eapply wp_mono; [|apply expireOne_closes]. intros r1 w1 ([Hkeep Hclose]&Hc&Hh).
  eapply wp_mono; [|apply IH; [done|]].
  - intros r2 w2 (Hc2&Hh2&Hkeep2&Hall2). split_and!; [congruence|lia| |].
    + intros k b Hb [Hne Hk]%not_elem_of_cons. apply Hkeep2; [by apply Hkeep|done].
    + constructor; [|done]. destruct (Hclose a Ha) as (a'&Ha'&?). exists a'. split; [by apply Hkeep2|done].
  - rw list.Forall_forall in Hall. apply list.Forall_forall. intros i Hi. destruct (Hall i Hi) as [b Hb].
    exists b. apply Hkeep; [|done]. intros E. apply Hnin. rw -E. by apply list_elem_of_fmap_2.
Qed.

(** The scanned rows, by attempt. *)
Lemma expired_candidates_attempts d locked now limit :
  db_ok d → ex_AttemptID <$> expired_candidates d locked now limit
  = a_id <$> select_limit (sweepable d locked now) expires_before limit (rows (t_attempts d)).
Proof.
  intros Hok. unfold expired_candidates. set (l := select_limit _ _ _ _).
  assert (∀ a, a ∈ l → is_Some (t_jobs d !! a_job_id a)) as Hl.
  { intros a [Hs Ha%elem_of_rows]%elem_of_select_limit.
    destruct (sweepable_rows _ _ _ _ Hok Hs Ha) as (r&Hr&_). eauto. }
  clearbody l. induction l as [|a l IH]; [done|]. destruct (Hl a) as [r Hr]; [by left|].
  cbn [omap list_omap]. assert (∃ i, expired_candidate d a = Some i ∧ ex_AttemptID i = a_id a) as (i&->&Hi).
  { unfold expired_candidate. rw Hr. simpl. eauto. }
  cbn [fmap list_fmap]. f_equal; [done|]. apply IH. intros b Hb. apply Hl. by right.
Qed.

(** C12. The sweep is complete and touches nothing else.  When it commits,
    every lease that had expired and was not locked by another transaction is
    closed, or the batch was full; every other attempt is as it was; and each
    claimed lease was retried, dead-lettered or cancelled, exactly one of
    them. *)
Theorem SweepExpired_complete c limit o d rep d' :
  reachable d → transact (SweepExpired c limit) o d = (Ok rep, d') →
  let now := o_time o 0 in
  handled rep = Claimed rep
  ∧ (∀ k a, t_attempts d !! k = Some a → sweepable d (o_locked o) now a = true →
      Claimed rep = (if bool_decide (limit = 0) then lc_SweepLimit c else limit)
      ∨ ∃ a', t_attempts d' !! k = Some a' ∧ open_attempt (a_state a') = false)
  ∧ (∀ k a, t_attempts d !! k = Some a → sweepable d (o_locked o) now a = false →
      t_attempts d' !! k = Some a).
Proof.
  intros Hok%reachable_ok H1 now. apply (transact_inv _ _ _ _ _ _ H1). clear H1.
  unfold SweepExpired. wp_step. wp_step. reflect_bool. wp_step. apply wp_time_now_exact. wp_steps. fold now.
  set (lim := if bool_decide (limit = 0) then _ else _) in *.
  set (items := expired_candidates _ _ _ _).
  pose proof (expired_candidates_attempts d (o_locked o) now lim Hok) as Hids. fold items in Hids.
  assert (∀ k a, t_attempts d !! k = Some a → a ∈ rows (t_attempts d)) as Hrows by (intros; apply elem_of_rows; eauto).
  assert (Z.of_nat (length items) = Z.of_nat (length (select_limit (sweepable d (o_locked o) now) expires_before lim
    (rows (t_attempts d))))) as Hlen.
  { f_equal. by rw -(length_fmap ex_AttemptID items) Hids length_fmap. }
  eapply wp_mono; [|apply sweep_loop_closes].
  - intros r w' (Hc&Hh&Hkeep&Hall) -> ->. simpl in Hc, Hh. split_and!; [unfold handled in *; simpl in *; lia| |].
    + intros k a Ha Hs.
      destruct (select_limit_complete _ expires_before lim _ _ Hs (Hrows _ _ Ha)) as [Hin|Hfull]; [right|left; lia].
      assert (k ∈ ex_AttemptID <$> items) as Hk.
      { rw Hids. rw -(attempt_key _ Hok _ _ Ha). by apply list_elem_of_fmap_2. }
      apply list_elem_of_fmap in Hk as (i&->&Hi). rw list.Forall_forall in Hall. by apply Hall.
    + intros k a Ha Hs. apply Hkeep; [done|]. rw Hids. intros (b&->&[Hb Hbr]%elem_of_select_limit)%list_elem_of_fmap.
      apply elem_of_rows in Hbr as [k' Hk']. rw (attempt_key _ Hok _ _ Hk') in Ha. congruence.
  - rw Hids. apply select_limit_NoDup, rows_NoDup. apply (attempt_key _ Hok).
  - apply list.Forall_forall. intros i Hi. cbn [st].
    assert (ex_AttemptID i ∈ ex_AttemptID <$> items) as Hin by by apply list_elem_of_fmap_2.
    rw Hids in Hin. apply list_elem_of_fmap in Hin as (b&->&[_ Hbr]%elem_of_select_limit).
    apply elem_of_rows in Hbr as [k' Hk']. rw (attempt_key _ Hok _ _ Hk'). eauto.
Qed.
End sweep.

#[local] Instance job_selector : WorkerSelector := registry_selector DefaultHeartbeatTTL.


Definition ex_granted : Lease :=
  mkLease ex_lease1 ex_job ex_attempt1 30 1 1000 (1000 + DefaultLeaseDuration) 1000.

Lemma Acquire_grants_witness :
  granted ex_lease_config (mkAcquire ex_job 0) (ex_run 1) ex_granted (ex_run 2)
  ∧ activeLeases (ex_run 2) 30 = 1%nat.
Proof.
  split; [|vm_compute; reflexivity].
  apply (Acquire_grants ex_lease_config (mkAcquire ex_job 0) (ex_env 200 1000) (ex_run 1) ex_granted (ex_run 2)).
  - exact (ex_run_reachable 1).
  - vm_compute. reflexivity.
Defined.

Definition ex_swept : res SweepReport * DB :=
  transact (SweepExpired ex_lease_config 0) (ex_env 1000 (1000 + Hour)) (ex_run 3).

Lemma SweepExpired_complete_witness :
  handled (mkSweepReport 1 1 0 0 0) = 1
  ∧ ex_swept.1 = Ok (mkSweepReport 1 1 0 0 0)
  ∧ j_state <$> t_jobs ex_swept.2 !! ex_job = Some Queued.
Proof.
  split; [|split; vm_compute; reflexivity].
  refine (proj1 (SweepExpired_complete ex_lease_config 0 (ex_env 1000 (1000 + Hour)) (ex_run 3)
    (mkSweepReport 1 1 0 0 0) ex_swept.2 (ex_run_reachable 3) _)).
  vm_compute. reflexivity.
Defined.
