(* ===== verification/SchedulerProps.v ===== *)
(** Properties of the scheduler over the database: what is selected, and what a
    dispatch run does to the jobs it selected. *)

From S2P Require Import Prelude GoStrings Retry Json Queue JobModel Schema Sql Outbox JobStore WorkerRegistry Authz Lease Scheduler Result Dlq Lifecycle Refinement System Logs JobProps.

Open Scope Z_scope.

Section scheduler.
Context `{!Enqueuer, !WorkerSelector}.

Lemma FairSelect_elem cs limit x : x ∈ FairSelect cs limit → x ∈ cs.
Proof.
  rw FairSelect_rounds. intros Hx. rw -(all_rounds_Permutation cs).
  by apply elem_of_take in Hx as (i&Hi%list_elem_of_lookup_2&_).
Qed.

Lemma omap_sublist_fmap {A B K} (f : A → option B) (g : B → K) (h : A → K) (l : list A) :
  (∀ x y, f x = Some y → g y = h x) → sublist (g <$> omap f l) (h <$> l).
Proof.
  intros Hf. induction l as [|x l IH]; [constructor|]. cbn [omap list_omap].
  destruct (f x) as [y|] eqn:E; simpl; [rw (Hf _ _ E)|]; by constructor.
Qed.

Definition selected_ids (q : list QueuedJob) : list uuid := (λ c, j_id (qj_Job c)) <$> q.

Lemma SelectQueued_spec limit o d cs d' :
  db_ok d → transact (SelectQueued limit) o d = (Ok cs, d') →
  d' = d ∧ 1 <= limit <= 1000 ∧ NoDup (selected_ids cs) ∧
  ∀ c, c ∈ cs → t_jobs d !! j_id (qj_Job c) = Some (qj_Job c) ∧ ready (o_sqlnow o) (qj_Job c) = true
    ∧ o_locked o (j_id (qj_Job c)) = false ∧ ∃ a, latest_attempt d (j_id (qj_Job c)) = Some a ∧ a_id a = qj_AttemptID c.
Proof.
  intros Hok H1. apply (transact_inv _ _ _ _ _ _ H1). clear H1. unfold SelectQueued. wp_go.
  intros -> ->. reflect_bool. split; [done|]. split; [lia|]. split.
  - unfold selected_ids. eapply sublist_NoDup; [|apply fmap_sublist, sublist_take].
    eapply sublist_NoDup; [|apply (omap_sublist_fmap _ _ j_id)].
    + rw sort_by_Permutation. eapply sublist_NoDup; [|apply fmap_sublist, sublist_filter].
      apply rows_NoDup. apply (job_key _ Hok).
    + intros x y. unfold with_latest_attempt. intros (?&?&?)%bind_Some. by simplify_eq.
  - intros c Hc. apply elem_of_take in Hc as (i&Hc%list_elem_of_lookup_2&_).
    apply list_elem_of_omap in Hc as (r&Hr&Ha). apply elem_of_sort_by, list_elem_of_filter in Hr as [[Hre Hl] Hr].
    apply elem_of_rows in Hr as [k Hk]. pose proof (job_key _ Hok _ _ Hk) as <-.
    unfold with_latest_attempt in Ha. apply bind_Some in Ha as (a&Hla&?). simplify_eq/=. eauto 8.
Qed.

Lemma Select_selects c o d q d' :
  reachable d → transact (Select c) o d = (Ok q, d') →
  d' = d ∧ Z.of_nat (length q) <= Z.max 0 (sc_BatchSize c) ∧ NoDup (selected_ids q) ∧
  ∀ x, x ∈ q → t_jobs d !! j_id (qj_Job x) = Some (qj_Job x) ∧ ready (o_sqlnow o) (qj_Job x) = true
    ∧ o_locked o (j_id (qj_Job x)) = false ∧ ∃ a, latest_attempt d (j_id (qj_Job x)) = Some a ∧ a_id a = qj_AttemptID x.
Proof.
  intros Hok%reachable_ok. unfold Select. cbv zeta. set (limit := if 1000 <? _ then _ else _). clearbody limit.
  intros H1. unfold transact, mbind, tx_bind in H1.
  destruct (SelectQueued limit o (mkWorld d 0)) as [[cs w]|e] eqn:E; [|done].
  destruct (SelectQueued_spec limit o d cs (st w) Hok) as (Hd&_&Hnd&Hc); [by rw /transact E|].
  simplify_eq/=. split; [done|]. split; [|split].
  - rw FairSelect_rounds length_take. lia.
  - unfold selected_ids. rw FairSelect_rounds. eapply sublist_NoDup; [|apply fmap_sublist, sublist_take].
    by rw all_rounds_Permutation.
  - intros x Hx%FairSelect_elem. by apply Hc.
Qed.

(** What is scheduled: a selection reads the database and changes nothing,
    has at most [BatchSize] jobs, all different, and every one is a stored job
    that is queued and due at the transaction's time, is not locked by another
    transaction, and comes with its newest attempt. *)
Lemma Select_sound c o d q d' :
  reachable d → transact (Select c) o d = (Ok q, d') →
  d' = d ∧ Z.of_nat (length q) <= Z.max 0 (sc_BatchSize c) ∧ NoDup (selected_ids q) ∧
  ∀ x, x ∈ q → t_jobs d !! j_id (qj_Job x) = Some (qj_Job x) ∧ ready (o_sqlnow o) (qj_Job x) = true
    ∧ o_locked o (j_id (qj_Job x)) = false ∧ ∃ a, latest_attempt d (j_id (qj_Job x)) = Some a ∧ a_id a = qj_AttemptID x.
Proof. apply Select_selects. Qed.

Lemma reachable_transition d d' : reachable d → transition d d' → reachable d'.
Proof. intros (d0&E&El&Hs) Ht. exists d0. split_and!; [done..|]. eapply rtc_r; eauto. Qed.

(** Jobs already accounted for, and the execution commands in the outbox. *)
Definition counted (rep : SchedulerReport) : Z := sr_Acquired rep + sr_Skipped rep + Z.of_nat (length (sr_Failures rep)).

(** A run that never sees its context cancelled completes. *)
Lemma dispatch_loop_spec cfg dur env cancelled i q rep d rep' d' completed :
  reachable d → dispatch_loop cfg dur env cancelled i q rep d = (rep', d', completed) →
  reachable d' ∧ rtc transition d d' ∧ sr_Selected rep' = sr_Selected rep
  ∧ Z.of_nat (size (t_outbox d')) - sr_Acquired rep' = Z.of_nat (size (t_outbox d)) - sr_Acquired rep
  ∧ counted rep <= counted rep' <= counted rep + Z.of_nat (length q)
  ∧ (completed = true → counted rep' = counted rep + Z.of_nat (length q))
  ∧ ((∀ n, cancelled n = false) → completed = true).
Proof.
  revert i rep d. induction q as [|item q IH]; intros i rep d Hd; simpl.
  { intros ?. simplify_eq. split_and!; [done|done|done|done|lia|lia|lia|done]. }
  destruct (cancelled i) eqn:Hc.
  { intros ?. simplify_eq. split_and!; [done|done|done|done|lia|lia|done|]. intros Hn. by rw Hn in Hc. }
  destruct (transact _ (env i) d) as [r d1] eqn:Ht. intros Hloop.
  assert (transition d d1) as Hstep.
  { pose proof (tr_command d (CmdAcquire cfg (mkAcquire (j_id (qj_Job item)) dur)) (env i)) as Hs.
    simpl in Hs. by rw Ht in Hs. }
  destruct (IH _ _ _ (reachable_transition _ _ Hd Hstep) Hloop) as (Hd'&Hrtc&Hsel&Hout&Hle&Hdone&Hnc).
  assert (sr_Selected (record_acquire r rep) = sr_Selected rep
    ∧ counted (record_acquire r rep) = counted rep + 1
    ∧ Z.of_nat (size (t_outbox d1)) - sr_Acquired (record_acquire r rep)
      = Z.of_nat (size (t_outbox d)) - sr_Acquired rep) as (Hs1&Hs2&Hs3).
  { destruct r as [l|e]; unfold counted; simpl.
    - destruct (Acquire_granted _ _ _ _ _ _ Hd Ht) as [_ _ _ _ (row&Hnew&->&_)].
      rw map_size_insert_None //. split_and!; lia.
    - apply transact_err in Ht as ->. destruct (skippable e); simpl; rw ?length_app /=; split_and!; lia. }
  split_and!; [done|by eapply rtc_l|congruence|lia|lia|lia| |done]. intros Hcomp. specialize (Hdone Hcomp). lia.
Qed.

(** A dispatch run accounts for every selected job: unless its context is
    cancelled it reaches the end, and each job was acquired, skipped or reported
    as a failure, so that one contended job stops nothing; the outbox has grown
    by one execution command for each acquired job, and the run is a sequence of
    transitions of the system. *)
Lemma Dispatch_accounts c cfg dur o env cancelled d rep completed d' :
  reachable d → SchedulerDispatch c cfg dur o env cancelled d = (Ok (rep, completed), d') →
  rtc transition d d'
  ∧ Z.of_nat (size (t_outbox d')) = Z.of_nat (size (t_outbox d)) + sr_Acquired rep
  ∧ counted rep <= sr_Selected rep <= Z.max 0 (sc_BatchSize c)
  ∧ (completed = true → counted rep = sr_Selected rep)
  ∧ ((∀ n, cancelled n = false) → completed = true).
Proof.
  intros Hd. unfold SchedulerDispatch. case_match; [done|].
  destruct (transact (Select c) o d) as [[q|e] d1] eqn:Hq; [|done].
  destruct (Select_selects c o d q d1 Hd Hq) as (->&Hlen&_).
  destruct (dispatch_loop _ _ _ _ _ _ _ _) as [[rep1 d2] completed1] eqn:Hl. intros ?. simplify_eq.
  destruct (dispatch_loop_spec _ _ _ _ _ _ _ _ _ _ _ Hd Hl) as (_&Hrtc&Hsel&Hout&Hle&Hdone&Hnc).
  unfold counted in *. simpl in *. split_and!; [done|lia|lia|lia| |done]. intros Hcomp. specialize (Hdone Hcomp). lia.
Qed.
End scheduler.

(** ** Witnesses *)

#[local] Instance dispatch_selector : WorkerSelector := registry_selector DefaultHeartbeatTTL.

Definition ex_scheduler : SchedulerConfig := NewScheduler (mkSchedulerConfig 0 0).

Definition ex_selection : list QueuedJob :=
  [mkQueuedJob (ex_row (ex_run 1)) ex_attempt1].

Lemma Select_sound_witness :
  transact (Select ex_scheduler) (ex_env 900 1000) (ex_run 1) = (Ok ex_selection, ex_run 1)
  ∧ Z.of_nat (length ex_selection) <= 20.
Proof.
  assert (transact (Select ex_scheduler) (ex_env 900 1000) (ex_run 1) = (Ok ex_selection, ex_run 1)) as E
    by (vm_compute; reflexivity).
  split; [exact E|].
  destruct (Select_sound ex_scheduler (ex_env 900 1000) (ex_run 1) ex_selection (ex_run 1) (ex_run_reachable 1) E)
    as (_&Hlen&_). exact Hlen.
Defined.

Definition ex_dispatch : res (SchedulerReport * bool) * DB :=
  SchedulerDispatch ex_scheduler ex_lease_config DefaultLeaseDuration (ex_env 900 1000) (λ _, ex_env 200 1000)
    (λ _, false) (ex_run 1).

Lemma Dispatch_accounts_witness :
  Z.of_nat (size (t_outbox ex_dispatch.2)) = Z.of_nat (size (t_outbox (ex_run 1))) + 1
  ∧ ex_dispatch.1 = Ok (mkSchedulerReport 1 1 0 [], true).
Proof.
  assert (ex_dispatch.1 = Ok (mkSchedulerReport 1 1 0 [], true)) as E by (vm_compute; reflexivity).
  split; [|exact E].
  destruct (Dispatch_accounts ex_scheduler ex_lease_config DefaultLeaseDuration (ex_env 900 1000)
    (λ _, ex_env 200 1000) (λ _, false) (ex_run 1) (mkSchedulerReport 1 1 0 []) true ex_dispatch.2
    (ex_run_reachable 1)) as (_&Hsize&_).
  - rw -E. exact (surjective_pairing ex_dispatch).
  - exact Hsize.
Defined.
