(* ===== verification/Submission.v ===== *)
(** Submissions end to end: [Create] with the validation and the fingerprint of the
    job package, in the whole system. *)

From S2P Require Import Prelude GoStrings Retry Json Sha256 GoValue QualityRules Queue JobModel Schema Sql Outbox JobStore WorkerRegistry Authz Lease Result Dlq Lifecycle Refinement System Logs JobProps JobValidation Canonical.

From stdpp Require Import pretty.

Open Scope Z_scope.

(** ** The same request *)

Definition same_operation (op op' : Operation) : Prop :=
  op_type op = op_type op'
  ∧ option_Forall2 (λ l k, json_equiv (JObj l) (JObj k)) (op_config op) (op_config op').

(** Same version, priority and attempt budget, and operations with the same types
    and, as JSON values, the same configurations. *)
Definition same_request (c c' : CreateCommand) : Prop :=
  c_DatasetVersionID c = c_DatasetVersionID c' ∧ Forall2 same_operation (c_Operations c) (c_Operations c')
  ∧ c_Priority c = c_Priority c' ∧ c_MaxAttempts c = c_MaxAttempts c'.

Lemma equiv_obj2 (a b a' b' : json) :
  json_equiv (JObj [("type", a); ("config", b)]) (JObj [("type", a'); ("config", b')])
  ↔ json_equiv a a' ∧ json_equiv b b'.
Proof.
  split.
  - inversion 1 as [| | | | |? ? Hk]; subst.
    pose proof (Hk "type") as H1. pose proof (Hk "config") as H2. vm_compute in H1, H2.
    inversion H1. by inversion H2.
  - intros [Ha Hb]. constructor. intros key. simpl. repeat case_bool_decide; constructor; done.
Qed.

Lemma equiv_obj4 (a b c d a' b' c' d' : json) :
  json_equiv (JObj [("datasetVersionId", a); ("operations", b); ("priority", c); ("maxAttempts", d)])
             (JObj [("datasetVersionId", a'); ("operations", b'); ("priority", c'); ("maxAttempts", d')])
  ↔ json_equiv a a' ∧ json_equiv b b' ∧ json_equiv c c' ∧ json_equiv d d'.
Proof.
  split.
  - inversion 1 as [| | | | |? ? Hk]; subst.
    pose proof (Hk "datasetVersionId") as H1. pose proof (Hk "operations") as H2.
    pose proof (Hk "priority") as H3. pose proof (Hk "maxAttempts") as H4. vm_compute in H1, H2, H3, H4.
    inversion H1. inversion H2. inversion H3. by inversion H4.
  - intros (Ha&Hb&Hc&Hd). constructor. intros key. simpl. repeat case_bool_decide; constructor; done.
Qed.

Lemma json_operation_equiv op op' :
  json_equiv (json_operation op) (json_operation op') ↔ same_operation op op'.
Proof.
  unfold json_operation. rw equiv_obj2. unfold same_operation. f_equiv.
  - split; [by inversion 1|by intros ->].
  - destruct (op_config op), (op_config op'); (split; [inversion 1; subst; by constructor|by inversion 1]).
Qed.

Lemma request_value_equiv c c' :
  (c_DatasetVersionID c < 2 ^ 128)%N → (c_DatasetVersionID c' < 2 ^ 128)%N →
  json_equiv (request_value c) (request_value c') ↔ same_request c c'.
Proof.
  intros Hc Hc'. unfold request_value, request_json. rw equiv_obj4. unfold same_request, json_uuid, json_int.
  assert (∀ s s', json_equiv (JStr s) (JStr s') ↔ s = s') as Hstr by (split; [by inversion 1|by intros ->]).
  assert (∀ s s', json_equiv (JNum s) (JNum s') ↔ s = s') as Hnum by (split; [by inversion 1|by intros ->]).
  rw Hstr !Hnum. f_equiv; [split; [by apply uuid_string_inj|by intros ->]|]. f_equiv.
  - split.
    + inversion 1 as [| | | |? ? Hl|]; subst. apply (Forall2_fmap json_operation json_operation) in Hl.
      eapply Forall2_impl; [exact Hl|]. apply json_operation_equiv.
    + intros Hl. constructor. apply (Forall2_fmap json_operation json_operation).
      eapply Forall2_impl; [exact Hl|]. apply json_operation_equiv.
  - split; intros [E1 E2]; [by split; apply (inj pretty)|by rw E1 E2].
Qed.

(** ** What is stored *)

(** What [ValidateCreateCommand] guarantees of a request. *)
Definition valid_request `{GoArch} `{Regexp} (rq : Request) : Prop :=
  ValidateOperations (rq_operations rq) = Ok tt
  ∧ 0 <= rq_priority rq <= MaxPriority ∧ 1 <= rq_max_attempts rq <= JobMaxAttempts
  ∧ fingerprintValue (request_json (rq_version rq) (rq_operations rq) (rq_priority rq) (rq_max_attempts rq))
    = Ok (rq_fingerprint rq).

Definition command_request (c : CreateCommand) (fingerprint : string) : Request :=
  mkRequest (c_DatasetVersionID c) (c_Operations c) fingerprint (c_Priority c) (c_MaxAttempts c).

#[local] Opaque fingerprintValue ValidateOperations.

Lemma ValidateCreateCommand_Ok `{GoArch} `{Regexp} c fp :
  ValidateCreateCommand c = Ok fp → valid_request (command_request c fp) ∧ RequestFingerprint c = Ok fp.
Proof.
  unfold ValidateCreateCommand. case_match; [discriminate|]. intros ([]&Hops&Hc)%res_bind_Ok.
  destruct (_ || _) eqn:Hp in Hc; [discriminate|]. destruct (_ || _) eqn:Hm in Hc; [discriminate|].
  case_match; [discriminate|]. case_match; [discriminate|]. split; [|exact Hc].
  unfold valid_request. cbn [command_request rq_operations rq_priority rq_max_attempts rq_version rq_fingerprint].
  split; [exact Hops|]. split; [lia|]. split; [lia|]. unfold RequestFingerprint, request_value in Hc. exact Hc.
Qed.

Section submission.
Context `{!Enqueuer, !WorkerSelector}.

Lemma create_record_requests command fp j o w :
  wp o (create_record command fp j) (λ _ w', requests (st w') = requests (st w)) w.
Proof.
  unfold create_record, create_finish, create_enqueue, findIdempotentJob. wp_auto; done.
Qed.

Lemma create_tx_requests command fp o w :
  wp o (create_tx command fp) (λ _ w',
    requests (st w') = requests (st w)
    ∨ ∃ j, requests (st w') = <[j := command_request command fp]> (requests (st w))) w.
Proof.
  assert (Hnew : wp o (create_new command fp) (λ _ w',
    ∃ j, requests (st w') = <[j := command_request command fp]> (requests (st w))) w).
  { unfold create_new, lockAvailableVersion, incrementQuota, insert_job. wp_go.
    eapply wp_mono; [|apply create_record_requests]. intros oc w' ->. eexists. unfold requests. simpl.
    by rw fmap_insert. }
  unfold create_tx, findIdempotentJob. wp_if; [eapply wp_mono; [|exact Hnew]; eauto|]. wp_go.
  wp_if; wp_go; [by left|]. eapply wp_mono; [|exact Hnew]; eauto.
Qed.

Lemma Create_requests validated c o d :
  requests (Create validated c o d).2 = requests d
  ∨ ∃ fp j, validated = Ok fp ∧ requests (Create validated c o d).2 = <[j := command_request c fp]> (requests d).
Proof.
  unfold Create. destruct validated as [fp|]; [|by left].
  pose proof (create_tx_requests c fp o (mkWorld d 0)) as Hw. unfold wp in Hw.
  destruct (create_tx c fp o (mkWorld d 0)) as [[[item|item|j] w']|]; simpl in *; [naive_solver..| |by left].
  left. by case_match.
Qed.

Lemma keeps_requests {A} (m : Tx DB A) o d : keeps_logs m → requests (transact m o d).2 = requests d.
Proof.
  intros Hm. apply (transact_wp o m d (λ _ d', requests d' = requests d)); [done|].
  eapply wp_mono; [|apply Hm]. intros ? w' [= _ _ E]. exact E.
Qed.

Lemma Process_requests dec env o d : requests (transact (Process dec env) o d).2 = requests d.
Proof.
  apply (transact_wp o _ d (λ _ d', requests d' = requests d)); [done|]. unfold Process. wp_steps.
  eapply wp_mono; [|apply process_tx_logs]. by intros oc w' [(_&_&->)|(_&row&_&->)].
Qed.

(** ** The system with its validation *)

Context `{!GoArch, !Regexp}.

(** A submission is validated by the code; everything else is as in [transition]. *)
Definition validated_by_code (cmd : Command) : Prop :=
  match cmd with CmdCreate validated c => validated = ValidateCreateCommand c | _ => True end.

Inductive checked_transition (d : DB) : DB → Prop :=
  | checked_command cmd o : validated_by_code cmd → checked_transition d (exec cmd o d)
  | checked_other d' : abs d' = abs d → logs d' = logs d → checked_transition d d'.

Definition checked_reachable (d : DB) : Prop :=
  ∃ d0, abs d0 = mkLState ∅ ∅ ∅ [] ∧ logs d0 = (∅, ∅) ∧ rtc checked_transition d0 d.

Lemma checked_transition_is d d' : checked_transition d d' → transition d d'.
Proof. destruct 1; [apply tr_command|by apply tr_other]. Qed.

Definition requests_valid (d : DB) : Prop := map_Forall (λ _, valid_request) (requests d).

Lemma exec_valid cmd o d : validated_by_code cmd → requests_valid d → requests_valid (exec cmd o d).
Proof.
  unfold requests_valid. intros Hv Hd.
  assert (requests (exec cmd o d) = requests d
    ∨ ∃ j rq, valid_request rq ∧ requests (exec cmd o d) = <[j := rq]> (requests d)) as [->|(j&rq&Hrq&->)]; [|done|].
  - destruct cmd; simpl; try (left; apply keeps_requests; auto with logs; fail).
    + destruct (Create_requests validated c o d) as [?|(fp&j&E&?)]; [by left|]. right. exists j. eexists.
      split; [|done]. change (validated = ValidateCreateCommand c) in Hv. rw Hv in E.
      apply (ValidateCreateCommand_Ok _ _ E).
    + left. apply Process_requests.
  - by apply map_Forall_insert_2.
Qed.

Lemma requests_abs d d' : abs d' = abs d → requests d' = requests d.
Proof.
  intros [= E _ _ _]. apply (f_equal (fmap (M:=gmap uuid) jv_request)) in E.
  unfold requests. rw -!map_fmap_compose in E. exact E.
Qed.

(** C18. Every job in the database is well formed, however it got there and whatever
    happened to it since: its operations are ones [ValidateOperations] accepts, its
    priority and attempt budget are within their limits, and its fingerprint is the
    fingerprint of its own request. *)
Theorem jobs_well_formed d j r :
  checked_reachable d → t_jobs d !! j = Some r →
  ValidateOperations (j_operations r) = Ok tt
  ∧ 0 <= j_priority r <= MaxPriority ∧ 1 <= j_max_attempts r <= JobMaxAttempts
  ∧ fingerprintValue (request_json (j_dataset_version_id r) (j_operations r) (j_priority r) (j_max_attempts r))
    = Ok (j_request_fingerprint r).
Proof.
  intros (d0&Ha&_&Hrun) Hr. assert (requests_valid d) as Hd.
  { assert (requests_valid d0) as Hinit.
    { unfold requests_valid. rw (requests_abs empty_db d0 Ha). intros i x. unfold requests. by rw lookup_fmap lookup_empty. }
    clear Ha Hr. induction Hrun as [|d0 d1 d Ht _ IH]; [done|]. apply IH. destruct Ht as [cmd o Hv|d1 E _].
    - by apply exec_valid.
    - unfold requests_valid. by rw (requests_abs _ _ E). }
  apply (Hd j (job_request r)). unfold requests. by rw lookup_fmap Hr.
Qed.
End submission.

(** ** Fingerprints *)

Lemma EncodeToString_inj l k :
  Forall (λ b, b < 256)%N l → Forall (λ b, b < 256)%N k → EncodeToString l = EncodeToString k → l = k.
Proof.
  assert (∀ l, Forall (λ b, b < 256)%N l →
    Forall (λ b, b < 256)%N (l ≫= λ b, [hex_digit (b / 16); hex_digit (b mod 16)])) as Hb.
  { intros x Hx. apply Forall_bind. eapply Forall_impl; [exact Hx|]. intros b Hlt.
    simpl in Hlt. constructor; [apply hex_digit_lt, N.Div0.div_lt_upper_bound; lia|].
    constructor; [by apply hex_digit_lt, N.mod_lt|constructor]. }
  unfold EncodeToString. intros Hl Hk E%(f_equal bytes_of). rw !bytes_of_string_of in E; [by apply Hb..|].
  clear Hb. revert k Hk E. induction Hl as [|b l Hlt Hl IH]; intros [|c k] Hk E; try done.
  apply list.Forall_cons in Hk as [Hc Hk]. cbn in E. injection E as E1 E2 E.
  apply hex_digit_inj in E1; [|apply N.Div0.div_lt_upper_bound; lia..].
  apply hex_digit_inj in E2; [|by apply N.mod_lt..]. f_equal; [|by apply IH].
  rw (N.div_mod b 16) // (N.div_mod c 16) //. by rw E1 E2.
Qed.

(** A request as the API decodes it. *)
Definition decoded (c : CreateCommand) : Prop :=
  decodable (request_value c) = true ∧ (c_DatasetVersionID c < 2 ^ 128)%N.

(** The canonical texts of the two requests are a SHA-256 collision. *)
Definition collision (c c' : CreateCommand) : Prop :=
  ∃ b b', CanonicalJSON (request_value c) = Ok b ∧ CanonicalJSON (request_value c') = Ok b'
    ∧ b ≠ b' ∧ Sum256 b = Sum256 b'.

#[local] Opaque Sum256 EncodeToString CanonicalJSON.

Lemma RequestFingerprint_eq c :
  RequestFingerprint c
  = res_bind (wrap_err ErrJobInvalidInput (CanonicalJSON (request_value c))) (λ b, Ok (EncodeToString (Sum256 b))).
Proof. reflexivity. Qed.

Lemma RequestFingerprint_decoded c b :
  CanonicalJSON (request_value c) = Ok b → RequestFingerprint c = Ok (EncodeToString (Sum256 b)).
Proof. intros E. rw RequestFingerprint_eq E. reflexivity. Qed.

Lemma RequestFingerprint_cases c c' fp fp' :
  decoded c → decoded c' → RequestFingerprint c = Ok fp → RequestFingerprint c' = Ok fp' →
  (same_request c c' → fp = fp') ∧ (¬ same_request c c' → fp ≠ fp' ∨ collision c c').
Proof.
  intros [Hd Hu] [Hd' Hu'] E E'. rw -(request_value_equiv _ _ Hu Hu') -(CanonicalJSON_equiv _ _ Hd Hd').
  pose proof (CanonicalJSON_canon _ Hd) as Hb. pose proof (CanonicalJSON_canon _ Hd') as Hb'.
  revert Hb Hb'. generalize (json_marshal (canon (request_value c))), (json_marshal (canon (request_value c'))).
  intros b b' Hb Hb'. rw (RequestFingerprint_decoded _ _ Hb) in E. rw (RequestFingerprint_decoded _ _ Hb') in E'.
  injection E as <-. injection E' as <-. rw Hb Hb'. split; [by intros [= ->]|]. intros Hne.
  destruct (decide (EncodeToString (Sum256 b) = EncodeToString (Sum256 b'))) as [E|]; [|by left].
  right. exists b, b'. split_and!; [done|done|congruence|].
  by apply EncodeToString_inj; [apply Sum256_bytes..|].
Qed.

Section idempotency.
Context `{!Enqueuer, !WorkerSelector, !GoArch, !Regexp}.

(** C8. Submission under an idempotency key takes effect once.  After it created a
    job, any later valid submission by the same owner under the same key, whatever
    ran in between, returns that job and changes nothing when it asks for the same
    thing (same version, priority and attempt budget, and operations equal as JSON
    values), and is refused with a conflict when it does not, unless the canonical
    texts of the two requests are a SHA-256 collision. *)
Theorem Submit_idempotent command command' fp' o o' d item d' d'' :
  reachable d → c_IdempotencyKey command ≠ "" → decoded command → decoded command' →
  Create (ValidateCreateCommand command) command o d = (Ok (item, false), d') → rtc transition d' d'' →
  c_OwnerUserID command' = c_OwnerUserID command → c_IdempotencyKey command' = c_IdempotencyKey command →
  ValidateCreateCommand command' = Ok fp' →
  ∃ item', j_id item' = j_id item
    ∧ (same_request command command' →
         Create (ValidateCreateCommand command') command' o' d'' = (Ok (item', true), d''))
    ∧ (¬ same_request command command' →
         Create (ValidateCreateCommand command') command' o' d'' = (Err ErrIdempotencyConflict, d'')
         ∨ collision command command').
Proof.
  intros Hr Hk Hd Hd' Hc Hrun Ho Hkey Hv'. rw Hv'.
  destruct (ValidateCreateCommand command) as [fp|e] eqn:Hv; [|discriminate].
  destruct (Create_idempotent fp fp' command command' o o' d item d' d'') as (item'&Hid&Ha); try assumption.
  apply ValidateCreateCommand_Ok in Hv as [_ Hf], Hv' as [_ Hf'].
  destruct (RequestFingerprint_cases _ _ _ _ Hd Hd' Hf Hf') as [Hsame Hdiff].
  exists item'. split; [exact Hid|]. rw Ha. unfold recorded_answer. split.
  - intros E%Hsame. rw bool_decide_eq_true_2; [exact E|]. reflexivity.
  - intros [Hne|Hcol]%Hdiff; [left|right; exact Hcol]. rw bool_decide_eq_false_2; [exact Hne|]. reflexivity.
Qed.
End idempotency.

(** ** Examples *)

#[local] Transparent fingerprintValue ValidateOperations Sum256 EncodeToString CanonicalJSON.

#[local] Instance ex_selector : WorkerSelector := registry_selector DefaultHeartbeatTTL.
#[local] Instance ex_arch : GoArch := amd64.
#[local] Instance ex_regexp : Regexp := {| regexp_compiles _ := true |}.

Definition ex_outliers (config : list (string * json)) : CreateCommand :=
  mkCreateCommand 7 7 20 [mkOperation "DETECT_OUTLIERS" (Some config)] "key" 0 5 "trace" "" "".

Definition ex_submit : CreateCommand := ex_outliers [("column", JStr "price"); ("method", JStr "IQR"); ("threshold", JNum "1.5")].
Definition ex_again : CreateCommand := ex_outliers [("threshold", JNum "1.5"); ("method", JStr "IQR"); ("column", JStr "price")].

Definition ex_command : Command := CmdCreate (ValidateCreateCommand ex_submit) ex_submit.
Definition ex_submitted : DB := exec ex_command (ex_env 100 1000) ex_seed.

Lemma jobs_well_formed_witness :
  ∃ r, t_jobs ex_submitted !! ex_job = Some r ∧ ValidateOperations (j_operations r) = Ok tt.
Proof.
  assert (is_Some (t_jobs ex_submitted !! ex_job)) as [r Hr] by (vm_compute; eexists; reflexivity).
  exists r. split; [exact Hr|]. apply (jobs_well_formed ex_submitted ex_job r); [|exact Hr].
  exists ex_seed. split; [reflexivity|]. split; [reflexivity|]. apply rtc_once.
  exact (checked_command ex_seed ex_command (ex_env 100 1000) eq_refl).
Defined.

Lemma ex_same : same_request ex_submit ex_again.
Proof.
  split; [reflexivity|]. split; [|split; reflexivity]. constructor; [|constructor]. split; [reflexivity|].
  constructor. apply json_equiv_canon. reflexivity.
Qed.

Lemma Submit_idempotent_witness :
  ∃ item', j_id item' = ex_job
    ∧ Create (ValidateCreateCommand ex_again) ex_again (ex_env 900 2000) ex_submitted = (Ok (item', true), ex_submitted).
Proof.
  assert (is_Some (t_jobs ex_submitted !! ex_job)) as [r Hr] by (vm_compute; eexists; reflexivity).
  assert (is_ok (ValidateCreateCommand ex_again) = true) as Hok by (vm_compute; reflexivity).
  destruct (ValidateCreateCommand ex_again) as [fp|] eqn:Hv; [|discriminate].
  destruct (Submit_idempotent ex_submit ex_again fp (ex_env 100 1000) (ex_env 900 2000) ex_seed
    (ex_row ex_submitted) ex_submitted ex_submitted) as (item'&Hid&Hsame&_).
  - exact (ex_run_reachable 0).
  - discriminate.
  - split; [vm_compute; reflexivity|reflexivity].
  - split; [vm_compute; reflexivity|reflexivity].
  - vm_compute. reflexivity.
  - apply rtc_refl.
  - reflexivity.
  - reflexivity.
  - exact Hv.
  - exists item'. split; [rw Hid; vm_compute; reflexivity|]. rw -Hv. exact (Hsame ex_same).
Defined.
