(* ===== verification/JobService.v ===== *)
(** The job service, src/go/internal/job/service.go: scope checks, ownership and
    input normalisation around the repository; that no user reaches or changes
    another user's jobs through it, and that its listings are complete. *)

From S2P Require Import Prelude GoStrings Retry Json Queue JobModel Schema Sql Outbox JobStore WorkerRegistry Authz Lease Result Dlq Lifecycle Refinement System Logs.

Open Scope Z_scope.

Record CreateRequest := mkCreateRequest {
  cr_Operations : list Operation; cr_Priority : Z; cr_MaxAttempts : Z
}.

Definition normalizeCreateDefaults (priority maxAttempts : Z) : Z * Z :=
  (priority, if bool_decide (maxAttempts = 0) then DefaultMaxAttempts else maxAttempts).

Definition normalizeIdempotencyKey (value : string) : res string :=
  let value := trim_space value in
  if bool_decide (value = "") then Ok ""
  else if (MaxIdempotencyKeySize <? go_len value) || contains_any value [13; 10]%N then Err ErrJobInvalidInput
  else Ok value.

Definition normalizePagination (page pageSize : Z) : res (Z * Z) :=
  let page := if bool_decide (page = 0) then 1 else page in
  let pageSize := if bool_decide (pageSize = 0) then 20 else pageSize in
  if (page <? 1) || (pageSize <? 1) || (100 <? pageSize) then Err ErrJobInvalidInput
  else Ok (page, pageSize).

(** The reads of the dataset store (dataset/repository_versions.go,
    dataset/repository_datasets.go), restricted to the columns of the schema. *)
Definition FindVersionByID (versionID : uuid) (d : DB) : res VersionRow :=
  match t_versions d !! versionID with Some v => Ok v | None => Err ErrDatasetVersionNotFound end.

Definition FindDataset (datasetID : uuid) (d : DB) : res DatasetRow :=
  match t_datasets d !! datasetID with Some x => Ok x | None => Err ErrDatasetNotFound end.

(** The owner a listing is restricted to: none for administrators. *)
Definition visible_owner (p : Principal) : option uuid :=
  if bool_decide (Role p = RoleAdmin) then None else Some (UserID p).

Section service.
Context `{!Enqueuer}.

(** [Create].  The service reads the version, then its dataset, then calls the
    repository: three transactions, in the states [d], [d1] and [d2] that other
    transactions left; [fresh] is the identifier [uuid.NewString] draws for a
    request without one, [validate] the repository's [ValidateCreateCommand]. *)
Definition create_command (p : Principal) (versionID : uuid) (request : CreateRequest)
  (idempotencyKey requestID : string) (fresh : uuid) (d d1 : DB) : res CreateCommand :=
  _ ← RequireScope p ScopeJobsWrite;
  _ ← guard_err (negb (bool_decide (versionID = uuid_nil))) ErrJobInvalidInput;
  version ← FindVersionByID versionID d;
  datasetItem ← FindDataset (v_dataset_id version) d1;
  _ ← guard_err (bool_decide (d_deleted_at datasetItem = None)
                 && CanAccessOwner p (d_owner_user_id datasetItem) ScopeJobsWrite) ErrForbidden;
  _ ← guard_err (bool_decide (v_state version = "AVAILABLE")) ErrVersionUnavailable;
  let '(priority, maxAttempts) := normalizeCreateDefaults (cr_Priority request) (cr_MaxAttempts request) in
  key ← normalizeIdempotencyKey idempotencyKey;
  let requestID := trim_space requestID in
  let requestID := if bool_decide (requestID = "") then uuid_string fresh else requestID in
  Ok (mkCreateCommand (d_owner_user_id datasetItem) (UserID p) versionID (cr_Operations request) key
        priority maxAttempts requestID "" requestID).

Definition JobService_Create (validate : CreateCommand → res string) (p : Principal) (versionID : uuid)
  (request : CreateRequest) (idempotencyKey requestID : string) (fresh : uuid) (o : Oracle) (d d1 d2 : DB)
  : res (JobRow * bool) * DB :=
  match create_command p versionID request idempotencyKey requestID fresh d d1 with
  | Err e => (Err e, d2)
  | Ok command => Create (validate command) command o d2
  end.

Definition JobService_Get (p : Principal) (jobID : uuid) : Tx DB JobRow :=
  _ ← lift_res (RequireScope p ScopeJobsRead);
  item ← JobStore_Get jobID;
  _ ← require (CanAccessOwner p (j_owner_user_id item) ScopeJobsRead) ErrForbidden;
  mret item.

Definition JobService_List (p : Principal) (page pageSize : Z) (state : string) : Tx DB JobPage :=
  _ ← lift_res (RequireScope p ScopeJobsRead);
  pg ← lift_res (normalizePagination page pageSize);
  let state := trim_space state in
  _ ← require (bool_decide (state = "") || IsKnownState state) ErrJobInvalidInput;
  List_ (mkListQuery (visible_owner p) pg.1 pg.2 state).

(** [Cancel] and [Retry]: the check reads the job in one transaction, in the
    state [d], and the repository acts in another, in the state [d1]. *)
Definition check_job_access (p : Principal) (jobID : uuid) (o : Oracle) (d : DB) : res JobRow :=
  _ ← RequireScope p ScopeJobsWrite;
  item ← (transact (JobStore_Get jobID) o d).1;
  _ ← guard_err (CanAccessOwner p (j_owner_user_id item) ScopeJobsWrite) ErrForbidden;
  Ok item.

Definition JobService_Cancel (p : Principal) (jobID : uuid) (reason requestID : string) (o : Oracle) (d d1 : DB)
  : res JobRow * DB :=
  match check_job_access p jobID o d with
  | Err e => (Err e, d1)
  | Ok _ => transact (RequestCancel (mkCancelCommand jobID (UserID p) reason requestID requestID
              (bool_decide (Role p = RoleAdmin)))) o d1
  end.

Definition JobService_Retry (p : Principal) (jobID : uuid) (requestID : string) (o : Oracle) (d d1 : DB)
  : res JobRow * DB :=
  match check_job_access p jobID o d with
  | Err e => (Err e, d1)
  | Ok _ => transact (RequestRetry (mkRetryCommand jobID (UserID p) requestID requestID
              (bool_decide (Role p = RoleAdmin)))) o d1
  end.
End service.

(** ** Isolation *)

(** The jobs and quota counters of every user but [u] are as they were. *)
Definition others_kept (u : uuid) (d d' : DB) : Prop :=
  (∀ k r, t_jobs d !! k = Some r → j_owner_user_id r ≠ u → t_jobs d' !! k = Some r)
  ∧ ∀ v, v ≠ u → abs_quota <$> t_quotas d' !! v = abs_quota <$> t_quotas d !! v.

Lemma others_kept_refl u d : others_kept u d d.
Proof. by split. Qed.

(** What a transaction on the job [item] of user [u] may do to the tables. *)
Lemma owned_update u (d d' : DB) item r' f :
  t_jobs d !! j_id item = Some item → j_owner_user_id item = u →
  t_jobs d' = alter f (j_id item) (t_jobs d) → (∀ r, j_owner_user_id (f r) = j_owner_user_id r) →
  (∀ v, v ≠ u → abs_quota <$> t_quotas d' !! v = abs_quota <$> t_quotas d !! v) →
  t_jobs d' !! j_id item = Some r' →
  j_owner_user_id r' = u ∧ others_kept u d d'.
Proof.
  intros Hi Hu Hj Hf Hq Hr'. split; [|split].
  - rw Hj lookup_alter_eq Hi in Hr'. simplify_eq/=. apply Hf.
  - intros k r Hk Hne. rw Hj lookup_alter_ne //. intros <-. congruence.
  - exact Hq.
Qed.

Lemma quota_bump_ne (f : gmap uuid QuotaRow → gmap uuid QuotaRow) q owner dq da v :
  abs_quota <$> f q = bump owner dq da (abs_quota <$> q) → v ≠ owner →
  abs_quota <$> f q !! v = abs_quota <$> q !! v.
Proof.
  intros Hf Hv. rw -!lookup_fmap Hf. unfold bump. by rw lookup_insert_ne.
Qed.

Section isolation.
Context `{!Enqueuer, !WorkerSelector}.

Lemma RequestCancel_others command o w :
  db_ok (st w) → k_AllowCrossOwner command = false →
  wp o (RequestCancel command) (λ r w',
    j_owner_user_id r = k_ActorUserID command ∧ others_kept (k_ActorUserID command) (st w) (st w')) w.
Proof.
  intros Hok Hc. unfold RequestCancel, cancel_queued, cancel_active, enqueueCancel, enqueueEnvelopeWithRoutingKey,
    currentCancellationTarget. rw Hc.
  do 3 wp_step. wp_go. rename a into item. rename select (_ = Some item) into Hj.
  pose proof (job_key _ Hok _ _ Hj) as Hid. rw -Hid in Hj. reflect_bool. simpl in *. reflect_bool.
  wp_auto; first [by split; [|apply others_kept_refl] | eapply owned_update; [exact Hj|done|reflexivity|done|..|eassumption]];
    simpl; try done; intros v Hv; rw ?lookup_alter_ne //; congruence.
Qed.

Lemma RequestRetry_others command o w :
  db_ok (st w) → y_AllowCrossOwner command = false →
  wp o (RequestRetry command) (λ r w',
    j_owner_user_id r = y_ActorUserID command ∧ others_kept (y_ActorUserID command) (st w) (st w')) w.
Proof.
  intros Hok Hc. unfold RequestRetry, incrementQuota, enqueueRetryQueued, enqueueEnvelope,
    enqueueEnvelopeWithRoutingKey. rw Hc.
  do 3 wp_step. wp_go. rename a into item. rename select (_ = Some item) into Hj.
  pose proof (job_key _ Hok _ _ Hj) as Hid. rw -Hid in Hj. simpl in *. reflect_bool.
  wp_auto; first [by split; [|apply others_kept_refl] | eapply owned_update; [exact Hj|done|reflexivity|done|..|eassumption]];
    simpl; try done; intros v Hv; eapply quota_bump_ne; [eassumption|congruence].
Qed.

Lemma create_record_tables command fp j o w :
  wp o (create_record command fp j)
    (λ _ w', t_jobs (st w') = t_jobs (st w) ∧ t_quotas (st w') = t_quotas (st w)) w.
Proof.
  unfold create_record, create_finish, create_enqueue, findIdempotentJob. wp_auto; done.
Qed.

Lemma create_tx_others command fp o w :
  wp o (create_tx command fp) (λ _ w', others_kept (c_OwnerUserID command) (st w) (st w')) w.
Proof.
  assert (∀ w, wp o (create_new command fp) (λ _ w', others_kept (c_OwnerUserID command) (st w) (st w')) w) as Hnew.
  { clear w. intros w. unfold create_new, lockAvailableVersion, incrementQuota, insert_job. wp_go.
    rename select (t_jobs _ !! _ = None) into Hfresh. simpl in Hfresh.
    eapply wp_mono; [|apply create_record_tables]. simpl. intros oc w' [Hj Hq]. split.
    - intros k r Hk _. rw Hj lookup_insert_ne //. intros ->. congruence.
    - intros v Hv. rw Hq. by eapply quota_bump_ne. }
  unfold create_tx, findIdempotentJob. wp_if; [apply Hnew|]. wp_go.
  wp_if; wp_go; [apply others_kept_refl|apply Hnew].
Qed.

Lemma Create_others validated command o d r d' :
  reachable d → Create validated command o d = (r, d') →
  match r with
  | Ok (item, _) => j_owner_user_id item = c_OwnerUserID command ∧ others_kept (c_OwnerUserID command) d d'
  | Err _ => d' = d
  end.
Proof.
  intros Hd. unfold Create. destruct validated as [fp|e]; [|intros; by simplify_eq].
  pose proof (create_tx_others command fp o (mkWorld d 0)) as Ho.
  pose proof (create_tx_logs command fp o (mkWorld d 0)) as Hl. unfold wp in Ho, Hl.
  destruct (create_tx command fp o (mkWorld d 0)) as [[[item|item|j] w']|e]; simpl in *; intros; simplify_eq; try done.
  - destruct Hl as (_&_&Howner&_). done.
  - destruct Hl as (->&row&Hrow&_&Hj). split; [|apply others_kept_refl].
    destruct (idempotency_owned _ _ _ Hd Hrow) as (r&Hr&Hor). simpl in Hor. congruence.
Qed.

(** A call of the service. *)
Inductive JobCall :=
  | CallCreate (validate : CreateCommand → res string) (versionID : uuid) (request : CreateRequest)
      (idempotencyKey requestID : string) (fresh : uuid)
  | CallGet (jobID : uuid)
  | CallCancel (jobID : uuid) (reason requestID : string)
  | CallRetry (jobID : uuid) (requestID : string).

(** Its answer and the database it leaves; the states [d], [d1] and [d2] are
    those of its successive transactions, of which only the last one writes. *)
Definition JobService_call (p : Principal) (c : JobCall) (o : Oracle) (d d1 d2 : DB) : res JobRow * DB :=
  match c with
  | CallCreate validate versionID request key requestID fresh =>
      match JobService_Create validate p versionID request key requestID fresh o d d1 d2 with
      | (Ok (item, _), d') => (Ok item, d')
      | (Err e, d') => (Err e, d')
      end
  | CallGet jobID => transact (JobService_Get p jobID) o d2
  | CallCancel jobID reason requestID => JobService_Cancel p jobID reason requestID o d d2
  | CallRetry jobID requestID => JobService_Retry p jobID requestID o d d2
  end.

Lemma create_command_owner p versionID request key requestID fresh d d1 command :
  Role p ≠ RoleAdmin → create_command p versionID request key requestID fresh d d1 = Ok command →
  c_OwnerUserID command = UserID p.
Proof.
  intros Hr. unfold create_command. intros (_&_&H1)%res_bind_Ok. apply res_bind_Ok in H1 as (_&_&H1).
  apply res_bind_Ok in H1 as (v&_&H1). apply res_bind_Ok in H1 as (ds&_&H1). apply res_bind_Ok in H1 as (?&Hg&H1).
  apply guard_err_Ok, andb_true_iff in Hg as (_&(_&_&[?|Ho])%CanAccessOwner_iff); [done|].
  apply res_bind_Ok in H1 as (_&_&H1). simpl in H1. apply res_bind_Ok in H1 as (key'&_&H1). by simplify_eq/=.
Qed.

(** A call of a user who is not an administrator. *)
Lemma JobService_call_confined p c o d d1 d2 r d' :
  Role p ≠ RoleAdmin → reachable d2 → JobService_call p c o d d1 d2 = (r, d') →
  match r with
  | Ok item => j_owner_user_id item = UserID p ∧ others_kept (UserID p) d2 d'
  | Err _ => d' = d2
  end.
Proof.
  intros Hr Hd Hc. pose proof (reachable_ok _ Hd) as Hok.
  set (Q (item : JobRow) d' := j_owner_user_id item = UserID p ∧ others_kept (UserID p) d2 d').
  destruct c; simpl in Hc.
  - unfold JobService_Create in Hc. destruct (create_command _ _ _ _ _ _ _ _) as [command|e] eqn:Hcmd; [|by simplify_eq].
    unfold Q. rw -(create_command_owner _ _ _ _ _ _ _ _ _ Hr Hcmd).
    destruct (Create _ command o d2) as [[[item b]|e] d3] eqn:Hcr; apply Create_others in Hcr; try done; by simplify_eq.
  - apply (transact_res _ _ _ _ _ Q Hc). unfold JobService_Get, JobStore_Get. wp_go.
    rename select (CanAccessOwner _ _ _ = true) into Ha. apply CanAccessOwner_iff in Ha as (_&_&[?|Ho]); [done|].
    split; [done|apply others_kept_refl].
  - unfold JobService_Cancel in Hc. destruct (check_job_access _ _ _ _); [|by simplify_eq].
    rw bool_decide_eq_false_2 // in Hc. apply (transact_res _ _ _ _ _ Q Hc). by apply RequestCancel_others.
  - unfold JobService_Retry in Hc. destruct (check_job_access _ _ _ _); [|by simplify_eq].
    rw bool_decide_eq_false_2 // in Hc. apply (transact_res _ _ _ _ _ Q Hc). by apply RequestRetry_others.
Qed.

(** Isolation of users.  Whatever a user who is not an administrator asks of
    the job service, and whatever other transactions run between its reads and
    its writes: a successful call answers with a job of that user and leaves the
    jobs and quota counters of every other user as they were; a refused or failed
    call changes nothing. *)
Lemma JobService_isolated p c o d d1 d2 r d' :
  Role p ≠ RoleAdmin → reachable d2 → JobService_call p c o d d1 d2 = (r, d') →
  match r with
  | Ok item => j_owner_user_id item = UserID p ∧ others_kept (UserID p) d2 d'
  | Err _ => d' = d2
  end.
Proof. apply JobService_call_confined. Qed.
End isolation.

Lemma JobService_List_confined p page pageSize state o d pg d' :
  transact (JobService_List p page pageSize state) o d = (Ok pg, d') →
  d' = d ∧ ∀ r, r ∈ jp_Items pg → Role p = RoleAdmin ∨ j_owner_user_id r = UserID p.
Proof.
  intros H1. apply (transact_inv _ _ _ _ _ _ H1). clear H1. unfold JobService_List, List_. wp_steps.
  apply sql_page_elem. intros items Hin _. wp_steps. intros -> ->. split; [done|]. intros r Hr. simpl in Hr.
  apply Hin, elem_of_sort_by, list_elem_of_filter in Hr as [[Hr _] _]. simpl in Hr. unfold visible_owner in Hr.
  case_bool_decide; auto.
Qed.

(** ** Listings *)

Definition visible (p : Principal) (state : string) (r : JobRow) : Prop :=
  (Role p = RoleAdmin ∨ j_owner_user_id r = UserID p) ∧ (state = "" ∨ job_state_string (j_state r) = state).

#[export] Instance visible_dec p state r : Decision (visible p state r).
Proof. unfold visible. apply _. Defined.

Definition visible_jobs (p : Principal) (state : string) (d : DB) : list JobRow :=
  filter (visible p state) (rows (t_jobs d)).

Lemma visible_matches p page pageSize state r :
  list_matches (mkListQuery (visible_owner p) page pageSize state) r ↔ visible p state r.
Proof. unfold list_matches, visible, visible_owner. simpl. case_bool_decide; naive_solver. Qed.

(** One page of a listing. *)
Lemma JobService_List_page p pageSize state o d i :
  RequireScope p ScopeJobsRead = Ok tt → (trim_space state = "" ∨ IsKnownState (trim_space state) = true) →
  1 <= pageSize <= 100 → Z.of_nat i * pageSize <= max_int64 →
  let jobs := visible_jobs p (trim_space state) d in
  transact (JobService_List p (Z.of_nat i + 1) pageSize state) o d
  = (Ok (mkJobPage (page_of (Z.to_nat pageSize) (sort_by job_listed_before jobs) i) (Z.of_nat i + 1) pageSize
           (Z.of_nat (length jobs))), d).
Proof.
  intros Hs Hst Hsize Hmax jobs. unfold JobService_List. rw Hs.
  assert (normalizePagination (Z.of_nat i + 1) pageSize = Ok (Z.of_nat i + 1, pageSize)) as ->.
  { unfold normalizePagination. rw (bool_decide_eq_false_2 (_ + 1 = 0)); [lia|].
    rw (bool_decide_eq_false_2 (pageSize = 0)); [lia|].
    destruct (Z.ltb_spec (Z.of_nat i + 1) 1), (Z.ltb_spec pageSize 1), (Z.ltb_spec 100 pageSize); try lia. done. }
  assert (bool_decide (trim_space state = "") || IsKnownState (trim_space state) = true) as Hreq.
  { apply orb_true_iff. rw bool_decide_eq_true. done. }
  unfold transact, mbind, tx_bind, List_. simpl. unfold mbind, tx_bind, require. rw Hreq. simpl.
  destruct (Z.ltb_spec (Z.of_nat i + 1) 1), (Z.ltb_spec pageSize 1), (Z.ltb_spec 100 pageSize); try lia. simpl.
  rw sql_page_eq; [lia|lia|nia|]. simpl. replace (Z.of_nat i + 1 - 1) with (Z.of_nat i) by lia. rw Nat2Z.id.
  assert (filter (list_matches (mkListQuery (visible_owner p) (Z.of_nat i + 1) pageSize (trim_space state)))
            (rows (t_jobs d)) = jobs) as ->; [|done].
  apply list_filter_iff. intros r. apply visible_matches.
Qed.

(** Listings are complete and without repetition.  A principal that reads
    the pages [1 .. n] of its jobs, with as many pages as their number requires,
    sees every job it may see (its own, or all of them for an administrator, in
    the state asked for) exactly once, and every page reports their number. *)
Lemma JobService_List_complete p pageSize state o d n :
  RequireScope p ScopeJobsRead = Ok tt → (trim_space state = "" ∨ IsKnownState (trim_space state) = true) →
  1 <= pageSize <= 100 → Z.of_nat n * pageSize <= max_int64 →
  let jobs := visible_jobs p (trim_space state) d in
  Z.of_nat (length jobs) <= Z.of_nat n * pageSize →
  ∃ pages, length pages = n
    ∧ (∀ i pg, pages !! i = Some pg →
         transact (JobService_List p (Z.of_nat i + 1) pageSize state) o d = (Ok pg, d)
         ∧ jp_Total pg = Z.of_nat (length jobs))
    ∧ (pages ≫= jp_Items) ≡ₚ jobs.
Proof.
  intros Hs Hst Hsize Hmax jobs Hn. set (sorted := sort_by job_listed_before jobs).
  exists ((λ i, mkJobPage (page_of (Z.to_nat pageSize) sorted i) (Z.of_nat i + 1) pageSize (Z.of_nat (length jobs)))
            <$> seq 0 n). split_and!.
  - by rw length_fmap length_seq.
  - intros i pg (j&->&[-> Hj]%lookup_seq)%list_lookup_fmap_Some. split; [|done]. apply JobService_List_page; try done. nia.
  - assert (∀ l (f : nat → JobPage), (f <$> l) ≫= jp_Items = l ≫= (λ i, jp_Items (f i))) as ->.
    { intros l f. induction l as [|x l IH]; [done|]. simpl. by f_equal. }
    change (seq 0 n ≫= page_of (Z.to_nat pageSize) sorted ≡ₚ jobs).
    rw pages_concat take_ge; [|apply sort_by_Permutation].
    unfold sorted. rw sort_by_Permutation. apply Nat2Z.inj_le. rw Nat2Z.inj_mul Z2Nat.id; lia.
Qed.

(** A page whose offset does not fit in 64 bits is not an empty page: the
    offset wraps to a negative number and the query is rejected, in any database. *)
Lemma List_offset_overflow owner page pageSize state o d :
  1 <= pageSize <= 100 → max_int64 < (page - 1) * pageSize < 2 ^ 64 →
  transact (List_ (mkListQuery owner page pageSize state)) o d = (Err (ErrText "OFFSET must not be negative"), d).
Proof.
  intros Hs Ho. unfold max_int64 in Ho. assert (1 <= page) as Hp by nia.
  assert (wrap64 ((page - 1) * pageSize) < 0) as Hw.
  { unfold wrap64. set (z := (page - 1) * pageSize) in *. clearbody z.
    rewrite <- (Z.mod_unique (z + 2 ^ 63) (2 ^ 64) 1 (z - 2 ^ 63)); lia. }
  unfold transact, mbind, tx_bind, List_. simpl. unfold mbind, tx_bind, require.
  destruct (Z.ltb_spec page 1), (Z.ltb_spec pageSize 1), (Z.ltb_spec 100 pageSize); try lia. simpl.
  unfold sql_page, mbind, tx_bind, require. destruct (Z.ltb_spec (wrap64 ((page - 1) * pageSize)) 0); [done|lia].
Qed.

(** ** Witnesses *)

#[local] Instance service_selector : WorkerSelector := registry_selector DefaultHeartbeatTTL.

Definition ex_user : Principal := mkPrincipal 7 RoleUser DefaultUserScopes AuthMethodBearer.
Definition ex_stranger : Principal := mkPrincipal 8 RoleUser DefaultUserScopes AuthMethodBearer.

Lemma JobService_isolated_witness :
  let cancel p := JobService_call p (CallCancel ex_job "" "") (ex_env 700 1000) (ex_run 1) (ex_run 1) (ex_run 1) in
  others_kept 7 (ex_run 1) (cancel ex_user).2
  ∧ j_state <$> t_jobs (cancel ex_user).2 !! ex_job = Some Cancelled
  ∧ cancel ex_stranger = (Err ErrForbidden, ex_run 1).
Proof.
  split; [|split; vm_compute; reflexivity].
  set (c := CallCancel ex_job "" "").
  pose proof (JobService_isolated ex_user c (ex_env 700 1000) (ex_run 1) (ex_run 1) (ex_run 1) _ _
    ltac:(discriminate) (ex_run_reachable 1) (surjective_pairing _)) as H.
  assert (is_ok (JobService_call ex_user c (ex_env 700 1000) (ex_run 1) (ex_run 1) (ex_run 1)).1 = true) as Hok
    by (vm_compute; reflexivity).
  destruct (JobService_call ex_user c (ex_env 700 1000) (ex_run 1) (ex_run 1) (ex_run 1)).1; [exact (proj2 H)|discriminate].
Defined.

Lemma JobService_List_complete_witness :
  ∃ pages, length pages = 2%nat ∧ (pages ≫= jp_Items) ≡ₚ visible_jobs ex_user "" (ex_run 1)
    ∧ length (visible_jobs ex_user "" (ex_run 1)) = 1%nat.
Proof.
  destruct (JobService_List_complete ex_user 1 "" (ex_env 700 1000) (ex_run 1) 2) as (pages&Hl&_&Hp);
    [reflexivity|left; reflexivity|split; discriminate|vm_compute; discriminate|vm_compute; discriminate|].
  exists pages. split; [exact Hl|split; [exact Hp|vm_compute; reflexivity]].
Defined.

Lemma List_offset_overflow_witness :
  transact (List_ (mkListQuery None (2 ^ 59) 20 "")) (ex_env 700 1000) (ex_run 1)
  = (Err (ErrText "OFFSET must not be negative"), ex_run 1).
Proof.
  apply (List_offset_overflow None (2 ^ 59) 20 "" (ex_env 700 1000) (ex_run 1)).
  - split; discriminate.
  - split; vm_compute; reflexivity.
Defined.
