(* ===== verification/ResultReads.v ===== *)
(** The read side of src/go/internal/result: artifact and progress queries
    (repository_artifacts.go, repository_progress.go) and the service around them
    (service.go); that a user reads nothing of another's, and that progress only
    moves forward. *)

From S2P Require Import Prelude GoStrings Retry Json Queue JobModel Schema Sql Outbox JobStore WorkerRegistry Authz Lease Result Dlq Lifecycle Refinement System Logs JobService.
From Stdlib Require Import QArith.

Open Scope Z_scope.

(** ** Artifacts *)

Record ArtifactListQuery := mkArtifactListQuery {
  al_OwnerUserID : option uuid; al_JobID : option uuid; al_Kind : string; al_Page : Z; al_PageSize : Z }.

Record ArtifactPage := mkArtifactPage {
  ap_Items : list ArtifactRow; ap_Page : Z; ap_PageSize : Z; ap_Total : Z }.

(** [$1::uuid IS NULL OR column = $1]. *)
Definition null_or (filter : option uuid) (column : uuid) : bool :=
  match filter with None => true | Some u => bool_decide (column = u) end.

Definition artifact_matches (q : ArtifactListQuery) (r : ArtifactRow) : bool :=
  bool_decide (f_state r = "CANONICAL") && null_or (al_OwnerUserID q) (f_owner_user_id r)
  && null_or (al_JobID q) (f_job_id r)
  && (bool_decide (al_Kind q = "") || bool_decide (f_kind r = al_Kind q)).

(** [ORDER BY created_at DESC, id]. *)
Definition artifact_before (x y : ArtifactRow) : bool :=
  (f_created_at y <? f_created_at x)
  || ((f_created_at x =? f_created_at y) && (f_id x <? f_id y)%N).

Definition ListArtifacts (q : ArtifactListQuery) : Tx DB ArtifactPage :=
  _ ← require (negb ((al_Page q <? 1) || (al_PageSize q <? 1) || (100 <? al_PageSize q)))
        (ErrText "invalid artifact pagination");
  d ← get_db;
  let matching := filter (λ r, artifact_matches q r = true) (rows (t_artifacts d)) in
  items ← sql_page (al_Page q) (al_PageSize q) (sort_by artifact_before matching);
  mret (mkArtifactPage items (al_Page q) (al_PageSize q) (Z.of_nat (length matching))).

Definition GetArtifact (artifactID : uuid) : Tx DB ArtifactRow :=
  d ← get_db;
  r ← lift_opt ErrArtifactNotFound (t_artifacts d !! artifactID);
  _ ← require (bool_decide (f_state r = "CANONICAL")) ErrArtifactNotFound;
  mret r.

(** ** Progress *)

Record ProgressQuery := mkProgressQuery {
  pq_OwnerUserID : option uuid; pq_JobID : uuid; pq_Page : Z; pq_PageSize : Z }.

(** A [ProgressSnapshot]: the row with the owner of its job. *)
Record ProgressSnapshot := mkProgressSnapshot { ps_row : ProgressRow; ps_OwnerUserID : uuid }.

Record ProgressPage := mkProgressPage {
  pp_Items : list ProgressSnapshot; pp_Page : Z; pp_PageSize : Z; pp_Total : Z }.

(** [JOIN processing_jobs j ON j.id = p.job_id], with the condition on the owner. *)
Definition progress_of (d : DB) (q : ProgressQuery) (p : ProgressRow) : option ProgressSnapshot :=
  j ← t_jobs d !! p_job_id p;
  if null_or (pq_OwnerUserID q) (j_owner_user_id j) then Some (mkProgressSnapshot p (j_owner_user_id j)) else None.

Definition GetProgress (q : ProgressQuery) : Tx DB ProgressSnapshot :=
  _ ← require (negb (bool_decide (pq_JobID q = uuid_nil))) ErrResultInvalidInput;
  d ← get_db;
  p ← lift_opt ErrProgressNotFound (t_progress d !! pq_JobID q);
  lift_opt ErrProgressNotFound (progress_of d q p).

Definition ListProgress (q : ProgressQuery) : Tx DB ProgressPage :=
  _ ← require (negb (bool_decide (pq_JobID q = uuid_nil) || (pq_Page q <? 1) || (pq_PageSize q <? 1)
                     || (100 <? pq_PageSize q))) ErrResultInvalidInput;
  d ← get_db;
  let history := sort_by progress_newer (filter (λ x, p_job_id x.2 = pq_JobID q) (imap pair (t_progress_history d))) in
  let matching := omap (progress_of d q) history.*2 in
  items ← sql_page (pq_Page q) (pq_PageSize q) matching;
  mret (mkProgressPage items (pq_Page q) (pq_PageSize q) (Z.of_nat (length matching))).

(** ** The service *)

Definition normalizeArtifactPagination (page pageSize : Z) : res (Z * Z) :=
  let page := if bool_decide (page = 0) then 1 else page in
  let pageSize := if bool_decide (pageSize = 0) then 20 else pageSize in
  if (page <? 1) || (pageSize <? 1) || (100 <? pageSize) then Err ErrResultInvalidInput
  else Ok (page, pageSize).

Definition ResultService_ListArtifacts (p : Principal) (jobID : option uuid) (kind : string) (page pageSize : Z)
  : Tx DB ArtifactPage :=
  _ ← lift_res (RequireScope p ScopeArtifactsRead);
  pg ← lift_res (normalizeArtifactPagination page pageSize);
  ListArtifacts (mkArtifactListQuery (visible_owner p) jobID kind pg.1 pg.2).

Definition ResultService_GetArtifact (p : Principal) (artifactID : uuid) : Tx DB ArtifactRow :=
  _ ← lift_res (RequireScope p ScopeArtifactsRead);
  item ← GetArtifact artifactID;
  _ ← require (bool_decide (f_state item = "CANONICAL")) ErrArtifactNotFound;
  _ ← require (CanAccessOwner p (f_owner_user_id item) ScopeArtifactsRead) ErrForbidden;
  mret item.

Definition ResultService_GetProgress (p : Principal) (jobID : uuid) : Tx DB ProgressSnapshot :=
  _ ← lift_res (RequireScope p ScopeJobsRead);
  _ ← require (negb (bool_decide (jobID = uuid_nil))) ErrResultInvalidInput;
  GetProgress (mkProgressQuery (visible_owner p) jobID 0 0).

Definition ResultService_ListProgress (p : Principal) (jobID : uuid) (page pageSize : Z) : Tx DB ProgressPage :=
  _ ← lift_res (RequireScope p ScopeJobsRead);
  pg ← lift_res (normalizeArtifactPagination page pageSize);
  _ ← require (negb (bool_decide (jobID = uuid_nil))) ErrResultInvalidInput;
  ListProgress (mkProgressQuery (visible_owner p) jobID pg.1 pg.2).

(** [OpenArtifact]; the object store is the function [Objects.Get], absent when
    the service was built without one. *)
Definition OpenArtifact {Reader} (objects : option (string → res Reader)) (p : Principal) (artifactID : uuid)
  : Tx DB (ArtifactRow * Reader) :=
  item ← ResultService_GetArtifact p artifactID;
  _ ← require (negb (MaxArtifactDownloadBytes <? f_size_bytes item)) ErrArtifactTooLarge;
  get ← lift_opt ErrArtifactUnavailable objects;
  match get (f_object_key item) with
  | Ok reader => mret (item, reader)
  | Err e => fail (if bool_decide (e = ErrObjectNotFound) then ErrArtifactUnavailable else e)
  end.

(** ** Properties *)

Lemma null_or_visible p owner :
  null_or (visible_owner p) owner = true ↔ Role p = RoleAdmin ∨ owner = UserID p.
Proof. unfold null_or, visible_owner. case_bool_decide; [naive_solver|]. rw bool_decide_eq_true. naive_solver. Qed.

Definition readable (p : Principal) (owner : uuid) : Prop := Role p = RoleAdmin ∨ owner = UserID p.

(** The calls one by one: what they answer with, and that they change nothing. *)
Lemma ListArtifacts_confined p jobID kind page pageSize o d pg d' :
  transact (ResultService_ListArtifacts p jobID kind page pageSize) o d = (Ok pg, d') →
  d' = d ∧ Z.of_nat (length (ap_Items pg)) <= 100
  ∧ ∀ a, a ∈ ap_Items pg → f_state a = "CANONICAL" ∧ readable p (f_owner_user_id a).
Proof.
  intros H1. apply (transact_inv _ _ _ _ _ _ H1). clear H1.
  unfold ResultService_ListArtifacts, ListArtifacts. wp_steps. apply sql_page_elem. intros items Hin Hlen. wp_steps.
  intros -> ->. split; [done|]. reflect_bool. simpl in *. split; [lia|]. intros x Hx.
  apply Hin, elem_of_sort_by, list_elem_of_filter in Hx as [Hx _]. unfold artifact_matches in Hx. reflect_bool.
  split; [done|]. by apply null_or_visible.
Qed.

Lemma GetArtifact_confined p id o d a d' : transact (ResultService_GetArtifact p id) o d = (Ok a, d') →
  d' = d ∧ t_artifacts d !! id = Some a ∧ f_state a = "CANONICAL" ∧ readable p (f_owner_user_id a).
Proof.
  intros H1. apply (transact_inv _ _ _ _ _ _ H1). clear H1.
  unfold ResultService_GetArtifact, GetArtifact. wp_steps. intros [= ->] ->. reflect_bool.
  rename select (CanAccessOwner _ _ _ = true) into Hc. apply CanAccessOwner_iff in Hc as (_&_&Hc).
  split_and!; try done. by destruct Hc; [left|right].
Qed.

Lemma OpenArtifact_confined {Reader} (objects : option (string → res Reader)) p id o d a reader d' :
  transact (OpenArtifact objects p id) o d = (Ok (a, reader), d') →
  d' = d ∧ t_artifacts d !! id = Some a ∧ f_state a = "CANONICAL" ∧ readable p (f_owner_user_id a)
  ∧ f_size_bytes a <= MaxArtifactDownloadBytes.
Proof.
  intros H1. apply (transact_inv _ _ _ _ _ _ H1). clear H1.
  unfold OpenArtifact, ResultService_GetArtifact, GetArtifact. wp_steps. wp_if; wp_steps. intros [= -> ->] ->. reflect_bool.
  rename select (CanAccessOwner _ _ _ = true) into Hc. apply CanAccessOwner_iff in Hc as (_&_&Hc).
  split_and!; try done; [by destruct Hc; [left|right]|lia].
Qed.

Lemma GetProgress_confined p j o d s d' : transact (ResultService_GetProgress p j) o d = (Ok s, d') →
  d' = d ∧ readable p (ps_OwnerUserID s).
Proof.
  intros H1. apply (transact_inv _ _ _ _ _ _ H1). clear H1.
  unfold ResultService_GetProgress, GetProgress. wp_steps. intros -> ->. split; [done|].
  rename select (progress_of _ _ _ = _) into Hp. apply bind_Some in Hp as (r&_&Hp).
  destruct (null_or _ _) eqn:Hn; simplify_eq/=. by apply null_or_visible.
Qed.

Lemma ListProgress_confined p j page pageSize o d pg d' :
  transact (ResultService_ListProgress p j page pageSize) o d = (Ok pg, d') →
  d' = d ∧ ∀ s, s ∈ pp_Items pg → p_job_id (ps_row s) = j ∧ readable p (ps_OwnerUserID s).
Proof.
  intros H1. apply (transact_inv _ _ _ _ _ _ H1). clear H1.
  unfold ResultService_ListProgress, ListProgress. wp_steps. apply sql_page_elem. intros items Hin _. wp_steps.
  intros -> ->. split; [done|]. intros s Hs. apply Hin, list_elem_of_omap in Hs as (r&Hr&Hp).
  apply list_elem_of_fmap in Hr as ([i r']&->&Hr). apply elem_of_sort_by, list_elem_of_filter in Hr as [Hj _].
  apply bind_Some in Hp as (jr&_&Hp). destruct (null_or _ _) eqn:Hn; simplify_eq/=. split; [done|by apply null_or_visible].
Qed.

(** Result reads are confined.  Artifacts a user lists, fetches or opens are
    promoted ([CANONICAL]) artifacts of that user's own jobs, and only
    administrators reach those of others; an opened artifact is at most 512 MiB;
    progress comes only from jobs the user owns.  No read changes the database. *)
Lemma ResultService_confined {Reader} (objects : option (string → res Reader)) p o d :
  (∀ jobID kind page pageSize pg d',
     transact (ResultService_ListArtifacts p jobID kind page pageSize) o d = (Ok pg, d') →
     d' = d ∧ Z.of_nat (length (ap_Items pg)) <= 100
     ∧ ∀ a, a ∈ ap_Items pg → f_state a = "CANONICAL" ∧ readable p (f_owner_user_id a))
  ∧ (∀ id a reader d', transact (OpenArtifact objects p id) o d = (Ok (a, reader), d') →
     d' = d ∧ t_artifacts d !! id = Some a ∧ f_state a = "CANONICAL" ∧ readable p (f_owner_user_id a)
     ∧ f_size_bytes a <= MaxArtifactDownloadBytes)
  ∧ (∀ j s d', transact (ResultService_GetProgress p j) o d = (Ok s, d') →
     d' = d ∧ readable p (ps_OwnerUserID s))
  ∧ (∀ j page pageSize pg d', transact (ResultService_ListProgress p j page pageSize) o d = (Ok pg, d') →
     d' = d ∧ ∀ s, s ∈ pp_Items pg → p_job_id (ps_row s) = j ∧ readable p (ps_OwnerUserID s)).
Proof.
  split_and!; intros *.
  - apply ListArtifacts_confined.
  - apply OpenArtifact_confined.
  - apply GetProgress_confined.
  - apply ListProgress_confined.
Qed.

(** ** Progress moves forward *)

Definition progress_history_of (j : uuid) (l : list ProgressRow) : list ProgressRow :=
  filter (λ r, p_job_id r = j) l.

Lemma imap_pair_NoDup {A} (l : list A) : NoDup (imap pair l).*1.
Proof.
  assert ((imap pair l).*1 = seq 0 (length l)) as ->; [|apply NoDup_seq].
  apply list_eq. intros i. rw list_lookup_fmap list_lookup_imap.
  destruct (l !! i) as [x|] eqn:E; simpl.
  - rw lookup_seq_lt //. by eapply lookup_lt_Some.
  - rw lookup_seq_ge //. by apply lookup_ge_None.
Qed.

Lemma imap_pair_snd {A} (l : list A) : (imap pair l).*2 = l.
Proof. apply list_eq. intros i. rw list_lookup_fmap list_lookup_imap. by destruct (l !! i). Qed.

Lemma filter_snd {A B} (P : B → Prop) `{!∀ x, Decision (P x)} (l : list (A * B)) :
  filter P l.*2 = (filter (λ x, P x.2) l).*2.
Proof. induction l as [|[a b] l IH]; [done|]. rw /= !filter_cons /=. case_decide; simpl; by rw IH. Qed.

(** The history of a job is cut at its hundred newest rows. *)
Lemma trim_progress_length j l : (length (progress_history_of j (trim_progress j l)) <= 100)%nat.
Proof.
  unfold progress_history_of, trim_progress. set (kept := (newest_progress j l).*1).
  assert (length kept <= 100)%nat as Hk.
  { unfold kept, newest_progress. rw length_fmap length_take. lia. }
  etrans; [|exact Hk]. rw filter_snd length_fmap -(length_fmap fst).
  apply submseteq_length, NoDup_submseteq.
  - eapply sublist_NoDup; [apply (imap_pair_NoDup l)|]. apply fmap_sublist.
    etrans; [apply sublist_filter|apply sublist_filter].
  - intros i ([i' r]&->&Hr)%list_elem_of_fmap. apply list_elem_of_filter in Hr as [Hj Hr].
    apply list_elem_of_filter in Hr as [[?|?] _]; done.
Qed.

(** The histories of other jobs are left alone. *)
Lemma trim_progress_other j j' l : j' ≠ j → progress_history_of j' (trim_progress j l) = progress_history_of j' l.
Proof.
  intros Hne. unfold progress_history_of, trim_progress. rw filter_snd list_filter_filter_l.
  - intros [i r] Hr. simpl in *. left. congruence.
  - by rw -{2}(imap_pair_snd l) filter_snd.
Qed.

Definition progress_bounded (d : DB) : Prop :=
  ∀ j, (length (progress_history_of j (t_progress_history d)) <= 100)%nat.

(** The snapshot of a job after a message, against the one before. *)
Definition progress_forward (old new : ProgressRow) : Prop :=
  new = old ∨ p_attempt_id new ≠ p_attempt_id old
  ∨ (p_updated_at old < p_updated_at new ∧ p_processed_rows old <= p_processed_rows new
     ∧ (p_progress_percent old <= p_progress_percent new)%Q).

Definition progress_step (d d' : DB) : Prop :=
  (∀ j old, t_progress d !! j = Some old → ∃ new, t_progress d' !! j = Some new ∧ progress_forward old new)
  ∧ (progress_bounded d → progress_bounded d').

Lemma progress_step_eq d d' :
  t_progress d' = t_progress d → t_progress_history d' = t_progress_history d → progress_step d d'.
Proof.
  intros Hp Hh. split.
  - intros j old Hj. exists old. rw Hp. split; [done|by left].
  - unfold progress_bounded. by rw Hh.
Qed.

Lemma applyProgressed_step e o w : wp o (applyProgressed e) (λ _ w', progress_step (st w) (st w')) w.
Proof.
  unfold applyProgressed, with_attempt, lockAttempt. wp_go. wp_if; [|wp_go; by apply progress_step_eq].
  wp_if; [wp_go; by apply progress_step_eq|]. wp_if; [wp_go; by apply progress_step_eq|]. wp_go.
  wp_if as Hadv; wp_go; [|by apply progress_step_eq]. split; simpl.
  - intros j old Hj. destruct (decide (pe_JobID e = j)) as [<-|Hne].
    + rw Hj in Hadv. rw lookup_insert_eq. eexists. split; [done|]. unfold progress_advances in Hadv. right. simpl.
      apply orb_true_iff in Hadv as [Hadv|Hadv]; reflect_bool; [left; congruence|right].
      rename select (Qle_bool _ _ = true) into Hq. apply Qle_bool_iff in Hq. split_and!; [lia|lia|done].
    + rw lookup_insert_ne //. exists old. split; [done|by left].
  - intros Hb j. destruct (decide (j = pe_JobID e)) as [->|Hne]; [apply trim_progress_length|].
    simpl. rw trim_progress_other //. unfold progress_history_of. rw list.filter_app filter_cons_False; [by apply not_eq_sym|].
    rw app_nil_r. apply Hb.
Qed.

Lemma applyEvent_progress event `{!Enqueuer} o w : wp o (applyEvent event) (λ _ w', progress_step (st w) (st w')) w.
Proof.
  destruct event; simpl; [|apply applyProgressed_step|..];
    unfold applyStarted, applySucceeded, applyFailed, applyCancelled, applyArtifact, with_attempt, lockAttempt,
      fail_retry, fail_final, enqueueResultRetry, upsert_artifact, insert_dead_letter; wp_auto; by apply progress_step_eq.
Qed.

(** C31. Progress only moves forward: when a result message is processed, the
    snapshot of every job stays, or belongs to another attempt, or is strictly
    newer without losing processed rows or percentage, whatever order or
    repetition messages arrive in; and no job has more than a hundred rows of
    progress history. *)
Theorem Process_progress `{!Enqueuer} dec env o d r d' :
  transact (Process dec env) o d = (r, d') →
  (∀ j old, t_progress d !! j = Some old → ∃ new, t_progress d' !! j = Some new ∧ progress_forward old new)
  ∧ (progress_bounded d → progress_bounded d').
Proof.
  intros H1. change (progress_step d d').
  enough (match r with Ok _ => progress_step d d' | Err _ => d' = d end) as Hr.
  { destruct r; [done|subst]. by apply progress_step_eq. }
  apply (transact_res _ _ _ _ _ (λ _ d', progress_step d d') H1).
  unfold Process, process_tx, insertInbox, mark_inbox. wp_go. wp_if; wp_go; [by apply progress_step_eq|].
  eapply wp_mono; [|apply applyEvent_progress]. intros oc w' Hstep. wp_go. exact Hstep.
Qed.

(** ** Witnesses *)

#[local] Instance reads_selector : WorkerSelector := registry_selector DefaultHeartbeatTTL.

Definition ex_progress (at_ rows : Z) (percent : Q) : Decoders :=
  mkDecoders (λ _, None)
    (λ _, Some (mkProgressed ex_job ex_attempt2 ex_lease2 "SCAN" rows None percent 0 at_))
    (λ _, None) (λ _, None) (λ _, None) (λ _, None).

Definition ex_progressed (id : uuid) (dec : Decoders) (d : DB) : res Outcome * DB :=
  transact (Process dec (ex_event id MessageJobProgressed)) (ex_env 900 2000) d.

Definition ex_progress1 : DB := (ex_progressed 401 (ex_progress 10 100 50) (ex_run 7)).2.
Definition ex_progress2 : DB := (ex_progressed 402 (ex_progress 20 150 75) ex_progress1).2.

(** A newer report is applied, and the older one, delivered late, is not. *)
Lemma Process_progress_witness :
  (∃ new, t_progress ex_progress2 !! ex_job = Some new ∧ p_processed_rows new = 150
     ∧ ∀ old, t_progress ex_progress1 !! ex_job = Some old → progress_forward old new)
  ∧ (ex_progressed 403 (ex_progress 10 100 50) ex_progress2).1 = Ok (mkOutcome OutcomeIgnored "stale_progress").
Proof.
  split; [|vm_compute; reflexivity].
  destruct (t_progress ex_progress1 !! ex_job) as [old|] eqn:Hold; [|vm_compute in Hold; discriminate].
  assert (transact (Process (ex_progress 20 150 75) (ex_event 402 MessageJobProgressed)) (ex_env 900 2000) ex_progress1
          = ((ex_progressed 402 (ex_progress 20 150 75) ex_progress1).1, ex_progress2)) as Ht.
  { unfold ex_progress2, ex_progressed. apply surjective_pairing. }
  destruct (proj1 (Process_progress (ex_progress 20 150 75) (ex_event 402 MessageJobProgressed) (ex_env 900 2000)
    ex_progress1 _ _ Ht) ex_job old Hold) as (new&Hnew&Hf).
  assert (p_processed_rows <$> t_progress ex_progress2 !! ex_job = Some 150) as E by (vm_compute; reflexivity).
  rw Hnew in E. injection E as E.
  exists new. split; [exact Hnew|]. split; [exact E|]. intros old' Ho. injection Ho as <-. exact Hf.
Defined.
