(* ===== verification/UploadModel.v ===== *)
(** The data of the upload side: datasets and their versions
    (src/go/internal/dataset/models.go), multipart sessions and parts
    (src/go/internal/multipart/models.go), and the tables they are kept in
    (src/go/migrations/000003, 000004 and 000006). *)

From S2P Require Import Prelude GoStrings Json Sha256 Upload.

Open Scope Z_scope.

(** The states the CHECK constraints allow. *)
Inductive DatasetState :=
  | DatasetRegistered | DatasetUploading | DatasetAvailable | DatasetProcessing | DatasetReady
  | DatasetFailed | DatasetDeleted.

Inductive VersionState := VersionUploading | VersionAvailable | VersionFailed.

Inductive SessionState :=
  | StateInitiated | StateCompleting | StateAborting | StateCompleted | StateAborted
  | StateExpired | StateFailed.

#[export] Instance DatasetState_eq_dec : EqDecision DatasetState.
Proof. solve_decision. Defined.
#[export] Instance VersionState_eq_dec : EqDecision VersionState.
Proof. solve_decision. Defined.
#[export] Instance SessionState_eq_dec : EqDecision SessionState.
Proof. solve_decision. Defined.

(** A row of [datasets], the struct [Dataset]. *)
Record Dataset := mkDataset {
  ds_id : uuid;
  ds_owner_user_id : uuid;
  ds_name : string;
  ds_description : string;
  ds_state : DatasetState;
  ds_created_at : time;
  ds_updated_at : time;
  ds_deleted_at : option time
}.

(** A row of [dataset_versions], the struct [DatasetVersion]. *)
Record DatasetVersion := mkDatasetVersion {
  dv_id : uuid;
  dv_dataset_id : uuid;
  dv_version_number : Z;
  dv_state : VersionState;
  dv_original_filename : string;
  dv_content_type : string;
  dv_format : Format;
  dv_size_bytes : option Z;
  dv_object_key : string;
  dv_checksum_sha256 : option string;
  dv_row_count : option Z;
  dv_column_count : option Z;
  dv_encoding : option string;
  dv_compression_type : option string;
  dv_source_info : json;
  dv_artifact_prefix : string;
  dv_created_by : uuid;
  dv_created_at : time;
  dv_available_at : option time
}.

(** A row of [upload_sessions], the struct [Session]; the empty idempotency key
    stands for SQL NULL, as [CreateSession] and [scanSession] translate it. *)
Record Session := mkSession {
  us_id : uuid;
  us_owner_user_id : uuid;
  us_dataset_id : uuid;
  us_version_id : uuid;
  us_upload_id : string;
  us_object_key : string;
  us_state : SessionState;
  us_original_filename : string;
  us_content_type : string;
  us_format : Format;
  us_expected_size : Z;
  us_expected_checksum : option string;
  us_part_size : Z;
  us_part_count : Z;
  us_idempotency_key : string;
  us_expires_at : time;
  us_created_at : time;
  us_updated_at : time;
  us_completed_at : option time;
  us_aborted_at : option time;
  us_last_error : option string;
  us_operation_token : option uuid;
  us_completion_started_at : option time
}.

(** A row of [upload_parts], the struct [Part]. *)
Record Part := mkPart {
  up_session_id : uuid;
  up_part_number : Z;
  up_etag : string;
  up_size_bytes : Z;
  up_created_at : time
}.

(** A row of [dataset_state_history]. *)
Record StateHistoryRow := mkStateHistoryRow {
  sh_dataset_id : uuid;
  sh_from_state : option DatasetState;
  sh_to_state : DatasetState;
  sh_reason : string;
  sh_actor_user_id : option uuid;
  sh_created_at : time
}.

(** The tables of the upload side, with the two facts about the rest of the schema
    its constraints depend on: the users, and the versions that rows of
    [processing_jobs] refer to. *)
Record UDB := mkUDB {
  u_users : gset uuid;
  u_datasets : gmap uuid Dataset;
  u_versions : gmap uuid DatasetVersion;
  u_history : list StateHistoryRow;
  u_sessions : gmap uuid Session;
  u_parts : gmap (uuid * Z) Part;
  u_job_versions : gset uuid
}.

(** ** Column and table updates *)

Definition set_ds_state (v : DatasetState) (r : Dataset) : Dataset :=
  mkDataset (ds_id r) (ds_owner_user_id r) (ds_name r) (ds_description r) v (ds_created_at r) (ds_updated_at r) (ds_deleted_at r).
Definition set_ds_updated_at (v : time) (r : Dataset) : Dataset :=
  mkDataset (ds_id r) (ds_owner_user_id r) (ds_name r) (ds_description r) (ds_state r) (ds_created_at r) v (ds_deleted_at r).
Definition set_ds_deleted_at (v : option time) (r : Dataset) : Dataset :=
  mkDataset (ds_id r) (ds_owner_user_id r) (ds_name r) (ds_description r) (ds_state r) (ds_created_at r) (ds_updated_at r) v.
Definition set_dv_state (v : VersionState) (r : DatasetVersion) : DatasetVersion :=
  mkDatasetVersion (dv_id r) (dv_dataset_id r) (dv_version_number r) v (dv_original_filename r) (dv_content_type r) (dv_format r) (dv_size_bytes r) (dv_object_key r) (dv_checksum_sha256 r) (dv_row_count r) (dv_column_count r) (dv_encoding r) (dv_compression_type r) (dv_source_info r) (dv_artifact_prefix r) (dv_created_by r) (dv_created_at r) (dv_available_at r).
Definition set_dv_size_bytes (v : option Z) (r : DatasetVersion) : DatasetVersion :=
  mkDatasetVersion (dv_id r) (dv_dataset_id r) (dv_version_number r) (dv_state r) (dv_original_filename r) (dv_content_type r) (dv_format r) v (dv_object_key r) (dv_checksum_sha256 r) (dv_row_count r) (dv_column_count r) (dv_encoding r) (dv_compression_type r) (dv_source_info r) (dv_artifact_prefix r) (dv_created_by r) (dv_created_at r) (dv_available_at r).
Definition set_dv_checksum_sha256 (v : option string) (r : DatasetVersion) : DatasetVersion :=
  mkDatasetVersion (dv_id r) (dv_dataset_id r) (dv_version_number r) (dv_state r) (dv_original_filename r) (dv_content_type r) (dv_format r) (dv_size_bytes r) (dv_object_key r) v (dv_row_count r) (dv_column_count r) (dv_encoding r) (dv_compression_type r) (dv_source_info r) (dv_artifact_prefix r) (dv_created_by r) (dv_created_at r) (dv_available_at r).
Definition set_dv_available_at (v : option time) (r : DatasetVersion) : DatasetVersion :=
  mkDatasetVersion (dv_id r) (dv_dataset_id r) (dv_version_number r) (dv_state r) (dv_original_filename r) (dv_content_type r) (dv_format r) (dv_size_bytes r) (dv_object_key r) (dv_checksum_sha256 r) (dv_row_count r) (dv_column_count r) (dv_encoding r) (dv_compression_type r) (dv_source_info r) (dv_artifact_prefix r) (dv_created_by r) (dv_created_at r) v.
Definition set_us_state (v : SessionState) (r : Session) : Session :=
  mkSession (us_id r) (us_owner_user_id r) (us_dataset_id r) (us_version_id r) (us_upload_id r) (us_object_key r) v (us_original_filename r) (us_content_type r) (us_format r) (us_expected_size r) (us_expected_checksum r) (us_part_size r) (us_part_count r) (us_idempotency_key r) (us_expires_at r) (us_created_at r) (us_updated_at r) (us_completed_at r) (us_aborted_at r) (us_last_error r) (us_operation_token r) (us_completion_started_at r).
Definition set_us_idempotency_key (v : string) (r : Session) : Session :=
  mkSession (us_id r) (us_owner_user_id r) (us_dataset_id r) (us_version_id r) (us_upload_id r) (us_object_key r) (us_state r) (us_original_filename r) (us_content_type r) (us_format r) (us_expected_size r) (us_expected_checksum r) (us_part_size r) (us_part_count r) v (us_expires_at r) (us_created_at r) (us_updated_at r) (us_completed_at r) (us_aborted_at r) (us_last_error r) (us_operation_token r) (us_completion_started_at r).
Definition set_us_expires_at (v : time) (r : Session) : Session :=
  mkSession (us_id r) (us_owner_user_id r) (us_dataset_id r) (us_version_id r) (us_upload_id r) (us_object_key r) (us_state r) (us_original_filename r) (us_content_type r) (us_format r) (us_expected_size r) (us_expected_checksum r) (us_part_size r) (us_part_count r) (us_idempotency_key r) v (us_created_at r) (us_updated_at r) (us_completed_at r) (us_aborted_at r) (us_last_error r) (us_operation_token r) (us_completion_started_at r).
Definition set_us_updated_at (v : time) (r : Session) : Session :=
  mkSession (us_id r) (us_owner_user_id r) (us_dataset_id r) (us_version_id r) (us_upload_id r) (us_object_key r) (us_state r) (us_original_filename r) (us_content_type r) (us_format r) (us_expected_size r) (us_expected_checksum r) (us_part_size r) (us_part_count r) (us_idempotency_key r) (us_expires_at r) (us_created_at r) v (us_completed_at r) (us_aborted_at r) (us_last_error r) (us_operation_token r) (us_completion_started_at r).
Definition set_us_completed_at (v : option time) (r : Session) : Session :=
  mkSession (us_id r) (us_owner_user_id r) (us_dataset_id r) (us_version_id r) (us_upload_id r) (us_object_key r) (us_state r) (us_original_filename r) (us_content_type r) (us_format r) (us_expected_size r) (us_expected_checksum r) (us_part_size r) (us_part_count r) (us_idempotency_key r) (us_expires_at r) (us_created_at r) (us_updated_at r) v (us_aborted_at r) (us_last_error r) (us_operation_token r) (us_completion_started_at r).
Definition set_us_aborted_at (v : option time) (r : Session) : Session :=
  mkSession (us_id r) (us_owner_user_id r) (us_dataset_id r) (us_version_id r) (us_upload_id r) (us_object_key r) (us_state r) (us_original_filename r) (us_content_type r) (us_format r) (us_expected_size r) (us_expected_checksum r) (us_part_size r) (us_part_count r) (us_idempotency_key r) (us_expires_at r) (us_created_at r) (us_updated_at r) (us_completed_at r) v (us_last_error r) (us_operation_token r) (us_completion_started_at r).
Definition set_us_last_error (v : option string) (r : Session) : Session :=
  mkSession (us_id r) (us_owner_user_id r) (us_dataset_id r) (us_version_id r) (us_upload_id r) (us_object_key r) (us_state r) (us_original_filename r) (us_content_type r) (us_format r) (us_expected_size r) (us_expected_checksum r) (us_part_size r) (us_part_count r) (us_idempotency_key r) (us_expires_at r) (us_created_at r) (us_updated_at r) (us_completed_at r) (us_aborted_at r) v (us_operation_token r) (us_completion_started_at r).
Definition set_us_operation_token (v : option uuid) (r : Session) : Session :=
  mkSession (us_id r) (us_owner_user_id r) (us_dataset_id r) (us_version_id r) (us_upload_id r) (us_object_key r) (us_state r) (us_original_filename r) (us_content_type r) (us_format r) (us_expected_size r) (us_expected_checksum r) (us_part_size r) (us_part_count r) (us_idempotency_key r) (us_expires_at r) (us_created_at r) (us_updated_at r) (us_completed_at r) (us_aborted_at r) (us_last_error r) v (us_completion_started_at r).
Definition set_us_completion_started_at (v : option time) (r : Session) : Session :=
  mkSession (us_id r) (us_owner_user_id r) (us_dataset_id r) (us_version_id r) (us_upload_id r) (us_object_key r) (us_state r) (us_original_filename r) (us_content_type r) (us_format r) (us_expected_size r) (us_expected_checksum r) (us_part_size r) (us_part_count r) (us_idempotency_key r) (us_expires_at r) (us_created_at r) (us_updated_at r) (us_completed_at r) (us_aborted_at r) (us_last_error r) (us_operation_token r) v.
Definition on_u_datasets (f : gmap uuid Dataset → gmap uuid Dataset) (d : UDB) : UDB :=
  mkUDB (u_users d) (f (u_datasets d)) (u_versions d) (u_history d) (u_sessions d) (u_parts d) (u_job_versions d).
Definition on_u_versions (f : gmap uuid DatasetVersion → gmap uuid DatasetVersion) (d : UDB) : UDB :=
  mkUDB (u_users d) (u_datasets d) (f (u_versions d)) (u_history d) (u_sessions d) (u_parts d) (u_job_versions d).
Definition on_u_history (f : list StateHistoryRow → list StateHistoryRow) (d : UDB) : UDB :=
  mkUDB (u_users d) (u_datasets d) (u_versions d) (f (u_history d)) (u_sessions d) (u_parts d) (u_job_versions d).
Definition on_u_sessions (f : gmap uuid Session → gmap uuid Session) (d : UDB) : UDB :=
  mkUDB (u_users d) (u_datasets d) (u_versions d) (u_history d) (f (u_sessions d)) (u_parts d) (u_job_versions d).
Definition on_u_parts (f : gmap (uuid * Z) Part → gmap (uuid * Z) Part) (d : UDB) : UDB :=
  mkUDB (u_users d) (u_datasets d) (u_versions d) (u_history d) (u_sessions d) (f (u_parts d)) (u_job_versions d).
Definition on_u_job_versions (f : gset uuid → gset uuid) (d : UDB) : UDB :=
  mkUDB (u_users d) (u_datasets d) (u_versions d) (u_history d) (u_sessions d) (u_parts d) (f (u_job_versions d)).

Definition empty_udb (users : gset uuid) : UDB := mkUDB users ∅ ∅ [] ∅ ∅ ∅.

(** ** Text columns *)

(** What PostgreSQL stores in a TEXT column: UTF-8 without the null character. *)
Definition pg_text (s : string) : bool := utf8_valid (bytes_of s) && negb (has_byte 0 (bytes_of s)).

(** [CHAR_LENGTH]; a byte of fuel per byte. *)
Fixpoint count_runes (fuel : nat) (l : list N) : Z :=
  match fuel, l with
  | O, _ | _, [] => 0
  | S fuel, _ => 1 + count_runes fuel (drop (Nat.max 1 (rune_len l)) l)
  end.

Definition char_length (s : string) : Z := count_runes (String.length s) (bytes_of s).

(** PostgreSQL's [LOWER] and [ILIKE], which depend on the collation of the
    database. *)
Class PgCollation := {
  pg_lower : string → string;
  pg_contains_ci : string → string → bool
}.
