(* ===== verification/Svc.v ===== *)
(** The upload services run several database transactions and object-storage
    calls in a row.  Between two of them other requests and processes commit
    their own work, a call can fail, and the object store answers what it
    answers: all of that comes from an environment. *)

From S2P Require Import Prelude GoStrings Json Upload UploadModel.

Open Scope Z_scope.

(** ** Object storage (src/go/internal/storage/storage.go) *)

Record ObjectInfo := mkObjectInfo {
  oi_key : string; oi_size : Z; oi_etag : string; oi_content_type : string
}.

Record MultipartPart := mkMultipartPart {
  mp_part_number : Z; mp_etag : string; mp_size : Z
}.

(** An [io.Reader]: the bytes it yields, then the error it ends with, [None] being
    [io.EOF]. *)
Record Reader := mkReader { rd_bytes : list N; rd_error : option GoError }.

(** [io.LimitReader]; a limit that is not positive yields nothing. *)
Definition LimitReader (r : Reader) (n : Z) : Reader :=
  if Z.of_nat (length (rd_bytes r)) <? n then r else mkReader (take (Z.to_nat n) (rd_bytes r)) None.

(** [io.ReadFull] into a buffer of [n] bytes, as the code uses it: the end of the
    input is not an error.  The bytes read, and the reader after them. *)
Definition read_full (r : Reader) (n : Z) : res (list N * Reader) :=
  if Z.of_nat (length (rd_bytes r)) <? n then
    match rd_error r with Some e => Err e | None => Ok (rd_bytes r, mkReader [] None) end
  else Ok (take (Z.to_nat n) (rd_bytes r), mkReader (drop (Z.to_nat n) (rd_bytes r)) (rd_error r)).

(** The calls of [ObjectStore] and [MultipartStore], with their answers.  A [Put]
    reads a number of bytes off its reader before it answers. *)
Inductive StoreCall :=
  | CallPut (key : string) (reader : Reader) (contentType : string) (consumed : nat) (r : res ObjectInfo)
  | CallHead (key : string) (r : res ObjectInfo)
  | CallGet (key : string) (r : res Reader)
  | CallDelete (key : string) (r : res unit)
  | CallInitiateMultipart (key contentType : string) (r : res string)
  | CallPresignPart (key uploadID : string) (partNumber : Z) (expires : duration) (r : res string)
  | CallListMultipartParts (key uploadID : string) (r : res (list MultipartPart))
  | CallGetMultipartPart (key uploadID : string) (partNumber : Z) (r : res MultipartPart)
  | CallCompleteMultipart (key uploadID : string) (parts : list MultipartPart) (contentType : string) (r : res ObjectInfo)
  | CallAbortMultipart (key uploadID : string) (r : res unit).

(** ** The environment of a request *)

(** What can go wrong with a transaction besides its own errors: the server
    refuses it, or the connection is lost during the commit. *)
Inductive Fault := NoFault | Refused | CommitUnknown.

Record SEnv := {
  (* what others commit before step [n] *)
  e_db : nat → UDB → UDB;
  e_fault : nat → Fault;
  e_oracle : nat → Oracle;
  e_uuid : nat → uuid;
  e_now : nat → time;
  (* [err.Error()]: an error is modelled by its sentinel, not by its text *)
  e_text : list GoError → string;
  e_put : nat → string → Reader → string → nat * res ObjectInfo;
  e_head : nat → string → res ObjectInfo;
  e_get : nat → string → res Reader;
  e_delete : nat → string → res unit;
  e_initiate : nat → string → string → res string;
  e_presign : nat → string → string → Z → duration → res string;
  e_list_parts : nat → string → string → res (list MultipartPart);
  e_get_part : nat → string → string → Z → res MultipartPart;
  e_complete : nat → string → string → list MultipartPart → string → res ObjectInfo;
  e_abort : nat → string → string → res unit
}.

(** The state of a request: the database, the steps taken and the object-storage
    calls made so far. *)
Record SWorld := mkSWorld { sw_db : UDB; sw_step : nat; sw_calls : list StoreCall }.

(** An error is the list of the errors it joins ([errors.Join]); [errors.Is] is
    membership. *)
Inductive sres (A : Type) := SOk (a : A) | SErr (l : list GoError).
Arguments SOk {A} _.
Arguments SErr {A} _.

Definition errors_Is (l : list GoError) (e : GoError) : bool := bool_decide (e ∈ l).

Definition sres_of {A} (r : res A) : sres A := match r with Ok a => SOk a | Err e => SErr [e] end.
Definition errs {A} (r : sres A) : list GoError := match r with SOk _ => [] | SErr l => l end.

Definition Svc (A : Type) := SEnv → SWorld → sres A * SWorld.

#[export] Instance svc_ret : MRet Svc := λ A a _ w, (SOk a, w).
#[export] Instance svc_bind : MBind Svc := λ A B f m e w,
  match m e w with
  | (SOk a, w') => f a e w'
  | (SErr l, w') => (SErr l, w')
  end.

Definition svc_fail {A} (l : list GoError) : Svc A := λ _ w, (SErr l, w).
Definition svc_lift {A} (r : res A) : Svc A := λ _ w, (sres_of r, w).
Definition svc_return {A} (r : sres A) : Svc A := λ _ w, (r, w).
Definition svc_require (b : bool) (e : GoError) : Svc unit := if b then mret tt else svc_fail [e].

(** The outcome of a call as a value, for code that looks at the error. *)
Definition svc_try {A} (m : Svc A) : Svc (sres A) := λ e w, let (r, w') := m e w in (SOk r, w').

(** One step of the request: [f] is given its number. *)
Definition svc_tick {A} (f : nat → SEnv → A) : Svc A := λ e w,
  (SOk (f (sw_step w) e), mkSWorld (sw_db w) (S (sw_step w)) (sw_calls w)).

Definition svc_uuid : Svc uuid := svc_tick (λ n e, e_uuid e n).
Definition svc_now : Svc time := svc_tick (λ n e, e_now e n).
Definition svc_text (l : list GoError) : Svc string := svc_tick (λ _ e, e_text e l).

(** A transaction; one whose commit is lost has run, but the caller sees an error.
    The body may commit and report an error all the same. *)
Definition svc_transact {A} (tx : Tx UDB (res A)) : Svc A := λ e w,
  let n := sw_step w in
  let d := e_db e n (sw_db w) in
  let (r, d') := transact tx (e_oracle e n) d in
  match e_fault e n with
  | NoFault =>
      (match r with Ok r => sres_of r | Err x => SErr [x] end, mkSWorld d' (S n) (sw_calls w))
  | Refused => (SErr [ErrText "begin transaction"], mkSWorld d (S n) (sw_calls w))
  | CommitUnknown => (SErr [ErrText "commit transaction"], mkSWorld d' (S n) (sw_calls w))
  end.

Definition svc_tx {A} (tx : Tx UDB A) : Svc A := svc_transact (a ← tx; mret (Ok a)).

(** A query outside a transaction. *)
Definition svc_query {A} (q : UDB → res A) : Svc A := λ e w,
  let n := sw_step w in
  let d := e_db e n (sw_db w) in
  match e_fault e n with
  | NoFault => (sres_of (q d), mkSWorld d (S n) (sw_calls w))
  | _ => (SErr [ErrText "query"], mkSWorld d (S n) (sw_calls w))
  end.

(** An object-storage call: what it answers is logged. *)
Definition svc_store {A} (f : nat → SEnv → res A) (log : res A → StoreCall) : Svc A := λ e w,
  let r := f (sw_step w) e in
  (sres_of r, mkSWorld (sw_db w) (S (sw_step w)) (sw_calls w ++ [log r])).

Definition Put (key : string) (reader : Reader) (contentType : string) : Svc (nat * ObjectInfo) := λ e w,
  let '(consumed, r) := e_put e (sw_step w) key reader contentType in
  let consumed := Nat.min consumed (length (rd_bytes reader)) in
  (sres_of (i ← r; Ok (consumed, i)),
   mkSWorld (sw_db w) (S (sw_step w)) (sw_calls w ++ [CallPut key reader contentType consumed r])).
Definition Head (key : string) : Svc ObjectInfo := svc_store (λ n e, e_head e n key) (CallHead key).
Definition Get (key : string) : Svc Reader := svc_store (λ n e, e_get e n key) (CallGet key).
Definition Delete (key : string) : Svc unit := svc_store (λ n e, e_delete e n key) (CallDelete key).
Definition InitiateMultipart (key contentType : string) : Svc string :=
  svc_store (λ n e, e_initiate e n key contentType) (CallInitiateMultipart key contentType).
Definition PresignPart (key uploadID : string) (partNumber : Z) (expires : duration) : Svc string :=
  svc_store (λ n e, e_presign e n key uploadID partNumber expires) (CallPresignPart key uploadID partNumber expires).
Definition ListMultipartParts (key uploadID : string) : Svc (list MultipartPart) :=
  svc_store (λ n e, e_list_parts e n key uploadID) (CallListMultipartParts key uploadID).
Definition GetMultipartPart (key uploadID : string) (partNumber : Z) : Svc MultipartPart :=
  svc_store (λ n e, e_get_part e n key uploadID partNumber) (CallGetMultipartPart key uploadID partNumber).
Definition CompleteMultipart (key uploadID : string) (parts : list MultipartPart) (contentType : string) : Svc ObjectInfo :=
  svc_store (λ n e, e_complete e n key uploadID parts contentType) (CallCompleteMultipart key uploadID parts contentType).
Definition AbortMultipart (key uploadID : string) : Svc unit :=
  svc_store (λ n e, e_abort e n key uploadID) (CallAbortMultipart key uploadID).
