(* ===== verification/DatasetStore.v ===== *)
(** The dataset repository: src/go/internal/dataset/repository_datasets.go and
    repository_versions.go, with the constraints of the migrations that their
    statements can violate. *)

From S2P Require Import Prelude GoStrings Json Queue JobModel Schema Sql Sha256 Upload UploadModel Svc.

Open Scope Z_scope.

Abbreviation get_udb := (gets (λ d : UDB, d)).

Definition ErrEncoding : GoError := ErrText "invalid byte sequence for encoding".

(** INSERT INTO dataset_state_history. *)
Definition record_history (h : StateHistoryRow) : Tx UDB unit :=
  d ← get_udb;
  _ ← require (pg_text (sh_reason h)) ErrEncoding;
  _ ← require (match sh_actor_user_id h with Some u => bool_decide (u ∈ u_users d) | None => true end)
        ErrReferenceViolation;
  modify (on_u_history (λ l, l ++ [h])).

Definition update_dataset (id : uuid) (f : Dataset → Dataset) : Tx UDB unit :=
  modify (on_u_datasets (alter f id)).
Definition update_version (id : uuid) (f : DatasetVersion → DatasetVersion) : Tx UDB unit :=
  modify (on_u_versions (alter f id)).

(** SELECT .. FROM datasets WHERE id = $1 FOR UPDATE. *)
Definition lock_dataset (id : uuid) : Tx UDB Dataset :=
  d ← get_udb; lift_opt ErrDatasetNotFound (u_datasets d !! id).

(** SELECT .. FROM dataset_versions WHERE id = $1 AND dataset_id = $2 [FOR UPDATE]. *)
Definition select_version (d : UDB) (datasetID versionID : uuid) : option DatasetVersion :=
  v ← u_versions d !! versionID;
  if bool_decide (dv_dataset_id v = datasetID) then Some v else None.

Definition lock_version (datasetID versionID : uuid) : Tx UDB DatasetVersion :=
  d ← get_udb; lift_opt ErrDatasetVersionNotFound (select_version d datasetID versionID).

(** [var actor any; if actorID != uuid.Nil { actor = actorID }]. *)
Definition actor_of (actorID : uuid) : option uuid :=
  if bool_decide (actorID = uuid_nil) then None else Some actorID.

(** ** repository_datasets.go *)

Section datasets.
Context `{PC : PgCollation}.

(** The unique index on (owner_user_id, LOWER(name)) of the active datasets. *)
Definition active_name_taken (d : UDB) (ownerID : uuid) (name : string) : bool :=
  existsb (λ r, bool_decide (ds_owner_user_id r = ownerID ∧ ds_deleted_at r = None
                             ∧ pg_lower (ds_name r) = pg_lower name)) (rows (u_datasets d)).

Definition CreateDataset (ownerID : uuid) (name description : string) : Tx UDB Dataset :=
  id ← uuid_new;
  now ← sql_now;
  d ← get_udb;
  _ ← require (pg_text name && pg_text description) ErrEncoding;
  _ ← require ((1 <=? char_length name) && (char_length name <=? 120)) ErrCheckViolation;
  _ ← require (negb (bool_decide (is_Some (u_datasets d !! id)) || active_name_taken d ownerID name))
        ErrDatasetNameUsed;
  _ ← require (bool_decide (ownerID ∈ u_users d)) ErrReferenceViolation;
  let dataset := mkDataset id ownerID name description DatasetRegistered now now None in
  _ ← modify (on_u_datasets (insert id dataset));
  _ ← record_history (mkStateHistoryRow id None (ds_state dataset) "dataset_created" (Some ownerID) now);
  mret dataset.

Definition FindDataset (datasetID : uuid) (d : UDB) : res Dataset :=
  match u_datasets d !! datasetID with Some r => Ok r | None => Err ErrDatasetNotFound end.

(** The condition of [ListDatasets]; the state is compared as text. *)
Definition dataset_state_string (s : DatasetState) : string :=
  match s with
  | DatasetRegistered => "REGISTERED" | DatasetUploading => "UPLOADING" | DatasetAvailable => "AVAILABLE"
  | DatasetProcessing => "PROCESSING" | DatasetReady => "READY" | DatasetFailed => "FAILED"
  | DatasetDeleted => "DELETED"
  end.

Definition dataset_listed (ownerID : option uuid) (state name : string) (r : Dataset) : bool :=
  bool_decide (ds_deleted_at r = None)
  && match ownerID with Some u => bool_decide (ds_owner_user_id r = u) | None => true end
  && bool_decide (state = "" ∨ dataset_state_string (ds_state r) = state)
  && (bool_decide (name = "") || pg_contains_ci (ds_name r) name).

(** [ORDER BY created_at DESC, id]. *)
Definition dataset_newer (x y : Dataset) : bool :=
  (ds_created_at y <? ds_created_at x)
  || ((ds_created_at x =? ds_created_at y) && (ds_id x <? ds_id y)%N).

Record DatasetPage := mkDatasetPage { dp_items : list Dataset; dp_total : Z }.

(** The total and the page are two queries. *)
Definition CountDatasets (ownerID : option uuid) (state name : string) (d : UDB) : Z :=
  Z.of_nat (length (filter (λ r, dataset_listed ownerID state name r = true) (rows (u_datasets d)))).

Definition PageDatasets (ownerID : option uuid) (page pageSize : Z) (state name : string) (d : UDB)
  : res (list Dataset) :=
  let offset := wrap64 ((page - 1) * pageSize) in
  if offset <? 0 then Err (ErrText "OFFSET must not be negative")
  else Ok (take (Z.to_nat pageSize) (drop (Z.to_nat offset)
    (sort_by dataset_newer (filter (λ r, dataset_listed ownerID state name r = true) (rows (u_datasets d)))))).

Definition ListDatasets (ownerID : option uuid) (page pageSize : Z) (state name : string) : Svc DatasetPage :=
  let state := trim_space state in
  let name := trim_space name in
  total ← svc_query (λ d, Ok (CountDatasets ownerID state name d));
  items ← svc_query (PageDatasets ownerID page pageSize state name);
  mret (mkDatasetPage items total).
End datasets.

(** UPDATE upload_sessions .. WHERE dataset_id = $1 AND state IN ('INITIATED',
    'COMPLETING', 'ABORTING'). *)
Definition cancel_session (datasetID : uuid) (now : time) (s : Session) : Session :=
  if bool_decide (us_dataset_id s = datasetID
                  ∧ us_state s ∈ [StateInitiated; StateCompleting; StateAborting])
  then set_us_state StateAborting (set_us_expires_at (Z.min (us_expires_at s) now)
         (set_us_updated_at now (set_us_last_error (Some "dataset_deleted")
           (set_us_operation_token None (set_us_completion_started_at None s)))))
  else s.

Definition DeleteDataset (datasetID actorID : uuid) : Tx UDB unit :=
  ds ← lock_dataset datasetID;
  now ← sql_now;
  if bool_decide (ds_state ds = DatasetDeleted) then mret tt
  else
    _ ← update_dataset datasetID (λ r,
          set_ds_state DatasetDeleted (set_ds_updated_at now
            (set_ds_deleted_at (Some (default now (ds_deleted_at r))) r)));
    _ ← modify (on_u_sessions (fmap (cancel_session datasetID now)));
    record_history (mkStateHistoryRow datasetID (Some (ds_state ds)) DatasetDeleted "dataset_deleted" (Some actorID) now).

(** ** repository_versions.go *)

Record VersionReservation := mkVersionReservation {
  vr_id : uuid; vr_dataset_id : uuid; vr_created_by : uuid; vr_original_filename : string;
  vr_content_type : string; vr_format : Format; vr_object_key : string; vr_artifact_prefix : string;
  vr_source_info : json
}.

Definition versions_of (d : UDB) (datasetID : uuid) : list DatasetVersion :=
  filter (λ v, dv_dataset_id v = datasetID) (rows (u_versions d)).

(** [COALESCE(MAX(version_number), 0) + 1], an INTEGER. *)
Definition next_version_number (d : UDB) (datasetID : uuid) : Z :=
  foldr Z.max 0 (dv_version_number <$> versions_of d datasetID) + 1.

Definition reserved_version (r : VersionReservation) (number : Z) (now : time) : DatasetVersion :=
  mkDatasetVersion (vr_id r) (vr_dataset_id r) number VersionUploading (vr_original_filename r)
    (vr_content_type r) (vr_format r) None (vr_object_key r) None None None None None
    (vr_source_info r) (vr_artifact_prefix r) (vr_created_by r) now None.

(** INSERT INTO dataset_versions: the primary key, the unique version number and
    object key, the text columns and the reference to the creator. *)
Definition insert_version (v : DatasetVersion) : Tx UDB unit :=
  d ← get_udb;
  _ ← require (pg_text (dv_original_filename v) && pg_text (dv_content_type v)
               && pg_text (dv_object_key v) && pg_text (dv_artifact_prefix v)) ErrEncoding;
  _ ← require ((1 <=? char_length (dv_original_filename v)) && (char_length (dv_original_filename v) <=? 255)
               && (0 <? dv_version_number v)) ErrCheckViolation;
  _ ← require (negb (existsb (λ x, bool_decide (dv_object_key x = dv_object_key v
        ∨ dv_dataset_id x = dv_dataset_id v ∧ dv_version_number x = dv_version_number v))
        (rows (u_versions d)))) ErrUniqueViolation;
  _ ← require (bool_decide (dv_created_by v ∈ u_users d)) ErrReferenceViolation;
  insert_row (dv_id v) v (u_versions d) on_u_versions.

Definition ReserveVersion (reservation : VersionReservation) : Tx UDB DatasetVersion :=
  ds ← lock_dataset (vr_dataset_id reservation);
  _ ← require (negb (bool_decide (ds_state ds = DatasetDeleted))) ErrDatasetDeleted;
  now ← sql_now;
  d ← get_udb;
  let versionNumber := next_version_number d (vr_dataset_id reservation) in
  _ ← require (versionNumber <? 2 ^ 31) (ErrText "integer out of range");
  let version := reserved_version reservation versionNumber now in
  _ ← insert_version version;
  _ ← (if bool_decide (ds_state ds = DatasetUploading) then mret tt
       else
         _ ← update_dataset (vr_dataset_id reservation) (λ r,
               set_ds_state DatasetUploading (set_ds_updated_at now r));
         record_history (mkStateHistoryRow (vr_dataset_id reservation) (Some (ds_state ds)) DatasetUploading
           "version_upload_started" (Some (vr_created_by reservation)) now));
  mret version.

Definition FindVersion (datasetID versionID : uuid) (d : UDB) : res DatasetVersion :=
  match select_version d datasetID versionID with Some v => Ok v | None => Err ErrDatasetVersionNotFound end.

Definition FindVersionByID (versionID : uuid) (d : UDB) : res DatasetVersion :=
  match u_versions d !! versionID with Some v => Ok v | None => Err ErrDatasetVersionNotFound end.

(** The fence of a finalization that belongs to a multipart session. *)
Definition check_session (datasetID versionID sessionID operationToken : uuid) : Tx UDB unit :=
  d ← get_udb;
  s ← lift_opt ErrDatasetVersionState (u_sessions d !! sessionID);
  _ ← require (bool_decide (us_dataset_id s = datasetID ∧ us_version_id s = versionID)) ErrDatasetVersionState;
  require (bool_decide (us_state s = StateCompleting ∧ us_operation_token s = Some operationToken))
    ErrDatasetVersionState.

(** UPDATE dataset_versions SET state = 'AVAILABLE', ..: the CHECKs on the size and
    the checksum. *)
Definition make_available (versionID : uuid) (size : Z) (checksum : string) (now : time) : Tx UDB unit :=
  _ ← require ((0 <=? size) && is_digest checksum) ErrCheckViolation;
  update_version versionID (λ v,
    set_dv_state VersionAvailable (set_dv_size_bytes (Some size)
      (set_dv_checksum_sha256 (Some checksum) (set_dv_available_at (Some now) v)))).

Definition finalizeVersion (datasetID versionID actorID : uuid) (size : Z) (checksum : string)
  (sessionID operationToken : uuid) : Tx UDB DatasetVersion :=
  ds ← lock_dataset datasetID;
  _ ← require (negb (bool_decide (is_Some (ds_deleted_at ds) ∨ ds_state ds = DatasetDeleted))) ErrDatasetDeleted;
  _ ← (if bool_decide (sessionID = uuid_nil) then mret tt
       else check_session datasetID versionID sessionID operationToken);
  v ← lock_version datasetID versionID;
  now ← sql_now;
  match dv_state v with
  | VersionAvailable =>
      existingSize ← lift_opt (ErrText "cannot scan NULL") (dv_size_bytes v);
      existingChecksum ← lift_opt (ErrText "cannot scan NULL") (dv_checksum_sha256 v);
      _ ← require (bool_decide (existingSize = size ∧ existingChecksum = checksum)) ErrDatasetVersionState;
      mret v
  | VersionUploading =>
      _ ← make_available versionID size checksum now;
      _ ← update_dataset datasetID (λ r,
            if bool_decide (ds_deleted_at r = None)
            then set_ds_state DatasetAvailable (set_ds_updated_at now r) else r);
      _ ← record_history (mkStateHistoryRow datasetID (Some DatasetUploading) DatasetAvailable
            "version_upload_completed" (actor_of actorID) now);
      d ← get_udb;
      lift_res (FindVersionByID versionID d)
  | VersionFailed => fail ErrDatasetVersionState
  end.

Definition FinalizeVersion (datasetID versionID actorID : uuid) (size : Z) (checksum : string)
  : Tx UDB DatasetVersion :=
  finalizeVersion datasetID versionID actorID size checksum uuid_nil uuid_nil.

Definition FinalizeVersionForUpload (datasetID versionID actorID : uuid) (size : Z) (checksum : string)
  (sessionID operationToken : uuid) : Tx UDB DatasetVersion :=
  finalizeVersion datasetID versionID actorID size checksum sessionID operationToken.

(** DELETE FROM dataset_versions WHERE id = $1: a job that refers to the version
    forbids it; its session and parts go with it. *)
Definition delete_version (versionID : uuid) : Tx UDB unit :=
  d ← get_udb;
  _ ← require (negb (bool_decide (versionID ∈ u_job_versions d))) ErrReferenceViolation;
  let doomed (s : uuid) := match u_sessions d !! s with
                           | Some r => bool_decide (us_version_id r = versionID)
                           | None => false end in
  _ ← modify (on_u_parts (filter (λ kp, doomed kp.1.1 = false)));
  _ ← modify (on_u_sessions (filter (λ ks, us_version_id ks.2 ≠ versionID)));
  modify (on_u_versions (delete versionID)).

(** [CASE WHEN EXISTS (.. state = 'AVAILABLE') THEN 'AVAILABLE' ELSE 'REGISTERED' END]. *)
Definition restored_state (d : UDB) (datasetID : uuid) (current : DatasetState) : DatasetState :=
  if bool_decide (current = DatasetDeleted) then current
  else if existsb (λ v, bool_decide (dv_state v = VersionAvailable)) (versions_of d datasetID)
  then DatasetAvailable else DatasetRegistered.

Definition restore_dataset (datasetID : uuid) (current : DatasetState) (reason : string) (actorID : uuid) (now : time)
  : Tx UDB unit :=
  d ← get_udb;
  let nextState := restored_state d datasetID current in
  _ ← update_dataset datasetID (λ r,
        if bool_decide (ds_state r = DatasetDeleted) then r
        else set_ds_state nextState (set_ds_updated_at now r));
  record_history (mkStateHistoryRow datasetID (Some DatasetUploading) nextState reason (actor_of actorID) now).

Definition AbortVersion (datasetID versionID actorID : uuid) : Tx UDB unit :=
  ds ← lock_dataset datasetID;
  v ← lock_version datasetID versionID;
  _ ← require (bool_decide (dv_state v = VersionUploading)) ErrDatasetVersionState;
  now ← sql_now;
  _ ← delete_version versionID;
  restore_dataset datasetID (ds_state ds) "version_upload_aborted" actorID now.

Definition truncateStateReason (reason : string) : string :=
  if 200 <? go_len reason then slice_to 200 reason
  else if bool_decide (reason = "") then "version_upload_failed"
  else reason.

Definition FailVersion (datasetID versionID actorID : uuid) (reason : string) : Tx UDB unit :=
  ds ← lock_dataset datasetID;
  v ← lock_version datasetID versionID;
  match dv_state v with
  | VersionFailed => mret tt
  | VersionAvailable => fail ErrDatasetVersionState
  | VersionUploading =>
      now ← sql_now;
      _ ← update_version versionID (set_dv_state VersionFailed);
      restore_dataset datasetID (ds_state ds) (truncateStateReason reason) actorID now
  end.

(** [ORDER BY v.version_number DESC]. *)
Definition version_newer (x y : DatasetVersion) : bool := dv_version_number y <? dv_version_number x.

Definition ListVersions (datasetID : uuid) (d : UDB) : list DatasetVersion :=
  sort_by version_newer (versions_of d datasetID).
