(* ===== verification/SessionStore.v ===== *)
(** The multipart repository: src/go/internal/multipart/repository_sessions.go and
    repository_parts.go. *)

From S2P Require Import Prelude GoStrings Json Queue JobModel Schema Sql Sha256 Upload UploadModel Svc DatasetStore.

Open Scope Z_scope.

Definition update_session (id : uuid) (f : Session → Session) : Tx UDB unit :=
  modify (on_u_sessions (alter f id)).

(** The states an idempotency key is reserved in. *)
Definition active_session (s : SessionState) : bool :=
  bool_decide (s ∈ [StateInitiated; StateCompleting; StateAborting; StateCompleted]).

Definition same_key (s x : Session) : bool :=
  bool_decide (us_idempotency_key s ≠ "" ∧ us_owner_user_id x = us_owner_user_id s
               ∧ us_dataset_id x = us_dataset_id s ∧ us_idempotency_key x = us_idempotency_key s).

(** The unique constraints of [upload_sessions] besides its primary key: the keys, and the idempotency key
    of an active session. *)
Definition session_conflict (s x : Session) : bool :=
  bool_decide (us_version_id x = us_version_id s ∨ us_upload_id x = us_upload_id s
               ∨ us_object_key x = us_object_key s)
  || (same_key s x && active_session (us_state s) && active_session (us_state x)).

(** What INSERT stores: the columns the statement does not name are NULL. *)
Definition inserted_session (s : Session) : Session :=
  set_us_completed_at None (set_us_aborted_at None (set_us_last_error None
    (set_us_operation_token None (set_us_completion_started_at None s)))).

Definition session_checks (s : Session) : bool :=
  (1 <=? char_length (us_original_filename s)) && (char_length (us_original_filename s) <=? 255)
  && (0 <? us_expected_size s) && (0 <? us_part_size s) && (1 <=? us_part_count s) && (us_part_count s <=? 10000)
  && match us_expected_checksum s with Some c => is_digest c | None => true end.

Definition CreateSession (s : Session) : Tx UDB unit :=
  d ← get_udb;
  _ ← require (pg_text (us_upload_id s) && pg_text (us_object_key s) && pg_text (us_original_filename s)
               && pg_text (us_content_type s) && pg_text (us_idempotency_key s)) ErrEncoding;
  _ ← require (session_checks s) ErrCheckViolation;
  _ ← require (negb (bool_decide (is_Some (u_sessions d !! us_id s))
                     || existsb (session_conflict s) (rows (u_sessions d)))) ErrMultipartIdempotencyConflict;
  _ ← require (bool_decide (us_owner_user_id s ∈ u_users d ∧ is_Some (u_datasets d !! us_dataset_id s)
                            ∧ is_Some (u_versions d !! us_version_id s))) ErrReferenceViolation;
  modify (on_u_sessions (insert (us_id s) (inserted_session s))).

Definition FindSession (sessionID : uuid) (d : UDB) : res Session :=
  match u_sessions d !! sessionID with Some s => Ok s | None => Err ErrSessionNotFound end.

(** At most one row satisfies the condition, by the unique index. *)
Definition FindActiveByIdempotency (ownerID datasetID : uuid) (key : string) (d : UDB) : res Session :=
  match filter (λ s, us_owner_user_id s = ownerID ∧ us_dataset_id s = datasetID ∧ us_idempotency_key s = key
                     ∧ key ≠ "" ∧ active_session (us_state s) = true) (rows (u_sessions d)) with
  | s :: _ => Ok s
  | [] => Err ErrSessionNotFound
  end.

(** SELECT .. WHERE id = $1 AND owner_user_id = $2 FOR UPDATE. *)
Definition lock_owned_session (sessionID ownerID : uuid) : Tx UDB Session :=
  d ← get_udb;
  s ← lift_opt ErrSessionNotFound (u_sessions d !! sessionID);
  _ ← require (bool_decide (us_owner_user_id s = ownerID)) ErrSessionNotFound;
  mret s.

(** The column updates that start and end a completion. *)
Definition start_completion (token : uuid) (now : time) (s : Session) : Session :=
  set_us_state StateCompleting (set_us_updated_at now
    (set_us_operation_token (Some token) (set_us_completion_started_at (Some now) s))).

Definition clear_completion (s : Session) : Session :=
  set_us_operation_token None (set_us_completion_started_at None s).

(** Whether a completion in progress may be taken over. *)
Definition completion_held (s : Session) (staleBefore : time) : bool :=
  match us_operation_token s, us_completion_started_at s with
  | Some _, Some at_ => staleBefore <? at_
  | _, _ => false
  end.

(** A session past its expiry is moved to ABORTING, committed, and reported as
    expired. *)
Definition BeginComplete (sessionID ownerID : uuid) (now staleBefore : time) : Tx UDB (res Session) :=
  session ← lock_owned_session sessionID ownerID;
  let start :=
    operationToken ← uuid_new;
    _ ← update_session sessionID (start_completion operationToken now);
    mret (Ok (start_completion operationToken now session)) in
  match us_state session with
  | StateCompleted => fail ErrSessionCompleted
  | StateAborted | StateExpired | StateFailed | StateAborting => fail ErrSessionState
  | StateCompleting => if completion_held session staleBefore then fail ErrSessionInProgress else start
  | StateInitiated =>
      if now <? us_expires_at session then start
      else
        _ ← update_session sessionID (λ s,
              set_us_state StateAborting (set_us_updated_at now
                (set_us_last_error (Some "session_expired") (clear_completion s))));
        mret (Err ErrSessionExpired)
  end.

(** The partial unique index on the idempotency key refuses to make a session
    active while another active one has its key. *)
Definition key_taken (d : UDB) (s : Session) : bool :=
  existsb (λ x, bool_decide (us_id x ≠ us_id s) && same_key s x && active_session (us_state x))
    (rows (u_sessions d)).

Definition BeginAbort (sessionID ownerID : uuid) (now : time) : Tx UDB Session :=
  session ← lock_owned_session sessionID ownerID;
  match us_state session with
  | StateCompleted => fail ErrSessionCompleted
  | StateAborted | StateExpired | StateAborting => mret session
  | StateCompleting => fail ErrSessionState
  | StateInitiated | StateFailed =>
      d ← get_udb;
      _ ← require (negb (key_taken d session)) ErrUniqueViolation;
      _ ← update_session sessionID (λ s, set_us_state StateAborting (set_us_updated_at now s));
      mret (set_us_state StateAborting (set_us_updated_at now session))
  end.

Definition BeginReconciliation (sessionID : uuid) (now : time) : Tx UDB Session :=
  d ← get_udb;
  session ← lift_opt ErrSessionNotFound (u_sessions d !! sessionID);
  _ ← require (bool_decide (us_state session = StateAborting)) ErrSessionState;
  operationToken ← uuid_new;
  _ ← update_session sessionID (start_completion operationToken now);
  mret (start_completion operationToken now session).

Definition truncateError (value : string) : string :=
  if 1000 <? go_len value then slice_to 1000 value else value.

(** UPDATE .. WHERE id = $1 AND .., with [RowsAffected() == 0] reported as
    [ErrSessionState]. *)
Definition update_session_if (sessionID : uuid) (P : Session → bool) (f : Session → Session) : Tx UDB unit :=
  d ← get_udb;
  match u_sessions d !! sessionID with
  | Some s => if P s then update_session sessionID f else fail ErrSessionState
  | None => fail ErrSessionState
  end.

(** [state = 'COMPLETING' AND operation_token = $2]. *)
Definition holds_token (operationToken : uuid) (s : Session) : bool :=
  bool_decide (us_state s = StateCompleting ∧ us_operation_token s = Some operationToken).

Definition ResetCompletion (sessionID operationToken : uuid) (lastError : string) : Tx UDB unit :=
  now ← sql_now;
  _ ← require (pg_text (truncateError lastError)) ErrEncoding;
  update_session_if sessionID (holds_token operationToken) (λ s,
    set_us_state StateInitiated (set_us_updated_at now
      (set_us_last_error (Some (truncateError lastError)) (clear_completion s)))).

Definition MarkCompleted (sessionID operationToken : uuid) (completedAt : time) : Tx UDB unit :=
  update_session_if sessionID (holds_token operationToken) (λ s,
    set_us_state StateCompleted (set_us_updated_at completedAt (set_us_completed_at (Some completedAt)
      (set_us_last_error None (clear_completion s))))).

Definition MarkAborted (sessionID : uuid) (abortedAt : time) : Tx UDB unit :=
  update_session_if sessionID (λ s, bool_decide (us_state s = StateAborting ∨ us_state s = StateFailed)) (λ s,
    set_us_state StateAborted (set_us_updated_at abortedAt (set_us_aborted_at (Some abortedAt) s))).

Definition MarkFailed (sessionID operationToken : uuid) (lastError : string) : Tx UDB unit :=
  now ← sql_now;
  _ ← require (pg_text (truncateError lastError)) ErrEncoding;
  update_session_if sessionID (λ s,
      negb (bool_decide (us_state s = StateCompleted))
      && (holds_token operationToken s
          || bool_decide (us_state s = StateAborting ∧ operationToken = uuid_nil))) (λ s,
    set_us_state StateFailed (set_us_updated_at now
      (set_us_last_error (Some (truncateError lastError)) (clear_completion s)))).

(** The sessions whose expiry has passed, except those a completion is working on. *)
Definition session_claimable (now staleBefore : time) (locked : uuid → bool) (s : Session) : bool :=
  (us_expires_at s <=? now)
  && (bool_decide (us_state s = StateInitiated ∨ us_state s = StateAborting)
      || (bool_decide (us_state s = StateCompleting) && (us_updated_at s <=? staleBefore)))
  && negb (locked (us_id s)).

(** [ORDER BY expires_at, id]. *)
Definition expires_first (x y : Session) : bool :=
  (us_expires_at x <? us_expires_at y)
  || ((us_expires_at x =? us_expires_at y) && (us_id x <? us_id y)%N).

Definition claim_expired (now : time) (s : Session) : Session :=
  set_us_state StateAborting (set_us_updated_at now
    (set_us_last_error (Some "session_expired") (clear_completion s))).

Definition claim_sessions (now completionStaleBefore : time) (limit : Z) : Tx UDB (list uuid) :=
  d ← get_udb;
  locked ← locked_rows;
  let ids := us_id <$> select_limit (session_claimable now completionStaleBefore locked) expires_first limit
                         (rows (u_sessions d)) in
  _ ← forM_ ids (λ id, update_session id (claim_expired now));
  mret ids.

Fixpoint find_sessions (ids : list uuid) : Svc (list Session) :=
  match ids with
  | [] => mret []
  | id :: ids =>
      s ← svc_query (FindSession id);
      l ← find_sessions ids;
      mret (s :: l)
  end.

(** One statement claims, then every claimed session is read again. *)
Definition ClaimExpired (now completionStaleBefore : time) (limit : Z) : Svc (list Session) :=
  ids ← svc_tx (claim_sessions now completionStaleBefore limit);
  find_sessions ids.

Definition MarkExpired (sessionID : uuid) (lastError : string) (at_ : time) : Tx UDB unit :=
  _ ← require (pg_text (truncateError lastError)) ErrEncoding;
  update_session_if sessionID (λ s, bool_decide (us_state s = StateAborting)) (λ s,
    set_us_state StateExpired (set_us_updated_at at_ (set_us_aborted_at (Some at_)
      (set_us_last_error (Some (truncateError lastError)) s)))).

(** ** repository_parts.go *)

Definition FindPart (sessionID : uuid) (partNumber : Z) (d : UDB) : res Part :=
  match u_parts d !! (sessionID, partNumber) with Some p => Ok p | None => Err ErrPartNotFound end.

Definition part_before (x y : Part) : bool := up_part_number x <? up_part_number y.

Definition parts_of (d : UDB) (sessionID : uuid) : list Part :=
  filter (λ p, up_session_id p = sessionID) (map_to_list (u_parts d)).*2.

Definition ListParts (sessionID : uuid) (d : UDB) : list Part := sort_by part_before (parts_of d sessionID).

(** INSERT INTO upload_parts .. SELECT .. FROM upload_sessions WHERE .. ON CONFLICT
    DO NOTHING: the number of rows inserted. *)
Definition insert_part (sessionID : uuid) (partNumber : Z) (etag : string) (size : Z) : Tx UDB Z :=
  d ← get_udb;
  now ← sql_now;
  _ ← require (pg_text etag) ErrEncoding;
  _ ← require ((- 2 ^ 31 <=? partNumber) && (partNumber <? 2 ^ 31)) (ErrText "integer out of range");
  match u_sessions d !! sessionID with
  | Some s =>
      if bool_decide (us_state s = StateInitiated) && (now <? us_expires_at s) then
        _ ← require ((1 <=? partNumber) && (partNumber <=? 10000) && (0 <=? size)) ErrCheckViolation;
        match u_parts d !! (sessionID, partNumber) with
        | Some _ => mret 0
        | None =>
            _ ← modify (on_u_parts (insert (sessionID, partNumber) (mkPart sessionID partNumber etag size now)));
            mret 1
        end
      else mret 0
  | None => mret 0
  end.

Definition Repository_RegisterPart (sessionID : uuid) (partNumber : Z) (etag : string) (size : Z) : Svc Part :=
  affected ← svc_tx (insert_part sessionID partNumber etag size);
  _ ← (if affected =? 0 then
         session ← svc_query (FindSession sessionID);
         _ ← svc_require (bool_decide (us_state session = StateInitiated)) ErrSessionState;
         now ← svc_now;
         svc_require (now <? us_expires_at session) ErrSessionExpired
       else mret tt);
  part ← svc_query (FindPart sessionID partNumber);
  _ ← svc_require (bool_decide (up_etag part = etag ∧ up_size_bytes part = size)) ErrPartConflict;
  mret part.
