(* ===== verification/UploadSys.v ===== *)
(** The upload side as a transition system: every transaction of the dataset and
    multipart repositories, in any order and with any arguments, and what they
    preserve. *)

From S2P Require Import Prelude GoStrings Json Queue JobModel Schema Sql Sha256 Upload UploadModel Svc DatasetStore SessionStore.

Open Scope Z_scope.

(** ** Transactions *)

(** The transactions that change the tables; [op_user] is the registration of a
    user and [op_reference] the creation of a job, which requires an available
    version ([JobStore.Create]). *)
Inductive UploadOp :=
  | op_user (u : uuid)
  | op_reference (v : uuid)
  | op_CreateDataset (owner : uuid) (name description : string)
  | op_DeleteDataset (ds actor : uuid)
  | op_ReserveVersion (r : VersionReservation)
  | op_FinalizeVersion (ds v actor : uuid) (size : Z) (checksum : string)
  | op_FinalizeVersionForUpload (ds v actor : uuid) (size : Z) (checksum : string) (s token : uuid)
  | op_AbortVersion (ds v actor : uuid)
  | op_FailVersion (ds v actor : uuid) (reason : string)
  | op_CreateSession (s : Session)
  | op_BeginComplete (s owner : uuid) (now staleBefore : time)
  | op_BeginAbort (s owner : uuid) (now : time)
  | op_BeginReconciliation (s : uuid) (now : time)
  | op_ResetCompletion (s token : uuid) (lastError : string)
  | op_MarkCompleted (s token : uuid) (at_ : time)
  | op_MarkAborted (s : uuid) (at_ : time)
  | op_MarkFailed (s token : uuid) (lastError : string)
  | op_claim_sessions (now staleBefore : time) (limit : Z)
  | op_MarkExpired (s : uuid) (lastError : string) (at_ : time)
  | op_insert_part (s : uuid) (n : Z) (etag : string) (size : Z).

Definition reference_version (v : uuid) : Tx UDB unit :=
  d ← get_udb;
  r ← lift_opt ErrVersionNotFound (u_versions d !! v);
  _ ← require (bool_decide (dv_state r = VersionAvailable)) ErrVersionUnavailable;
  modify (on_u_job_versions (λ s, {[v]} ∪ s)).

Definition on_u_users (f : gset uuid → gset uuid) (d : UDB) : UDB :=
  mkUDB (f (u_users d)) (u_datasets d) (u_versions d) (u_history d) (u_sessions d) (u_parts d) (u_job_versions d).

Definition done_with {A} (m : Tx UDB A) : Tx UDB unit := _ ← m; mret tt.

Section system.
Context `{PC : PgCollation}.

Definition run_op (op : UploadOp) : Tx UDB unit :=
  match op with
  | op_user u => modify (on_u_users (λ s, {[u]} ∪ s))
  | op_reference v => reference_version v
  | op_CreateDataset owner name description => done_with (CreateDataset owner name description)
  | op_DeleteDataset ds actor => DeleteDataset ds actor
  | op_ReserveVersion r => done_with (ReserveVersion r)
  | op_FinalizeVersion ds v actor size checksum => done_with (FinalizeVersion ds v actor size checksum)
  | op_FinalizeVersionForUpload ds v actor size checksum s token =>
      done_with (FinalizeVersionForUpload ds v actor size checksum s token)
  | op_AbortVersion ds v actor => AbortVersion ds v actor
  | op_FailVersion ds v actor reason => FailVersion ds v actor reason
  | op_CreateSession s => CreateSession s
  | op_BeginComplete s owner now staleBefore => done_with (BeginComplete s owner now staleBefore)
  | op_BeginAbort s owner now => done_with (BeginAbort s owner now)
  | op_BeginReconciliation s now => done_with (BeginReconciliation s now)
  | op_ResetCompletion s token lastError => ResetCompletion s token lastError
  | op_MarkCompleted s token at_ => MarkCompleted s token at_
  | op_MarkAborted s at_ => MarkAborted s at_
  | op_MarkFailed s token lastError => MarkFailed s token lastError
  | op_claim_sessions now staleBefore limit => done_with (claim_sessions now staleBefore limit)
  | op_MarkExpired s lastError at_ => MarkExpired s lastError at_
  | op_insert_part s n etag size => done_with (insert_part s n etag size)
  end.

(** The states the service creates a session in. *)
Definition op_ok (op : UploadOp) : bool :=
  match op with
  | op_CreateSession s => bool_decide (us_state s = StateInitiated ∨ us_state s = StateAborting)
  | _ => true
  end.

(** One committed or rolled-back transaction. *)
Definition ustep (d d' : UDB) : Prop :=
  ∃ o op, op_ok op = true ∧ d' = (transact (run_op op) o d).2.

(** ** What a step does to a version *)

(** A version leaves UPLOADING once, with its size and checksum or without. *)
Inductive version_step (v : DatasetVersion) : DatasetVersion → Prop :=
  | version_stays : version_step v v
  | version_finalized size checksum now :
      dv_state v = VersionUploading → 0 <= size → is_digest checksum = true →
      version_step v (set_dv_state VersionAvailable (set_dv_size_bytes (Some size)
        (set_dv_checksum_sha256 (Some checksum) (set_dv_available_at (Some now) v))))
  | version_failed : dv_state v = VersionUploading → version_step v (set_dv_state VersionFailed v).

(** ** What a step does to a session *)

Definition session_edge (s s' : SessionState) : bool :=
  match s, s' with
  | StateInitiated, (StateCompleting | StateAborting) => true
  | StateCompleting, (StateCompleting | StateInitiated | StateCompleted | StateFailed | StateAborting) => true
  | StateAborting, (StateAborting | StateCompleting | StateAborted | StateExpired | StateFailed) => true
  | StateFailed, (StateAborting | StateAborted) => true
  | _, _ => false
  end.

(** What no transaction changes: all but the state, the expiry and the marks of
    progress. *)
Definition same_session (s s' : Session) : Prop :=
  us_id s' = us_id s ∧ us_owner_user_id s' = us_owner_user_id s ∧ us_dataset_id s' = us_dataset_id s
  ∧ us_version_id s' = us_version_id s ∧ us_upload_id s' = us_upload_id s ∧ us_object_key s' = us_object_key s
  ∧ us_original_filename s' = us_original_filename s ∧ us_content_type s' = us_content_type s
  ∧ us_format s' = us_format s ∧ us_expected_size s' = us_expected_size s
  ∧ us_expected_checksum s' = us_expected_checksum s ∧ us_part_size s' = us_part_size s
  ∧ us_part_count s' = us_part_count s ∧ us_idempotency_key s' = us_idempotency_key s
  ∧ us_created_at s' = us_created_at s.

(** A completion is held by the owner of the token, in COMPLETING only. *)
Definition token_ok (s : Session) : bool :=
  match us_state s with
  | StateCompleting => bool_decide (is_Some (us_operation_token s) ∧ is_Some (us_completion_started_at s))
  | _ => bool_decide (us_operation_token s = None ∧ us_completion_started_at s = None)
  end.

(** A token is the one the session had, or a fresh one. *)
Inductive session_step (fresh : uuid → Prop) (s : Session) : Session → Prop :=
  | session_stays : session_step fresh s s
  | session_moves s' :
      same_session s s' → session_edge (us_state s) (us_state s') = true →
      (token_ok s = true → token_ok s' = true) → us_expires_at s' <= us_expires_at s →
      (∀ t, us_operation_token s' = Some t → us_operation_token s = Some t ∨ fresh t) →
      session_step fresh s s'.

(** Every row before the step is there after it, changed by a step of its own; a
    version that was still uploading, and that no job refers to, may be gone, with
    its session and parts. *)
Record evolves (fresh : uuid → Prop) (d d' : UDB) : Prop := {
  ev_version k v : u_versions d !! k = Some v →
    match u_versions d' !! k with
    | Some v' => version_step v v'
    | None => dv_state v = VersionUploading ∧ k ∉ u_job_versions d
    end;
  ev_new_version k v : u_versions d !! k = None → u_versions d' !! k = Some v →
    dv_id v = k ∧ dv_state v = VersionUploading ∧ dv_size_bytes v = None ∧ dv_checksum_sha256 v = None
    ∧ ∀ k' v', k' ≠ k → u_versions d' !! k' = Some v' → dv_object_key v' ≠ dv_object_key v;
  ev_session k s : u_sessions d !! k = Some s →
    match u_sessions d' !! k with
    | Some s' => session_step fresh s s'
        ∧ (is_Some (u_versions d !! us_version_id s) → is_Some (u_versions d' !! us_version_id s))
    | None => ∃ v, u_versions d !! us_version_id s = Some v ∧ dv_state v = VersionUploading
                   ∧ u_versions d' !! us_version_id s = None
    end;
  ev_new_session k s : u_sessions d !! k = None → u_sessions d' !! k = Some s →
    us_id s = k ∧ token_ok s = true ∧ us_operation_token s = None ∧ is_Some (u_versions d' !! us_version_id s);
  ev_part k p : u_parts d !! k = Some p →
    u_parts d' !! k = Some p ∨ (u_parts d' !! k = None ∧ u_sessions d' !! k.1 = None);
  ev_parts_session k : is_Some (u_parts d' !! k) → is_Some (u_sessions d !! k.1) → is_Some (u_sessions d' !! k.1);
  ev_new_part k p : u_parts d !! k = None → u_parts d' !! k = Some p →
    (up_session_id p, up_part_number p) = k
    ∧ ∃ s, u_sessions d !! k.1 = Some s ∧ us_state s = StateInitiated;
  ev_job v : v ∈ u_job_versions d → v ∈ u_job_versions d';
  ev_new_job v : v ∉ u_job_versions d → v ∈ u_job_versions d' →
    ∃ r, u_versions d' !! v = Some r ∧ dv_state r = VersionAvailable
}.

(** *** The shapes of a transaction's effect *)

Lemma version_step_key v v' : version_step v v' → dv_object_key v' = dv_object_key v ∧ dv_id v' = dv_id v.
Proof. by destruct 1. Qed.

(** The versions change row by row, or gain a row. *)
Lemma evolves_versions fresh d d' :
  u_sessions d' = u_sessions d → u_parts d' = u_parts d → u_job_versions d' = u_job_versions d →
  (∀ k v, u_versions d !! k = Some v → ∃ v', u_versions d' !! k = Some v' ∧ version_step v v') →
  (∀ k v, u_versions d !! k = None → u_versions d' !! k = Some v →
     dv_id v = k ∧ dv_state v = VersionUploading ∧ dv_size_bytes v = None ∧ dv_checksum_sha256 v = None
     ∧ ∀ k' v', k' ≠ k → u_versions d' !! k' = Some v' → dv_object_key v' ≠ dv_object_key v) →
  evolves fresh d d'.
Proof.
  intros Hs Hp Hj Hold Hnew. split; rw ?Hs ?Hp ?Hj; auto.
  - intros k v Hv. destruct (Hold k v Hv) as (v'&->&?). done.
  - intros k s ->. split; [constructor|]. intros [v Hv]. destruct (Hold _ v Hv) as (v'&->&_). done.
  - intros k s H1 H2. congruence.
  - intros k p H1 H2. congruence.
  - set_solver.
Qed.

Lemma evolves_frame fresh d d' :
  u_versions d' = u_versions d → u_sessions d' = u_sessions d → u_parts d' = u_parts d →
  u_job_versions d' = u_job_versions d → evolves fresh d d'.
Proof.
  intros Hv Hs Hp Hj. apply evolves_versions; [done..| |]; rw Hv.
  - intros k v ?. exists v. split; [done|constructor].
  - congruence.
Qed.

(** The sessions change row by row. *)
Lemma evolves_sessions fresh d d' :
  u_versions d' = u_versions d → u_parts d' = u_parts d → u_job_versions d' = u_job_versions d →
  (∀ k, u_sessions d' !! k = None ↔ u_sessions d !! k = None) →
  (∀ k s s', u_sessions d !! k = Some s → u_sessions d' !! k = Some s' → session_step fresh s s') →
  evolves fresh d d'.
Proof.
  intros Hv Hp Hj Hdom Hst. split; rw ?Hv ?Hp ?Hj; auto.
  - intros k v ->. constructor.
  - congruence.
  - intros k s Hs. destruct (u_sessions d' !! k) as [s'|] eqn:E; [split; [by eapply Hst|done]|].
    apply Hdom in E. congruence.
  - intros k s Hn%Hdom. congruence.
  - intros k _. rw -!not_eq_None_Some Hdom. done.
  - congruence.
  - set_solver.
Qed.

Lemma evolves_session_alter fresh d d' id f :
  u_versions d' = u_versions d → u_parts d' = u_parts d → u_job_versions d' = u_job_versions d →
  u_sessions d' = alter f id (u_sessions d) →
  (∀ s, u_sessions d !! id = Some s → session_step fresh s (f s)) → evolves fresh d d'.
Proof.
  intros Hv Hp Hj Hs Hf. apply evolves_sessions; [done..| |]; rw Hs.
  - intros k. by rw lookup_alter_None.
  - intros k s s' Hk. destruct (decide (k = id)) as [->|Hne].
    + rw lookup_alter_eq Hk. intros [= <-]. by apply Hf.
    + rw lookup_alter_ne // Hk. intros [= <-]. constructor.
Qed.
(** *** The transactions *)

(** A transaction body that only takes the database from one state to an evolution
    of it. *)
Definition minted (o : Oracle) (t : uuid) : Prop := ∃ n, o_uuid o n = t.

Definition evolving {A} (m : Tx UDB A) : Prop := ∀ o w, wp o m (λ _ w', evolves (minted o) (st w) (st w')) w.

Lemma wp_uuid_minted o (Q : uuid → World UDB → Prop) w :
  (∀ u n, minted o u → Q u (mkWorld (st w) n)) → wp o uuid_new Q w.
Proof. intros HQ. unfold wp, uuid_new. apply HQ. by eexists. Qed.

Lemma evolving_done_with {A} (m : Tx UDB A) : evolving m → evolving (done_with m).
Proof. intros Hm o w. unfold done_with. apply wp_bind. by eapply wp_mono; [|apply Hm]. Qed.

(** The rows a body reads before it writes. *)
Lemma wp_lock_dataset o id Q w :
  (∀ ds, u_datasets (st w) !! id = Some ds → Q ds w) → wp o (lock_dataset id) Q w.
Proof. intros HQ. unfold lock_dataset. wp_steps. by apply HQ. Qed.

Lemma select_version_Some d ds k v :
  select_version d ds k = Some v ↔ u_versions d !! k = Some v ∧ dv_dataset_id v = ds.
Proof.
  unfold select_version. destruct (u_versions d !! k) as [v'|]; simpl; [|naive_solver].
  case_bool_decide; naive_solver.
Qed.

Lemma wp_lock_version o ds k Q w :
  (∀ v, u_versions (st w) !! k = Some v → dv_dataset_id v = ds → Q v w) → wp o (lock_version ds k) Q w.
Proof. intros HQ. unfold lock_version. wp_steps. apply select_version_Some in H as [? ?]. by apply HQ. Qed.

Lemma wp_record_history o h (Q : unit → World UDB → Prop) w :
  Q tt (mkWorld (on_u_history (λ l, l ++ [h]) (st w)) (tick w)) → wp o (record_history h) Q w.
Proof. intros HQ. unfold record_history. by wp_steps. Qed.

Lemma wp_lock_owned_session o id owner Q w :
  (∀ s, u_sessions (st w) !! id = Some s → us_owner_user_id s = owner → Q s w) →
  wp o (lock_owned_session id owner) Q w.
Proof. intros HQ. unfold lock_owned_session. wp_steps. reflect_bool. by apply HQ. Qed.

Lemma wp_check_session o ds v s token (Q : unit → World UDB → Prop) w :
  (∀ r, u_sessions (st w) !! s = Some r → us_dataset_id r = ds → us_version_id r = v →
     us_state r = StateCompleting → us_operation_token r = Some token → Q tt w) →
  wp o (check_session ds v s token) Q w.
Proof. intros HQ. unfold check_session. wp_steps. reflect_bool. destruct_and!. by eapply HQ. Qed.

Lemma wp_update_session_if o id P f (Q : unit → World UDB → Prop) w :
  (∀ s, u_sessions (st w) !! id = Some s → P s = true →
     Q tt (mkWorld (on_u_sessions (alter f id) (st w)) (tick w))) →
  wp o (update_session_if id P f) Q w.
Proof.
  intros HQ. unfold update_session_if. wp_steps. wp_if as Hs; [|wp_steps]. wp_if as HP; [|wp_steps].
  unfold update_session. wp_steps. by eapply HQ.
Qed.

Lemma wp_restore_dataset o ds cur reason actor now (Q : unit → World UDB → Prop) w :
  (∀ f h, Q tt (mkWorld (on_u_history h (on_u_datasets f (st w))) (tick w))) →
  wp o (restore_dataset ds cur reason actor now) Q w.
Proof.
  intros HQ. unfold restore_dataset, update_dataset. wp_steps. apply wp_record_history. apply HQ.
Qed.

Lemma holds_token_spec token s :
  holds_token token s = true ↔ us_state s = StateCompleting ∧ us_operation_token s = Some token.
Proof. apply bool_decide_eq_true. Qed.
End system.

(** Symbolic execution that remembers that identifiers are minted. *)
Ltac wp_msteps :=
  repeat lazymatch goal with
  | |- wp _ uuid_new _ _ => apply wp_uuid_minted; intros ? ? ?; cbn [st tick fst snd]
  | |- _ => wp_step
  end.

Ltac ev_frame := apply evolves_frame; reflexivity.

(** A session update by one statement: the columns that change and the edge. *)
Ltac session_move :=
  apply session_moves;
  [ repeat split
  | match goal with E : us_state _ = _ |- _ => cbn; rw E; reflexivity end
  | cbn; by intros
  | cbn; lia ].

Section transactions.
Context `{PC : PgCollation}.

Lemma CreateDataset_evolving owner name desc : evolving (CreateDataset owner name desc).
Proof. intros o w. unfold CreateDataset. wp_steps. apply wp_record_history. wp_steps. ev_frame. Qed.

Lemma DeleteDataset_evolving ds actor : evolving (DeleteDataset ds actor).
Proof.
  intros o w. unfold DeleteDataset, update_dataset. wp_step. apply wp_lock_dataset. intros r Hr. wp_steps.
  wp_if; [wp_steps; ev_frame|]. wp_steps. apply wp_record_history. cbn.
  apply evolves_sessions; cbn; [done..| |].
  - intros k. by rw lookup_fmap fmap_None.
  - intros k s s'. rw lookup_fmap fmap_Some. intros Hs (s0&Hs0&->). simplify_eq.
    unfold cancel_session. case_bool_decide as Hc; [|constructor].
    destruct Hc as [_ Hc]. apply session_moves; [by repeat split| |by cbn|cbn; lia|by cbn].
    cbn. rw !elem_of_cons in Hc. destruct Hc as [->|[->|[->|Hc%elem_of_nil]]]; done.
Qed.

Lemma ReserveVersion_evolving r : evolving (ReserveVersion r).
Proof.
  intros o w. unfold ReserveVersion, insert_version. wp_step. apply wp_lock_dataset. intros ds Hds. wp_steps.
  apply wp_insert_row. intros Hfresh. reflect_bool.
  match goal with H : existsb _ _ = false |- _ => apply existsb_false_Forall in H as Huniq end.
  assert (∀ f h, evolves (minted o) (st w) (on_u_history h (on_u_datasets f (on_u_versions
    (insert (vr_id r) (reserved_version r (next_version_number (st w) (vr_dataset_id r)) (o_sqlnow o))) (st w))))) as Hev.
  { intros f h. apply evolves_versions; cbn; [done..| |].
    - intros k v Hv. exists v. split; [|constructor]. rw lookup_insert_ne //. by intros <-; cbn in *; congruence.
    - intros k v Hk [[<- <-]|[? ?]]%lookup_insert_Some; [|congruence]. cbn. split_and!; [done..|].
      intros k' v' Hne [[]|[_ Hv']]%lookup_insert_Some; [congruence|].
      rw list.Forall_forall in Huniq. specialize (Huniq v'). rw elem_of_rows in Huniq.
      specialize (Huniq (ex_intro _ k' Hv')). apply bool_decide_eq_false in Huniq. cbn in Huniq. naive_solver. }
  cbn beta. wp_step. wp_if; wp_steps.
  - exact (Hev (λ m, m) (λ l, l)).
  - apply wp_record_history. wp_steps. apply Hev.
Qed.
(** One version changes, whatever happens to the datasets and the history. *)
Lemma evolves_version_alter fresh d f g h k v :
  u_versions d !! k = Some v → version_step v (f v) →
  evolves fresh d (on_u_history h (on_u_datasets g (on_u_versions (alter f k) d))).
Proof.
  intros Hk Hf. apply evolves_versions; cbn; [done..| |].
  - intros k' v' Hv'. destruct (decide (k' = k)) as [->|Hne].
    + simplify_eq. exists (f v). by rw lookup_alter_eq Hk.
    + exists v'. rw lookup_alter_ne //. split; [done|constructor].
  - intros k' v' Hn. by rw (proj2 (lookup_alter_None _ _ _ _) Hn).
Qed.

(** The fence of a finalization is passed by its own session only. *)
Definition fenced (d : UDB) (ds v s token : uuid) : Prop :=
  s = uuid_nil ∨ ∃ r, u_sessions d !! s = Some r ∧ us_dataset_id r = ds ∧ us_version_id r = v
                      ∧ us_state r = StateCompleting ∧ us_operation_token r = Some token.

Lemma wp_fence o ds v s token (Q : unit → World UDB → Prop) w :
  (fenced (st w) ds v s token → Q tt w) →
  wp o (if bool_decide (s = uuid_nil) then mret tt else check_session ds v s token) Q w.
Proof.
  intros HQ. wp_if as Hs; [wp_steps; apply HQ; by left|].
  apply wp_check_session. intros r ?????. apply HQ. right. by exists r.
Qed.

(** A finalization in full: what it checked, the version it returns, what it wrote. *)
Definition finalized (v : DatasetVersion) (size : Z) (sum : string) (now : time) : DatasetVersion :=
  set_dv_state VersionAvailable (set_dv_size_bytes (Some size)
    (set_dv_checksum_sha256 (Some sum) (set_dv_available_at (Some now) v))).

Lemma wp_finalizeVersion o ds v actor size sum s token (Q : DatasetVersion → World UDB → Prop) w :
  (∀ r x, u_datasets (st w) !! ds = Some r → ds_deleted_at r = None → ds_state r ≠ DatasetDeleted →
     fenced (st w) ds v s token → u_versions (st w) !! v = Some x → dv_dataset_id x = ds →
     (dv_state x = VersionAvailable → dv_size_bytes x = Some size → dv_checksum_sha256 x = Some sum → Q x w)
     ∧ (dv_state x = VersionUploading → 0 <= size → is_digest sum = true → ∀ now f h,
        Q (finalized x size sum now) (mkWorld (on_u_history h (on_u_datasets f
            (on_u_versions (alter (λ y, finalized y size sum now) v) (st w)))) (tick w)))) →
  wp o (finalizeVersion ds v actor size sum s token) Q w.
Proof.
  intros HQ. unfold finalizeVersion, make_available, update_version, update_dataset.
  wp_step. apply wp_lock_dataset. intros r Hr. do 3 wp_step. apply wp_fence. intros Hf. cbn beta.
  wp_step. apply wp_lock_version. intros x Hx Hds. wp_steps. reflect_bool.
  destruct (HQ r x Hr) as [Ha Hu]; [by destruct (ds_deleted_at r); naive_solver|naive_solver|done..|].
  wp_if as Hst; wp_steps; reflect_bool.
  - apply wp_record_history. cbn beta. wp_step. apply wp_gets. apply wp_lift_res. intros x' Hx'.
    unfold FindVersionByID in Hx'. cbn in Hx'. rw lookup_alter_eq Hx in Hx'. simplify_eq/=.
    apply Hu; [done|lia|done].
  - destruct_and!. simplify_eq. by apply Ha.
Qed.
Lemma finalizeVersion_evolving ds v actor size sum s token :
  evolving (finalizeVersion ds v actor size sum s token).
Proof.
  intros o w. apply wp_finalizeVersion. intros r x _ _ _ _ Hx _. split.
  - intros _ _ _. ev_frame.
  - intros Hst Hsz Hsum now f h. eapply evolves_version_alter; [done|]. by constructor.
Qed.

(** Deleting a version takes its session and the session's parts with it. *)
Definition without_version (k : uuid) (d : UDB) : UDB :=
  on_u_versions (delete k) (on_u_sessions (filter (λ ks, us_version_id ks.2 ≠ k))
    (on_u_parts (filter (λ kp, match u_sessions d !! kp.1.1 with
                               | Some r => bool_decide (us_version_id r = k)
                               | None => false end = false)) d)).

Lemma wp_delete_version o k (Q : unit → World UDB → Prop) w :
  (k ∉ u_job_versions (st w) → Q tt (mkWorld (without_version k (st w)) (tick w))) → wp o (delete_version k) Q w.
Proof. intros HQ. unfold delete_version. wp_steps. reflect_bool. by apply HQ. Qed.

Lemma evolves_without_version fresh d k v f h :
  u_versions d !! k = Some v → dv_state v = VersionUploading → k ∉ u_job_versions d →
  evolves fresh d (on_u_history h (on_u_datasets f (without_version k d))).
Proof.
  intros Hk Hst Hj. split; cbn; auto.
  - intros k' v' Hv'. destruct (decide (k = k')) as [<-|Hne]; [rw lookup_delete_eq; by simplify_eq|].
    rw lookup_delete_ne // Hv'. constructor.
  - intros k' v' Hn [_ Hv']%lookup_delete_Some. congruence.
  - intros k' s Hs. destruct (decide (us_version_id s = k)) as [Hv|Hv].
    + rw map_lookup_filter_None_2; [right; intros ??; cbn; naive_solver|].
      exists v. subst. by rw lookup_delete_eq.
    + rw (map_lookup_filter_Some_2 _ _ k' s) //. split; [constructor|]. by rw lookup_delete_ne.
  - intros k' s Hn [Hs _]%map_lookup_filter_Some. congruence.
  - intros k' p Hp. destruct (u_sessions d !! k'.1) as [r|] eqn:Hr; [destruct (decide (us_version_id r = k)) as [Hv|Hv]|].
    + right. split; apply map_lookup_filter_None_2; right; intros ??; cbn; [|naive_solver].
      rw Hr. by rw bool_decide_eq_true_2.
    + left. apply map_lookup_filter_Some_2; [done|]. cbn. rw Hr. by apply bool_decide_eq_false_2.
    + left. apply map_lookup_filter_Some_2; [done|]. cbn. by rw Hr.
  - intros k' [p [_ Hp]%map_lookup_filter_Some] [s Hs]. cbn in Hp. rw Hs in Hp.
    apply bool_decide_eq_false in Hp. exists s. by apply map_lookup_filter_Some_2.
  - intros k' p Hn [Hp _]%map_lookup_filter_Some. congruence.
  - set_solver.
Qed.

Lemma AbortVersion_evolving ds v actor : evolving (AbortVersion ds v actor).
Proof.
  intros o w. unfold AbortVersion. wp_step. apply wp_lock_dataset. intros r Hr.
  wp_step. apply wp_lock_version. intros x Hx _. wp_steps. reflect_bool.
  apply wp_delete_version. intros Hj. cbn beta. apply wp_restore_dataset. intros f h. by eapply evolves_without_version.
Qed.

Lemma FailVersion_evolving ds v actor reason : evolving (FailVersion ds v actor reason).
Proof.
  intros o w. unfold FailVersion, update_version. wp_step. apply wp_lock_dataset. intros r Hr.
  wp_step. apply wp_lock_version. intros x Hx _. wp_if as Hst; [|wp_steps|wp_steps; ev_frame].
  wp_steps. apply wp_restore_dataset. intros f h. eapply evolves_version_alter; [done|]. by constructor.
Qed.

Lemma CreateSession_evolving s :
  us_state s = StateInitiated ∨ us_state s = StateAborting → evolving (CreateSession s).
Proof.
  intros Hs o w. unfold CreateSession. wp_steps. reflect_bool. destruct_and!.
  assert (u_sessions (st w) !! us_id s = None) as Hfresh by (apply eq_None_not_Some; done).
  split; cbn; auto.
  - intros k v ->. constructor.
  - congruence.
  - intros k x Hx. rw lookup_insert_ne; [congruence|]. rw Hx. split; [constructor|done].
  - intros k x Hn [[<- <-]|[? ?]]%lookup_insert_Some; [|congruence]. cbn. split_and!; [done| |done..].
    by destruct Hs as [Hs|Hs]; unfold token_ok; cbn; rw Hs.
  - intros k _ [x Hx]. destruct (decide (us_id s = k.1)) as [->|]; [by rw lookup_insert_eq|].
    rw lookup_insert_ne //.
  - congruence.
  - set_solver.
Qed.

Lemma update_session_evolving fresh id s f (w : World UDB) :
  u_sessions (st w) !! id = Some s → session_step fresh s (f s) →
  evolves fresh (st w) (on_u_sessions (alter f id) (st w)).
Proof. intros Hs Hf. eapply evolves_session_alter; [done..|]. intros x Hx. by simplify_eq. Qed.

Lemma start_completion_step (fresh : uuid → Prop) s token now :
  fresh token → us_state s = StateInitiated ∨ us_state s = StateCompleting ∨ us_state s = StateAborting →
  session_step fresh s (start_completion token now s).
Proof.
  intros Hf Hs. apply session_moves; [by repeat split| |done|cbn; lia|].
  - cbn. by destruct Hs as [->|[->| ->]].
  - cbn. intros t [= <-]. by right.
Qed.

Lemma BeginComplete_evolving s owner now stale : evolving (BeginComplete s owner now stale).
Proof.
  intros o w. unfold BeginComplete, update_session. wp_step. apply wp_lock_owned_session. intros x Hx _.
  wp_if as Hst; wp_msteps.
  - wp_if; wp_msteps; (eapply update_session_evolving; [done|]).
    + apply start_completion_step; auto.
    + apply session_moves; [by repeat split|cbn; by rw Hst|by cbn|cbn; lia|by cbn].
  - wp_if; wp_msteps. eapply update_session_evolving; [done|]. apply start_completion_step; auto.
Qed.
(** A move that leaves the token columns alone, out of a state without token. *)
Lemma idle_move fresh s s' :
  same_session s s' → session_edge (us_state s) (us_state s') = true →
  us_state s ≠ StateCompleting → us_state s' ≠ StateCompleting →
  us_operation_token s' = us_operation_token s → us_completion_started_at s' = us_completion_started_at s →
  us_expires_at s' <= us_expires_at s → session_step fresh s s'.
Proof.
  intros Hsame He Hs Hs' Ht Hc Hx. apply session_moves; [done..| |done|].
  - unfold token_ok. rw Ht Hc. by destruct (us_state s), (us_state s').
  - rw Ht. by left.
Qed.

(** A move that ends a completion. *)
Lemma ending_move fresh s s' :
  same_session s s' → session_edge (us_state s) (us_state s') = true → us_state s' ≠ StateCompleting →
  us_operation_token s' = None → us_completion_started_at s' = None →
  us_expires_at s' <= us_expires_at s → session_step fresh s s'.
Proof.
  intros Hsame He Hs' Ht Hc Hx. apply session_moves; [done..| |done|].
  - intros _. unfold token_ok. rw Ht Hc. by destruct (us_state s').
  - by rw Ht.
Qed.

Lemma BeginAbort_evolving s owner now : evolving (BeginAbort s owner now).
Proof.
  intros o w. unfold BeginAbort, update_session. wp_step. apply wp_lock_owned_session. intros x Hx _.
  wp_if as Hst; wp_steps; try ev_frame; (eapply update_session_evolving; [done|]);
    (apply idle_move; cbn; rw ?Hst; try done; lia).
Qed.

Lemma BeginReconciliation_evolving s now : evolving (BeginReconciliation s now).
Proof.
  intros o w. unfold BeginReconciliation, update_session. wp_msteps. reflect_bool.
  eapply update_session_evolving; [done|]. apply start_completion_step; auto.
Qed.

Lemma ResetCompletion_evolving s token e : evolving (ResetCompletion s token e).
Proof.
  intros o w. unfold ResetCompletion. wp_steps. apply wp_update_session_if. intros x Hx [Hst _]%holds_token_spec.
  eapply update_session_evolving; [done|]. apply ending_move; cbn; rw ?Hst; try done; lia.
Qed.

Lemma MarkCompleted_evolving s token at_ : evolving (MarkCompleted s token at_).
Proof.
  intros o w. apply wp_update_session_if. intros x Hx [Hst _]%holds_token_spec.
  eapply update_session_evolving; [done|]. apply ending_move; cbn; rw ?Hst; try done; lia.
Qed.

Lemma MarkFailed_evolving s token e : evolving (MarkFailed s token e).
Proof.
  intros o w. unfold MarkFailed. wp_steps. apply wp_update_session_if. intros x Hx Hp.
  eapply update_session_evolving; [done|]. apply andb_prop in Hp as [_ Hp].
  apply orb_prop in Hp as [[Hst _]%holds_token_spec|[Hst _]%bool_decide_eq_true];
    apply ending_move; cbn; rw ?Hst; try done; lia.
Qed.

Lemma MarkAborted_evolving s at_ : evolving (MarkAborted s at_).
Proof.
  intros o w. apply wp_update_session_if. intros x Hx Hst%bool_decide_eq_true.
  eapply update_session_evolving; [done|]. destruct Hst as [Hst|Hst]; apply idle_move; cbn; rw ?Hst; try done; lia.
Qed.

Lemma MarkExpired_evolving s e at_ : evolving (MarkExpired s e at_).
Proof.
  intros o w. unfold MarkExpired. wp_steps. apply wp_update_session_if. intros x Hx Hst%bool_decide_eq_true.
  eapply update_session_evolving; [done|]. apply idle_move; cbn; rw ?Hst; try done; lia.
Qed.

Lemma insert_part_evolving s n etag size : evolving (insert_part s n etag size).
Proof.
  intros o w. unfold insert_part. wp_steps. wp_if as Hs; [|wp_steps; ev_frame].
  wp_if as Hst; [|wp_steps; ev_frame]. wp_steps. wp_if as Hp; [wp_steps; ev_frame|]. wp_steps. reflect_bool.
  split; cbn; auto.
  - intros k v ->. constructor.
  - congruence.
  - intros k x ->. split; [constructor|done].
  - congruence.
  - intros k p Hk. left. rw lookup_insert_ne //. congruence.
  - intros k p Hn [[<- <-]|[? ?]]%lookup_insert_Some; [|congruence]. cbn. eauto.
  - set_solver.
Qed.

Lemma reference_version_evolving v : evolving (reference_version v).
Proof.
  intros o w. unfold reference_version. wp_steps. reflect_bool. split; cbn; auto.
  - intros k x ->. constructor.
  - congruence.
  - intros k x ->. split; [constructor|done].
  - congruence.
  - congruence.
  - set_solver.
  - intros k Hk. rw elem_of_union elem_of_singleton. intros [->|]; [eauto|done].
Qed.

(** Session rows are stored under their identifier. *)
Definition keyed (d : UDB) : Prop := ∀ k s, u_sessions d !! k = Some s → us_id s = k.

Lemma claim_sessions_evolving now stale limit o w :
  keyed (st w) → wp o (claim_sessions now stale limit) (λ _ w', evolves (minted o) (st w) (st w')) w.
Proof.
  intros Hk. unfold claim_sessions. wp_step. wp_step. wp_step. wp_step. wp_step.
  set (ids := us_id <$> _).
  set (I := λ d', u_versions d' = u_versions (st w) ∧ u_parts d' = u_parts (st w)
    ∧ u_job_versions d' = u_job_versions (st w)
    ∧ (∀ k, u_sessions d' !! k = None ↔ u_sessions (st w) !! k = None)
    ∧ ∀ k s s', u_sessions (st w) !! k = Some s → u_sessions d' !! k = Some s' →
        s' = s ∨ (s' = claim_expired now s ∧ session_step (minted o) s s')).
  eapply wp_mono; [|apply (wp_forM _ _ _ I)].
  - intros [] w' (Hv&Hp&Hj&Hd&Hs). wp_steps. apply evolves_sessions; [done..|].
    intros k s s' H1 H2. destruct (Hs k s s' H1 H2) as [->|[_ ?]]; [constructor|done].
  - intros id w' Hid (Hv&Hp&Hj&Hd&Hs). unfold update_session. wp_steps. split_and!; cbn; [done..| |].
    + intros k. rw lookup_alter_None. apply Hd.
    + intros k s s' Hold. destruct (decide (k = id)) as [->|Hne]; [|rw lookup_alter_ne //; by apply Hs].
      rw lookup_alter_eq. intros (s1&Hs1&->)%fmap_Some. right. 
      assert (claim_expired now s1 = claim_expired now s) as ->.
      { destruct (Hs id s s1 Hold Hs1) as [->|[-> _]]; done. }
      split; [done|]. apply list_elem_of_fmap in Hid as (x&Hx&Hsel).
      apply elem_of_select_limit in Hsel as [Hc [k Hkx]%elem_of_rows].
      rw (Hk _ _ Hkx) in Hx. subst k. simplify_eq.
      apply ending_move; cbn; try done. unfold session_claimable in Hc. reflect_bool.
      apply orb_prop in H1 as [H1|H1]; reflect_bool; [destruct H1 as [->| ->]|]; try done.
      by rw H1.
  - split_and!; [done..|]. intros k s s' H1 H2. left. congruence.
Qed.

Lemma run_op_evolving op o w :
  op_ok op = true → keyed (st w) → wp o (run_op op) (λ _ w', evolves (minted o) (st w) (st w')) w.
Proof.
  intros Hop Hk. destruct op; cbn [run_op op_ok] in *.
  all: try (try apply evolving_done_with; first [ apply CreateDataset_evolving | apply DeleteDataset_evolving | apply ReserveVersion_evolving
    | apply finalizeVersion_evolving | apply AbortVersion_evolving | apply FailVersion_evolving
    | apply BeginComplete_evolving | apply BeginAbort_evolving | apply BeginReconciliation_evolving
    | apply ResetCompletion_evolving | apply MarkCompleted_evolving | apply MarkAborted_evolving
    | apply MarkFailed_evolving | apply MarkExpired_evolving | apply insert_part_evolving
    | apply reference_version_evolving ]).
  - wp_steps. ev_frame.
  - apply CreateSession_evolving. by apply bool_decide_eq_true in Hop.
  - unfold done_with. apply wp_bind. by eapply wp_mono; [|apply claim_sessions_evolving].
Qed.

Lemma transact_evolves op o d :
  op_ok op = true → keyed d → evolves (minted o) d (transact (run_op op) o d).2.
Proof.
  intros Hop Hk.
  apply (transact_wp o (run_op op) d (λ _ d', evolves (minted o) d d')); [intros _; ev_frame|].
  by apply run_op_evolving.
Qed.
End transactions.
