(* ===== verification/UploadProps.v ===== *)
(** What the transactions of the upload side guarantee, whatever their order: the
    invariant of the tables, the immutability of finished versions, the life of a
    session, and the fencing of completions. *)

From S2P Require Import Prelude GoStrings Json Queue JobModel Schema Sql Sha256 Upload UploadModel Svc DatasetStore SessionStore UploadSys.

Open Scope Z_scope.

Section props.
Context `{PC : PgCollation}.

(** ** The invariant *)

(** An available version, and no other, has a size and a checksum. *)
Definition version_ok (v : DatasetVersion) : Prop :=
  match dv_state v with
  | VersionAvailable => ∃ size sum, dv_size_bytes v = Some size ∧ dv_checksum_sha256 v = Some sum
                                    ∧ 0 <= size ∧ is_digest sum = true
  | _ => dv_size_bytes v = None ∧ dv_checksum_sha256 v = None
  end.

Record upload_inv (d : UDB) : Prop := {
  inv_version k v : u_versions d !! k = Some v → dv_id v = k ∧ version_ok v;
  inv_object_key k k' v v' : u_versions d !! k = Some v → u_versions d !! k' = Some v' →
    dv_object_key v = dv_object_key v' → k = k';
  inv_session k s : u_sessions d !! k = Some s →
    us_id s = k ∧ token_ok s = true ∧ is_Some (u_versions d !! us_version_id s);
  inv_part k p : u_parts d !! k = Some p →
    (up_session_id p, up_part_number p) = k ∧ is_Some (u_sessions d !! k.1);
  inv_job v : v ∈ u_job_versions d → ∃ r, u_versions d !! v = Some r ∧ dv_state r = VersionAvailable
}.

Lemma upload_inv_keyed d : upload_inv d → keyed d.
Proof. intros H k s Hs. by destruct (inv_session d H k s Hs). Qed.

Lemma version_step_ok v v' : version_step v v' → version_ok v → version_ok v'.
Proof. unfold version_ok. destruct 1 as [|size sum now Hs ? ?|Hs]; [done|cbn; eauto 6|]. by rw Hs. Qed.

Lemma session_step_same fresh s s' :
  session_step fresh s s' → us_id s' = us_id s ∧ us_version_id s' = us_version_id s ∧ (token_ok s = true → token_ok s' = true).
Proof. destruct 1 as [|s' (?&?&?&?&_)]; auto. Qed.

Lemma evolves_inv fresh d d' : upload_inv d → evolves fresh d d' → upload_inv d'.
Proof.
  intros HI He.
  assert (∀ k v, u_versions d' !! k = Some v → u_versions d !! k = None ∨
    ∃ v0, u_versions d !! k = Some v0 ∧ version_step v0 v) as Hv.
  { intros k v Hk. destruct (u_versions d !! k) as [v0|] eqn:E; [right|by left].
    pose proof (ev_version _ _ _ He k v0 E) as H. rw Hk in H. eauto. }
  split.
  - intros k v Hk. destruct (Hv k v Hk) as [Hn|(v0&H0&Hst)].
    + destruct (ev_new_version _ _ _ He k v Hn Hk) as (?&Hs&?&?&_). split; [done|]. unfold version_ok. by rw Hs.
    + destruct (inv_version d HI k v0 H0) as [Hid Hok]. split; [|by eapply version_step_ok].
      destruct (version_step_key _ _ Hst). congruence.
  - intros k k' v v' Hk Hk' Hkey. destruct (decide (k = k')) as [|Hne]; [done|exfalso].
    destruct (Hv k v Hk) as [Hn|(v0&H0&Hst)].
    { destruct (ev_new_version _ _ _ He k v Hn Hk) as (_&_&_&_&Hu). by apply (Hu k' v'). }
    destruct (Hv k' v' Hk') as [Hn|(v0'&H0'&Hst')].
    { destruct (ev_new_version _ _ _ He k' v' Hn Hk') as (_&_&_&_&Hu). by apply (Hu k v). }
    destruct (version_step_key _ _ Hst), (version_step_key _ _ Hst'). apply Hne.
    apply (inv_object_key d HI k k' v0 v0'); congruence.
  - intros k s Hk. destruct (u_sessions d !! k) as [s0|] eqn:E.
    + pose proof (ev_session _ _ _ He k s0 E) as H. rw Hk in H. destruct H as [Hst Hfk].
      destruct (inv_session d HI k s0 E) as (Hid&Htok&Hver).
      destruct (session_step_same _ _ _ Hst) as (->&->&Ht). auto.
    + destruct (ev_new_session _ _ _ He k s E Hk) as (?&?&_&?). done.
  - intros k p Hk. destruct (u_parts d !! k) as [p0|] eqn:E.
    + destruct (ev_part _ _ _ He k p0 E) as [Hp|[Hp _]]; [|congruence]. simplify_eq.
      destruct (inv_part d HI k p E) as [? Hs]. split; [done|].
      by apply (ev_parts_session _ _ _ He k).
    + destruct (ev_new_part _ _ _ He k p E Hk) as (?&s&Hs&_). split; [done|].
      by apply (ev_parts_session _ _ _ He k).
  - intros v Hj. destruct (decide (v ∈ u_job_versions d)) as [Hin|Hout]; [|by apply (ev_new_job _ _ _ He)].
    destruct (inv_job d HI v Hin) as (r&Hr&Hst). pose proof (ev_version _ _ _ He v r Hr) as H.
    destruct (u_versions d' !! v) as [r'|]; [|by destruct H].
    exists r'. split; [done|]. destruct H; congruence.
Qed.

Lemma empty_upload_inv users : upload_inv (empty_udb users).
Proof. split; cbn; try (intros * ; by rw lookup_empty). Qed.

Lemma ustep_inv d d' : upload_inv d → ustep d d' → upload_inv d'.
Proof.
  intros HI (o&op&Hop&->). eapply evolves_inv; [done|]. apply transact_evolves; [done|by apply upload_inv_keyed].
Qed.

Lemma usteps_inv d d' : upload_inv d → rtc ustep d d' → upload_inv d'.
Proof. intros HI. induction 1; eauto using ustep_inv. Qed.
(** C16. Whatever the order of the requests, the upload tables stay well formed: an
    available version, and no other, has a size and a SHA-256 checksum; two versions
    never share an object key; a session has an operation token and a start time in
    COMPLETING only, and belongs to an existing version; a part belongs to an existing
    session; the input of a job is an available version. *)
Theorem upload_inv_reachable users d : rtc ustep (empty_udb users) d → upload_inv d.
Proof. apply usteps_inv, empty_upload_inv. Qed.

(** ** Versions *)

Lemma version_finished d d' k v :
  upload_inv d → ustep d d' → u_versions d !! k = Some v → dv_state v ≠ VersionUploading →
  u_versions d' !! k = Some v.
Proof.
  intros HI (o&op&Hop&->) Hk Hst.
  pose proof (ev_version _ _ _ (transact_evolves op o d Hop (upload_inv_keyed d HI)) k v Hk) as H.
  destruct (u_versions (transact _ _ _).2 !! k) as [v'|]; [|by destruct H]. by destruct H.
Qed.

(** A version that has become available or failed is never changed again and never
    deleted, by any sequence of requests, clean-ups and dataset deletions. *)
Lemma versions_finished d d' k v :
  upload_inv d → rtc ustep d d' → u_versions d !! k = Some v → dv_state v ≠ VersionUploading →
  u_versions d' !! k = Some v.
Proof. intros HI Hd. revert HI. induction Hd; eauto using ustep_inv, version_finished. Qed.

(** ** Sessions *)

Definition terminal_session (s : SessionState) : bool :=
  match s with StateCompleted | StateAborted | StateExpired => true | _ => false end.

(** One transaction takes a session along an edge of its life cycle, changes
    neither its owner, its version, its upload, its key nor its expectations, never
    extends its expiry, and never moves it out of COMPLETED, ABORTED or EXPIRED; it
    disappears only with a version that was still uploading. *)
Lemma session_life d d' k s :
  upload_inv d → ustep d d' → u_sessions d !! k = Some s →
  match u_sessions d' !! k with
  | Some s' =>
      s' = s ∨ (same_session s s' ∧ session_edge (us_state s) (us_state s') = true
                ∧ us_expires_at s' <= us_expires_at s ∧ token_ok s' = true
                ∧ terminal_session (us_state s) = false)
  | None => ∃ v, u_versions d !! us_version_id s = Some v ∧ dv_state v = VersionUploading
                 ∧ u_versions d' !! us_version_id s = None
  end.
Proof.
  intros HI (o&op&Hop&->) Hk.
  pose proof (ev_session _ _ _ (transact_evolves op o d Hop (upload_inv_keyed d HI)) k s Hk) as H.
  destruct (inv_session d HI k s Hk) as (_&Htok&_).
  destruct (u_sessions (transact _ _ _).2 !! k) as [s'|]; [|done]. destruct H as [[|s'' Hsame He Ht Hx _] _]; [by left|].
  right. split_and!; auto. by destruct (us_state s).
Qed.

(** ** Fencing *)

(** Steps that do not mint the identifier [t]. *)
Definition ustep_avoiding (t : uuid) (d d' : UDB) : Prop :=
  ∃ o op, op_ok op = true ∧ ¬ minted o t ∧ d' = (transact (run_op op) o d).2.

(** The session [k] is not held with the token [t]. *)
Definition stale (k t : uuid) (d : UDB) : Prop :=
  ∀ s, u_sessions d !! k = Some s → us_operation_token s ≠ Some t.

Lemma stale_evolves (fresh : uuid → Prop) k t d d' : ¬ fresh t → evolves fresh d d' → stale k t d → stale k t d'.
Proof.
  intros Hf He Hs s' Hs'. destruct (u_sessions d !! k) as [s|] eqn:E.
  - pose proof (ev_session _ _ _ He k s E) as H. rw Hs' in H. destruct H as [[|s'' _ _ _ _ Ht] _]; [by apply Hs|].
    intros [?|?]%Ht; [by apply (Hs s)|done].
  - destruct (ev_new_session _ _ _ He k s' E Hs') as (_&_&->&_). done.
Qed.

Lemma stale_steps k t d d' : upload_inv d → rtc (ustep_avoiding t) d d' → stale k t d → stale k t d'.
Proof.
  intros HI Hd. revert HI. induction Hd as [|d1 d2 d3 (o&op&Hop&Hm&->) _ IH]; [done|]. intros HI Hs.
  pose proof (transact_evolves op o d1 Hop (upload_inv_keyed d1 HI)) as He.
  apply IH; [by eapply evolves_inv|by eapply stale_evolves].
Qed.

(** A body that satisfies no postcondition rolls back. *)
Lemma transact_refused {A} (m : Tx UDB A) o d :
  (∀ w, st w = d → wp o m (λ _ _, False) w) → ∃ e, transact m o d = (Err e, d).
Proof.
  intros Hm. destruct (wp_False o m (mkWorld d 0) (Hm (mkWorld d 0) eq_refl)) as [e He]. exists e. unfold transact. by rw He.
Qed.

Lemma stale_holds k t d s : stale k t d → u_sessions d !! k = Some s → holds_token t s = false.
Proof. intros Hs Hk. apply bool_decide_eq_false. intros [_ ?]. by apply (Hs s). Qed.

Lemma stale_update k t d o P f :
  stale k t d → (∀ s, u_sessions d !! k = Some s → P s = true → holds_token t s = true) →
  ∀ w, st w = d → wp o (update_session_if k P f) (λ _ _, False) w.
Proof.
  intros Hs HP w Hw. apply wp_update_session_if. rw Hw. intros s Hk Hp.
  specialize (HP s Hk Hp). rw (stale_holds k t d s Hs Hk) in HP. done.
Qed.

(** C15. Once a completion has lost its session (it was reset, taken over, claimed
    for expiry, or finished), its token is worthless for ever: whatever other
    requests do in between, short of minting the same identifier, the stale worker
    can neither finalize the version, nor complete, reset or fail the session; the
    database stays as it was. *)
Theorem stale_completion_rejected d d' k t o :
  upload_inv d → k ≠ uuid_nil → t ≠ uuid_nil → stale k t d → rtc (ustep_avoiding t) d d' →
  (∀ at_, transact (MarkCompleted k t at_) o d' = (Err ErrSessionState, d'))
  ∧ (∀ e, ∃ x, transact (ResetCompletion k t e) o d' = (Err x, d'))
  ∧ (∀ e, ∃ x, transact (MarkFailed k t e) o d' = (Err x, d'))
  ∧ (∀ ds v actor size sum, ∃ x,
       transact (FinalizeVersionForUpload ds v actor size sum k t) o d' = (Err x, d')).
Proof.
  intros HI Hk Ht Hs Hd. pose proof (stale_steps k t d d' HI Hd Hs) as Hs'. split_and!.
  - intros at_. unfold transact, MarkCompleted, update_session_if. cbn.
    unfold mbind, tx_bind, gets. cbn. destruct (u_sessions d' !! k) as [s|] eqn:E; [|done].
    by rw (stale_holds k t d' s Hs' E).
  - intros e. apply transact_refused. intros w Hw. unfold ResetCompletion. wp_steps.
    by eapply stale_update.
  - intros e. apply transact_refused. intros w Hw. unfold MarkFailed. wp_steps.
    eapply stale_update; [done| |done]. intros s Hks Hp. apply andb_prop in Hp as [_ Hp].
    apply orb_prop in Hp as [|Hp]; [done|]. apply bool_decide_eq_true in Hp as [_ ?]. done.
  - intros ds v actor size sum. apply transact_refused. intros w Hw. apply wp_finalizeVersion.
    intros r x _ _ _ [?|(s&Hks&_&_&_&Htok)]; [done|]. rw Hw in Hks. by destruct (Hs' s Hks).
Qed.
End props.

(** ** A run *)

#[local] Instance ascii_collation : PgCollation := {| pg_lower := λ s, s; pg_contains_ci := λ _ _, true |}.

Definition minting (u : uuid) : Oracle :=
  {| o_uuid := λ _, u; o_time := λ _, 100; o_sqlnow := 100; o_locked := λ _, false; o_rand := λ _ _, 0 |}.

Definition run_ops (l : list (uuid * UploadOp)) (d : UDB) : UDB :=
  fold_left (λ d x, (transact (run_op x.2) (minting x.1) d).2) l d.

Lemma run_ops_steps l d : forallb (λ x, op_ok x.2) l = true → rtc ustep d (run_ops l d).
Proof.
  revert d. induction l as [|x l IH]; intros d; [done|]. intros [Hx Hl]%andb_prop.
  eapply rtc_l; [|by apply IH]. by exists (minting x.1), x.2.
Qed.

Lemma run_ops_avoiding t l d :
  forallb (λ x, op_ok x.2 && negb (bool_decide (x.1 = t))) l = true → rtc (ustep_avoiding t) d (run_ops l d).
Proof.
  revert d. induction l as [|x l IH]; intros d; [done|]. intros [Hx Hl]%andb_prop. reflect_bool.
  eapply rtc_l; [|by apply IH]. exists (minting x.1), x.2. split_and!; [done| |done]. intros [n Hm]; cbn in Hm; congruence.
Qed.

(** Dataset 1 of user 7, its version 2, uploaded through session 3 by the completion
    that holds token 9. *)
Definition ex_checksum : string := Eval vm_compute in ChecksumBytes (Sum256 (bytes_of "a,b")).

Definition ex_session : Session :=
  mkSession 3 7 1 2 "upload-3" "datasets/1/versions/2/raw" StateInitiated "a.csv" "text/csv" FormatCSV 3
    (Some ex_checksum) 5242880 1 "key" 500 100 100 None None None None None.

Definition ex_started : list (uuid * UploadOp) := [
  (1%N, op_CreateDataset 7 "sales" "");
  (0%N, op_ReserveVersion (mkVersionReservation 2 1 7 "a.csv" "text/csv" FormatCSV "datasets/1/versions/2/raw" "artifacts" (JObj [])));
  (0%N, op_CreateSession ex_session);
  (9%N, op_BeginComplete 3 7 200 0)
].

Definition ex_completed : list (uuid * UploadOp) := [
  (0%N, op_FinalizeVersionForUpload 1 2 7 3 ex_checksum 3 9);
  (0%N, op_MarkCompleted 3 9 300)
].

(** The completion is taken over (token 12) before it finishes. *)
Definition ex_taken_over : list (uuid * UploadOp) := [(12%N, op_BeginComplete 3 7 400 300)].

Definition ex_db (l : list (uuid * UploadOp)) : UDB := run_ops l (empty_udb {[7%N]}).

Lemma upload_inv_reachable_witness :
  upload_inv (ex_db (ex_started ++ ex_completed))
  ∧ (us_state <$> u_sessions (ex_db (ex_started ++ ex_completed)) !! 3%N) = Some StateCompleted.
Proof.
  split; [|vm_compute; reflexivity].
  apply (upload_inv_reachable {[7%N]}). apply run_ops_steps. vm_compute. reflexivity.
Defined.

Lemma ex_inv l : forallb (λ x, op_ok x.2) l = true → upload_inv (ex_db l).
Proof. intros Hl. eapply usteps_inv; [apply empty_upload_inv|by apply run_ops_steps]. Qed.

Lemma session_life_witness :
  match u_sessions (run_ops ex_taken_over (ex_db ex_started)) !! 3%N with
  | Some s' => us_operation_token s' = Some 12%N
  | None => False
  end
  ∧ ∃ s, u_sessions (ex_db ex_started) !! 3%N = Some s
  ∧ match u_sessions (run_ops ex_taken_over (ex_db ex_started)) !! 3%N with
    | Some s' =>
        s' = s ∨ (same_session s s' ∧ session_edge (us_state s) (us_state s') = true
                  ∧ us_expires_at s' <= us_expires_at s ∧ token_ok s' = true
                  ∧ terminal_session (us_state s) = false)
    | None => ∃ v, u_versions (ex_db ex_started) !! us_version_id s = Some v ∧ dv_state v = VersionUploading
                   ∧ u_versions (run_ops ex_taken_over (ex_db ex_started)) !! us_version_id s = None
    end.
Proof.
  split; [vm_compute; reflexivity|].
  destruct (u_sessions (ex_db ex_started) !! 3%N) as [s|] eqn:E; [|vm_compute in E; discriminate].
  exists s. split; [done|]. apply (session_life (ex_db ex_started)).
  - by apply ex_inv.
  - exists (minting 12), (op_BeginComplete 3 7 400 300). split; [done|reflexivity].
  - done.
Defined.

Lemma stale_completion_rejected_witness :
  transact (MarkCompleted 3 9 500) (minting 0) (run_ops [] (run_ops ex_taken_over (ex_db ex_started)))
  = (Err ErrSessionState, run_ops [] (run_ops ex_taken_over (ex_db ex_started))).
Proof.
  apply (stale_completion_rejected (run_ops ex_taken_over (ex_db ex_started)) _ 3 9 (minting 0)).
  - apply (usteps_inv (ex_db ex_started)); [by apply ex_inv|by apply run_ops_steps].
  - done.
  - done.
  - intros s Hs. vm_compute in Hs. injection Hs as <-. done.
  - by apply run_ops_avoiding.
Defined.
