(* ===== verification/DatasetService.v ===== *)
(** The dataset service (src/go/internal/dataset/service.go): the operations of the
    API on datasets, and the direct upload of a version. *)

From S2P Require Import Prelude GoStrings Json Queue JobModel Schema Sql Authz Sha256 Upload UploadModel Svc DatasetStore.

Open Scope Z_scope.

(** The configured service: its store and object store exist, what remains is the
    limit. *)
Record DatasetServiceConfig := mkDatasetServiceConfig { MaxUploadBytes : Z }.

Record UploadRequest := mkUploadRequest {
  ur_filename : string; ur_content_type : string; ur_expected_checksum : string;
  ur_content_length : Z; ur_body : option Reader
}.

(** ** Input validation *)

Definition validateDatasetName (value : string) : res string :=
  let name := trim_space value in
  if bool_decide (name = "") || (120 <? go_len name) || contains_any name [13; 10]%N
  then Err ErrDatasetInvalidInput else Ok name.

Definition validateDescription (value : string) : res string :=
  let description := trim_space value in
  if (2000 <? go_len description) || contains_any description [13; 10]%N
  then Err ErrDatasetInvalidInput else Ok description.

Definition normalizePagination (page pageSize : Z) : res (Z * Z) :=
  let page := if page =? 0 then 1 else page in
  let pageSize := if pageSize =? 0 then 20 else pageSize in
  if (page <? 1) || (pageSize <? 1) || (100 <? pageSize) then Err ErrDatasetInvalidInput
  else Ok (page, pageSize).

Definition isDatasetState (state : string) : bool :=
  bool_decide (state ∈ ["REGISTERED"; "UPLOADING"; "AVAILABLE"; "PROCESSING"; "READY"; "FAILED"; "DELETED"]).

Definition normalizeContentType (contentType : string) : string :=
  let contentType := trim_space contentType in
  if bool_decide (contentType = "") then "application/octet-stream" else contentType.

(** The empty string stands for an absent checksum. *)
Definition normalizeExpectedChecksum (value : string) : res string :=
  if bool_decide (trim_space value = "") then Ok "" else NormalizeChecksum value.

Definition ObjectKey (datasetID versionID : uuid) : string :=
  "datasets/" +:+ uuid_string datasetID +:+ "/versions/" +:+ uuid_string versionID +:+ "/raw".

Definition ArtifactPrefix (datasetID versionID : uuid) : string :=
  "artifacts/datasets/" +:+ uuid_string datasetID +:+ "/versions/" +:+ uuid_string versionID.

Definition readPrefix (reader : Reader) : res (list N * Reader) := read_full reader SniffBytes.

(** [io.MultiReader(bytes.NewReader(prefix), remaining)]. *)
Definition prepend (prefix : list N) (r : Reader) : Reader := mkReader (prefix ++ rd_bytes r) (rd_error r).

(** [fmt.Errorf("%w: %v", sentinel, err)]. *)
Definition wrap_error {A} (sentinel : GoError) (r : res A) : res A :=
  match r with Ok a => Ok a | Err _ => Err sentinel end.

(** ** Operations *)

Section service.
Context `{PC : PgCollation} (s : DatasetServiceConfig).

Definition requireConfigured : res unit :=
  if MaxUploadBytes s <=? 0 then Err (ErrText "dataset service is not configured") else Ok tt.

Definition Dataset_Create (principal : Principal) (name description : string) : Svc Dataset :=
  _ ← svc_lift requireConfigured;
  _ ← svc_lift (RequireScope principal ScopeDatasetsWrite);
  _ ← svc_require (negb (bool_decide (UserID principal = uuid_nil))) ErrUnauthenticated;
  validatedName ← svc_lift (validateDatasetName name);
  validatedDescription ← svc_lift (validateDescription description);
  svc_tx (CreateDataset (UserID principal) validatedName validatedDescription).

Definition Dataset_List (principal : Principal) (page pageSize : Z) (state name : string) : Svc DatasetPage :=
  _ ← svc_lift requireConfigured;
  _ ← svc_lift (RequireScope principal ScopeDatasetsRead);
  '(page, pageSize) ← svc_lift (normalizePagination page pageSize);
  _ ← svc_require (bool_decide (state = "") || isDatasetState state) ErrDatasetInvalidInput;
  let ownerID := if bool_decide (Role principal = RoleAdmin) then None else Some (UserID principal) in
  ListDatasets ownerID page pageSize state name.

(** [if dataset.DeletedAt != nil || !authz.CanAccessOwner(..) { return ErrForbidden }]. *)
Definition accessible (principal : Principal) (scope : string) (dataset : Dataset) : Svc unit :=
  svc_require (bool_decide (ds_deleted_at dataset = None)
               && CanAccessOwner principal (ds_owner_user_id dataset) scope) ErrForbidden.

Definition Dataset_Get (principal : Principal) (datasetID : uuid) : Svc (Dataset * list DatasetVersion) :=
  _ ← svc_lift requireConfigured;
  _ ← svc_lift (RequireScope principal ScopeDatasetsRead);
  dataset ← svc_query (FindDataset datasetID);
  _ ← accessible principal ScopeDatasetsRead dataset;
  versions ← svc_query (λ d, Ok (ListVersions datasetID d));
  mret (dataset, versions).

Definition Dataset_Delete (principal : Principal) (datasetID : uuid) : Svc unit :=
  _ ← svc_lift requireConfigured;
  _ ← svc_lift (RequireScope principal ScopeDatasetsWrite);
  dataset ← svc_query (FindDataset datasetID);
  _ ← accessible principal ScopeDatasetsWrite dataset;
  svc_tx (DeleteDataset datasetID (UserID principal)).

Definition cleanupUpload {A} (datasetID versionID actorID : uuid) (objectKey : string) (primary : list GoError) : Svc A :=
  deleteErr ← svc_try (Delete objectKey);
  abortErr ← svc_try (svc_tx (AbortVersion datasetID versionID actorID));
  svc_fail (primary ++ errs deleteErr ++ errs abortErr).

(** What is checked once the body has been stored: the error, if any. *)
Definition upload_error (request : UploadRequest) (checksum actualChecksum : string) (actualSize : Z) (object : ObjectInfo)
  : option GoError :=
  if MaxUploadBytes s <? actualSize then Some ErrDatasetUploadTooLarge
  else if (0 <=? ur_content_length request) && negb (actualSize =? ur_content_length request)
  then Some ErrDatasetUploadSizeMismatch
  else if (0 <=? oi_size object) && negb (oi_size object =? actualSize)
  then Some ErrDatasetUploadSizeMismatch
  else if bool_decide (checksum ≠ "" ∧ checksum ≠ actualChecksum) then Some ErrDatasetChecksumMismatch
  else None.

Definition UploadVersion (principal : Principal) (datasetID : uuid) (request : UploadRequest) : Svc DatasetVersion :=
  _ ← svc_lift requireConfigured;
  _ ← svc_lift (RequireScope principal ScopeDatasetsWrite);
  dataset ← svc_query (FindDataset datasetID);
  _ ← accessible principal ScopeDatasetsWrite dataset;
  body ← svc_lift (match ur_body request with Some b => Ok b | None => Err ErrDatasetInvalidInput end);
  _ ← svc_require (ur_content_length request <=? MaxUploadBytes s) ErrDatasetUploadTooLarge;
  filename ← svc_lift (wrap_error ErrDatasetInvalidInput (NormalizeFilename (ur_filename request)));
  let contentType := normalizeContentType (ur_content_type request) in
  '(prefix, remaining) ← svc_lift (wrap_error ErrDatasetInvalidInput (readPrefix body));
  format ← svc_lift (wrap_error ErrDatasetInvalidInput (DetectFormat filename contentType prefix));
  checksum ← svc_lift (wrap_error ErrDatasetInvalidInput (normalizeExpectedChecksum (ur_expected_checksum request)));
  versionID ← svc_uuid;
  let objectKey := ObjectKey datasetID versionID in
  reservation ← svc_tx (ReserveVersion (mkVersionReservation versionID datasetID (UserID principal) filename
    contentType format objectKey (ArtifactPrefix datasetID versionID) (JObj [])));
  let reader := LimitReader (prepend prefix remaining) (wrap64 (MaxUploadBytes s + 1)) in
  put ← svc_try (Put (dv_object_key reservation) reader contentType);
  let cleanup {A} (primary : list GoError) : Svc A :=
    cleanupUpload datasetID versionID (UserID principal) (dv_object_key reservation) primary in
  match put with
  | SErr _ => cleanup [ErrObjectStorage]
  | SOk (consumed, object) =>
      let actualSize := Z.of_nat consumed in
      let actualChecksum := ChecksumBytes (Sum256 (take consumed (rd_bytes reader))) in
      match upload_error request checksum actualChecksum actualSize object with
      | Some e => cleanup [e]
      | None =>
          head ← svc_try (Head (dv_object_key reservation));
          match head with
          | SErr _ => cleanup [ErrObjectStorage]
          | SOk _ =>
              final ← svc_try (svc_tx (FinalizeVersion datasetID versionID (UserID principal) actualSize actualChecksum));
              match final with
              | SErr l => cleanup l
              | SOk version => mret version
              end
          end
      end
  end.
End service.
