(* ===== verification/MultipartService.v ===== *)
(** The multipart upload service: src/go/internal/multipart/service.go and
    service_complete.go. *)

From S2P Require Import Prelude GoStrings Json Queue JobModel Schema Sql Authz Sha256 Upload UploadModel Svc DatasetStore SessionStore DatasetService.

Open Scope Z_scope.

Definition minimumPartSize : Z := 5 * 1024 * 1024.
Definition maximumPartSize : Z := 5 * 1024 * 1024 * 1024.
Definition maximumURLTTL : duration := 7 * 24 * Hour.

Record MultipartConfig := mkMultipartConfig {
  PartSize : Z; MaxParts : Z; MaxBytes : Z;
  SessionTTL : duration; PartURLTTL : duration; CompletionGrace : duration
}.

(** [Config.validate], which [NewService] requires. *)
Definition Config_validate (s : MultipartConfig) : res unit :=
  if (PartSize s <? minimumPartSize) || (maximumPartSize <? PartSize s)
  then Err (ErrText "multipart part size")
  else if (MaxParts s <? 1) || (10000 <? MaxParts s)
  then Err (ErrText "multipart max parts must be between 1 and 10000")
  else if (MaxBytes s <? PartSize s) || (wrap64 (PartSize s * MaxParts s) <? MaxBytes s)
  then Err (ErrText "multipart max bytes must fit within configured part bounds")
  else if (SessionTTL s <=? 0) || (PartURLTTL s <=? 0) || (maximumURLTTL <? PartURLTTL s) || (CompletionGrace s <=? 0)
  then Err (ErrText "multipart session, URL TTL, and completion grace are invalid")
  else Ok tt.

Record InitiateRequest := mkInitiateRequest {
  ir_filename : string; ir_content_type : string; ir_expected_size : Z;
  ir_expected_checksum : string; ir_idempotency_key : string
}.

Record CompletePart := mkCompletePart { cp_part_number : Z; cp_etag : string }.

Record PartURL := mkPartURL { pu_part_number : Z; pu_url : string; pu_method : string; pu_expires_at : time }.

Record CleanupReport := mkCleanupReport {
  cr_claimed : Z; cr_expired : Z; cr_reconciled : Z; cr_failed : Z; cr_failures : list (list GoError)
}.

(** ** Input validation *)

Definition normalizeETag (value : string) : res string :=
  let etag := string_of_bytes (trim_byte 34 (trim_bytes (bytes_of value))) in
  if bool_decide (etag = "") || (256 <? go_len etag) || contains_any etag [13; 10]%N
  then Err ErrMultipartInvalidInput else Ok etag.

(** [strings.Trim] of double quotes, and the same after [strings.TrimSpace]. *)
Definition trim_quotes (value : string) : string := string_of_bytes (trim_byte 34 (bytes_of value)).
Definition stringsTrimQuotes (value : string) : string := trim_quotes (trim_space value).

Definition validateInitiateRequest (request : InitiateRequest)
  : res (string * string * Format * string * string) :=
  filename ← wrap_error ErrMultipartInvalidInput (NormalizeFilename (ir_filename request));
  let contentType := normalizeContentType (ir_content_type request) in
  format ← wrap_error ErrMultipartInvalidInput (DetectDeclaredFormat filename contentType);
  checksum ← (if bool_decide (trim_space (ir_expected_checksum request) = "") then Ok ""
              else wrap_error ErrMultipartInvalidInput (NormalizeChecksum (ir_expected_checksum request)));
  let idempotencyKey := trim_space (ir_idempotency_key request) in
  if (128 <? go_len idempotencyKey) || contains_any idempotencyKey [13; 10]%N
  then Err ErrMultipartInvalidInput
  else Ok (filename, contentType, format, checksum, idempotencyKey).

Definition sameInitiateRequest (session : Session) (filename contentType : string) (format : Format)
  (expectedSize : Z) (checksum : string) : bool :=
  bool_decide (us_original_filename session = filename ∧ us_content_type session = contentType
               ∧ us_format session = format ∧ us_expected_size session = expectedSize)
  && match us_expected_checksum session with
     | None => bool_decide (checksum = "")
     | Some c => bool_decide (c = checksum)
     end.

(** The size of part [n] of [count]: the part size, what remains for the last. *)
Definition expected_part_size (expectedSize partSize count n : Z) : Z :=
  if n =? count then wrap64 (expectedSize - wrap64 (partSize * (count - 1))) else partSize.

Definition validateMutablePart (session : Session) (partNumber size : Z) (now : time) : res unit :=
  if negb (bool_decide (us_state session = StateInitiated)) then
    if bool_decide (us_state session = StateCompleted) then Err ErrSessionCompleted else Err ErrSessionState
  else if negb (now <? us_expires_at session) then Err ErrSessionExpired
  else if (partNumber <? 1) || (us_part_count session <? partNumber) || (size <=? 0) then Err ErrMultipartInvalidInput
  else if negb (size =? expected_part_size (us_expected_size session) (us_part_size session)
                          (us_part_count session) partNumber)
  then Err ErrMultipartSizeMismatch
  else Ok tt.

Fixpoint normalize_parts (index : Z) (l : list CompletePart) : res (list CompletePart) :=
  match l with
  | [] => Ok []
  | requested :: l =>
      _ ← guard_err (cp_part_number requested =? index + 1) ErrMultipartInvalidInput;
      etag ← normalizeETag (cp_etag requested);
      parts ← normalize_parts (index + 1) l;
      Ok (mkCompletePart (cp_part_number requested) etag :: parts)
  end.

Definition normalizeCompleteParts (request : list CompletePart) (expectedCount : Z) : res (list CompletePart) :=
  if negb (Z.of_nat (length request) =? expectedCount) then Err ErrMultipartInvalidInput
  else normalize_parts 0 request.

(** The loop of [verifyRegisteredParts] from [index] on. *)
Fixpoint verify_registered (index count expectedSize partSize : Z) (requested : list CompletePart) (registered : list Part)
  : res unit :=
  match requested, registered with
  | requestedPart :: requested, registeredPart :: registered =>
      _ ← guard_err (bool_decide (up_part_number registeredPart = cp_part_number requestedPart
                                  ∧ up_etag registeredPart = cp_etag requestedPart)) ErrPartConflict;
      _ ← guard_err (up_size_bytes registeredPart =? expected_part_size expectedSize partSize count (index + 1))
            ErrMultipartSizeMismatch;
      verify_registered (index + 1) count expectedSize partSize requested registered
  | _, _ => Ok tt
  end.

Definition verifyRegisteredParts (requested : list CompletePart) (registered : list Part) (expectedSize partSize : Z)
  : res unit :=
  if negb (length registered =? length requested)%nat then Err ErrPartNotFound
  else verify_registered 0 (Z.of_nat (length requested)) expectedSize partSize requested registered.

Fixpoint index_parts (byNumber : gmap Z MultipartPart) (remote : list MultipartPart) : res (gmap Z MultipartPart) :=
  match remote with
  | [] => Ok byNumber
  | part :: remote =>
      _ ← guard_err (negb (bool_decide (is_Some (byNumber !! mp_part_number part)))) ErrPartConflict;
      index_parts (<[mp_part_number part := part]> byNumber) remote
  end.

Definition verifyRemoteParts (requested : list CompletePart) (remote : list MultipartPart) : res unit :=
  if negb (length remote =? length requested)%nat then Err ErrPartNotFound
  else
    byNumber ← index_parts ∅ remote;
    guard_err (forallb (λ r, match byNumber !! cp_part_number r with
                             | Some p => bool_decide (stringsTrimQuotes (mp_etag p) = cp_etag r)
                             | None => false
                             end) requested) ErrPartConflict.

Definition sessionOperationToken (session : Session) : res uuid :=
  match us_operation_token session with
  | Some t => if bool_decide (t = uuid_nil) then Err ErrSessionState else Ok t
  | None => Err ErrSessionState
  end.

(** ** Operations *)

Section service.
Context (s : MultipartConfig).

(** [SErr] is the non-nil error. *)
Definition failed {A} (r : sres A) : bool := match r with SOk _ => false | SErr _ => true end.

Definition authorizedSession (principal : Principal) (sessionID : uuid) (scope : string) : Svc Session :=
  session ← svc_query (FindSession sessionID);
  _ ← svc_require (CanAccessOwner principal (us_owner_user_id session) scope) ErrForbidden;
  mret session.

(** [cleanupReserved]: the reservation is given up, the primary error reported. *)
Definition cleanupReserved {A} (datasetID versionID actorID : uuid) (primary : list GoError) : Svc A :=
  abortErr ← svc_try (svc_tx (AbortVersion datasetID versionID actorID));
  svc_fail (primary ++ errs abortErr).

(** [cleanupReservedRemote]: the joined error of the two compensations, if any. *)
Definition cleanupReservedRemote (objectKey uploadID : string) (datasetID versionID actorID : uuid)
  : Svc (option (list GoError)) :=
  remoteErr ← svc_try (AbortMultipart objectKey uploadID);
  versionErr ← svc_try (svc_tx (AbortVersion datasetID versionID actorID));
  mret (if failed remoteErr || failed versionErr then Some (errs remoteErr ++ errs versionErr) else None).

Definition orphan_session (session : Session) (now : time) (reason : string) : Session :=
  set_us_state StateAborting (set_us_idempotency_key ""
    (set_us_expires_at now (set_us_updated_at now (set_us_last_error (Some reason) session)))).

Definition persistOrphanSession (session : Session) (now : time) (reason : string) : Svc unit :=
  svc_tx (CreateSession (orphan_session session now reason)).

(** The number of parts of an upload of [size] bytes, computed on [int64]. *)
Definition part_count (size : Z) : Z := Z.quot (size - 1) (PartSize s) + 1.

Definition new_session (sessionID versionID datasetID ownerID : uuid) (uploadID objectKey filename contentType : string)
  (format : Format) (expectedSize partCount : Z) (checksum idempotencyKey : string) (now : time) : Session :=
  mkSession sessionID ownerID datasetID versionID uploadID objectKey StateInitiated filename contentType format
    expectedSize (if bool_decide (checksum = "") then None else Some checksum) (PartSize s) partCount
    idempotencyKey (now + SessionTTL s) now now None None None None None.

(** After a session could not be recorded: compensate, then answer with the session
    that holds the idempotency key, if it is for the same request. *)
Definition recover_initiate (principal : Principal) (session : Session) (checksum : string) (now : time) (err : list GoError)
  : Svc Session :=
  cleanupErr ← cleanupReservedRemote (us_object_key session) (us_upload_id session) (us_dataset_id session)
    (us_version_id session) (UserID principal);
  match cleanupErr with
  | Some cleanupErr =>
      orphanErr ← svc_try (persistOrphanSession session now "initiation_compensation_failed");
      svc_fail (err ++ cleanupErr ++ errs orphanErr)
  | None =>
      if errors_Is err ErrMultipartIdempotencyConflict && negb (bool_decide (us_idempotency_key session = "")) then
        lookup ← svc_try (svc_query (FindActiveByIdempotency (UserID principal) (us_dataset_id session)
                   (us_idempotency_key session)));
        match lookup with
        | SOk existing =>
            if sameInitiateRequest existing (us_original_filename session) (us_content_type session)
                 (us_format session) (us_expected_size session) checksum
            then mret existing else svc_fail err
        | SErr lookupErr => svc_fail (err ++ lookupErr)
        end
      else svc_fail err
  end.

(** From the reservation of the version on. *)
Definition initiate_new (principal : Principal) (datasetID : uuid) (filename contentType : string) (format : Format)
  (expectedSize partCount : Z) (checksum idempotencyKey : string) : Svc Session :=
  now ← svc_now;
  sessionID ← svc_uuid;
  versionID ← svc_uuid;
  let objectKey := ObjectKey datasetID versionID in
  version ← svc_tx (ReserveVersion (mkVersionReservation versionID datasetID (UserID principal) filename contentType
    format objectKey (ArtifactPrefix datasetID versionID)
    (JObj [("sessionId", json_uuid sessionID); ("uploadMode", JStr "multipart")])));
  upload ← svc_try (InitiateMultipart objectKey contentType);
  match upload with
  | SErr _ => cleanupReserved datasetID versionID (UserID principal) [ErrRemoteStorage]
  | SOk uploadID =>
      let session := new_session sessionID (dv_id version) datasetID (UserID principal) uploadID objectKey filename
        contentType format expectedSize partCount checksum idempotencyKey now in
      created ← svc_try (svc_tx (CreateSession session));
      match created with
      | SOk _ => mret session
      | SErr err => recover_initiate principal session checksum now err
      end
  end.

Definition Initiate (principal : Principal) (datasetID : uuid) (request : InitiateRequest) : Svc Session :=
  _ ← svc_lift (RequireScope principal ScopeDatasetsWrite);
  _ ← svc_require (negb (bool_decide (UserID principal = uuid_nil))) ErrUnauthenticated;
  item ← svc_query (FindDataset datasetID);
  _ ← accessible principal ScopeDatasetsWrite item;
  '(filename, contentType, format, checksum, idempotencyKey) ← svc_lift (validateInitiateRequest request);
  _ ← svc_require (0 <? ir_expected_size request) ErrMultipartInvalidInput;
  _ ← svc_require (ir_expected_size request <=? MaxBytes s) ErrMultipartUploadTooLarge;
  let partCount := part_count (ir_expected_size request) in
  _ ← svc_require ((1 <=? partCount) && (partCount <=? MaxParts s)) ErrMultipartInvalidInput;
  let fresh := initiate_new principal datasetID filename contentType format (ir_expected_size request) partCount
    checksum idempotencyKey in
  if bool_decide (idempotencyKey = "") then fresh
  else
    lookup ← svc_try (svc_query (FindActiveByIdempotency (UserID principal) datasetID idempotencyKey));
    match lookup with
    | SOk existing =>
        if sameInitiateRequest existing filename contentType format (ir_expected_size request) checksum
        then mret existing else svc_fail [ErrMultipartIdempotencyConflict]
    | SErr lookupErr => if errors_Is lookupErr ErrSessionNotFound then fresh else svc_fail lookupErr
    end.

Definition Multipart_Get (principal : Principal) (sessionID : uuid) : Svc (Session * list Part) :=
  _ ← svc_lift (RequireScope principal ScopeDatasetsRead);
  session ← authorizedSession principal sessionID ScopeDatasetsRead;
  parts ← svc_query (λ d, Ok (ListParts sessionID d));
  mret (session, parts).

Definition Multipart_ListParts (principal : Principal) (sessionID : uuid) : Svc (list Part) :=
  detail ← Multipart_Get principal sessionID;
  mret detail.2.

Definition Multipart_PresignPart (principal : Principal) (sessionID : uuid) (partNumber : Z) : Svc PartURL :=
  _ ← svc_lift (RequireScope principal ScopeDatasetsWrite);
  session ← authorizedSession principal sessionID ScopeDatasetsWrite;
  now ← svc_now;
  _ ← svc_require (now <? us_expires_at session) ErrSessionExpired;
  _ ← (if bool_decide (us_state session = StateInitiated) then mret tt
       else if bool_decide (us_state session = StateCompleted) then svc_fail [ErrSessionCompleted]
       else svc_fail [ErrSessionState]);
  _ ← svc_require ((1 <=? partNumber) && (partNumber <=? us_part_count session)) ErrMultipartInvalidInput;
  let expiresAt := Z.min (now + PartURLTTL s) (us_expires_at session) in
  urlValue ← svc_try (PresignPart (us_object_key session) (us_upload_id session) partNumber (expiresAt - now));
  match urlValue with
  | SErr _ => svc_fail [ErrRemoteStorage]
  | SOk urlValue => mret (mkPartURL partNumber urlValue "PUT" expiresAt)
  end.

Definition Multipart_RegisterPart (principal : Principal) (sessionID : uuid) (partNumber : Z) (etag : string) (size : Z)
  : Svc Part :=
  _ ← svc_lift (RequireScope principal ScopeDatasetsWrite);
  session ← authorizedSession principal sessionID ScopeDatasetsWrite;
  now ← svc_now;
  _ ← svc_lift (validateMutablePart session partNumber size now);
  normalizedETag ← svc_lift (normalizeETag etag);
  lookup ← svc_try (svc_query (FindPart sessionID partNumber));
  match lookup with
  | SOk existing =>
      if bool_decide (up_etag existing = normalizedETag ∧ up_size_bytes existing = size)
      then mret existing else svc_fail [ErrPartConflict]
  | SErr lookupErr =>
      if negb (errors_Is lookupErr ErrPartNotFound) then svc_fail lookupErr
      else
        remote ← svc_try (GetMultipartPart (us_object_key session) (us_upload_id session) partNumber);
        match remote with
        | SErr err =>
            if errors_Is err ErrMultipartPartNotFound then svc_fail [ErrPartNotFound] else svc_fail [ErrRemoteStorage]
        | SOk remotePart =>
            _ ← svc_require (bool_decide (trim_quotes (mp_etag remotePart) = normalizedETag
                                          ∧ mp_size remotePart = size)) ErrPartConflict;
            Repository_RegisterPart sessionID partNumber normalizedETag size
        end
  end.

Definition Abort_session (principal : Principal) (sessionID : uuid) : Svc unit :=
  _ ← svc_lift (RequireScope principal ScopeDatasetsWrite);
  session ← authorizedSession principal sessionID ScopeDatasetsWrite;
  now ← svc_now;
  session ← svc_tx (BeginAbort sessionID (us_owner_user_id session) now);
  if bool_decide (us_state session = StateAborted ∨ us_state session = StateExpired) then mret tt
  else
    _ ← svc_require (bool_decide (us_state session = StateAborting)) ErrSessionState;
    remote ← svc_try (AbortMultipart (us_object_key session) (us_upload_id session));
    if failed remote then svc_fail [ErrRemoteStorage]
    else
      versionErr ← svc_try (svc_tx (FailVersion (us_dataset_id session) (us_version_id session) (UserID principal)
                     "multipart_upload_aborted"));
      markErr ← svc_try (svc_tx (MarkAborted sessionID now));
      if failed versionErr || failed markErr then svc_fail (errs versionErr ++ errs markErr) else mret tt.
End service.
