(* ===== verification/CompleteService.v ===== *)
(** Completion of a multipart upload, and the clean-up of expired sessions
    (src/go/internal/multipart/service_complete.go and [CleanupExpired] of
    service.go). *)

From S2P Require Import Prelude GoStrings Json Queue JobModel Schema Sql Authz Sha256 Upload UploadModel Svc DatasetStore SessionStore DatasetService MultipartService.

Open Scope Z_scope.

(** [resetCompletion]: give the session back, report the primary error. *)
Definition resetCompletion {A} (sessionID operationToken : uuid) (primary : list GoError) : Svc A :=
  message ← svc_text primary;
  resetErr ← svc_try (svc_tx (ResetCompletion sessionID operationToken message));
  svc_fail (primary ++ errs resetErr).

Definition failInvalidObject {A} (session : Session) (operationToken : uuid) (primary : list GoError) : Svc A :=
  deleteErr ← svc_try (Delete (us_object_key session));
  versionErr ← svc_try (svc_tx (FailVersion (us_dataset_id session) (us_version_id session) uuid_nil
                 "multipart_object_verification_failed"));
  message ← svc_text primary;
  markErr ← svc_try (svc_tx (MarkFailed (us_id session) operationToken message));
  svc_fail (primary ++ errs deleteErr ++ errs versionErr ++ errs markErr).

(** The object is read up to one byte past its expected size: its size, checksum
    and first [SniffBytes] bytes. *)
Definition read_object (r : Reader) (expectedSize : Z) : res (Z * string * list N) :=
  let limited := LimitReader r (wrap64 (expectedSize + 1)) in
  '(prefix, rest) ← read_full limited SniffBytes;
  match rd_error rest with
  | Some e => Err e
  | None => Ok (Z.of_nat (length (rd_bytes limited)), ChecksumBytes (Sum256 (rd_bytes limited)), prefix)
  end.

Definition inspectObject (key : string) (expectedSize : Z) : Svc (Z * string * list N) :=
  reader ← Get key;
  svc_lift (read_object reader expectedSize).

(** The verification of the object that [Complete] and [reconcileCompletedObject]
    have in common, from the answer of [Head] to the finalization; they differ in
    what follows it and in what a refused finalization leads to. *)
Definition verify_object {A} (session : Session) (operationToken actorID : uuid) (object : ObjectInfo)
  (finalized : DatasetVersion → Svc A) (refused : list GoError → Svc A) : Svc A :=
  if negb (oi_size object =? us_expected_size session)
  then failInvalidObject session operationToken [ErrMultipartSizeMismatch]
  else
    inspected ← svc_try (inspectObject (us_object_key session) (us_expected_size session));
    match inspected with
    | SErr err =>
        if errors_Is err ErrObjectNotFound then failInvalidObject session operationToken [ErrRemoteStorage]
        else resetCompletion (us_id session) operationToken [ErrRemoteStorage]
    | SOk (actualSize, checksum, prefix) =>
        if negb (actualSize =? us_expected_size session)
        then failInvalidObject session operationToken [ErrMultipartSizeMismatch]
        else match DetectFormat (us_original_filename session) (us_content_type session) prefix with
        | Err _ => failInvalidObject session operationToken [ErrMultipartInvalidInput]
        | Ok _ =>
            if match us_expected_checksum session with Some c => negb (bool_decide (c = checksum)) | None => false end
            then failInvalidObject session operationToken [ErrMultipartChecksumMismatch]
            else
              version ← svc_try (svc_tx (FinalizeVersionForUpload (us_dataset_id session) (us_version_id session)
                          actorID actualSize checksum (us_id session) operationToken));
              match version with
              | SErr err => refused err
              | SOk version => finalized version
              end
        end
    end.

Section service.
Context (s : MultipartConfig).

(** The remote upload is completed, or turns out to have been completed before. *)
Definition complete_remote {A} (session : Session) (operationToken : uuid) (parts : list CompletePart)
  (registered : list Part) (k : Svc A) : Svc A :=
  listed ← svc_try (ListMultipartParts (us_object_key session) (us_upload_id session));
  match listed with
  | SErr _ =>
      head ← svc_try (Head (us_object_key session));
      if failed head then resetCompletion (us_id session) operationToken [ErrRemoteStorage] else k
  | SOk remoteParts =>
      match verifyRemoteParts parts remoteParts with
      | Err e => resetCompletion (us_id session) operationToken [e]
      | Ok _ =>
          let completeParts := zip_with (λ part r, mkMultipartPart (cp_part_number part) (cp_etag part) (up_size_bytes r))
                                 parts registered in
          completed ← svc_try (CompleteMultipart (us_object_key session) (us_upload_id session) completeParts
                        (us_content_type session));
          if failed completed then
            head ← svc_try (Head (us_object_key session));
            if failed head then resetCompletion (us_id session) operationToken [ErrRemoteStorage] else k
          else k
      end
  end.

Definition Complete (principal : Principal) (sessionID : uuid) (request : list CompletePart) : Svc DatasetVersion :=
  _ ← svc_lift (RequireScope principal ScopeDatasetsWrite);
  authorized ← authorizedSession principal sessionID ScopeDatasetsWrite;
  now ← svc_now;
  session ← svc_transact (BeginComplete sessionID (us_owner_user_id authorized) now (now - CompletionGrace s));
  operationToken ← svc_lift (sessionOperationToken session);
  match normalizeCompleteParts request (us_part_count session) with
  | Err e => resetCompletion (us_id session) operationToken [e]
  | Ok parts =>
      listed ← svc_try (svc_query (λ d, Ok (ListParts (us_id session) d)));
      match listed with
      | SErr err => resetCompletion (us_id session) operationToken err
      | SOk registered =>
          match verifyRegisteredParts parts registered (us_expected_size session) (us_part_size session) with
          | Err e => resetCompletion (us_id session) operationToken [e]
          | Ok _ =>
              complete_remote session operationToken parts registered (
                head ← svc_try (Head (us_object_key session));
                match head with
                | SErr _ => resetCompletion (us_id session) operationToken [ErrRemoteStorage]
                | SOk object =>
                    verify_object session operationToken (UserID principal) object
                      (λ version,
                        at_ ← svc_now;
                        _ ← svc_tx (MarkCompleted (us_id session) operationToken at_);
                        mret version)
                      (resetCompletion (us_id session) operationToken)
                end)
          end
      end
  end.

Definition reconcileCompletedObject (session : Session) (now : time) : Svc unit :=
  reconciled ← svc_tx (BeginReconciliation (us_id session) now);
  operationToken ← svc_lift (sessionOperationToken reconciled);
  head ← svc_try (Head (us_object_key reconciled));
  match head with
  | SErr err =>
      if errors_Is err ErrObjectNotFound then failInvalidObject reconciled operationToken [ErrRemoteStorage]
      else resetCompletion (us_id reconciled) operationToken [ErrRemoteStorage]
  | SOk object =>
      verify_object reconciled operationToken uuid_nil object
        (λ _, svc_tx (MarkCompleted (us_id reconciled) operationToken now))
        (λ err, if errors_Is err ErrDatasetDeleted then failInvalidObject reconciled operationToken err
                else resetCompletion (us_id reconciled) operationToken err)
  end.

(** One claimed session of [CleanupExpired]. *)
Inductive CleanupOutcome := CleanupExpiredSession | CleanupReconciled | CleanupFailed (err : list GoError).

Definition cleanup_session (session : Session) (now : time) : Svc CleanupOutcome :=
  head ← svc_try (Head (us_object_key session));
  match head with
  | SOk _ =>
      reconcileErr ← svc_try (reconcileCompletedObject session now);
      mret (match reconcileErr with SOk _ => CleanupReconciled | SErr err => CleanupFailed err end)
  | SErr headErr =>
      if negb (errors_Is headErr ErrObjectNotFound) then mret (CleanupFailed headErr)
      else
        remoteErr ← svc_try (AbortMultipart (us_object_key session) (us_upload_id session));
        versionErr ← svc_try (svc_tx (FailVersion (us_dataset_id session) (us_version_id session) uuid_nil
                       "multipart_session_expired"));
        let versionErr := match versionErr with
                          | SErr l => if errors_Is l ErrDatasetVersionNotFound then SOk tt else SErr l
                          | r => r
                          end in
        if failed remoteErr || failed versionErr then mret (CleanupFailed (errs remoteErr ++ errs versionErr))
        else
          markErr ← svc_try (svc_tx (MarkExpired (us_id session) "session_expired" now));
          mret (match markErr with SOk _ => CleanupExpiredSession | SErr err => CleanupFailed err end)
  end.

Definition report_outcome (r : CleanupReport) (x : CleanupOutcome) : CleanupReport :=
  match x with
  | CleanupExpiredSession =>
      mkCleanupReport (cr_claimed r) (cr_expired r + 1) (cr_reconciled r) (cr_failed r) (cr_failures r)
  | CleanupReconciled =>
      mkCleanupReport (cr_claimed r) (cr_expired r) (cr_reconciled r + 1) (cr_failed r) (cr_failures r)
  | CleanupFailed err =>
      mkCleanupReport (cr_claimed r) (cr_expired r) (cr_reconciled r) (cr_failed r + 1) (cr_failures r ++ [err])
  end.

Fixpoint cleanup_sessions (l : list Session) (now : time) (report : CleanupReport) : Svc CleanupReport :=
  match l with
  | [] => mret report
  | session :: l =>
      outcome ← cleanup_session session now;
      cleanup_sessions l now (report_outcome report outcome)
  end.

Definition CleanupExpired (limit : Z) : Svc CleanupReport :=
  _ ← svc_require ((1 <=? limit) && (limit <=? 1000)) ErrMultipartInvalidInput;
  now ← svc_now;
  sessions ← ClaimExpired now (now - CompletionGrace s) limit;
  cleanup_sessions sessions now (mkCleanupReport (Z.of_nat (length sessions)) 0 0 0 []).
End service.
