(* ===== verification/SvcLogic.v ===== *)
(** Reasoning about the upload services under interference: what other processes
    commit between two steps are transactions of the same system. *)

From S2P Require Import Prelude GoStrings Json Queue JobModel Schema Sql Authz Sha256 Upload UploadModel Svc DatasetStore SessionStore UploadSys UploadProps DatasetService MultipartService CompleteService.

Open Scope Z_scope.

Create HintDb upload.

Section logic.
Context `{PC : PgCollation}.

(** The environment only runs transactions of the system. *)
Definition rely (e : SEnv) : Prop := ∀ n d, rtc ustep d (e_db e n d).

(** A transaction body of the system. *)
Definition is_op {A} (tx : Tx UDB A) : Prop :=
  ∃ op, op_ok op = true ∧ ∀ o d, (transact tx o d).2 = (transact (run_op op) o d).2.

Lemma transact_done_with {A} (m : Tx UDB A) o d : (transact (done_with m) o d).2 = (transact m o d).2.
Proof. unfold transact, done_with, mbind, tx_bind. by destruct (m o _) as [[a w]|]. Qed.

Lemma transact_ok_snd {A} (m : Tx UDB A) o d : (transact (a ← m; mret (Ok a)) o d).2 = (transact m o d).2.
Proof. unfold transact, mbind, tx_bind. by destruct (m o _) as [[a w]|]. Qed.

Lemma is_op_step {A} (tx : Tx UDB A) o d : is_op tx → ustep d (transact tx o d).2.
Proof. intros (op&Hop&E). exists o, op. by rw E. Qed.

Lemma is_op_ok {A} (tx : Tx UDB A) : is_op tx → is_op (a ← tx; mret (Ok a)).
Proof. intros (op&Hop&E). exists op. split; [done|]. intros o d. by rw transact_ok_snd. Qed.

Ltac an_op op := exists op; split; [done|intros; cbn [run_op]; by rw ?transact_done_with].

Lemma CreateDataset_op owner name desc : is_op (CreateDataset owner name desc).
Proof. an_op (op_CreateDataset owner name desc). Qed.
Lemma DeleteDataset_op ds actor : is_op (DeleteDataset ds actor).
Proof. an_op (op_DeleteDataset ds actor). Qed.
Lemma ReserveVersion_op r : is_op (ReserveVersion r).
Proof. an_op (op_ReserveVersion r). Qed.
Lemma FinalizeVersion_op ds v actor size sum : is_op (FinalizeVersion ds v actor size sum).
Proof. an_op (op_FinalizeVersion ds v actor size sum). Qed.
Lemma FinalizeVersionForUpload_op ds v actor size sum s t : is_op (FinalizeVersionForUpload ds v actor size sum s t).
Proof. an_op (op_FinalizeVersionForUpload ds v actor size sum s t). Qed.
Lemma AbortVersion_op ds v actor : is_op (AbortVersion ds v actor).
Proof. an_op (op_AbortVersion ds v actor). Qed.
Lemma FailVersion_op ds v actor reason : is_op (FailVersion ds v actor reason).
Proof. an_op (op_FailVersion ds v actor reason). Qed.
Lemma CreateSession_op s : us_state s = StateInitiated ∨ us_state s = StateAborting → is_op (CreateSession s).
Proof. intros Hs. exists (op_CreateSession s). split; [by apply bool_decide_eq_true|done]. Qed.
Lemma BeginComplete_op s owner now stale : is_op (BeginComplete s owner now stale).
Proof. an_op (op_BeginComplete s owner now stale). Qed.
Lemma BeginAbort_op s owner now : is_op (BeginAbort s owner now).
Proof. an_op (op_BeginAbort s owner now). Qed.
Lemma BeginReconciliation_op s now : is_op (BeginReconciliation s now).
Proof. an_op (op_BeginReconciliation s now). Qed.
Lemma ResetCompletion_op s t e : is_op (ResetCompletion s t e).
Proof. an_op (op_ResetCompletion s t e). Qed.
Lemma MarkCompleted_op s t at_ : is_op (MarkCompleted s t at_).
Proof. an_op (op_MarkCompleted s t at_). Qed.
Lemma MarkAborted_op s at_ : is_op (MarkAborted s at_).
Proof. an_op (op_MarkAborted s at_). Qed.
Lemma MarkFailed_op s t e : is_op (MarkFailed s t e).
Proof. an_op (op_MarkFailed s t e). Qed.
Lemma claim_sessions_op now stale limit : is_op (claim_sessions now stale limit).
Proof. an_op (op_claim_sessions now stale limit). Qed.
Lemma MarkExpired_op s e at_ : is_op (MarkExpired s e at_).
Proof. an_op (op_MarkExpired s e at_). Qed.
Lemma insert_part_op s n etag size : is_op (insert_part s n etag size).
Proof. an_op (op_insert_part s n etag size). Qed.

(** ** Services as sequences of steps *)

(** Whatever the answers and the interference, a service takes the database along
    transactions of the system and only adds to the log of calls. *)
Definition sound {A} (m : Svc A) : Prop := ∀ e w, rely e →
  rtc ustep (sw_db w) (sw_db (m e w).2) ∧ sw_calls w `prefix_of` sw_calls (m e w).2.

Lemma sound_pure {A} (r : sres A) : sound (svc_return r).
Proof. intros e w _. done. Qed.

Lemma sound_ret {A} (a : A) : sound (mret a).
Proof. intros e w _. done. Qed.

Lemma sound_fail {A} l : sound (svc_fail (A := A) l).
Proof. intros e w _. done. Qed.

Lemma sound_lift {A} (r : res A) : sound (svc_lift r).
Proof. intros e w _. done. Qed.

Lemma sound_require b x : sound (svc_require b x).
Proof. unfold svc_require. destruct b; [apply sound_ret|apply sound_fail]. Qed.

Lemma sound_tick {A} (f : nat → SEnv → A) : sound (svc_tick f).
Proof. intros e w _. done. Qed.

Lemma sound_bind {A B} (m : Svc A) (f : A → Svc B) : sound m → (∀ a, sound (f a)) → sound (m ≫= f).
Proof.
  intros Hm Hf e w He. destruct (Hm e w He) as [H1 H2].
  unfold mbind, svc_bind. destruct (m e w) as [[a|l] w']; [|done]. cbn in *.
  destruct (Hf a e w' He) as [H3 H4]. split; [by etrans|by etrans].
Qed.

Lemma sound_try {A} (m : Svc A) : sound m → sound (svc_try m).
Proof. intros Hm e w He. pose proof (Hm e w He) as H. unfold svc_try. by destruct (m e w). Qed.

Lemma sound_query {A} (q : UDB → res A) : sound (svc_query q).
Proof. intros e w He. unfold svc_query. destruct (e_fault e (sw_step w)); (split; [apply He|done]). Qed.

Lemma sound_transact {A} (tx : Tx UDB (res A)) : is_op tx → sound (svc_transact tx).
Proof.
  intros Hop e w He. unfold svc_transact.
  pose proof (is_op_step tx (e_oracle e (sw_step w)) (e_db e (sw_step w) (sw_db w)) Hop) as Hs.
  destruct (transact tx _ _) as [r d']. destruct (e_fault e (sw_step w)); cbn in *;
    (split; [|done]); first [apply He | eapply rtc_r; [apply He|done]].
Qed.

Lemma sound_tx {A} (tx : Tx UDB A) : is_op tx → sound (svc_tx tx).
Proof. intros Hop. by apply sound_transact, is_op_ok. Qed.

Lemma sound_store {A} (f : nat → SEnv → res A) log : sound (svc_store f log).
Proof. intros e w _. split; [done|]. cbn. by apply prefix_app_r. Qed.

Lemma sound_Put key r ct : sound (Put key r ct).
Proof. intros e w _. unfold Put. destruct (e_put _ _ _ _ _). split; [done|]. cbn. by apply prefix_app_r. Qed.
End logic.

#[export] Hint Resolve CreateDataset_op DeleteDataset_op ReserveVersion_op FinalizeVersion_op FinalizeVersionForUpload_op
  AbortVersion_op FailVersion_op BeginComplete_op BeginAbort_op BeginReconciliation_op ResetCompletion_op
  MarkCompleted_op MarkAborted_op MarkFailed_op claim_sessions_op MarkExpired_op insert_part_op : upload.
#[export] Hint Resolve sound_ret sound_fail sound_lift sound_require sound_tick sound_query sound_transact sound_tx
  sound_store sound_Put : upload.

(** Peel a service into its steps. *)
Ltac sound_step :=
  match goal with
  | |- sound (mbind _ _) => apply sound_bind; [|intros ?]
  | |- sound (svc_try _) => apply sound_try
  | |- sound (if ?b then _ else _) => destruct b
  | |- sound (match ?x with _ => _ end) => destruct x
  | |- sound _ => solve [eauto 3 with upload]
  end.

Ltac sound_auto := repeat sound_step.

Section services.
Context `{PC : PgCollation}.

Lemma sound_find_sessions ids : sound (find_sessions ids).
Proof. induction ids as [|id ids IH]; cbn; sound_auto. Qed.
Hint Resolve sound_find_sessions : upload.

Lemma sound_accessible p scope ds : sound (accessible p scope ds).
Proof. apply sound_require. Qed.
Hint Resolve sound_accessible : upload.

Lemma sound_Dataset_Create s p name desc : sound (Dataset_Create s p name desc).
Proof. unfold Dataset_Create. sound_auto. Qed.

Lemma sound_Dataset_Delete s p ds : sound (Dataset_Delete s p ds).
Proof. unfold Dataset_Delete. sound_auto. Qed.

Lemma sound_Dataset_List s p page size state name : sound (Dataset_List s p page size state name).
Proof. unfold Dataset_List, ListDatasets. sound_auto. Qed.

Lemma sound_Dataset_Get s p ds : sound (Dataset_Get s p ds).
Proof. unfold Dataset_Get. sound_auto. Qed.

Lemma sound_cleanupUpload {A} ds v actor key primary : sound (cleanupUpload (A := A) ds v actor key primary).
Proof. unfold cleanupUpload, Delete. sound_auto. Qed.
Hint Resolve sound_cleanupUpload : upload.

Lemma sound_UploadVersion s p ds r : sound (UploadVersion s p ds r).
Proof. unfold UploadVersion, Head, svc_uuid. sound_auto. Qed.

Lemma sound_authorizedSession p k scope : sound (authorizedSession p k scope).
Proof. unfold authorizedSession. sound_auto. Qed.
Hint Resolve sound_authorizedSession : upload.

Lemma sound_cleanupReserved {A} ds v actor primary : sound (cleanupReserved (A := A) ds v actor primary).
Proof. unfold cleanupReserved. sound_auto. Qed.

Lemma sound_cleanupReservedRemote key up ds v actor : sound (cleanupReservedRemote key up ds v actor).
Proof. unfold cleanupReservedRemote, AbortMultipart. sound_auto. Qed.

Lemma sound_persistOrphanSession x now reason : sound (persistOrphanSession x now reason).
Proof. apply sound_tx, CreateSession_op. by right. Qed.
Hint Resolve sound_cleanupReserved sound_cleanupReservedRemote sound_persistOrphanSession : upload.

Lemma sound_recover_initiate p x sum now err : sound (recover_initiate p x sum now err).
Proof. unfold recover_initiate. sound_auto. Qed.
Hint Resolve sound_recover_initiate : upload.

Lemma sound_initiate_new s p ds fn ct f size count sum key : sound (initiate_new s p ds fn ct f size count sum key).
Proof.
  unfold initiate_new, InitiateMultipart, svc_now, svc_uuid. sound_auto.
  apply sound_tx, CreateSession_op. by left.
Qed.
Hint Resolve sound_initiate_new : upload.

Lemma sound_Initiate s p ds r : sound (Initiate s p ds r).
Proof. unfold Initiate. sound_auto. Qed.

Lemma sound_Multipart_Get p k : sound (Multipart_Get p k).
Proof. unfold Multipart_Get. sound_auto. Qed.

Lemma sound_Multipart_PresignPart s p k n : sound (Multipart_PresignPart s p k n).
Proof. unfold Multipart_PresignPart, PresignPart, svc_now. sound_auto. Qed.

Lemma sound_Repository_RegisterPart k n etag size : sound (Repository_RegisterPart k n etag size).
Proof. unfold Repository_RegisterPart, svc_now. sound_auto. Qed.
Hint Resolve sound_Repository_RegisterPart : upload.

Lemma sound_Multipart_RegisterPart p k n etag size : sound (Multipart_RegisterPart p k n etag size).
Proof. unfold Multipart_RegisterPart, GetMultipartPart, svc_now. sound_auto. Qed.

Lemma sound_Abort_session p k : sound (Abort_session p k).
Proof. unfold Abort_session, AbortMultipart, svc_now. sound_auto. Qed.

Lemma sound_resetCompletion {A} k t primary : sound (resetCompletion (A := A) k t primary).
Proof. unfold resetCompletion, svc_text. sound_auto. Qed.

Lemma sound_failInvalidObject {A} x t primary : sound (failInvalidObject (A := A) x t primary).
Proof. unfold failInvalidObject, Delete, svc_text. sound_auto. Qed.
Hint Resolve sound_resetCompletion sound_failInvalidObject : upload.

Lemma sound_verify_object {A} x t actor obj (k : DatasetVersion → Svc A) refused :
  (∀ v, sound (k v)) → (∀ l, sound (refused l)) → sound (verify_object x t actor obj k refused).
Proof. intros Hk Hr. unfold verify_object, inspectObject, Get. sound_auto; auto. Qed.

Lemma sound_complete_remote {A} x t parts reg (k : Svc A) : sound k → sound (complete_remote x t parts reg k).
Proof. intros Hk. unfold complete_remote, ListMultipartParts, Head, CompleteMultipart. sound_auto; auto. Qed.

Lemma sound_Complete s p k r : sound (Complete s p k r).
Proof.
  unfold Complete, Head, svc_now. sound_auto. apply sound_complete_remote. sound_auto.
  apply sound_verify_object; [|auto with upload]. intros v. sound_auto.
Qed.

Lemma sound_reconcileCompletedObject x now : sound (reconcileCompletedObject x now).
Proof.
  unfold reconcileCompletedObject, Head. sound_auto.
  apply sound_verify_object; intros ?; sound_auto.
Qed.
Hint Resolve sound_reconcileCompletedObject : upload.

Lemma sound_cleanup_session x now : sound (cleanup_session x now).
Proof. unfold cleanup_session, Head, AbortMultipart. sound_auto. Qed.
Hint Resolve sound_cleanup_session : upload.

Lemma sound_cleanup_sessions l now report : sound (cleanup_sessions l now report).
Proof. revert report. induction l as [|x l IH]; intros report; cbn; sound_auto. Qed.
Hint Resolve sound_cleanup_sessions : upload.

Lemma sound_CleanupExpired s limit : sound (CleanupExpired s limit).
Proof. unfold CleanupExpired, ClaimExpired, svc_now. sound_auto. Qed.
End services.

(** ** Results of a service, step by step *)

Section results.
Context `{PC : PgCollation} (e : SEnv) (He : rely e).

Lemma svc_bind_ok {A B} (m : Svc A) (f : A → Svc B) w b w' :
  (m ≫= f) e w = (SOk b, w') → ∃ a w1, m e w = (SOk a, w1) ∧ f a e w1 = (SOk b, w').
Proof. unfold mbind, svc_bind. destruct (m e w) as [[a|l] w1]; [eauto|done]. Qed.

Lemma svc_try_ok {A} (m : Svc A) r w w' : svc_try m e w = (SOk r, w') → m e w = (r, w').
Proof. unfold svc_try. destruct (m e w). congruence. Qed.

Lemma svc_lift_ok {A} (r : res A) a w w' : svc_lift r e w = (SOk a, w') → r = Ok a ∧ w' = w.
Proof. unfold svc_lift. destruct r; cbn; [|done]. by intros [= <- <-]. Qed.

Lemma svc_require_ok b x u w w' : svc_require b x e w = (SOk u, w') → b = true ∧ w' = w.
Proof. unfold svc_require. destruct b; [|done]. by intros [= <- <-]. Qed.

Lemma svc_store_ok {A} (f : nat → SEnv → res A) log a w w' :
  svc_store f log e w = (SOk a, w') →
  f (sw_step w) e = Ok a ∧ sw_db w' = sw_db w ∧ sw_calls w' = sw_calls w ++ [log (Ok a)].
Proof. unfold svc_store. destruct (f (sw_step w) e); cbn; [|done]. by intros [= <- <-]. Qed.

(** A transaction that returned ran on what the environment made of the state,
    and so did a query. *)
Lemma svc_transact_env {A} (tx : Tx UDB (res A)) a w w' :
  svc_transact tx e w = (SOk a, w') →
  ∃ o n, transact tx o (e_db e n (sw_db w)) = (Ok (Ok a), sw_db w') ∧ sw_calls w' = sw_calls w.
Proof.
  unfold svc_transact. destruct (transact tx _ _) as [r d'] eqn:E.
  destruct (e_fault e (sw_step w)); [|done..]. destruct r as [[x|]|]; cbn; [|done..].
  intros [= <- <-]. cbn. by eexists _, _.
Qed.

Lemma svc_tx_env {A} (tx : Tx UDB A) a w w' :
  svc_tx tx e w = (SOk a, w') →
  ∃ o n, transact tx o (e_db e n (sw_db w)) = (Ok a, sw_db w') ∧ sw_calls w' = sw_calls w.
Proof.
  intros (o&n&Ht&Hc)%svc_transact_env. exists o, n. split; [|done].
  unfold transact, mbind, tx_bind in *. destruct (tx o _) as [[x w1]|]; cbn in *; congruence.
Qed.

Lemma svc_query_env {A} (q : UDB → res A) a w w' :
  svc_query q e w = (SOk a, w') →
  q (sw_db w') = Ok a ∧ (∃ n, sw_db w' = e_db e n (sw_db w)) ∧ sw_calls w' = sw_calls w.
Proof.
  unfold svc_query. destruct (e_fault e (sw_step w)); [|done..].
  destruct (q _) eqn:E; cbn; [|done]. intros [= <- <-]. cbn. eauto.
Qed.

Lemma svc_tx_ok {A} (tx : Tx UDB A) a w w' :
  svc_tx tx e w = (SOk a, w') →
  ∃ o d, rtc ustep (sw_db w) d ∧ transact tx o d = (Ok a, sw_db w') ∧ sw_calls w' = sw_calls w.
Proof. intros (o&n&H&Hc)%svc_tx_env. exists o, (e_db e n (sw_db w)). auto. Qed.

Lemma svc_query_ok {A} (q : UDB → res A) a w w' :
  svc_query q e w = (SOk a, w') → q (sw_db w') = Ok a ∧ rtc ustep (sw_db w) (sw_db w') ∧ sw_calls w' = sw_calls w.
Proof. intros (Hq&[n Hn]&Hc)%svc_query_env. rw Hn. rw Hn in Hq. auto. Qed.

(** What a service left behind. *)
Lemma sound_after {A} (m : Svc A) r w w' :
  sound m → m e w = (r, w') → upload_inv (sw_db w) →
  upload_inv (sw_db w') ∧ sw_calls w `prefix_of` sw_calls w' ∧ rtc ustep (sw_db w) (sw_db w').
Proof.
  intros Hm E HI. destruct (Hm e w He) as [H1 H2]. rw E in H1 H2. cbn in *.
  split_and!; [by eapply usteps_inv|done|done].
Qed.

(** The compensations never return. *)
Lemma resetCompletion_fails {A} k t primary w (a : A) w' : resetCompletion k t primary e w ≠ (SOk a, w').
Proof.
  intros (m&w1&_&H)%svc_bind_ok. apply svc_bind_ok in H as (r&w2&_&H). done.
Qed.

Lemma failInvalidObject_fails {A} x t primary w (a : A) w' : failInvalidObject x t primary e w ≠ (SOk a, w').
Proof.
  intros (r1&w1&_&H)%svc_bind_ok. apply svc_bind_ok in H as (r2&w2&_&H).
  apply svc_bind_ok in H as (r3&w3&_&H). apply svc_bind_ok in H as (r4&w4&_&H). done.
Qed.

Lemma cleanupUpload_fails {A} ds v actor key primary w (a : A) w' :
  cleanupUpload ds v actor key primary e w ≠ (SOk a, w').
Proof.
  intros (r1&w1&_&H)%svc_bind_ok. apply svc_bind_ok in H as (r2&w2&_&H). done.
Qed.
End results.
