(* ===== verification/UploadVerify.v ===== *)
(** What a client of the upload services can rely on: the content behind a version
    was verified, and no request breaks the tables, whatever the interference. *)

From S2P Require Import Prelude GoStrings Json Queue JobModel Schema Sql Authz Sha256 Upload UploadModel Svc DatasetStore SessionStore UploadSys UploadProps DatasetService MultipartService CompleteService SvcLogic.

Open Scope Z_scope.

(** ** Reading an object *)

Lemma wrap64_succ_ne n : wrap64 (n + 1) ≠ n.
Proof.
  unfold wrap64. intros H. pose proof (Z.div_mod (n + 1 + 2 ^ 63) (2 ^ 64) ltac:(lia)) as Hd.
  assert ((2 ^ 64) * ((n + 1 + 2 ^ 63) / 2 ^ 64) = 1) as H1 by lia.
  assert ((1 mod 2 ^ 64) = 0) as H2; [|done]. rw -H1. by rw Z.mul_comm Z.mod_mul.
Qed.

(** A read that finds the expected size has seen the whole object. *)
Lemma read_object_exact r size sum prefix :
  read_object r size = Ok (size, sum, prefix) →
  rd_error r = None ∧ Z.of_nat (length (rd_bytes r)) = size
  ∧ sum = ChecksumBytes (Sum256 (rd_bytes r)) ∧ prefix = take (Z.to_nat SniffBytes) (rd_bytes r).
Proof.
  unfold read_object. intros ([p rest]&Hf&H)%res_bind_Ok.
  destruct (rd_error rest) as [|] eqn:Hr; [done|]. injection H as Hs <- <-.
  unfold LimitReader in *. destruct (Z.ltb_spec (Z.of_nat (length (rd_bytes r))) (wrap64 (size + 1))) as [Hl|Hl].
  - unfold read_full in Hf. destruct (Z.ltb_spec (Z.of_nat (length (rd_bytes r))) SniffBytes) as [Hn|Hn].
    + destruct (rd_error r) eqn:He; [done|]. injection Hf as <- <-. split_and!; [done..|].
      rw take_ge //. unfold SniffBytes in *. lia.
    + injection Hf as <- <-. done.
  - exfalso. cbn in Hs. rw length_take in Hs. pose proof (wrap64_succ_ne size) as Hne.
    destruct (decide (0 <= wrap64 (size + 1))) as [Hp|Hp]; [lia|].
    assert (size = 0) as -> by lia. by apply Hp.
Qed.

Section verify.
Context `{PC : PgCollation} (e : SEnv) (He : rely e).

(** ** Transactions that returned *)

Lemma BeginComplete_ok k owner now stale o d d' s :
  transact (BeginComplete k owner now stale) o d = (Ok (Ok s), d') →
  ∃ x t, u_sessions d !! k = Some x ∧ us_owner_user_id x = owner ∧ s = start_completion t now x
    ∧ u_sessions d' !! k = Some s.
Proof.
  intros H. eapply (transact_inv o); [exact H|]. unfold BeginComplete. wp_step. apply wp_lock_owned_session.
  intros x Hx Ho. cbn [st]. wp_if as Hst; wp_steps; wp_if; wp_steps; intros Heq ->; try done;
    injection Heq as ->; exists x; eexists; split_and!; try done; cbn; by rw lookup_alter_eq Hx.
Qed.

Lemma finalizeVersion_ok ds k actor size sum s t o d d' v :
  upload_inv d' → transact (finalizeVersion ds k actor size sum s t) o d = (Ok v, d') →
  dv_id v = k ∧ dv_state v = VersionAvailable ∧ dv_size_bytes v = Some size ∧ dv_checksum_sha256 v = Some sum
  ∧ u_versions d' !! k = Some v.
Proof.
  intros HI H.
  assert (dv_state v = VersionAvailable ∧ dv_size_bytes v = Some size ∧ dv_checksum_sha256 v = Some sum
    ∧ u_versions d' !! k = Some v) as (?&?&?&Hk).
  { eapply (transact_inv o); [exact H|]. apply wp_finalizeVersion. intros r x _ _ _ _ Hx _. cbn [st] in *. split.
    - intros ??? -> ->. done.
    - intros _ _ _ at_ f h -> ->. cbn. by rw lookup_alter_eq Hx. }
  split_and!; [|done..]. by destruct (inv_version d' HI k v Hk).
Qed.

Lemma MarkCompleted_ok k t at_ o d d' u :
  transact (MarkCompleted k t at_) o d = (Ok u, d') →
  (∃ s s', u_sessions d !! k = Some s ∧ u_sessions d' !! k = Some s' ∧ same_session s s'
     ∧ us_state s' = StateCompleted) ∧ u_versions d' = u_versions d.
Proof.
  intros H. eapply (transact_inv o); [exact H|]. apply wp_update_session_if. intros s Hs _ _ ->. cbn in *.
  split; [|done]. exists s. eexists. rw lookup_alter_eq Hs. by split_and!.
Qed.

(** ** The session's row *)

(** Nobody else removes the row of the session [k] (with its version). *)
Definition keeps_session (k : uuid) : Prop :=
  ∀ n d, rtc (λ d1 d2, ustep d1 d2 ∧ (is_Some (u_sessions d1 !! k) → is_Some (u_sessions d2 !! k))) d (e_db e n d).

Definition session_kept (k : uuid) (d d' : UDB) : Prop :=
  ∀ s, u_sessions d !! k = Some s → ∃ s', u_sessions d' !! k = Some s' ∧ same_session s s'.

#[local] Instance same_session_trans : Transitive same_session.
Proof.
  unfold same_session. intros s1 s2 s3 H1 H2. decompose_Forall_hyps. destruct_and?. split_and!; congruence.
Qed.

#[local] Instance session_kept_preorder k : PreOrder (session_kept k).
Proof.
  split; [intros d s Hs; by exists s|]. intros d1 d2 d3 H1 H2 s (s2&Hs2&?)%H1.
  apply H2 in Hs2 as (s3&?&?). exists s3. split; [done|]. by etrans.
Qed.

Lemma ustep_session_kept k d d' :
  upload_inv d → ustep d d' → (is_Some (u_sessions d !! k) → is_Some (u_sessions d' !! k)) → session_kept k d d'.
Proof.
  intros HI Hstep Hk s Hs. pose proof (session_life d d' k s HI Hstep Hs) as Hl.
  destruct (u_sessions d' !! k) as [s'|]; [|by destruct Hk; [exists s|]].
  exists s'. split; [done|]. destruct Hl as [->|[? _]]; done.
Qed.

Lemma env_session_kept k n d : keeps_session k → upload_inv d → session_kept k d (e_db e n d).
Proof.
  intros Hkeep. induction (Hkeep n d) as [|d1 d2 d3 [H1 H2] _ IH]; intros HI; [done|].
  etrans; [by apply ustep_session_kept|]. apply IH. by eapply ustep_inv.
Qed.

(** The publication of the version of session [k] leaves the session. *)
Lemma finalize_session_kept k x ds actor size sum s t o d d' v :
  upload_inv d → u_sessions d !! k = Some x →
  transact (FinalizeVersionForUpload ds (us_version_id x) actor size sum s t) o d = (Ok v, d') →
  session_kept k d d'.
Proof.
  intros HI Hx Htx. destruct (FinalizeVersionForUpload_op ds (us_version_id x) actor size sum s t) as (op&Hop&Hsnd).
  assert (ustep d d') as Hstep. { exists o, op. split; [done|]. by rw -Hsnd Htx. }
  pose proof (ustep_inv _ _ HI Hstep) as HI'. apply finalizeVersion_ok in Htx as (_&_&_&_&Hv); [|done].
  apply ustep_session_kept; [done..|]. intros _. pose proof (session_life d d' k x HI Hstep Hx) as Hl.
  destruct (u_sessions d' !! k); [done|]. destruct Hl as (?&_&_&?). congruence.
Qed.

(** ** The content of a version *)

(** The content matches what the session expects, and the version records its size
    and checksum. *)
Record verified (x : Session) (v : DatasetVersion) (content : list N) : Prop := {
  vf_id : dv_id v = us_version_id x;
  vf_state : dv_state v = VersionAvailable;
  vf_length : Z.of_nat (length content) = us_expected_size x;
  vf_size : dv_size_bytes v = Some (us_expected_size x);
  vf_checksum : dv_checksum_sha256 v = Some (ChecksumBytes (Sum256 content));
  vf_expected c : us_expected_checksum x = Some c → c = ChecksumBytes (Sum256 content);
  vf_format : ∃ f, DetectFormat (us_original_filename x) (us_content_type x)
                     (take (Z.to_nat SniffBytes) content) = Ok f
}.

Lemma verify_object_ok {A} x t actor obj (k : DatasetVersion → Svc A) refused a w w' :
  upload_inv (sw_db w) → (∀ l w1, refused l e w1 ≠ (SOk a, w')) →
  verify_object x t actor obj k refused e w = (SOk a, w') →
  ∃ v content w1 new, k v e w1 = (SOk a, w') ∧ verified x v content
    ∧ u_versions (sw_db w1) !! us_version_id x = Some v ∧ upload_inv (sw_db w1)
    ∧ (∀ i y, keeps_session i → u_sessions (sw_db w) !! i = Some y → us_version_id y = us_version_id x →
         session_kept i (sw_db w) (sw_db w1))
    ∧ sw_calls w1 = sw_calls w ++ new ∧ CallGet (us_object_key x) (Ok (mkReader content None)) ∈ new.
Proof.
  intros HI Href. unfold verify_object. destruct (Z.eqb_spec (oi_size obj) (us_expected_size x)); cbn [negb];
    [|intros H; by apply failInvalidObject_fails in H].
  intros (r1&w1&H1%svc_try_ok&H)%svc_bind_ok. destruct r1 as [[[size sum] prefix]|l].
  2:{ destruct (errors_Is l ErrObjectNotFound); [by apply failInvalidObject_fails in H|by apply resetCompletion_fails in H]. }
  apply svc_bind_ok in H1 as (reader&w0&(_&Hdb0&Hc0)%svc_store_ok&[Hread ->]%svc_lift_ok).
  destruct (Z.eqb_spec size (us_expected_size x)) as [->|]; cbn [negb] in H;
    [|by apply failInvalidObject_fails in H].
  apply read_object_exact in Hread as (Herr&Hlen&->&->).
  destruct (DetectFormat _ _ _) as [f|] eqn:Hf; [|by apply failInvalidObject_fails in H].
  destruct (match us_expected_checksum x with Some c => negb (bool_decide (c = ChecksumBytes (Sum256 (rd_bytes reader)))) | None => false end)
    eqn:Hsum; [by apply failInvalidObject_fails in H|].
  apply svc_bind_ok in H as (r2&w2&H2%svc_try_ok&H). destruct r2 as [v|l]; [|by apply Href in H].
  rw -Hdb0 in HI. pose proof (sound_after e He _ _ _ _ (sound_tx _ (FinalizeVersionForUpload_op _ _ _ _ _ _ _)) H2 HI) as (HI2&_&_).
  apply svc_tx_env in H2 as (o&n&Htx&Hc2). pose proof Htx as Hfin.
  apply finalizeVersion_ok in Htx as (?&?&?&?&?); [|done].
  exists v, (rd_bytes reader), w2, [CallGet (us_object_key x) (Ok reader)].
  split_and!; [done| |done|done| |by rw Hc2 Hc0|].
  - split; try done; [|by exists f]. intros c Hc. rw Hc in Hsum. reflect_bool. done.
  - intros i y Hkeep Hy Hvy. pose proof (env_session_kept i n _ Hkeep HI) as Hk. rw Hdb0 in Hk.
    destruct (Hk y Hy) as (y'&Hy'&Hsame). etrans; [exact Hk|]. rw Hdb0 in Hfin.
    eapply (finalize_session_kept i y'); [|done|].
    + rw Hdb0 in HI. by eapply usteps_inv.
    + destruct Hsame as (_&_&_&->&_). by rw Hvy.
  - destruct reader as [bytes err]; cbn in *. subst. by apply list_elem_of_singleton.
Qed.
Lemma store_after {A} (m : Svc A) r w w' :
  (∃ f log, m = svc_store f log) → m e w = (r, w') →
  sw_db w' = sw_db w ∧ sw_calls w `prefix_of` sw_calls w'.
Proof. intros (f&log&->) [= _ <-]. cbn. split; [done|]. by apply prefix_app_r. Qed.

Lemma complete_remote_ok {A} x t parts reg (k : Svc A) a w w' :
  complete_remote x t parts reg k e w = (SOk a, w') →
  ∃ w1, k e w1 = (SOk a, w') ∧ sw_db w1 = sw_db w ∧ sw_calls w `prefix_of` sw_calls w1.
Proof.
  intros (r1&w1&H1%svc_try_ok&H)%svc_bind_ok. apply store_after in H1 as [Hd1 Hc1]; [|by eexists _, _].
  assert (∀ w0, (head ← svc_try (Head (us_object_key x)); if failed head then resetCompletion (us_id x) t [ErrRemoteStorage] else k) e w0
    = (SOk a, w') → ∃ w1, k e w1 = (SOk a, w') ∧ sw_db w1 = sw_db w0 ∧ sw_calls w0 `prefix_of` sw_calls w1) as Hhead.
  { intros w0 (r2&w2&H2%svc_try_ok&H2')%svc_bind_ok. apply store_after in H2 as [Hd2 Hc2]; [|by eexists _, _].
    destruct (failed r2); [by apply resetCompletion_fails in H2'|]. eauto. }
  destruct r1 as [remote|l].
  - destruct (verifyRemoteParts parts remote) as [u|]; [|by apply resetCompletion_fails in H].
    apply svc_bind_ok in H as (r2&w2&H2%svc_try_ok&H). apply store_after in H2 as [Hd2 Hc2]; [|by eexists _, _].
    destruct (failed r2).
    + destruct (Hhead w2 H) as (w3&?&?&?). exists w3. split_and!; [done|congruence|by do 2 (etrans; [done|])].
    + exists w2. split_and!; [done|congruence|by etrans].
  - destruct (Hhead w1 H) as (w3&?&?&?). exists w3. split_and!; [done|congruence|by etrans].
Qed.

(** A completion takes up the row of the caller's session. *)
Lemma begin_complete_ok {A} p k grace (K : Session → Svc A) a w w' :
  upload_inv (sw_db w) →
  (authorized ← authorizedSession p k ScopeDatasetsWrite; now ← svc_now;
   x ← svc_transact (BeginComplete k (us_owner_user_id authorized) now (now - grace)); K x) e w = (SOk a, w') →
  ∃ d x t now w1, K (start_completion t now x) e w1 = (SOk a, w')
    ∧ rtc ustep (sw_db w) d ∧ u_sessions d !! k = Some x ∧ us_id x = k
    ∧ CanAccessOwner p (us_owner_user_id x) ScopeDatasetsWrite = true
    ∧ upload_inv (sw_db w1) ∧ u_sessions (sw_db w1) !! k = Some (start_completion t now x)
    ∧ sw_calls w1 = sw_calls w
    ∧ (keeps_session k → ∀ z, u_sessions (sw_db w) !! k = Some z → same_session z x).
Proof.
  intros HI (auth&w1&H1&H)%svc_bind_ok. apply svc_bind_ok in H1 as (auth'&w0&H0&H1).
  pose proof (sound_after e He _ _ _ _ (sound_query _) H0 HI) as (HI0&_&Hrtc0).
  apply svc_query_env in H0 as (_&[n0 Hdb0]&Hc0).
  apply svc_bind_ok in H1 as (u1&w01&[Hacc ->]%svc_require_ok&[= -> <-]).
  apply svc_bind_ok in H as (now&w2&[= <- <-]&H). apply svc_bind_ok in H as (x&w3&H3&H).
  pose proof (sound_after e He _ _ _ _ (sound_transact _ (BeginComplete_op _ _ _ _)) H3 HI0) as (HI3&_&_).
  apply svc_transact_env in H3 as (o&n3&Htx&Hc3). cbn in Hc3, Htx.
  pose proof (usteps_inv _ _ HI0 (He n3 _)) as HId.
  apply BeginComplete_ok in Htx as (x0&t0&Hx0&Hown&->&Hx3).
  eexists (e_db e n3 (sw_db w0)), x0, t0, _, w3. split_and!; [done|by etrans|done| |by rw -Hown in Hacc|done|done|congruence|].
  - by destruct (inv_session _ HId k x0 Hx0).
  - intros Hkeep z Hz. destruct (env_session_kept k n0 _ Hkeep HI z Hz) as (z0&Hz0&?). rw -Hdb0 in Hz0.
    destruct (env_session_kept k n3 _ Hkeep HI0 z0 Hz0) as (z3&Hz3&?). assert (z3 = x0) as -> by congruence.
    by etrans.
Qed.

(** C13. A multipart completion that returns has verified the content against the
    session's row: [x] is the row stored under the session's id in the state [d] the
    request took it up in.  The version returned is the one of that row, it is
    available, and its size and SHA-256 checksum are those of the bytes this very
    request read back from the object store under the row's object key; they have
    the size the row announces, the checksum it announces if any, and the declared
    format.  The version and a completed row of that id are in the database at the
    end, whatever else happened meanwhile; and unless somebody removed the row
    meanwhile, the rows at the start, of the verification and at the end are the same
    session. *)
Theorem Complete_verified s p k request w v w' :
  upload_inv (sw_db w) → Complete s p k request e w = (SOk v, w') →
  ∃ d x content new,
    rtc ustep (sw_db w) d ∧ u_sessions d !! k = Some x ∧ us_id x = k
    ∧ CanAccessOwner p (us_owner_user_id x) ScopeDatasetsWrite = true
    ∧ verified x v content
    ∧ sw_calls w' = sw_calls w ++ new ∧ CallGet (us_object_key x) (Ok (mkReader content None)) ∈ new
    ∧ u_versions (sw_db w') !! us_version_id x = Some v
    ∧ ∃ y, u_sessions (sw_db w') !! k = Some y ∧ us_state y = StateCompleted
      ∧ (keeps_session k →
           same_session x y ∧ ∀ z, u_sessions (sw_db w) !! k = Some z → same_session z x).
Proof.
  intros HI (u&w1&[_ ->]%svc_lift_ok&H)%svc_bind_ok.
  apply begin_complete_ok in H as (d&x0&t0&now&w3&H&Hd&Hx0&Hid&Hacc&HI3&Hx3&Hc3&Hsame0); [|done].
  set (x := start_completion _ _ x0) in *.
  apply svc_bind_ok in H as (t&w4&[_ ->]%svc_lift_ok&H).
  destruct (normalizeCompleteParts _ _) as [parts|] eqn:Hparts; [|by apply resetCompletion_fails in H].
  apply svc_bind_ok in H as (r5&w5&H5%svc_try_ok&H). destruct r5 as [registered|]; [|by apply resetCompletion_fails in H].
  pose proof (sound_after e He _ _ _ _ (sound_query _) H5 HI3) as (HI5&_&_).
  apply svc_query_env in H5 as (_&[n5 Hdb5]&Hc5).
  destruct (verifyRegisteredParts _ _ _ _) as [u2|]; [|by apply resetCompletion_fails in H].
  apply complete_remote_ok in H as (w6&H&Hdb6&[new6 Hc6]).
  apply svc_bind_ok in H as (r7&w7&H7%svc_try_ok&H). destruct r7 as [object|]; [|by apply resetCompletion_fails in H].
  apply svc_store_ok in H7 as (_&Hdb7&Hc7).
  apply verify_object_ok in H as (v'&content&w8&new8&H&Hver&Hv8&HI8&Hkept&Hc8&Hin); [|by rw Hdb7 Hdb6|intros l w9; apply resetCompletion_fails].
  apply svc_bind_ok in H as (at_&w9&[= <- <-]&H).
  apply svc_bind_ok in H as (u3&w10&H10&[= -> <-]).
  apply svc_tx_env in H10 as (o'&n10&Htx'&Hc10). cbn in Hc10, Htx'.
  apply MarkCompleted_ok in Htx' as [(y0&y&Hy0&Hy&Hsame&Hcompl) Hvers]. change (us_id x) with (us_id x0) in Hy, Hy0.
  rw Hid in Hy Hy0.
  exists d, x0, content, (new6 ++ [CallHead (us_object_key x) (Ok object)] ++ new8).
  do 4 (split; [done|]). split; [by destruct Hver|].
  split; [rw Hc10 Hc8 Hc7 Hc6 Hc5 Hc3; by rw -!assoc_L|]. split; [set_solver|]. split.
  { rw Hvers. apply (versions_finished (sw_db w8) _); [done|apply He|done|]. by rw (vf_state _ _ _ Hver). }
  exists y. split; [done|]. split; [done|]. intros Hkeep. split; [|by apply Hsame0].
  destruct (env_session_kept k n5 _ Hkeep HI3 x Hx3) as (x5&Hx5&H35). rw -Hdb5 -Hdb6 -Hdb7 in Hx5.
  assert (us_version_id x5 = us_version_id x) as Hv5 by apply H35.
  destruct (Hkept k x5 Hkeep Hx5 Hv5 x5 Hx5) as (x8&Hx8&H58).
  destruct (env_session_kept k n10 _ Hkeep HI8 x8 Hx8) as (x10&Hx10&H810).
  assert (x10 = y0) as -> by congruence. trans x; [done|]. by do 3 (etrans; [done|]).
Qed.
(** ** Direct uploads *)

Lemma wrap_error_ok {A} x (r : res A) a : wrap_error x r = Ok a → r = Ok a.
Proof. by destruct r. Qed.

(** Sniffing the prefix loses nothing of the body. *)
Lemma readPrefix_prepend body prefix rest :
  readPrefix body = Ok (prefix, rest) →
  prepend prefix rest = body ∧ prefix = take (Z.to_nat SniffBytes) (rd_bytes body).
Proof.
  unfold readPrefix, read_full, prepend. destruct body as [bytes err]. cbn.
  destruct (Z.ltb_spec (Z.of_nat (length bytes)) SniffBytes) as [Hl|Hl].
  - destruct err; [done|]. intros [= <- <-]. cbn. rw app_nil_r take_ge //. unfold SniffBytes in *. lia.
  - intros [= <- <-]. cbn. by rw take_drop.
Qed.

Lemma Put_ok key reader ct n info w w' :
  Put key reader ct e w = (SOk (n, info), w') →
  (n <= length (rd_bytes reader))%nat ∧ sw_db w' = sw_db w
  ∧ sw_calls w' = sw_calls w ++ [CallPut key reader ct n (Ok info)].
Proof.
  unfold Put. destruct (e_put _ _ _ _ _) as [c [i|]]; cbn; [|done]. intros [= <- <- <-]. cbn.
  split_and!; [lia|done|done].
Qed.

Lemma upload_error_None s request sum actual size object :
  upload_error s request sum actual size object = None →
  size <= MaxUploadBytes s ∧ (0 <= ur_content_length request → size = ur_content_length request)
  ∧ (0 <= oi_size object → oi_size object = size) ∧ (sum = "" ∨ sum = actual).
Proof.
  unfold upload_error. destruct (Z.ltb_spec (MaxUploadBytes s) size); [done|].
  destruct (_ && negb (size =? _)) eqn:H1; [done|]. destruct (_ && negb (_ =? size)) eqn:H2; [done|].
  case_bool_decide as H3; [done|]. intros _. split_and!; [done|lia|lia|].
  destruct (decide (sum = "")); [by left|right]. destruct (decide (sum = actual)); [done|]. tauto.
Qed.

(** A direct upload that returns has stored what it records: the version it
    returns is available, its size and SHA-256 checksum are those of the bytes of the
    request body handed to the object store, within the configured limit, equal in
    number to the announced content length, with the announced checksum if any, and
    starting like the declared format; the version is in the database. *)
Lemma UploadVersion_verified s p ds request w v w' :
  upload_inv (sw_db w) → UploadVersion s p ds request e w = (SOk v, w') →
  ∃ body n info new,
    let reader := LimitReader body (wrap64 (MaxUploadBytes s + 1)) in
    let content := take n (rd_bytes reader) in
    ur_body request = Some body
    ∧ sw_calls w' = sw_calls w ++ new
    ∧ (∃ key ct, CallPut key reader ct n (Ok info) ∈ new)
    ∧ dv_state v = VersionAvailable
    ∧ dv_size_bytes v = Some (Z.of_nat (length content))
    ∧ dv_checksum_sha256 v = Some (ChecksumBytes (Sum256 content))
    ∧ Z.of_nat (length content) <= MaxUploadBytes s
    ∧ (0 <= ur_content_length request → Z.of_nat (length content) = ur_content_length request)
    ∧ (∀ c, NormalizeChecksum (ur_expected_checksum request) = Ok c → trim_space (ur_expected_checksum request) ≠ "" →
         c = ChecksumBytes (Sum256 content))
    ∧ (∃ f, DetectFormat (trim_space (ur_filename request)) (normalizeContentType (ur_content_type request))
              (take (Z.to_nat SniffBytes) (rd_bytes body)) = Ok f)
    ∧ u_versions (sw_db w') !! dv_id v = Some v.
Proof.
  intros HI (u1&w1&[_ ->]%svc_lift_ok&H)%svc_bind_ok. apply svc_bind_ok in H as (u2&w2&[_ ->]%svc_lift_ok&H).
  apply svc_bind_ok in H as (dset&w3&H3&H).
  pose proof (sound_after e He _ _ _ _ (sound_query _) H3 HI) as (HI3&_&_). apply svc_query_ok in H3 as (_&_&Hc3); [|done].
  apply svc_bind_ok in H as (u4&w4&[_ ->]%svc_require_ok&H).
  apply svc_bind_ok in H as (body&w5&[Hb ->]%svc_lift_ok&H). destruct (ur_body request) as [b|] eqn:Hbody; [|done].
  injection Hb as ->. apply svc_bind_ok in H as (u6&w6&[_ ->]%svc_require_ok&H).
  apply svc_bind_ok in H as (filename&w7&[Hfn%wrap_error_ok ->]%svc_lift_ok&H).
  apply NormalizeFilename_ok in Hfn as [-> _].
  apply svc_bind_ok in H as ([prefix rest]&w8&[Hpre%wrap_error_ok ->]%svc_lift_ok&H).
  apply readPrefix_prepend in Hpre as [Hpre ->].
  apply svc_bind_ok in H as (format&w9&[Hfmt%wrap_error_ok ->]%svc_lift_ok&H).
  apply svc_bind_ok in H as (checksum&w10&[Hsum%wrap_error_ok ->]%svc_lift_ok&H).
  apply svc_bind_ok in H as (vid&w11&[= <- <-]&H).
  apply svc_bind_ok in H as (res&w12&H12&H).
  pose proof (sound_after e He _ _ _ _ (sound_tx _ (ReserveVersion_op _)) H12 HI3) as (HI12&_&_).
  apply svc_tx_ok in H12 as (_&_&_&_&Hc12); [|done]. cbn in Hc12. rw Hpre in H.
  apply svc_bind_ok in H as (put&w13&H13%svc_try_ok&H). destruct put as [[n info]|]; [|by apply cleanupUpload_fails in H].
  apply Put_ok in H13 as (Hn&Hdb13&Hc13).
  cbn beta iota zeta in H.
  match type of H with context [upload_error ?a ?b ?c ?x ?y ?z] => destruct (upload_error a b c x y z) eqn:Herr end;
    [by apply cleanupUpload_fails in H|].
  apply upload_error_None in Herr as (Hmax&Hcl&_&Hck).
  apply svc_bind_ok in H as (hd&w14&H14%svc_try_ok&H). destruct hd as [hd|]; [|by apply cleanupUpload_fails in H].
  apply svc_store_ok in H14 as (_&Hdb14&Hc14).
  apply svc_bind_ok in H as (fin&w15&H15%svc_try_ok&H). destruct fin as [version|]; [|by apply cleanupUpload_fails in H].
  injection H as -> ->. rw -Hdb13 -Hdb14 in HI12.
  pose proof (sound_after e He _ _ _ _ (sound_tx _ (FinalizeVersion_op _ _ _ _ _)) H15 HI12) as (HI15&_&_).
  apply svc_tx_ok in H15 as (o&d&_&Htx&Hc15); [|done].
  apply finalizeVersion_ok in Htx as (Hid&?&?&?&?); [|done].
  eexists body, n, info, ([_] ++ [_]). cbn zeta. rw length_take Nat.min_l //.
  split_and!; [done|rw Hc15 Hc14 Hc13 Hc12 Hc3 -!assoc_L; reflexivity|eexists _, _; by left|done..| |by exists format|by rw Hid].
  intros c Hc Hne. unfold normalizeExpectedChecksum in Hsum. rw bool_decide_eq_false_2 // Hc in Hsum.
  injection Hsum as <-.
  destruct Hck as [->|]; [|done]. by apply NormalizeChecksum_ok in Hc.
Qed.
End verify.
