(* ===== verification/UploadRequests.v ===== *)
(** The requests of the upload API as a whole: none of them breaks the tables, and
    the compensation of a failed initiation that leaves a remote upload behind. *)

From S2P Require Import Prelude GoStrings Json Queue JobModel Schema Sql Authz Sha256 Upload UploadModel Svc DatasetStore SessionStore UploadSys UploadProps DatasetService MultipartService CompleteService SvcLogic UploadVerify.

Open Scope Z_scope.

(** ** Requests *)

Inductive UploadCall :=
  | call_Create (p : Principal) (name description : string)
  | call_List (p : Principal) (page pageSize : Z) (state name : string)
  | call_Get (p : Principal) (ds : uuid)
  | call_Delete (p : Principal) (ds : uuid)
  | call_UploadVersion (p : Principal) (ds : uuid) (r : UploadRequest)
  | call_Initiate (p : Principal) (ds : uuid) (r : InitiateRequest)
  | call_GetSession (p : Principal) (k : uuid)
  | call_PresignPart (p : Principal) (k : uuid) (n : Z)
  | call_RegisterPart (p : Principal) (k : uuid) (n : Z) (etag : string) (size : Z)
  | call_Complete (p : Principal) (k : uuid) (parts : list CompletePart)
  | call_Abort (p : Principal) (k : uuid)
  | call_CleanupExpired (limit : Z).

Definition svc_void {A} (m : Svc A) : Svc unit := _ ← m; mret tt.

Section requests.
Context `{PC : PgCollation} (c : DatasetServiceConfig) (s : MultipartConfig).

Definition run_call (x : UploadCall) : Svc unit :=
  match x with
  | call_Create p name description => svc_void (Dataset_Create c p name description)
  | call_List p page pageSize state name => svc_void (Dataset_List c p page pageSize state name)
  | call_Get p ds => svc_void (Dataset_Get c p ds)
  | call_Delete p ds => Dataset_Delete c p ds
  | call_UploadVersion p ds r => svc_void (UploadVersion c p ds r)
  | call_Initiate p ds r => svc_void (Initiate s p ds r)
  | call_GetSession p k => svc_void (Multipart_Get p k)
  | call_PresignPart p k n => svc_void (Multipart_PresignPart s p k n)
  | call_RegisterPart p k n etag size => svc_void (Multipart_RegisterPart p k n etag size)
  | call_Complete p k parts => svc_void (Complete s p k parts)
  | call_Abort p k => Abort_session p k
  | call_CleanupExpired limit => svc_void (CleanupExpired s limit)
  end.

Lemma sound_void {A} (m : Svc A) : sound m → sound (svc_void m).
Proof. intros Hm. apply sound_bind; [done|]. intros a. apply sound_ret. Qed.

Lemma sound_run_call x : sound (run_call x).
Proof.
  destruct x; cbn [run_call]; try apply sound_void; first
    [ apply sound_Dataset_Create | apply sound_Dataset_List | apply sound_Dataset_Get | apply sound_Dataset_Delete
    | apply sound_UploadVersion | apply sound_Initiate | apply sound_Multipart_Get | apply sound_Multipart_PresignPart
    | apply sound_Multipart_RegisterPart | apply sound_Complete | apply sound_Abort_session | apply sound_CleanupExpired ].
Qed.

(** C14. No request of the dataset and multipart API, and no run of the clean-up, breaks
    the tables or touches a finished version: whatever its arguments, whatever the
    object store answers, whichever transactions fail or lose their connection during
    the commit, and whatever other requests commit in between, the invariant of the
    upload tables holds at the end and every version that was available or failed is
    there unchanged. *)
Theorem upload_requests_safe e x w k v :
  rely e → upload_inv (sw_db w) →
  upload_inv (sw_db (run_call x e w).2)
  ∧ (u_versions (sw_db w) !! k = Some v → dv_state v ≠ VersionUploading →
     u_versions (sw_db (run_call x e w).2) !! k = Some v).
Proof.
  intros He HI. destruct (sound_run_call x e w He) as [Hs _].
  split; [by eapply usteps_inv|]. intros Hk Hst. by eapply versions_finished.
Qed.

(** ** A failed initiation *)

(** Deleting the version makes room for no session of it. *)
Lemma AbortVersion_deletes ds v actor o d d' :
  transact (AbortVersion ds v actor) o d = (Ok tt, d') →
  u_versions d' !! v = None ∧ ∀ k x, u_sessions d' !! k = Some x → u_sessions d !! k = Some x ∧ us_version_id x ≠ v.
Proof.
  intros H. eapply (transact_inv o); [exact H|]. unfold AbortVersion. wp_step. apply wp_lock_dataset. intros r _.
  wp_step. apply wp_lock_version. intros y _ _. wp_steps. apply wp_delete_version. intros _. cbn beta.
  apply wp_restore_dataset. intros f h _ ->. cbn. split; [apply lookup_delete_eq|].
  by intros k x [? ?]%map_lookup_filter_Some.
Qed.

Lemma CreateSession_no_version x o d :
  u_versions d !! us_version_id x = None → ∃ err, transact (CreateSession x) o d = (Err err, d).
Proof.
  intros Hn. apply transact_refused. intros w <-. unfold CreateSession. wp_steps. reflect_bool.
  destruct_and!. match goal with H : is_Some (u_versions _ !! _) |- _ => rw Hn in H; by destruct H end.
Qed.
(** Without interference and faults a step is its transaction. *)
Lemma svc_tx_quiet {A} (tx : Tx UDB A) e w :
  (∀ n d, e_db e n d = d) → (∀ n, e_fault e n = NoFault) →
  svc_tx tx e w =
  (match (transact tx (e_oracle e (sw_step w)) (sw_db w)).1 with Ok a => SOk a | Err x => SErr [x] end,
   mkSWorld (transact tx (e_oracle e (sw_step w)) (sw_db w)).2 (S (sw_step w)) (sw_calls w)).
Proof.
  intros Hd Hf. unfold svc_tx, svc_transact. rw Hd Hf. unfold transact, mbind, tx_bind.
  by destruct (tx _ _) as [[a w']|x].
Qed.

(** When the session of a new multipart upload cannot be recorded and the object
    store then fails to abort the remote upload, the code means to record the session
    as an orphan for the clean-up; but it has just deleted the version the row must
    refer to, so the insertion is refused and no row of the database knows the remote
    upload any more. *)
Lemma orphan_upload_unrecorded p x sum now err e w d1 a :
  (∀ n d, e_db e n d = d) → (∀ n, e_fault e n = NoFault) →
  (∀ n, e_abort e n (us_object_key x) (us_upload_id x) = Err a) →
  (∀ k y, u_sessions (sw_db w) !! k = Some y → us_upload_id y ≠ us_upload_id x) →
  transact (AbortVersion (us_dataset_id x) (us_version_id x) (UserID p)) (e_oracle e (S (sw_step w))) (sw_db w)
    = (Ok tt, d1) →
  ∃ l w', recover_initiate p x sum now err e w = (SErr l, w') ∧ a ∈ l
  ∧ ∀ k y, u_sessions (sw_db w') !! k = Some y → us_upload_id y ≠ us_upload_id x.
Proof.
  intros Hd Hf Ha Hno Htx. destruct (AbortVersion_deletes _ _ _ _ _ _ Htx) as [Hv Hs].
  assert (cleanupReservedRemote (us_object_key x) (us_upload_id x) (us_dataset_id x) (us_version_id x) (UserID p) e w
    = (SOk (Some ([a] ++ [])), mkSWorld d1 (S (S (sw_step w)))
        (sw_calls w ++ [CallAbortMultipart (us_object_key x) (us_upload_id x) (Err a)]))) as E1.
  { unfold cleanupReservedRemote, mbind, svc_bind, svc_try, AbortMultipart, svc_store. rw Ha. cbn [sres_of].
    rw svc_tx_quiet //. cbn [sw_step sw_db sw_calls]. by rw Htx. }
  unfold recover_initiate, mbind, svc_bind. rw E1. unfold svc_try, persistOrphanSession. rw svc_tx_quiet //.
  cbn [sw_step sw_db sw_calls].
  destruct (CreateSession_no_version (orphan_session x now "initiation_compensation_failed")
    (e_oracle e (S (S (sw_step w)))) d1 Hv) as [err' ->].
  eexists _, _. split; [reflexivity|]. split; [set_solver|]. cbn. intros k y Hy. apply (Hno k). by apply Hs.
Qed.
End requests.

(** ** Runs *)

#[local] Existing Instance ascii_collation.

(** A quiet environment whose object store holds "a,b" under every key. *)
Definition ex_env (abort : res unit) : SEnv := {|
  e_db := λ _ d, d; e_fault := λ _, NoFault; e_oracle := λ n, minting (100 + N.of_nat n);
  e_uuid := λ n, (1000 + N.of_nat n)%N; e_now := λ _, 200; e_text := λ _, "error";
  e_put := λ _ key r ct, (length (rd_bytes r), Ok (mkObjectInfo key (Z.of_nat (length (rd_bytes r))) "etag" ct));
  e_head := λ _ key, Ok (mkObjectInfo key 3 "etag" "text/csv");
  e_get := λ _ _, Ok (mkReader (bytes_of "a,b") None);
  e_delete := λ _ _, Ok tt;
  e_initiate := λ _ _ _, Ok "upload-3";
  e_presign := λ _ _ _ _ _, Ok "https://example.org/part";
  e_list_parts := λ _ _ _, Ok [mkMultipartPart 1 "etag" 3];
  e_get_part := λ _ _ _ n, Ok (mkMultipartPart n "etag" 3);
  e_complete := λ _ key _ _ ct, Ok (mkObjectInfo key 3 "etag" ct);
  e_abort := λ _ _ _, abort |}.

Lemma ex_env_rely abort : rely (ex_env abort).
Proof. intros n d. apply rtc_refl. Qed.

Definition ex_user : Principal := mkPrincipal 7 RoleUser [ScopeDatasetsRead; ScopeDatasetsWrite] AuthMethodBearer.
Definition ex_config : MultipartConfig := mkMultipartConfig 5242880 100 524288000 Hour Minute Minute.
Definition ex_limits : DatasetServiceConfig := mkDatasetServiceConfig 1000.

Definition ex_registered : list (uuid * UploadOp) := [
  (1%N, op_CreateDataset 7 "sales" "");
  (0%N, op_ReserveVersion (mkVersionReservation 2 1 7 "a.csv" "text/csv" FormatCSV "datasets/1/versions/2/raw" "artifacts" (JObj [])));
  (0%N, op_CreateSession ex_session);
  (0%N, op_insert_part 3 1 "etag" 3)
].

Definition ex_world (l : list (uuid * UploadOp)) : SWorld := mkSWorld (ex_db l) 0 [].

Lemma Complete_verified_witness :
  ∃ v w', Complete ex_config ex_user 3 [mkCompletePart 1 "etag"] (ex_env (Ok tt)) (ex_world ex_registered) = (SOk v, w')
  ∧ ∃ d x content new,
    rtc ustep (sw_db (ex_world ex_registered)) d ∧ u_sessions d !! 3%N = Some x ∧ us_id x = 3%N
    ∧ CanAccessOwner ex_user (us_owner_user_id x) ScopeDatasetsWrite = true
    ∧ verified x v content
    ∧ sw_calls w' = sw_calls (ex_world ex_registered) ++ new
    ∧ CallGet (us_object_key x) (Ok (mkReader content None)) ∈ new
    ∧ u_versions (sw_db w') !! us_version_id x = Some v
    ∧ ∃ y, u_sessions (sw_db w') !! 3%N = Some y ∧ us_state y = StateCompleted
      ∧ (keeps_session (ex_env (Ok tt)) 3 →
           same_session x y ∧ ∀ z, u_sessions (sw_db (ex_world ex_registered)) !! 3%N = Some z → same_session z x).
Proof.
  destruct (Complete ex_config ex_user 3 [mkCompletePart 1 "etag"] (ex_env (Ok tt)) (ex_world ex_registered))
    as [[v|l] w'] eqn:E; [|vm_compute in E; discriminate].
  exists v, w'. split; [done|].
  apply (Complete_verified (ex_env (Ok tt)) (ex_env_rely (Ok tt)) ex_config ex_user 3 [mkCompletePart 1 "etag"]
    (ex_world ex_registered) v w'); [by apply ex_inv|done].
Defined.

Definition ex_upload : UploadRequest :=
  mkUploadRequest "a.csv" "text/csv" ex_checksum 3 (Some (mkReader (bytes_of "a,b") None)).

Lemma UploadVersion_verified_witness :
  ∃ v w', UploadVersion ex_limits ex_user 1 ex_upload (ex_env (Ok tt)) (ex_world ex_registered) = (SOk v, w')
  ∧ dv_state v = VersionAvailable ∧ u_versions (sw_db w') !! dv_id v = Some v.
Proof.
  destruct (UploadVersion ex_limits ex_user 1 ex_upload (ex_env (Ok tt)) (ex_world ex_registered))
    as [[v|l] w'] eqn:E; [|vm_compute in E; discriminate].
  exists v, w'. split; [done|].
  pose proof (UploadVersion_verified (ex_env (Ok tt)) (ex_env_rely (Ok tt)) ex_limits ex_user 1 ex_upload
    (ex_world ex_registered) v w' (ex_inv ex_registered eq_refl) E) as (body&n&info&new&H).
  cbn zeta in H. destruct H as (_&_&_&Hst&_&_&_&_&_&_&Hv). exact (conj Hst Hv).
Defined.

Lemma upload_requests_safe_witness :
  upload_inv (sw_db (run_call ex_limits ex_config (call_CleanupExpired 10) (ex_env (Ok tt)) (ex_world ex_registered)).2).
Proof.
  apply (upload_requests_safe ex_limits ex_config (ex_env (Ok tt)) (call_CleanupExpired 10) (ex_world ex_registered) 2
    (reserved_version (mkVersionReservation 2 1 7 "a.csv" "text/csv" FormatCSV "k" "p" (JObj [])) 1 0)).
  - apply ex_env_rely.
  - by apply ex_inv.
Defined.

(** The version of a session that could not be recorded: dataset 1, version 2. *)
Definition ex_reserved : list (uuid * UploadOp) := take 2 ex_registered.

Lemma orphan_upload_unrecorded_witness :
  ∃ l w', recover_initiate ex_user ex_session ex_checksum 200 [ErrText "connection lost"]
            (ex_env (Err (ErrText "timeout"))) (ex_world ex_reserved) = (SErr l, w')
  ∧ ErrText "timeout" ∈ l
  ∧ ∀ k y, u_sessions (sw_db w') !! k = Some y → us_upload_id y ≠ us_upload_id ex_session.
Proof.
  destruct (transact (AbortVersion (us_dataset_id ex_session) (us_version_id ex_session) (UserID ex_user))
    (e_oracle (ex_env (Err (ErrText "timeout"))) 1) (sw_db (ex_world ex_reserved))) as [[[]|x] d1] eqn:E;
    [|vm_compute in E; discriminate].
  apply (orphan_upload_unrecorded ex_user ex_session ex_checksum 200 [ErrText "connection lost"]
    (ex_env (Err (ErrText "timeout"))) (ex_world ex_reserved) d1 (ErrText "timeout")).
  - done.
  - done.
  - done.
  - intros k y Hk. exfalso. revert Hk. by rw (_ : u_sessions (sw_db (ex_world ex_reserved)) = ∅) // lookup_empty.
  - exact E.
Defined.
