(* ===== verification/UploadJobs.v ===== *)
(** Where uploads and jobs meet: a job is created for an available version, and from
    then on the upload side leaves that version alone. *)

From S2P Require Import Prelude GoStrings Retry Json Queue JobModel Schema Sql Outbox JobStore WorkerRegistry Authz Lease Result Dlq Lifecycle Refinement System Logs Sha256 Upload UploadModel Svc DatasetStore SessionStore UploadSys UploadProps.

Open Scope Z_scope.

(** ** The columns the job side reads *)

Definition version_state_string (s : VersionState) : string :=
  match s with VersionUploading => "UPLOADING" | VersionAvailable => "AVAILABLE" | VersionFailed => "FAILED" end.

Definition dataset_view (r : Dataset) : DatasetRow :=
  mkDatasetRow (ds_id r) (ds_owner_user_id r) (dataset_state_string (ds_state r)) (ds_deleted_at r).

Definition version_view (v : DatasetVersion) : VersionRow :=
  mkVersionRow (dv_id v) (dv_dataset_id v) (version_state_string (dv_state v)) (dv_object_key v)
    (dv_content_type v) (format_string (dv_format v)) (dv_size_bytes v).

(** The two models describe one database: the tables of datasets and versions, and
    the versions that jobs refer to. *)
Record agrees (d : DB) (u : UDB) : Prop := {
  ag_datasets : t_datasets d = dataset_view <$> u_datasets u;
  ag_versions : t_versions d = version_view <$> u_versions u;
  ag_jobs j r : t_jobs d !! j = Some r → j_dataset_version_id r ∈ u_job_versions u
}.

Section jobs.
Context `{!Enqueuer, !WorkerSelector, PC : PgCollation}.

Lemma create_record_job command fp j r o w :
  t_jobs (st w) !! j = Some r →
  wp o (create_record command fp j) (λ oc w',
    t_versions (st w') = t_versions (st w) ∧ t_datasets (st w') = t_datasets (st w) ∧ t_jobs (st w') = t_jobs (st w)
    ∧ ∀ item, oc = CreatedJob item → item = r) w.
Proof.
  intros Hj. unfold create_record, create_finish, create_enqueue, findIdempotentJob.
  wp_auto; split_and!; try done; intros item Hi; simplify_eq/=; congruence.
Qed.

(** What a creation commits. *)
Lemma create_new_input command fp o w :
  wp o (create_new command fp) (λ oc w',
    ∃ v, t_versions (st w) !! c_DatasetVersionID command = Some v ∧ v_state v = "AVAILABLE"
    ∧ t_versions (st w') = t_versions (st w) ∧ t_datasets (st w') = t_datasets (st w)
    ∧ (∀ j r, t_jobs (st w') !! j = Some r → t_jobs (st w) !! j = Some r ∨ j_dataset_version_id r = c_DatasetVersionID command)
    ∧ ∀ item, oc = CreatedJob item → j_dataset_version_id item = c_DatasetVersionID command) w.
Proof.
  unfold create_new, lockAvailableVersion, incrementQuota, insert_job. wp_go.
  all: match goal with H : bool_decide (v_state ?v = _) = true |- _ => apply bool_decide_eq_true in H as Hst end.
  all: eapply wp_mono; [|eapply create_record_job; apply lookup_insert_eq].
  all: cbn; intros oc w' (Hv&Hd&Hj&Hi); eexists; split_and!; [eassumption|done|done|done| |by intros item ->%Hi].
  all: intros j r; rw Hj; intros [[<- <-]|[_ ?]]%lookup_insert_Some; auto.
Qed.
Lemma Create_input fp command o d item d' :
  Create (Ok fp) command o d = (Ok (item, false), d') →
  ∃ v, t_versions d !! j_dataset_version_id item = Some v ∧ v_state v = "AVAILABLE"
  ∧ t_versions d' = t_versions d ∧ t_datasets d' = t_datasets d
  ∧ ∀ j r, t_jobs d' !! j = Some r → t_jobs d !! j = Some r ∨ j_dataset_version_id r = j_dataset_version_id item.
Proof.
  assert (wp o (create_tx command fp) (λ oc w', ∀ item, oc = CreatedJob item →
    ∃ v, t_versions d !! j_dataset_version_id item = Some v ∧ v_state v = "AVAILABLE"
    ∧ t_versions (st w') = t_versions d ∧ t_datasets (st w') = t_datasets d
    ∧ ∀ j r, t_jobs (st w') !! j = Some r → t_jobs d !! j = Some r ∨ j_dataset_version_id r = j_dataset_version_id item)
    (mkWorld d 0)) as Hw.
  { assert (∀ n, wp o (create_new command fp) (λ oc w', ∀ item, oc = CreatedJob item →
      ∃ v, t_versions d !! j_dataset_version_id item = Some v ∧ v_state v = "AVAILABLE"
      ∧ t_versions (st w') = t_versions d ∧ t_datasets (st w') = t_datasets d
      ∧ ∀ j r, t_jobs (st w') !! j = Some r → t_jobs d !! j = Some r ∨ j_dataset_version_id r = j_dataset_version_id item)
      (mkWorld d n)) as Hnew.
    { intros n. eapply wp_mono; [|apply create_new_input]. cbn. intros oc w' (v&?&?&?&?&Hj&Hi) i Hoc.
      rw (Hi i Hoc). eauto 6. }
    unfold create_tx, findIdempotentJob. wp_if; [apply Hnew|]. wp_go. wp_if; wp_go; [done|apply Hnew]. }
  unfold Create. unfold wp in Hw. destruct (create_tx command fp o (mkWorld d 0)) as [[[i|i|j] w']|]; cbn.
  - intros [= -> <-]. by apply Hw.
  - done.
  - by destruct (t_jobs d !! j).
  - done.
Qed.

(** C17. A job that is created gets an available version as its input, and the input is
    fixed from then on: the creation is a step of the upload side that refers to the
    version, the two sides still describe one database after it, and no sequence of
    uploads, aborts, clean-ups and dataset deletions that follows changes or removes
    the version, its object key, its size or its checksum. *)
Theorem job_input_fixed fp command o d u item d' :
  agrees d u → upload_inv u → Create (Ok fp) command o d = (Ok (item, false), d') →
  ∃ u', ustep u u' ∧ agrees d' u'
  ∧ ∃ v size sum, u_versions u !! j_dataset_version_id item = Some v
    ∧ dv_state v = VersionAvailable ∧ dv_size_bytes v = Some size ∧ dv_checksum_sha256 v = Some sum
    ∧ ∀ u'', rtc ustep u' u'' → u_versions u'' !! j_dataset_version_id item = Some v.
Proof.
  intros [Hds Hvs Hjs] HI (row&Hrow&Hst&Hv'&Hd'&Hj')%Create_input.
  rw Hvs lookup_fmap in Hrow. apply fmap_Some in Hrow as (v&Hk&->). cbn in Hst.
  assert (dv_state v = VersionAvailable) as Hav by (by destruct (dv_state v)).
  destruct (inv_version u HI _ v Hk) as [_ Hok]. unfold version_ok in Hok. rw Hav in Hok.
  destruct Hok as (size&sum&Hsz&Hsum&_).
  set (k := j_dataset_version_id item) in *.
  assert (transact (reference_version k) o u = (Ok tt, on_u_job_versions (λ s, {[k]} ∪ s) u)) as Hrun.
  { unfold transact, reference_version, mbind, tx_bind, gets. cbn. rw Hk. cbn. rw Hav. done. }
  assert (ustep u (on_u_job_versions (λ s, {[k]} ∪ s) u)) as Hstep.
  { exists o, (op_reference k). split; [done|]. cbn [run_op]. by rw Hrun. }
  exists (on_u_job_versions (λ s, {[k]} ∪ s) u). split_and!; [done| |].
  - split; cbn; [congruence|congruence|]. intros j r [Hj| ->]%Hj'; [|set_solver]. apply Hjs in Hj. set_solver.
  - exists v, size, sum. split_and!; [done..|]. intros u'' Hu.
    apply (versions_finished (on_u_job_versions (λ s, {[k]} ∪ s) u)); [by eapply ustep_inv|done|done|by rw Hav].
Qed.
End jobs.

(** ** A run *)

#[local] Existing Instance ascii_collation.

(** The job side of the database in which version 2 of dataset 1 is available. *)
Definition ex_tables (u : UDB) : DB :=
  on_versions (λ _, version_view <$> u_versions u) (on_datasets (λ _, dataset_view <$> u_datasets u) empty_db).

Definition ex_submission : CreateCommand := mkCreateCommand 7 7 2 [ex_operation] "" 0 5 "trace" "" "".

Lemma job_input_fixed_witness :
  ∃ item d', Create (Ok "fp") ex_submission (ex_env 100 1000) (ex_tables (ex_db (ex_started ++ ex_completed)))
    = (Ok (item, false), d') ∧ j_dataset_version_id item = 2%N
  ∧ ∃ u', ustep (ex_db (ex_started ++ ex_completed)) u' ∧ agrees d' u'
  ∧ ∃ v size sum, u_versions (ex_db (ex_started ++ ex_completed)) !! j_dataset_version_id item = Some v
    ∧ dv_state v = VersionAvailable ∧ dv_size_bytes v = Some size ∧ dv_checksum_sha256 v = Some sum
    ∧ ∀ u'', rtc ustep u' u'' → u_versions u'' !! j_dataset_version_id item = Some v.
Proof.
  destruct (Create (Ok "fp") ex_submission (ex_env 100 1000) (ex_tables (ex_db (ex_started ++ ex_completed))))
    as [[[item [|]]|x] d'] eqn:E; [vm_compute in E; discriminate| |vm_compute in E; discriminate].
  exists item, d'. split; [reflexivity|]. split.
  - apply (f_equal fst) in E. vm_compute in E. injection E as <-. reflexivity.
  - apply (job_input_fixed "fp" ex_submission (ex_env 100 1000) (ex_tables (ex_db (ex_started ++ ex_completed)))).
    + split; [reflexivity|reflexivity|]. intros j r Hj. exfalso. revert Hj. by rw (_ : t_jobs _ = ∅) // lookup_empty.
    + by apply ex_inv.
    + exact E.
Defined.
