(* ===== verification/QualityStore.v ===== *)
(** The rules of datasets: quality/repository_rules.go and quality/service.go, with
    the constraints of migrations/000008_quality_rules.sql. *)

From S2P Require Import Prelude GoStrings Json Queue JobModel Schema Sql Sha256 GoValue QualityRules Authz Upload UploadModel Svc DatasetStore.

Open Scope Z_scope.

(** ** Data *)

(** A row of [quality_rules]; [column_scope] is NOT NULL. *)
Record Rule := mkRule {
  qr_id : uuid; qr_owner_user_id : uuid; qr_dataset_id : uuid; qr_name : string;
  qr_column_scope : list string; qr_rule_type : string; qr_configuration : members;
  qr_severity : string; qr_enabled : bool; qr_created_by : uuid;
  qr_created_at : time; qr_updated_at : time; qr_deleted_at : option time
}.

Record RuleCreateRequest := mkRuleCreateRequest {
  qc_DatasetID : uuid; qc_Name : string; qc_ColumnScope : option (list string); qc_RuleType : string;
  qc_Configuration : option members; qc_Severity : string; qc_Enabled : option bool
}.

(** [None] is a nil pointer; a pointer to a nil slice or map is [Some None]. *)
Record RuleUpdateRequest := mkRuleUpdateRequest {
  qu_Name : option string; qu_ColumnScope : option (option (list string)); qu_RuleType : option string;
  qu_Configuration : option (option members); qu_Severity : option string; qu_Enabled : option bool
}.

Record RuleListQuery := mkRuleListQuery {
  ql_OwnerUserID : option uuid; ql_DatasetID : option uuid; ql_Page : Z; ql_PageSize : Z
}.

Record RulePage := mkRulePage { rp_Items : list Rule; rp_Page : Z; rp_PageSize : Z; rp_Total : Z }.

(** The tables this package works on, beside those of datasets. *)
Record QDB := mkQDB { q_upload : UDB; q_rules : gmap uuid Rule; q_audit : list AuditRow }.

Definition on_rules (f : gmap uuid Rule → gmap uuid Rule) (d : QDB) : QDB :=
  mkQDB (q_upload d) (f (q_rules d)) (q_audit d).
Definition on_q_audit (f : list AuditRow → list AuditRow) (d : QDB) : QDB :=
  mkQDB (q_upload d) (q_rules d) (f (q_audit d)).

Abbreviation get_qdb := (gets (λ d : QDB, d)).

Definition ErrNotNull : GoError := ErrText "null value violates not-null constraint".

(** ** Constraints *)

Fixpoint jsonb_text (v : json) : bool :=
  match v with
  | JNull | JBool _ | JNum _ => true
  | JStr s => negb (has_byte 0 (bytes_of s))
  | JArr l => forallb jsonb_text l
  | JObj l => forallb (λ kv, negb (has_byte 0 (bytes_of kv.1)) && jsonb_text kv.2) l
  end.

Definition stored_rule_types : list string :=
  ["NOT_NULL"; "UNIQUE"; "BETWEEN"; "MIN_LENGTH"; "MAX_LENGTH"; "REGEX"; "EMAIL_FORMAT"; "DATE_FORMAT";
   "ALLOWED_VALUES"; "COLUMN_TYPE"; "ROW_COUNT_BETWEEN"; "REFERENTIAL_SET"].

Definition rule_checks (r : Rule) : bool :=
  (1 <=? char_length (qr_name r)) && (char_length (qr_name r) <=? 120) && negb (contains_any (qr_name r) [13; 10]%N)
  && bool_decide (qr_rule_type r ∈ stored_rule_types)
  && bool_decide (qr_severity r ∈ ["INFO"; "WARNING"; "ERROR"; "CRITICAL"])
  && (Z.of_nat (length (qr_column_scope r)) <=? 256).

Definition rule_text (r : Rule) : bool :=
  pg_text (qr_name r) && forallb pg_text (qr_column_scope r) && pg_text (qr_rule_type r) && pg_text (qr_severity r)
  && jsonb_text (JObj (qr_configuration r)).

(** The unique index on (dataset_id, name) of the active rules. *)
Definition rule_name_taken (d : QDB) (r : Rule) : bool :=
  existsb (λ x, bool_decide (qr_id x ≠ qr_id r ∧ qr_dataset_id x = qr_dataset_id r ∧ qr_name x = qr_name r
                             ∧ qr_deleted_at x = None)) (rows (q_rules d)).

Definition put_rule (r : Rule) : Tx QDB unit :=
  d ← get_qdb;
  _ ← require (rule_text r) ErrEncoding;
  _ ← require (rule_checks r) ErrCheckViolation;
  _ ← require (negb (rule_name_taken d r)) ErrRuleNameUsed;
  modify (on_rules (insert (qr_id r) r)).

Definition audit (actorID : uuid) (action : string) (ruleID : uuid) : Tx QDB unit :=
  d ← get_qdb;
  _ ← require (bool_decide (actorID ∈ u_users (q_upload d))) ErrReferenceViolation;
  modify (on_q_audit (λ l, l ++ [mkAuditRow (Some actorID) action "quality_rule" (uuid_string ruleID) ""])).

(** ** The repository *)

Definition enabledValue (value : option bool) : bool := default true value.

(** A nil slice is the SQL value NULL.  [configuration] is the text of the map. *)
Definition Rule_Create (ownerID actorID : uuid) (request : RuleCreateRequest) : Tx QDB Rule :=
  id ← uuid_new;
  now ← sql_now;
  d ← get_qdb;
  columns ← lift_opt ErrNotNull (qc_ColumnScope request);
  configuration ← lift_opt ErrCheckViolation (qc_Configuration request);
  let rule := mkRule id ownerID (qc_DatasetID request) (qc_Name request) columns (qc_RuleType request)
                configuration (qc_Severity request) (enabledValue (qc_Enabled request)) actorID now now None in
  _ ← require (negb (bool_decide (is_Some (q_rules d !! id)))) ErrRuleNameUsed;
  _ ← put_rule rule;
  _ ← require (bool_decide (ownerID ∈ u_users (q_upload d)) && bool_decide (actorID ∈ u_users (q_upload d))
               && bool_decide (is_Some (u_datasets (q_upload d) !! qc_DatasetID request))) ErrReferenceViolation;
  _ ← audit actorID "quality_rule.created" id;
  mret rule.

Definition rule_listed (query : RuleListQuery) (r : Rule) : bool :=
  bool_decide (qr_deleted_at r = None)
  && match ql_OwnerUserID query with Some u => bool_decide (qr_owner_user_id r = u) | None => true end
  && match ql_DatasetID query with Some u => bool_decide (qr_dataset_id r = u) | None => true end.

Definition rule_newer (x y : Rule) : bool :=
  (qr_created_at y <? qr_created_at x) || ((qr_created_at x =? qr_created_at y) && (qr_id x <? qr_id y)%N).

(** The count and the page are two queries, in the states [d] and [d1]. *)
Definition Rule_List (query : RuleListQuery) (d d1 : QDB) : res RulePage :=
  if (ql_Page query <? 1) || (ql_PageSize query <? 1) || (100 <? ql_PageSize query) then Err ErrQualityInvalidInput else
  let total := length (filter (λ r, rule_listed query r = true) (rows (q_rules d))) in
  let offset := wrap64 ((ql_Page query - 1) * ql_PageSize query) in
  if offset <? 0 then Err (ErrText "OFFSET must not be negative") else
  let items := take (Z.to_nat (ql_PageSize query)) (drop (Z.to_nat offset)
    (sort_by rule_newer (filter (λ r, rule_listed query r = true) (rows (q_rules d1))))) in
  Ok (mkRulePage items (ql_Page query) (ql_PageSize query) (Z.of_nat total)).

Definition active_rule (d : QDB) (ruleID : uuid) : option Rule :=
  r ← q_rules d !! ruleID; if bool_decide (qr_deleted_at r = None) then Some r else None.

Definition Rule_Get (ruleID : uuid) (d : QDB) : res Rule :=
  match active_rule d ruleID with Some r => Ok r | None => Err ErrRuleNotFound end.

(** [optionalConfiguration]: a pointer to a nil map would be the text [null]. *)
Definition optionalConfiguration (value : option (option members)) : option json :=
  (λ c, match c with Some m => JObj m | None => JNull end) <$> value.

(** COALESCE with NULL for a nil pointer and for a nil slice. *)
Definition Rule_Update (ruleID actorID : uuid) (request : RuleUpdateRequest) : Tx QDB Rule :=
  now ← sql_now;
  d ← get_qdb;
  r ← lift_opt ErrRuleNotFound (active_rule d ruleID);
  configuration ← match optionalConfiguration (qu_Configuration request) with
                  | None => mret (qr_configuration r)
                  | Some (JObj m) => mret m
                  | Some _ => fail ErrCheckViolation
                  end;
  let rule := mkRule (qr_id r) (qr_owner_user_id r) (qr_dataset_id r)
                (default (qr_name r) (qu_Name request))
                (default (qr_column_scope r) (mjoin (qu_ColumnScope request)))
                (default (qr_rule_type r) (qu_RuleType request)) configuration
                (default (qr_severity r) (qu_Severity request)) (default (qr_enabled r) (qu_Enabled request))
                (qr_created_by r) (qr_created_at r) now (qr_deleted_at r) in
  _ ← put_rule rule;
  _ ← audit actorID "quality_rule.updated" ruleID;
  mret rule.

Definition Rule_Delete (ruleID actorID : uuid) : Tx QDB unit :=
  now ← sql_now;
  d ← get_qdb;
  r ← lift_opt ErrRuleNotFound (active_rule d ruleID);
  _ ← modify (on_rules (insert ruleID
        (mkRule (qr_id r) (qr_owner_user_id r) (qr_dataset_id r) (qr_name r) (qr_column_scope r) (qr_rule_type r)
           (qr_configuration r) (qr_severity r) (qr_enabled r) (qr_created_by r) (qr_created_at r) now (Some now))));
  audit actorID "quality_rule.deleted" ruleID.

(** ** The service

    Reads and the write are transactions of their own: [d], [d1], [d2] are the
    states other requests left for each. *)

Definition rule_normalizePagination (page pageSize : Z) : res (Z * Z) :=
  let page := if bool_decide (page = 0) then 1 else page in
  let pageSize := if bool_decide (pageSize = 0) then 20 else pageSize in
  if (page <? 1) || (pageSize <? 1) || (100 <? pageSize) then Err ErrQualityInvalidInput
  else Ok (page, pageSize).

Definition authorizeDataset (principal : Principal) (datasetID : uuid) (scope : string) (d : QDB) : res Dataset :=
  _ ← guard_err (negb (bool_decide (datasetID = uuid_nil))) ErrQualityInvalidInput;
  item ← FindDataset datasetID (q_upload d);
  _ ← guard_err (bool_decide (ds_deleted_at item = None) && CanAccessOwner principal (ds_owner_user_id item) scope)
        ErrForbidden;
  Ok item.

Section service.
Context `{GoArch, Regexp}.

Definition definition_of (name : string) (columns : option (list string)) (ruleType : string)
  (configuration : option members) (severity : string) (enabled : bool) : quality.Definition_ :=
  quality.mkDefinition name columns ruleType (any_of_members <$> configuration) severity enabled.

(** The request the repository gets.  The configuration of the definition is a copy
    of the given one ([cloneMap]), here kept as JSON. *)
Definition create_request (principal : Principal) (request : RuleCreateRequest) (d : QDB) : res (uuid * RuleCreateRequest) :=
  _ ← RequireScope principal ScopeDatasetsWrite;
  datasetItem ← authorizeDataset principal (qc_DatasetID request) ScopeDatasetsWrite d;
  let enabled := default true (qc_Enabled request) in
  definition ← quality.ValidateDefinition (definition_of (qc_Name request) (qc_ColumnScope request)
                 (qc_RuleType request) (qc_Configuration request) (qc_Severity request) enabled);
  Ok (ds_owner_user_id datasetItem,
      mkRuleCreateRequest (ds_id datasetItem) (quality.Name definition) (quality.ColumnScope definition)
        (quality.RuleType definition) (Some (default [] (qc_Configuration request)))
        (quality.Severity definition) (Some (quality.Enabled definition))).

Definition QualityService_Create (principal : Principal) (request : RuleCreateRequest) (o : Oracle) (d d1 : QDB)
  : res Rule * QDB :=
  match create_request principal request d with
  | Err e => (Err e, d1)
  | Ok (ownerID, request) => transact (Rule_Create ownerID (UserID principal) request) o d1
  end.

Definition QualityService_List (principal : Principal) (datasetID : option uuid) (page pageSize : Z) (d d1 d2 : QDB)
  : res RulePage :=
  _ ← RequireScope principal ScopeDatasetsRead;
  pg ← rule_normalizePagination page pageSize;
  _ ← match datasetID with
      | Some id => _ ← authorizeDataset principal id ScopeDatasetsRead d; Ok tt
      | None => Ok tt
      end;
  let ownerID := if bool_decide (Role principal = RoleAdmin) then None else Some (UserID principal) in
  Rule_List (mkRuleListQuery ownerID datasetID pg.1 pg.2) d1 d2.

Definition authorized_rule (principal : Principal) (ruleID : uuid) (scope : string) (d d1 : QDB) : res Rule :=
  _ ← RequireScope principal scope;
  rule ← Rule_Get ruleID d;
  _ ← authorizeDataset principal (qr_dataset_id rule) scope d1;
  Ok rule.

Definition QualityService_Get (principal : Principal) (ruleID : uuid) (d d1 : QDB) : res Rule :=
  authorized_rule principal ruleID ScopeDatasetsRead d d1.

(** All six fields are written, whichever of them the request names. *)
Definition update_request (existing : Rule) (request : RuleUpdateRequest) : res RuleUpdateRequest :=
  let configuration := default (Some (qr_configuration existing)) (qu_Configuration request) in
  validated ← quality.ValidateDefinition (definition_of
    (default (qr_name existing) (qu_Name request))
    (default (Some (qr_column_scope existing)) (qu_ColumnScope request))
    (default (qr_rule_type existing) (qu_RuleType request)) configuration
    (default (qr_severity existing) (qu_Severity request)) (default (qr_enabled existing) (qu_Enabled request)));
  Ok (mkRuleUpdateRequest (Some (quality.Name validated)) (Some (quality.ColumnScope validated))
        (Some (quality.RuleType validated)) (Some (Some (default [] configuration)))
        (Some (quality.Severity validated)) (Some (quality.Enabled validated))).

Definition QualityService_Update (principal : Principal) (ruleID : uuid) (request : RuleUpdateRequest) (o : Oracle)
  (d d1 d2 : QDB) : res Rule * QDB :=
  match (existing ← authorized_rule principal ruleID ScopeDatasetsWrite d d1; update_request existing request) with
  | Err e => (Err e, d2)
  | Ok request => transact (Rule_Update ruleID (UserID principal) request) o d2
  end.

Definition QualityService_Delete (principal : Principal) (ruleID : uuid) (o : Oracle) (d d1 d2 : QDB)
  : res unit * QDB :=
  match authorized_rule principal ruleID ScopeDatasetsWrite d d1 with
  | Err e => (Err e, d2)
  | Ok _ => transact (Rule_Delete ruleID (UserID principal)) o d2
  end.
End service.
