(* ===== verification/QualityProps.v ===== *)
(** Properties of the rules of datasets: what is stored is what validation
    accepts, names are unique, and what becomes of rules on whole datasets. *)

From S2P Require Import Prelude GoStrings Json Queue JobModel Schema Sql Sha256 GoValue QualityRules Authz Upload UploadModel Svc DatasetStore QualityStore.

Open Scope Z_scope.

Section rules.
Context `{GoArch, Regexp}.

(** ** Validation *)

(** Validating again what was validated changes nothing. *)
Definition normalized (d : quality.Definition_) : Prop :=
  quality.ValidateDefinition (quality.mkDefinition (quality.Name d) (Some (default [] (quality.ColumnScope d)))
    (quality.RuleType d) (quality.Configuration d) (quality.Severity d) (quality.Enabled d)) = Ok d.

Lemma normalizeColumns_idem c c' :
  quality.normalizeColumns c = Ok c' → quality.normalizeColumns (Some (default [] c')) = Ok c'.
Proof.
  unfold quality.normalizeColumns. cbn [default from_option id]. case_match eqn:Hl; [done|].
  intros ([]&Hc&[= <-])%res_bind_Ok.
  assert (default [] (quality.append_nil (default [] c)) = default [] c) as -> by by destruct (default [] c).
  rw Hl. unfold mbind, res_mbind. by rw Hc.
Qed.

Lemma ValidateDefinition_normalized d d' : quality.ValidateDefinition d = Ok d' → normalized d'.
Proof.
  unfold normalized, quality.ValidateDefinition. case_match eqn:Hn; [done|].
  intros (cs&Hcs&Hd)%res_bind_Ok. case_match eqn:Ht; [done|]. case_match eqn:Hs; [done|].
  apply res_bind_Ok in Hd as ([]&Hc&[= <-]).
  cbn [quality.Name quality.ColumnScope quality.RuleType quality.Configuration quality.Severity quality.Enabled
       quality.cloneMap default from_option id].
  rw trim_space_idem Hn (normalizeColumns_idem _ _ Hcs). unfold mbind, res_mbind. cbn [res_bind].
  rw Ht Hs. unfold quality.cloneMap in Hc. rw Hc. done.
Qed.

Lemma ValidateDefinition_fields d d' :
  quality.ValidateDefinition d = Ok d' →
  quality.RuleType d' = quality.RuleType d ∧ quality.Severity d' = quality.Severity d
  ∧ quality.Configuration d' = Some (default [] (quality.Configuration d)) ∧ quality.Enabled d' = quality.Enabled d
  ∧ (quality.ColumnScope d' = None ↔ quality.RuleType d = quality.RuleRowCountBetween).
Proof.
  unfold quality.ValidateDefinition. destruct (_ || _ || _); [discriminate|]. intros (cs&Hcs&Hd)%res_bind_Ok.
  destruct (negb (quality.isRuleType _) || _); [done|]. destruct (negb (quality.isSeverity _)); [discriminate|]. apply res_bind_Ok in Hd as ([]&Hc&[= <-]). simpl.
  split_and!; try done. unfold quality.validateConfiguration in Hc.
  destruct (quality.check_column_count (quality.RuleType d) (default [] cs)) as [[]|] eqn:E in Hc; [|done].
  unfold quality.check_column_count in E.
  unfold quality.normalizeColumns in Hcs. destruct (256 <? _) in Hcs; [discriminate|]. apply res_bind_Ok in Hcs as ([]&_&[= <-]).
  destruct (default [] (quality.ColumnScope d)) as [|c l]; case_bool_decide as Hty; simpl in E |- *; try done.
Qed.

(** Validated columns are none at all, or some. *)
Lemma ValidateDefinition_columns d d' :
  quality.ValidateDefinition d = Ok d' → quality.ColumnScope d' ≠ Some [].
Proof.
  unfold quality.ValidateDefinition. destruct (_ || _ || _); [discriminate|]. intros (cs&Hcs&Hd)%res_bind_Ok.
  destruct (negb (quality.isRuleType _) || _); [done|]. destruct (negb (quality.isSeverity _)); [discriminate|].
  apply res_bind_Ok in Hd as ([]&_&[= <-]). simpl.
  unfold quality.normalizeColumns in Hcs. destruct (256 <? _) in Hcs; [discriminate|]. apply res_bind_Ok in Hcs as ([]&_&[= <-]).
  by destruct (default [] (quality.ColumnScope d)).
Qed.

(** ** Stored rules *)

Definition rule_definition (r : Rule) (columns : list string) : quality.Definition_ :=
  definition_of (qr_name r) (Some columns) (qr_rule_type r) (Some (qr_configuration r)) (qr_severity r) (qr_enabled r).

(** Validation accepts the rule on these columns, and changes nothing of it. *)
Definition accepted_on (r : Rule) (columns : list string) : Prop :=
  ∃ d, quality.ValidateDefinition (rule_definition r columns) = Ok d
    ∧ quality.Name d = qr_name r ∧ default [] (quality.ColumnScope d) = columns ∧ quality.RuleType d = qr_rule_type r
    ∧ quality.Configuration d = Some (any_of_members (qr_configuration r))
    ∧ quality.Severity d = qr_severity r ∧ quality.Enabled d = qr_enabled r.

(** A stored rule has columns; validation accepts it on them, or, when it is one on
    the number of rows, with none. *)
Definition rule_valid (r : Rule) : Prop :=
  qr_column_scope r ≠ []
  ∧ (qr_rule_type r ≠ quality.RuleRowCountBetween → accepted_on r (qr_column_scope r))
  ∧ (qr_rule_type r = quality.RuleRowCountBetween → accepted_on r []).

Definition names_unique (m : gmap uuid Rule) : Prop :=
  ∀ i j x y, m !! i = Some x → m !! j = Some y → qr_deleted_at x = None → qr_deleted_at y = None →
    qr_dataset_id x = qr_dataset_id y → qr_name x = qr_name y → i = j.

Definition rules_ok (d : QDB) : Prop :=
  map_Forall (λ i r, qr_id r = i ∧ rule_valid r) (q_rules d) ∧ names_unique (q_rules d).

Lemma rule_name_free d r j x :
  rule_name_taken d r = false → map_Forall (λ i r, qr_id r = i ∧ rule_valid r) (q_rules d) →
  q_rules d !! j = Some x → j ≠ qr_id r → qr_deleted_at x = None → qr_dataset_id x = qr_dataset_id r →
  qr_name x = qr_name r → False.
Proof.
  intros Ht Hall Hj Hne Hd Hds Hn. apply not_true_iff_false in Ht. destruct Ht.
  apply existsb_exists. exists x. destruct (Hall j x Hj) as [Hid _]. split; [|by apply bool_decide_eq_true; rw Hid].
  apply list_elem_of_In, elem_of_rows. eauto.
Qed.

Lemma active_rule_Some d id r : active_rule d id = Some r → q_rules d !! id = Some r ∧ qr_deleted_at r = None.
Proof. unfold active_rule. intros (r0&Hr0&Ha)%bind_Some. case_bool_decide; [|done]. by injection Ha as ->. Qed.

Lemma put_rule_ok r o w :
  rules_ok (st w) → rule_valid r →
  wp o (put_rule r) (λ _ w', rules_ok (st w')) w.
Proof.
  intros [Hall Hu] Hr. unfold put_rule. wp_steps. reflect_bool.
  match goal with H : rule_name_taken _ _ = false |- _ => rename H into Ht end. split; simpl.
  - by apply map_Forall_insert_2.
  - intros i j x y. rw !lookup_insert_Some. intros [[<- <-]|[Hi Hx]] [[<- <-]|[Hj Hy]] Hdx Hdy Hds Hn; [done| | |].
    + exfalso. by eapply (rule_name_free _ _ j y).
    + exfalso. by eapply (rule_name_free _ _ i x).
    + by eapply Hu.
Qed.

Lemma audit_ok actor action id o w : rules_ok (st w) → wp o (audit actor action id) (λ _ w', rules_ok (st w')) w.
Proof. intros Hok. unfold audit. wp_steps. exact Hok. Qed.

(** A rule written from a validated definition, whose columns are kept when the
    definition has none. *)
Lemma validated_rule def dd r old :
  quality.ValidateDefinition def = Ok dd →
  qr_name r = quality.Name dd → qr_rule_type r = quality.RuleType dd → qr_severity r = quality.Severity dd →
  qr_enabled r = quality.Enabled dd →
  any_of_members (qr_configuration r) = default [] (quality.Configuration def) →
  qr_column_scope r = default old (quality.ColumnScope dd) → (quality.ColumnScope dd = None → old ≠ []) → rule_valid r.
Proof.
  intros Hd Hn Ht Hs He Hc Hcol Hold. destruct (ValidateDefinition_fields _ _ Hd) as (Et&_&Ec&_&Hscope).
  assert (accepted_on r (default [] (quality.ColumnScope dd))) as Hacc.
  { exists dd. split; [|rw Ec Hc; by split_and!]. pose proof (ValidateDefinition_normalized _ _ Hd) as Hnorm. unfold normalized in Hnorm.
    rw -Hnorm. unfold rule_definition, definition_of. rw Hn Ht Hs He Ec. cbn [fmap option_fmap option_map]. by rw Hc. }
  rw -Et -Ht in Hscope. split_and!.
  - rw Hcol. pose proof (ValidateDefinition_columns _ _ Hd) as Hne.
    destruct (quality.ColumnScope dd); [simpl; congruence|by apply Hold].
  - intros Hrow. rw Hcol. destruct (quality.ColumnScope dd); [done|]. by destruct Hrow; apply Hscope.
  - intros Hnone%Hscope. by rw Hnone in Hacc.
Qed.

Lemma create_request_Ok p request d owner req :
  create_request p request d = Ok (owner, req) →
  ∃ item dd, authorizeDataset p (qc_DatasetID request) ScopeDatasetsWrite d = Ok item
    ∧ quality.ValidateDefinition (definition_of (qc_Name request) (qc_ColumnScope request) (qc_RuleType request)
        (qc_Configuration request) (qc_Severity request) (default true (qc_Enabled request))) = Ok dd
    ∧ owner = ds_owner_user_id item
    ∧ req = mkRuleCreateRequest (ds_id item) (quality.Name dd) (quality.ColumnScope dd) (quality.RuleType dd)
              (Some (default [] (qc_Configuration request))) (quality.Severity dd) (Some (quality.Enabled dd)).
Proof.
  unfold create_request. intros (?&_&(item&Hi&(dd&Hd&[= <- <-])%res_bind_Ok)%res_bind_Ok)%res_bind_Ok.
  by exists item, dd.
Qed.

Lemma default_members c : any_of_members (default [] c) = default [] (any_of_members <$> c).
Proof. by destruct c. Qed.

Lemma Create_ok p request o d d1 : rules_ok d1 → rules_ok (QualityService_Create p request o d d1).2.
Proof.
  intros Hok. unfold QualityService_Create. destruct (create_request p request d) as [[owner req]|] eqn:E; [|done].
  apply create_request_Ok in E as (item&dd&_&Hd&->&->).
  apply (transact_wp o _ d1 (λ _ d', rules_ok d')); [done|]. unfold Rule_Create. wp_steps.
  eapply wp_mono; [|apply put_rule_ok; [done|]].
  - intros ? w' Hw'. wp_steps. eapply wp_mono; [|by apply audit_ok]. intros ? w'' Hw''. by wp_steps.
  - simplify_eq/=. eapply (validated_rule _ dd _ []); try done; simpl; [apply default_members|..].
    all: match goal with H : quality.ColumnScope _ = Some _ |- _ => by rw H end.
Qed.

Lemma Update_ok p id request o d d1 d2 : rules_ok d2 → rules_ok (QualityService_Update p id request o d d1 d2).2.
Proof.
  intros Hok. unfold QualityService_Update.
  destruct (_ ← authorized_rule p id ScopeDatasetsWrite d d1; _) as [req|] eqn:E; [|done].
  apply res_bind_Ok in E as (existing&_&Hreq). unfold update_request in Hreq.
  apply res_bind_Ok in Hreq as (dd&Hd&[= <-]).
  apply (transact_wp o _ d2 (λ _ d', rules_ok d')); [done|]. unfold Rule_Update.
  cbn [qu_Configuration optionalConfiguration]. wp_steps. apply wp_ret. wp_steps. eapply wp_mono; [|apply put_rule_ok; [done|]].
  - intros ? w' Hw'. wp_steps. eapply wp_mono; [|by apply audit_ok]. intros ? w'' Hw''. by wp_steps.
  - match goal with H : active_rule _ _ = Some ?x |- _ => rename H into Ha; rename x into old end.
    apply active_rule_Some in Ha as [Ha _]. destruct (proj1 Hok _ _ Ha) as (_&Hne&_).
    eapply (validated_rule _ dd _ (qr_column_scope old)); try done; simpl. apply default_members.
Qed.

Lemma Delete_ok p id o d d1 d2 : rules_ok d2 → rules_ok (QualityService_Delete p id o d d1 d2).2.
Proof.
  intros [Hall Hu]. unfold QualityService_Delete. destruct (authorized_rule _ _ _ _ _); [|done].
  apply (transact_wp o _ d2 (λ _ d', rules_ok d')); [done|]. unfold Rule_Delete. wp_steps.
  apply audit_ok. simpl.
  match goal with H : active_rule _ _ = Some _ |- _ => rename H into Ha end.
  apply active_rule_Some in Ha as [Hr0 Hd].
  destruct (Hall _ _ Hr0) as [Hid Hv]. split; simpl.
  - apply map_Forall_insert_2; [|done]. split; [done|exact Hv].
  - intros i j x y. rw !lookup_insert_Some.
    intros [[<- <-]|[Hi Hx]] [[<- <-]|[Hj Hy]] Hdx Hdy Hds Hn; [done..|]. by eapply Hu.
Qed.

(** ** The system *)

(** A request of the API that writes in [d], having read in states it need not have
    in common with it, or anything that leaves the rules alone. *)
Inductive rule_step (d : QDB) : QDB → Prop :=
  | rule_created p request o d0 : rule_step d (QualityService_Create p request o d0 d).2
  | rule_updated p id request o d0 d1 : rule_step d (QualityService_Update p id request o d0 d1 d).2
  | rule_deleted p id o d0 d1 : rule_step d (QualityService_Delete p id o d0 d1 d).2
  | rule_other d' : q_rules d' = q_rules d → rule_step d d'.

Definition rules_reachable (d : QDB) : Prop := ∃ d0, q_rules d0 = ∅ ∧ rtc rule_step d0 d.

Lemma rule_step_ok d d' : rule_step d d' → rules_ok d → rules_ok d'.
Proof.
  destruct 1 as [p request o d0|p id request o d0 d1|p id o d0 d1|d' E]; intros Hok.
  - by apply Create_ok.
  - by apply Update_ok.
  - by apply Delete_ok.
  - unfold rules_ok. by rw E.
Qed.

(** ** Rules on the whole dataset *)

Lemma check_column_count_row columns :
  columns ≠ [] →
  quality.check_column_count quality.RuleRowCountBetween columns = Err (ErrText "ROW_COUNT_BETWEEN does not accept columns").
Proof. destruct columns; [done|]. intros _. reflexivity. Qed.

Lemma check_columns_error seen l e : quality.check_columns seen l = Err e → e = ErrQualityInvalidInput.
Proof.
  revert seen. induction l as [|c l IH]; intros seen; simpl; [done|].
  destruct (negb _); [naive_solver|]. case_bool_decide; [naive_solver|apply IH].
Qed.

Lemma row_count_refused d :
  quality.RuleType d = quality.RuleRowCountBetween → default [] (quality.ColumnScope d) ≠ [] →
  quality.ValidateDefinition d = Err ErrQualityInvalidInput.
Proof.
  intros Ht Hc. unfold quality.ValidateDefinition. destruct (_ || _ || _); [done|].
  unfold quality.normalizeColumns. destruct (256 <? _); [done|].
  unfold mbind, res_mbind. cbn [res_bind].
  destruct (quality.check_columns [] (default [] (quality.ColumnScope d))) as [[]|e] eqn:E; cbn [res_bind].
  - destruct (negb (quality.isRuleType _) || _); [done|]. destruct (negb (quality.isSeverity _)); [done|].
    replace (default [] (quality.append_nil (default [] (quality.ColumnScope d)))) with (default [] (quality.ColumnScope d))
      by (by destruct (default [] (quality.ColumnScope d))).
    unfold quality.validateConfiguration. rw Ht check_column_count_row //.
  - f_equal. by eapply check_columns_error.
Qed.

(** What validation makes of a stored rule, as it is stored: it accepts every rule but
    those on the number of rows, which it refuses for the columns they have. *)
Definition stored_rule (r : Rule) : Prop :=
  if bool_decide (qr_rule_type r = quality.RuleRowCountBetween)
  then quality.ValidateDefinition (rule_definition r (qr_column_scope r)) = Err ErrQualityInvalidInput ∧ accepted_on r []
  else accepted_on r (qr_column_scope r).

Lemma rule_valid_stored r : rule_valid r → stored_rule r.
Proof.
  intros (Hne&Hv&Hrow). unfold stored_rule. case_bool_decide as Ht; [|by apply Hv].
  split; [|by apply Hrow]. by apply row_count_refused.
Qed.

(** C34. Every rule in the database that is not one on the number of rows is accepted
    by validation on its stored columns, and validating it again would change nothing
    of it.  A stored ROW_COUNT_BETWEEN rule never passes validation again: it was
    accepted without columns, but always has the columns of the rule it was made from.
    The active rules of a dataset have different names.  This holds whatever the
    requests that wrote the rules had read before: an update writes the whole
    definition it validated, but for empty columns. *)
Theorem rules_stay_valid d :
  rules_reachable d →
  map_Forall (λ i r, qr_id r = i ∧ stored_rule r) (q_rules d) ∧ names_unique (q_rules d).
Proof.
  intros (d0&E&Hrun). assert (rules_ok d0) as H1.
  { unfold rules_ok. rw E. split; [apply map_Forall_empty|]. intros i j x y Hx. by rw lookup_empty in Hx. }
  assert (rules_ok d) as [Hall Hu].
  { clear E. induction Hrun as [|d0 d1 d Hs _ IH]; [done|]. by eapply IH, rule_step_ok. }
  split; [|done]. intros i r Hr. destruct (Hall i r Hr). split; [done|]. by apply rule_valid_stored.
Qed.

(** A rule on the number of rows cannot be created: validation leaves its empty
    column list nil, which the insertion writes as NULL into a column that is NOT
    NULL.  An existing rule can be turned into one, but keeps the columns it had,
    since the update takes NULL for no change; with any column left, validation
    refuses the stored rule. *)
Lemma row_count_rules_broken :
  (∀ p request o d d1, qc_RuleType request = quality.RuleRowCountBetween →
     is_ok (create_request p request d) = true →
     QualityService_Create p request o d d1 = (Err ErrNotNull, d1))
  ∧ (∀ p id request o d d1 d2 d' old r, active_rule d2 id = Some old →
       QualityService_Update p id request o d d1 d2 = (Ok r, d') → qr_rule_type r = quality.RuleRowCountBetween →
       qr_column_scope r = qr_column_scope old
       ∧ (qr_column_scope old ≠ [] →
          quality.ValidateDefinition (rule_definition r (qr_column_scope r)) = Err ErrQualityInvalidInput)).
Proof.
  split.
  - intros p request o d d1 Ht Hok. unfold QualityService_Create.
    destruct (create_request p request d) as [[owner req]|] eqn:E; [|done].
    apply create_request_Ok in E as (item&dd&_&Hd&->&->).
    destruct (ValidateDefinition_fields _ _ Hd) as (_&_&_&_&Hscope).
    unfold transact, Rule_Create, mbind, tx_bind. simpl. by rw (proj2 Hscope Ht).
  - intros p id request o d d1 d2 d' old r Hold Hu Hty. unfold QualityService_Update in Hu.
    destruct (_ ← authorized_rule p id ScopeDatasetsWrite d d1; _) as [req|] eqn:E; [|done].
    apply res_bind_Ok in E as (existing&_&(dd&Hd&[= <-])%res_bind_Ok).
    destruct (ValidateDefinition_fields _ _ Hd) as (Et&_&_&_&Hscope).
    assert (qr_rule_type r = quality.RuleType dd
      ∧ qr_column_scope r = default (qr_column_scope old) (quality.ColumnScope dd)) as [Er Ec].
    { apply (transact_inv _ _ _ _ _ _ Hu). unfold Rule_Update. cbn [qu_Configuration optionalConfiguration].
      wp_steps. apply wp_ret. wp_steps. unfold put_rule, audit. wp_steps. intros -> _. by simplify_eq/=. }
    rw Et in Er. rw Er in Hty. apply Hscope in Hty as Hnone. rw Hnone in Ec. split; [done|].
    intros Hne. apply row_count_refused; simpl; [congruence|by rw Ec].
Qed.
End rules.

(** ** A run

    User 7 creates a rule on a column of dataset 21 and then makes it a rule on the
    number of rows. *)
#[local] Instance qx_arch : GoArch := amd64.
#[local] Instance qx_regexp : Regexp := {| regexp_compiles _ := true |}.

Definition qx_oracle (base : N) : Oracle := {|
  o_uuid := λ n, (base + N.of_nat n)%N; o_time := λ _, 1000; o_sqlnow := 1000;
  o_locked := λ _, false; o_rand := λ _ _, 0 |}.

Definition qx_owner : Principal := mkPrincipal 7 RoleUser DefaultUserScopes AuthMethodBearer.

Definition qx_tables : QDB :=
  mkQDB (mkUDB {[ 7%N ]} {[ 21%N := mkDataset 21 7 "sales" "" DatasetReady 10 10 None ]} ∅ [] ∅ ∅ ∅) ∅ [].

Definition qx_not_null : RuleCreateRequest := mkRuleCreateRequest 21 " required " (Some ["email"]) "NOT_NULL" None "ERROR" None.

Definition qx_rows : list (string * json) := [("min", JNum "1"); ("max", JNum "10")].

Definition qx_row_count : RuleCreateRequest := mkRuleCreateRequest 21 "rows" (Some []) "ROW_COUNT_BETWEEN" (Some qx_rows) "INFO" None.

Definition qx_to_row_count : RuleUpdateRequest :=
  mkRuleUpdateRequest None (Some (Some [])) (Some "ROW_COUNT_BETWEEN") (Some (Some qx_rows)) None None.

Definition qx_created : QDB := (QualityService_Create qx_owner qx_not_null (qx_oracle 100) qx_tables qx_tables).2.
Definition qx_updated : QDB := (QualityService_Update qx_owner 100 qx_to_row_count (qx_oracle 200) qx_created qx_created qx_created).2.

Lemma qx_reachable : rules_reachable qx_updated.
Proof.
  exists qx_tables. split; [reflexivity|]. eapply rtc_l; [apply (rule_created qx_tables qx_owner qx_not_null (qx_oracle 100) qx_tables)|].
  apply rtc_once, (rule_updated qx_created qx_owner 100 qx_to_row_count (qx_oracle 200) qx_created qx_created).
Qed.

Lemma rules_stay_valid_witness :
  (∃ r, q_rules qx_updated !! 100%N = Some r ∧ qr_name r = "required" ∧ qr_column_scope r = ["email"])
  ∧ map_Forall (λ i r, qr_id r = i ∧ stored_rule r) (q_rules qx_updated) ∧ names_unique (q_rules qx_updated).
Proof.
  split; [vm_compute; eexists; split; [reflexivity|]; split; reflexivity|].
  apply (rules_stay_valid qx_updated). exact qx_reachable.
Defined.

Lemma row_count_rules_broken_witness :
  QualityService_Create qx_owner qx_row_count (qx_oracle 300) qx_tables qx_tables = (Err ErrNotNull, qx_tables)
  ∧ ∃ r, q_rules qx_updated !! 100%N = Some r ∧ qr_rule_type r = "ROW_COUNT_BETWEEN"
      ∧ quality.ValidateDefinition (rule_definition r (qr_column_scope r)) = Err ErrQualityInvalidInput.
Proof.
  destruct row_count_rules_broken as [Hc Hu]. split.
  - apply Hc; vm_compute; reflexivity.
  - assert (∃ r old, active_rule qx_created 100 = Some old ∧ q_rules qx_updated !! 100%N = Some r
      ∧ QualityService_Update qx_owner 100 qx_to_row_count (qx_oracle 200) qx_created qx_created qx_created = (Ok r, qx_updated)
      ∧ qr_rule_type r = "ROW_COUNT_BETWEEN" ∧ qr_column_scope old = ["email"]) as (r&old&Ho&Hr&E&Ht&Hs).
    { vm_compute. do 2 eexists. split; [reflexivity|]. split; [reflexivity|]. split; [reflexivity|]. split; reflexivity. }
    exists r. split; [exact Hr|]. split; [exact Ht|].
    destruct (Hu _ _ _ _ _ _ _ _ _ _ Ho E Ht) as [_ H]. apply H. rw Hs. discriminate.
Defined.
