(* ===== verification/Base64.v ===== *)
(** encoding/base64 without padding: [RawStdEncoding] for password hashes and
    [RawURLEncoding] for opaque tokens, with their round trip. *)

From S2P Require Import Prelude GoStrings Json.
From Stdlib Require Import ZifyBool ZifyN.

Local Open Scope N_scope.

(** The two alphabets differ in their last two characters. *)
Inductive Encoding := RawStdEncoding | RawURLEncoding.

Definition char62 (enc : Encoding) : N := match enc with RawStdEncoding => 43 | RawURLEncoding => 45 end.
Definition char63 (enc : Encoding) : N := match enc with RawStdEncoding => 47 | RawURLEncoding => 95 end.

Definition encode_char (enc : Encoding) (v : N) : N :=
  if v <? 26 then 65 + v
  else if v <? 52 then 71 + v
  else if v <? 62 then v - 4
  else if v =? 62 then char62 enc else char63 enc.

Definition decode_char (enc : Encoding) (c : N) : option N :=
  if in_range 65 90 c then Some (c - 65)
  else if in_range 97 122 c then Some (c - 71)
  else if in_range 48 57 c then Some (c + 4)
  else if c =? char62 enc then Some 62
  else if c =? char63 enc then Some 63
  else None.

(** Three bytes are four groups of six bits; the last group of a shorter end is
    filled with zero bits. *)
Fixpoint to_sextets (l : list N) : list N :=
  match l with
  | a :: b :: c :: l => a / 4 :: a mod 4 * 16 + b / 16 :: b mod 16 * 4 + c / 64 :: c mod 64 :: to_sextets l
  | [a; b] => [a / 4; a mod 4 * 16 + b / 16; b mod 16 * 4]
  | [a] => [a / 4; a mod 4 * 16]
  | [] => []
  end.

(** [decodeQuantum]: a lone last character is an error, the unused low bits of a
    shorter end are not looked at. *)
Fixpoint of_sextets (l : list N) : option (list N) :=
  match l with
  | p :: q :: r :: s :: l =>
      k ← of_sextets l;
      Some (p * 4 + q / 16 :: q mod 16 * 16 + r / 4 :: r mod 4 * 64 + s :: k)
  | [p; q; r] => Some [p * 4 + q / 16; q mod 16 * 16 + r / 4]
  | [p; q] => Some [p * 4 + q / 16]
  | [_] => None
  | [] => Some []
  end.

Definition base64_EncodeToString (enc : Encoding) (l : list N) : string :=
  string_of_bytes (encode_char enc <$> to_sextets l).

(** Carriage returns and line feeds are skipped. *)
Definition base64_DecodeString (enc : Encoding) (s : string) : option (list N) :=
  v ← mapM (decode_char enc) (filter (λ c, c ≠ 10 ∧ c ≠ 13) (bytes_of s));
  of_sextets v.

(** ** Round trip *)

Example encode_test :
  base64_EncodeToString RawStdEncoding (bytes_of "light work.") = "bGlnaHQgd29yay4"
  ∧ base64_EncodeToString RawURLEncoding [251; 255] = "-_8"
  ∧ base64_DecodeString RawStdEncoding "bGlnaHQgd29yay4" = Some (bytes_of "light work.")
  ∧ base64_DecodeString RawStdEncoding "bGlna" = None.
Proof. vm_compute. auto. Qed.

(** Induction three bytes at a time. *)
Lemma triples_ind (P : list N → Prop) :
  P [] → (∀ a, P [a]) → (∀ a b, P [a; b]) → (∀ a b c l, P l → P (a :: b :: c :: l)) → ∀ l, P l.
Proof.
  intros H0 H1 H2 H3. fix IH 1. intros [|a [|b [|c l]]]; [done..|]. apply H3, IH.
Qed.

Lemma of_to_sextets l : Forall (λ b, b < 256) l → of_sextets (to_sextets l) = Some l.
Proof.
  induction l as [|a|a b|a b c l IH] using triples_ind; intros H; [done|..];
    repeat (apply list.Forall_cons in H as [? H]); cbn [to_sextets of_sextets].
  - repeat f_equal; lia.
  - repeat f_equal; lia.
  - rw (IH H) /=. repeat f_equal; lia.
Qed.

Lemma to_sextets_lt l : Forall (λ b, b < 256) l → Forall (λ v, v < 64) (to_sextets l).
Proof.
  induction l as [|a|a b|a b c l IH] using triples_ind; intros H; [constructor|..];
    repeat (apply list.Forall_cons in H as [? H]); cbn [to_sextets];
    repeat (constructor; [lia|]); auto.
Qed.

(** What an encoder writes: letters, digits and the two last characters of its
    alphabet. *)
Definition alphabet_char (enc : Encoding) (c : N) : bool :=
  in_range 65 90 c || in_range 97 122 c || in_range 48 57 c || (c =? char62 enc) || (c =? char63 enc).

Lemma encode_char_alphabet enc v : v < 64 → alphabet_char enc (encode_char enc v) = true.
Proof.
  unfold alphabet_char, encode_char, in_range, char62, char63. intros Hv.
  destruct (N.ltb_spec v 26), (N.ltb_spec v 52), (N.ltb_spec v 62), (N.eqb_spec v 62), enc; lia.
Qed.

Lemma alphabet_char_lt enc c : alphabet_char enc c = true → c < 128 ∧ c ≠ 36 ∧ 32 < c.
Proof. unfold alphabet_char, in_range, char62, char63. destruct enc; lia. Qed.

Lemma decode_encode_char enc v : v < 64 → decode_char enc (encode_char enc v) = Some v.
Proof.
  intros Hv. unfold decode_char, encode_char, in_range, char62, char63.
  destruct (N.ltb_spec v 26); [|destruct (N.ltb_spec v 52); [|destruct (N.ltb_spec v 62); [|destruct (N.eqb_spec v 62)]]];
    destruct enc; repeat (case_match; try lia); f_equal; lia.
Qed.

Lemma encoded_alphabet enc l : Forall (λ b, b < 256) l →
  Forall (λ c, alphabet_char enc c = true) (bytes_of (base64_EncodeToString enc l)).
Proof.
  intros H%to_sextets_lt. unfold base64_EncodeToString.
  assert (Forall (λ c, alphabet_char enc c = true) (encode_char enc <$> to_sextets l)) as Hf.
  { apply Forall_fmap. eapply Forall_impl; [|exact H]. intros v. apply encode_char_alphabet. }
  rw bytes_of_string_of; [|done]. eapply Forall_impl; [|exact Hf]. intros c Hc%alphabet_char_lt. lia.
Qed.

Lemma filter_id {A} (P : A → Prop) `{∀ x, Decision (P x)} l : Forall P l → filter P l = l.
Proof. induction 1 as [|x l Hx _ IH]; [done|]. by rw filter_cons_True // IH. Qed.

Lemma base64_roundtrip enc l : Forall (λ b, b < 256) l →
  base64_DecodeString enc (base64_EncodeToString enc l) = Some l.
Proof.
  intros H. pose proof (encoded_alphabet enc l H) as Ha. unfold base64_DecodeString.
  rw filter_id; [eapply Forall_impl; [|exact Ha]; intros c Hc%alphabet_char_lt; lia|].
  unfold base64_EncodeToString in *. pose proof (to_sextets_lt l H) as Hs.
  rw bytes_of_string_of; [apply Forall_fmap; eapply Forall_impl; [|exact Hs];
    intros v Hv%(encode_char_alphabet enc)%alphabet_char_lt; simpl; lia|].
  assert (mapM (decode_char enc) (encode_char enc <$> to_sextets l) = Some (to_sextets l)) as ->.
  { apply mapM_Some. clear -Hs. induction Hs as [|v k Hv _ IH]; constructor; [|done].
    by apply decode_encode_char. }
  simpl. by apply of_to_sextets.
Qed.

Lemma base64_EncodeToString_inj enc l k : Forall (λ b, b < 256) l → Forall (λ b, b < 256) k →
  base64_EncodeToString enc l = base64_EncodeToString enc k → l = k.
Proof.
  intros Hl Hk H. apply (f_equal (base64_DecodeString enc)) in H.
  rw !base64_roundtrip in H; [done..|]. by injection H.
Qed.

Lemma length_to_sextets l : length (to_sextets l) = ((4 * length l + 2) / 3)%nat.
Proof.
  induction l as [|a|a b|a b c l IH] using triples_ind; [done..|].
  cbn [to_sextets length]. rw IH.
  replace (4 * S (S (S (length l))) + 2)%nat with (4 * length l + 2 + 4 * 3)%nat by lia.
  rw Nat.div_add; lia.
Qed.

Lemma length_base64 enc l : String.length (base64_EncodeToString enc l) = ((4 * length l + 2) / 3)%nat.
Proof. unfold base64_EncodeToString. by rw length_string_of_bytes length_fmap length_to_sextets. Qed.
