(* ===== verification/Passwords.v ===== *)
(** Password hashes: auth/password.go, with Argon2id as a parameter. *)

From S2P Require Import Prelude GoStrings Json GoValue Base64.
From stdpp Require Import pretty.
From Stdlib Require Import ZifyBool ZifyN.

Open Scope Z_scope.

(** ** strings.Split, strings.Cut and strconv.ParseUint *)

(** [strings.Split] at a one-byte separator. *)
Fixpoint split_byte (sep : N) (l : list N) : list (list N) :=
  match l with
  | [] => [[]]
  | b :: l =>
      if (b =? sep)%N then [] :: split_byte sep l
      else match split_byte sep l with
           | part :: parts => (b :: part) :: parts
           | [] => [[b]]
           end
  end.

Definition strings_Split (s : string) (sep : N) : list string := string_of_bytes <$> split_byte sep (bytes_of s).

(** [strings.Cut] at a one-byte separator. *)
Fixpoint cut_byte (sep : N) (l : list N) : option (list N * list N) :=
  match l with
  | [] => None
  | b :: l => if (b =? sep)%N then Some ([], l) else '(x, y) ← cut_byte sep l; Some (b :: x, y)
  end.

Definition strings_Cut (s : string) (sep : N) : option (string * string) :=
  '(x, y) ← cut_byte sep (bytes_of s); Some (string_of_bytes x, string_of_bytes y).

(** [strconv.ParseUint(s, 10, bits)]. *)
Definition ParseUint (bits : N) (s : string) : option Z :=
  match bytes_of s with
  | [] => None
  | l => if forallb is_digit l && (digits_value l <? 2 ^ bits)%N then Some (Z.of_N (digits_value l)) else None
  end.

(** ** Argon2 *)

(** golang.org/x/crypto/argon2: [IDKey(password, salt, time, memory, threads, keyLen)]
    returns [keyLen] bytes. *)
Class Argon2 := {
  IDKey : list N → list N → Z → Z → Z → Z → list N;
  IDKey_length password salt time memory threads keyLen :
    0 <= keyLen → length (IDKey password salt time memory threads keyLen) = Z.to_nat keyLen;
  IDKey_bytes password salt time memory threads keyLen :
    Forall (λ b, (b < 256)%N) (IDKey password salt time memory threads keyLen)
}.

Definition passwordMemory : Z := 64 * 1024.
Definition passwordIterations : Z := 3.
Definition passwordParallelism : Z := 2.
Definition passwordSaltLength : Z := 16.
Definition passwordKeyLength : Z := 32.
Definition minimumPasswordSize : Z := 12.
Definition maximumPasswordSize : Z := 1024.

Record passwordParameters := mkPasswordParameters {
  pp_memory : Z; pp_iterations : Z; pp_parallelism : Z; pp_keyLength : Z
}.

Definition ValidatePassword (password : string) : res unit :=
  _ ← guard_err (utf8_valid (bytes_of password)) (ErrText "password must be valid UTF-8");
  guard_err (negb ((go_len password <? minimumPasswordSize) || (maximumPasswordSize <? go_len password)))
    (ErrText "password must be between 12 and 1024 bytes").

Definition formatPasswordHash (salt key : list N) : string :=
  "argon2id$v=19$m=" +:+ pretty passwordMemory +:+ ",t=" +:+ pretty passwordIterations +:+ ",p="
  +:+ pretty passwordParallelism +:+ "$" +:+ base64_EncodeToString RawStdEncoding salt
  +:+ "$" +:+ base64_EncodeToString RawStdEncoding key.

(** The fields of the parameter part: a map, so a repeated key keeps its last value. *)
Fixpoint parse_fields (fields : list string) (values : gmap string Z) : res (gmap string Z) :=
  match fields with
  | [] => Ok values
  | field :: fields =>
      match strings_Cut field 61 with
      | Some (key, raw) =>
          if bool_decide (key = "") then Err ErrInvalidPasswordHash
          else match ParseUint 32 raw with
               | Some value => parse_fields fields (<[key := value]> values)
               | None => Err ErrInvalidPasswordHash
               end
      | None => Err ErrInvalidPasswordHash
      end
  end.

Definition between_len (lo hi : Z) (l : list N) : bool :=
  negb ((Z.of_nat (length l) <? lo) || (hi <? Z.of_nat (length l))).

Definition parsePasswordHash (encoded : string) : res (passwordParameters * list N * list N) :=
  match strings_Split encoded 36 with
  | [p0; p1; p2; p3; p4] =>
      if negb (bool_decide (p0 = "argon2id")) || negb (bool_decide (p1 = "v=19")) then Err ErrInvalidPasswordHash
      else
        values ← parse_fields (strings_Split p2 44) ∅;
        match values !! "m", values !! "t", values !! "p" with
        | Some memory, Some iterations, Some parallelism =>
            if (memory <? 8 * parallelism) || (512 * 1024 <? memory) || (iterations =? 0) || (10 <? iterations)
               || (parallelism =? 0) || (16 <? parallelism) then Err ErrInvalidPasswordHash
            else match base64_DecodeString RawStdEncoding p3 with
            | Some salt =>
                if negb (between_len 8 64 salt) then Err ErrInvalidPasswordHash
                else match base64_DecodeString RawStdEncoding p4 with
                | Some key =>
                    if negb (between_len 16 64 key) then Err ErrInvalidPasswordHash
                    else Ok (mkPasswordParameters memory iterations parallelism (Z.of_nat (length key)), salt, key)
                | None => Err ErrInvalidPasswordHash
                end
            | None => Err ErrInvalidPasswordHash
            end
        | _, _, _ => Err ErrInvalidPasswordHash
        end
  | _ => Err ErrInvalidPasswordHash
  end.

Section argon2.
Context `{Argon2}.

(** [random] is what [io.ReadFull] reads, if it can.  The salt is given to [IDKey]
    as its password and the password as its salt. *)
Definition PasswordHasher_Hash (random : option (list N)) (password : string) : res string :=
  _ ← ValidatePassword password;
  salt ← match random with Some salt => Ok salt | None => Err (ErrText "generate password salt") end;
  let key := IDKey salt (bytes_of password) passwordIterations passwordMemory passwordParallelism passwordKeyLength in
  Ok (formatPasswordHash salt key).

Definition VerifyPassword (encoded password : string) : res bool :=
  _ ← ValidatePassword password;
  '(parameters, salt, expected) ← parsePasswordHash encoded;
  let actual := IDKey salt (bytes_of password) (pp_iterations parameters) (pp_memory parameters)
                  (pp_parallelism parameters) (pp_keyLength parameters) in
  Ok (bool_decide (actual = expected)).
End argon2.

(** ** Lemmas *)

Lemma no_byte sep l : forallb (λ b, negb (b =? sep)%N) l = true → Forall (λ b, b ≠ sep) l.
Proof. induction l as [|b l IH]; simpl; intros H; constructor; [lia|]. apply IH. lia. Qed.

Lemma split_byte_none sep l : Forall (λ b, b ≠ sep) l → split_byte sep l = [l].
Proof. induction 1 as [|b l Hb _ IH]; simpl; [done|]. destruct (N.eqb_spec b sep); [done|]. by rw IH. Qed.

Lemma split_byte_app sep l k :
  Forall (λ b, b ≠ sep) l → split_byte sep (l ++ sep :: k) = l :: split_byte sep k.
Proof.
  induction 1 as [|b l Hb _ IH]; simpl; [by rw N.eqb_refl|].
  destruct (N.eqb_spec b sep); [done|]. by rw IH.
Qed.

Lemma encoded_no_dollar enc l : Forall (λ b, (b < 256)%N) l →
  Forall (λ b, b ≠ 36%N) (bytes_of (base64_EncodeToString enc l)).
Proof.
  intros Hl. eapply list.Forall_impl; [by apply encoded_alphabet|]. intros c Hc%alphabet_char_lt. lia.
Qed.

(** A hash this code writes is one it reads, with the parameters it was made with. *)
Lemma parse_formatted salt key :
  Forall (λ b, (b < 256)%N) salt → Forall (λ b, (b < 256)%N) key →
  (8 <= length salt <= 64)%nat → (16 <= length key <= 64)%nat →
  parsePasswordHash (formatPasswordHash salt key)
  = Ok (mkPasswordParameters passwordMemory passwordIterations passwordParallelism (Z.of_nat (length key)), salt, key).
Proof.
  intros Hs Hk Ls Lk. unfold formatPasswordHash.
  set (es := base64_EncodeToString RawStdEncoding salt). set (ek := base64_EncodeToString RawStdEncoding key).
  pose proof (encoded_no_dollar RawStdEncoding salt Hs) as Ns. pose proof (encoded_no_dollar RawStdEncoding key Hk) as Nk.
  fold es in Ns. fold ek in Nk.
  match goal with |- parsePasswordHash ?s = _ =>
    assert (strings_Split s 36 = ["argon2id"; "v=19"; "m=65536,t=3,p=2"; es; ek]) as Hsplit end.
  { rw /strings_Split !bytes_of_app.
    replace (bytes_of "argon2id$v=19$m=" ++ bytes_of (pretty passwordMemory) ++ bytes_of ",t=" ++
             bytes_of (pretty passwordIterations) ++ bytes_of ",p=" ++ bytes_of (pretty passwordParallelism) ++
             bytes_of "$" ++ bytes_of es ++ bytes_of "$" ++ bytes_of ek)
      with (bytes_of "argon2id" ++ 36%N :: bytes_of "v=19" ++ 36%N :: bytes_of "m=65536,t=3,p=2"
            ++ 36%N :: bytes_of es ++ 36%N :: bytes_of ek) by reflexivity.
    rw split_byte_app; [by apply no_byte|]. rw split_byte_app; [by apply no_byte|].
    rw split_byte_app; [by apply no_byte|]. rw split_byte_app; [done|]. rw split_byte_none; [done|].
    cbn [fmap list_fmap]. by rw !string_of_bytes_of. }
  unfold parsePasswordHash. rw Hsplit. cbn [negb orb].
  replace (parse_fields (strings_Split "m=65536,t=3,p=2" 44) ∅)
    with (@Ok (gmap string Z) (<["p" := 2]> (<["t" := 3]> (<["m" := 65536]> ∅)))) by (vm_compute; reflexivity).
  cbn -[base64_DecodeString between_len Z.ltb Z.eqb bool_decide lookup insert].
  rw !bool_decide_eq_true_2 //. simplify_map_eq. cbn -[base64_DecodeString between_len].
  unfold es, ek. rw !base64_roundtrip //.
  assert (between_len 8 64 salt = true) as -> by (unfold between_len; lia).
  assert (between_len 16 64 key = true) as -> by (unfold between_len; lia). done.
Qed.

(** Whatever is stored, Argon2 runs with bounded parameters. *)
Lemma parse_bounds encoded p salt key :
  parsePasswordHash encoded = Ok (p, salt, key) →
  8 * pp_parallelism p <= pp_memory p <= 512 * 1024 ∧ 1 <= pp_iterations p <= 10
  ∧ 1 <= pp_parallelism p <= 16 ∧ 16 <= pp_keyLength p <= 64 ∧ pp_keyLength p = Z.of_nat (length key).
Proof.
  assert (∀ fields m m', map_Forall (λ _ v, 0 <= v) m → parse_fields fields m = Ok m' → map_Forall (λ _ v, 0 <= v) m')
    as Hfields.
  { induction fields as [|f fields IH]; intros m m' Hm; simpl; [by intros [= <-]|].
    destruct (strings_Cut f 61) as [[k raw]|]; [|done]. case_bool_decide; [done|].
    destruct (ParseUint 32 raw) as [v|] eqn:E; [|done]. apply IH. apply map_Forall_insert_2; [|done].
    unfold ParseUint in E. destruct (bytes_of raw) as [|b l]; [done|]. case_match; simplify_eq. lia. }
  unfold parsePasswordHash. destruct (strings_Split encoded 36) as [|p0 [|p1 [|p2 [|p3 [|p4 [|]]]]]]; try done.
  case_match; [done|]. destruct (parse_fields _ _) as [values|] eqn:Ev; [|done]. simpl.
  apply Hfields in Ev; [|apply map_Forall_empty].
  destruct (values !! "m") as [m|] eqn:Em, (values !! "t") as [t|] eqn:Et, (values !! "p") as [q|] eqn:Eq; try done.
  pose proof (Ev _ _ Em). pose proof (Ev _ _ Et). pose proof (Ev _ _ Eq). simpl in *.
  case_match eqn:Hb; [done|]. destruct (base64_DecodeString _ p3) as [s|]; [|done].
  case_match; [done|]. destruct (base64_DecodeString _ p4) as [k|]; [|done].
  case_match eqn:Hk; [done|]. intros [= <- <- <-]. cbn [pp_memory pp_iterations pp_parallelism pp_keyLength].
  unfold between_len in Hk. lia.
Qed.

(** The key of a password under a salt, with the parameters of this code. *)
Definition password_key `{Argon2} (salt : list N) (password : string) : list N :=
  IDKey salt (bytes_of password) passwordIterations passwordMemory passwordParallelism passwordKeyLength.

Lemma Hash_ok `{Argon2} random password encoded : PasswordHasher_Hash random password = Ok encoded →
  ∃ salt, random = Some salt ∧ ValidatePassword password = Ok tt ∧ encoded = formatPasswordHash salt (password_key salt password).
Proof.
  unfold PasswordHasher_Hash. intros Hh. apply res_bind_Ok in Hh as ([]&Hv&Hh).
  destruct random as [salt|]; [|done]. exists salt. by simplify_eq/=.
Qed.

(** A stored hash verifies exactly the acceptable passwords with its key. *)
Lemma VerifyPassword_formatted `{Argon2} salt password other : length salt = 16%nat → Forall (λ b, (b < 256)%N) salt →
  VerifyPassword (formatPasswordHash salt (password_key salt password)) other
  = (_ ← ValidatePassword other; Ok (bool_decide (password_key salt other = password_key salt password))).
Proof.
  intros Hl Hb. unfold VerifyPassword. destruct (ValidatePassword other) as [[]|e]; [|done].
  cbn [mbind res_mbind res_bind].
  assert (length (password_key salt password) = 32%nat) as Hk by by apply IDKey_length.
  rw parse_formatted; [done|apply IDKey_bytes|lia|lia|]. cbn [mbind res_mbind res_bind]. rw Hk. reflexivity.
Qed.

(** C39. A stored password hash verifies exactly the passwords that Argon2 maps to
    its key.  Hashing an acceptable password with a fresh salt gives text that
    reads back as the same salt, key and parameters, so the password itself
    verifies; another one verifies only if it is acceptable too and its key under
    that salt is the same. *)
Theorem password_roundtrip `{Argon2} (password : string) (salt : list N) :
  ValidatePassword password = Ok tt → length salt = 16%nat → Forall (λ b, (b < 256)%N) salt →
  ∃ encoded, PasswordHasher_Hash (Some salt) password = Ok encoded
    ∧ VerifyPassword encoded password = Ok true
    ∧ ∀ other, VerifyPassword encoded other = Ok true
        ↔ ValidatePassword other = Ok tt ∧ password_key salt other = password_key salt password.
Proof.
  intros Hp Hl Hb. exists (formatPasswordHash salt (password_key salt password)).
  split; [by rw /PasswordHasher_Hash Hp|].
  assert (∀ other, VerifyPassword (formatPasswordHash salt (password_key salt password)) other = Ok true
            ↔ ValidatePassword other = Ok tt ∧ password_key salt other = password_key salt password) as Hv.
  { intros other. rw VerifyPassword_formatted //. destruct (ValidatePassword other) as [[]|e]; cbn [mbind res_mbind res_bind];
      [|naive_solver]. destruct (bool_decide_reflect (password_key salt other = password_key salt password)); naive_solver. }
  split; [by apply Hv|exact Hv].
Qed.

(** A stand-in for Argon2: a checksum of both inputs, repeated. *)
Definition toy_argon2 : Argon2 := {|
  IDKey p s _ _ _ keyLen := replicate (Z.to_nat keyLen) ((foldr N.add 0 p + 7 * foldr N.add 0 s) mod 256)%N;
  IDKey_length _ _ _ _ _ _ _ := length_replicate _ _;
  IDKey_bytes _ _ _ _ _ _ := Forall_replicate (λ b, (b < 256)%N) _ _ (N.mod_lt _ 256 ltac:(done))
|}.

Lemma password_roundtrip_witness :
  ∃ encoded, @PasswordHasher_Hash toy_argon2 (Some (replicate 16 9%N)) "correct horse" = Ok encoded
    ∧ @VerifyPassword toy_argon2 encoded "correct horse" = Ok true
    ∧ @VerifyPassword toy_argon2 encoded "wrong horse!!" = Ok false.
Proof.
  destruct (@password_roundtrip toy_argon2 "correct horse" (replicate 16 9%N)) as (encoded&He&Hv&_);
    [reflexivity|reflexivity|apply Forall_replicate; done|].
  exists encoded. split; [exact He|]. split; [exact Hv|]. injection He as <-. vm_compute. reflexivity.
Defined.
