(* ===== verification/Tokens.v ===== *)
(** Credentials other than passwords: opaque tokens and API keys (auth/opaque.go)
    and access tokens (auth/jwt.go), with the JWT and UUID libraries as parameters. *)

From S2P Require Import Prelude GoStrings Json Sha256 Base64.
From Stdlib Require Import ZifyBool ZifyN.

Open Scope Z_scope.

(** ** Opaque tokens and API keys *)

Definition opaqueTokenBytes : Z := 32.
Definition apiKeyPrefix : string := "pfk_".
Definition apiKeyPrefixSize : nat := 12.

(** [random] is what [io.ReadFull] reads into a buffer of the given size, if it can. *)
Definition randomURLValue (random : option (list N)) : res string :=
  match random with
  | Some buffer => Ok (base64_EncodeToString RawURLEncoding buffer)
  | None => Err (ErrText "read random bytes")
  end.

Definition HashOpaqueToken (value : string) : list N := Sum256 (bytes_of value).

Definition NewOpaqueToken (random : option (list N)) : res (string * list N) :=
  value ← randomURLValue random;
  Ok (value, HashOpaqueToken value).

Definition APIKeyPrefix (value : string) : option string :=
  if negb (bool_decide (slice_to 4 value = apiKeyPrefix)) || (go_len value <? Z.of_nat apiKeyPrefixSize) then None
  else Some (slice_to apiKeyPrefixSize value).

Definition NewAPIKey (random : option (list N)) : res (string * string * list N) :=
  randomValue ← randomURLValue random;
  let value := apiKeyPrefix +:+ randomValue in
  match APIKeyPrefix value with
  | Some prefix => Ok (value, prefix, HashOpaqueToken value)
  | None => Err ErrInvalidOpaqueToken
  end.

(** ** Libraries *)

(** github.com/google/uuid: [Parse] reads what [String] writes. *)
Class UuidParser := {
  uuid_Parse : string → option uuid;
  uuid_Parse_String u : (u < 2 ^ 128)%N → uuid_Parse (uuid_string u) = Some u;
  uuid_Parse_bound s u : uuid_Parse s = Some u → (u < 2 ^ 128)%N
}.

(** The claims of an access token; the times are NumericDates, which a token read
    from outside may lack. *)
Record accessClaims := mkAccessClaims {
  ac_TokenType : string; ac_Issuer : string; ac_Subject : string; ac_ID : string;
  ac_IssuedAt : option time; ac_NotBefore : option time; ac_ExpiresAt : option time
}.

(** github.com/golang-jwt/jwt/v5: dates are truncated to a second; a token signed
    with HS256 parses under the same key and issuer while it is in its validity
    period, and never as other claims than those signed; what parses has the issuer
    asked for and is in its period. *)
Class JWT := {
  jwt_NewNumericDate : time → time;
  jwt_SignedString : string → accessClaims → option string;
  jwt_ParseWithClaims : string → string → time → string → option accessClaims;
  jwt_signed_nonempty key c s : jwt_SignedString key c = Some s → s ≠ "";
  jwt_NewNumericDate_trunc t : t - Second < jwt_NewNumericDate t <= t;
  jwt_parse_signed key issuer now c s nbf exp :
    jwt_SignedString key c = Some s → ac_Issuer c = issuer → ac_NotBefore c = Some nbf → ac_ExpiresAt c = Some exp →
    nbf <= now < exp → jwt_ParseWithClaims key issuer now s = Some c;
  jwt_parse_claims key issuer now c s c' :
    jwt_SignedString key c = Some s → jwt_ParseWithClaims key issuer now s = Some c' → c' = c;
  jwt_parse_valid key issuer now s c :
    jwt_ParseWithClaims key issuer now s = Some c →
    ac_Issuer c = issuer ∧ (∀ e, ac_ExpiresAt c = Some e → now < e) ∧ (∀ b, ac_NotBefore c = Some b → b <= now)
}.

(** ** Access tokens *)

Definition AccessTokenIssuer : string := "pipeforge-api".

Record AccessTokenService := mkAccessTokenService { ats_SigningKey : string; ats_Issuer : string; ats_TTL : duration }.

Definition NewAccessTokenService (signingKey : string) (ttl : duration) : AccessTokenService :=
  mkAccessTokenService signingKey AccessTokenIssuer ttl.

Section jwt.
Context `{UuidParser, JWT} (s : AccessTokenService).

(** [now] is the reading of the clock, [id] the token id of [uuid.NewString]. *)
Definition AccessTokenService_Issue (userID : uuid) (now : time) (id : uuid) : res (string * time) :=
  if bool_decide (userID = uuid_nil) || (go_len (ats_SigningKey s) <? 32) || (ats_TTL s <=? 0)
  then Err ErrInvalidAccessToken
  else
    let expiresAt := now + ats_TTL s in
    let claims := mkAccessClaims "access" (ats_Issuer s) (uuid_string userID) (uuid_string id)
                    (Some (jwt_NewNumericDate now)) (Some (jwt_NewNumericDate now))
                    (Some (jwt_NewNumericDate expiresAt)) in
    match jwt_SignedString (ats_SigningKey s) claims with
    | Some serialized => Ok (serialized, expiresAt)
    | None => Err (ErrText "sign access token")
    end.

Definition AccessTokenService_Parse (serialized : string) (now : time) : res uuid :=
  if bool_decide (serialized = "") || (go_len (ats_SigningKey s) <? 32) || bool_decide (ats_Issuer s = "")
  then Err ErrInvalidAccessToken
  else match jwt_ParseWithClaims (ats_SigningKey s) (ats_Issuer s) now serialized with
  | Some claims =>
      if negb (bool_decide (ac_TokenType claims = "access")) then Err ErrInvalidAccessToken
      else match uuid_Parse (ac_Subject claims) with
      | Some userID => if bool_decide (userID = uuid_nil) then Err ErrInvalidAccessToken else Ok userID
      | None => Err ErrInvalidAccessToken
      end
  | None => Err ErrInvalidAccessToken
  end.

Lemma Issue_expiry userID t id serialized expiresAt :
  AccessTokenService_Issue userID t id = Ok (serialized, expiresAt) → expiresAt = t + ats_TTL s.
Proof. unfold AccessTokenService_Issue. case_match; [done|]. case_match; [|done]. by intros [= _ <-]. Qed.

(** What [Issue] returns parses, until a second before the expiry it announces at
    the latest, as the user it was issued for. *)
Lemma Issue_Parse userID t id serialized expiresAt now :
  (userID < 2 ^ 128)%N → ats_Issuer s ≠ "" →
  AccessTokenService_Issue userID t id = Ok (serialized, expiresAt) →
  t <= now → now + Second <= expiresAt →
  AccessTokenService_Parse serialized now = Ok userID.
Proof.
  intros Hu Hi. unfold AccessTokenService_Issue, AccessTokenService_Parse.
  destruct (bool_decide_reflect (userID = uuid_nil)) as [|Hn]; [done|].
  destruct (go_len (ats_SigningKey s) <? 32), (ats_TTL s <=? 0); try done. simpl.
  set (c := mkAccessClaims _ _ _ _ _ _ _). destruct (jwt_SignedString _ c) as [x|] eqn:Hc; [|done]. simpl.
  intros [= -> <-] Hlo Hhi. pose proof (jwt_signed_nonempty _ _ _ Hc) as Hs. rw !bool_decide_eq_false_2 //. simpl.
  rw (jwt_parse_signed _ _ now c serialized (jwt_NewNumericDate t) (jwt_NewNumericDate (t + ats_TTL s)) Hc); [done..| |].
  { pose proof (jwt_NewNumericDate_trunc t). pose proof (jwt_NewNumericDate_trunc (t + ats_TTL s)). lia. }
  unfold c. simpl. rw (uuid_Parse_String userID Hu). by case_bool_decide.
Qed.

(** From the expiry announced with it on, [Parse] refuses a token. *)
Lemma Issue_expired userID t id serialized expiresAt now :
  AccessTokenService_Issue userID t id = Ok (serialized, expiresAt) → expiresAt <= now →
  AccessTokenService_Parse serialized now = Err ErrInvalidAccessToken.
Proof.
  unfold AccessTokenService_Issue, AccessTokenService_Parse. case_match; [done|].
  destruct (jwt_SignedString _ _) as [tok|] eqn:Hs; [|done]. intros [= <- <-] Hnow. case_match; [done|].
  destruct (jwt_ParseWithClaims _ _ now tok) as [c|] eqn:Hc; [|done]. exfalso.
  pose proof (jwt_parse_claims _ _ _ _ _ _ Hs Hc) as ->. apply jwt_parse_valid in Hc as (_&He&_).
  specialize (He _ eq_refl). pose proof (jwt_NewNumericDate_trunc (t + ats_TTL s)). lia.
Qed.

(** What [Parse] accepts is an access token of this issuer in its validity period,
    and names its user. *)
Lemma Parse_sound serialized now userID :
  AccessTokenService_Parse serialized now = Ok userID →
  userID ≠ uuid_nil ∧ (userID < 2 ^ 128)%N ∧ ∃ claims,
    jwt_ParseWithClaims (ats_SigningKey s) (ats_Issuer s) now serialized = Some claims
    ∧ ac_TokenType claims = "access" ∧ ac_Issuer claims = ats_Issuer s ∧ uuid_Parse (ac_Subject claims) = Some userID
    ∧ ∀ e, ac_ExpiresAt claims = Some e → now < e.
Proof.
  unfold AccessTokenService_Parse. case_match; [done|].
  destruct (jwt_ParseWithClaims _ _ now serialized) as [c|] eqn:Hc; [|done].
  destruct (bool_decide_reflect (ac_TokenType c = "access")) as [Ht|]; [|done]. simpl.
  destruct (uuid_Parse (ac_Subject c)) as [u|] eqn:Eu; [|done]. destruct (bool_decide_reflect (u = uuid_nil)) as [|Hn]; [done|]. intros [= ->].
  split; [done|]. split; [by eapply uuid_Parse_bound|]. exists c.
  pose proof (jwt_parse_valid _ _ _ _ _ Hc) as (?&?&_). split_and!; done.
Qed.
End jwt.

(** ** Lemmas on API keys *)

Lemma slice_to_app (s t : string) : slice_to (String.length s) (s +:+ t) = s.
Proof. unfold slice_to. induction s as [|c s IH]; simpl; [by destruct t|]. by f_equal. Qed.

Lemma slice_to_prefix n (s : string) : (n <= String.length s)%nat → ∃ t, s = slice_to n s +:+ t ∧ String.length (slice_to n s) = n.
Proof.
  unfold slice_to. revert n. induction s as [|c s IH]; intros [|n] H; simpl in *; try lia;
    [by exists ""|by exists (String c s)|].
  destruct (IH n) as (t&Ht&Hl); [lia|]. exists t. split; [rw {1}Ht; reflexivity|cbn; f_equal; exact Hl].
Qed.

(** A new API key starts with its own prefix, which [APIKeyPrefix] finds again. *)
Lemma NewAPIKey_ok random : length random = 32%nat →
  ∃ value prefix, NewAPIKey (Some random) = Ok (value, prefix, HashOpaqueToken value)
    ∧ APIKeyPrefix value = Some prefix ∧ String.length value = 47%nat ∧ String.length prefix = 12%nat.
Proof.
  intros Hr. unfold NewAPIKey, randomURLValue. cbn [mbind res_mbind res_bind].
  set (value := apiKeyPrefix +:+ _).
  assert (String.length value = 47%nat) as Hl.
  { unfold value. rw string_length_app length_base64 Hr. reflexivity. }
  assert (APIKeyPrefix value = Some (slice_to 12 value)) as Hp.
  { unfold APIKeyPrefix. rw bool_decide_eq_true_2; [apply (slice_to_app apiKeyPrefix)|].
    unfold go_len. rw Hl. done. }
  rw Hp. exists value, (slice_to 12 value). split_and!; try done.
  destruct (slice_to_prefix 12 value) as (t&_&?); [lia|done].
Qed.
