(* ===== verification/Proc.v ===== *)
(** Requests that run several transactions over one kind of state [S]: between two
    of them other requests commit, a transaction can fail, and clocks, identifiers
    and random bytes come from outside.  A small monad with its proof rule. *)

From S2P Require Import Prelude Json Upload UploadModel Svc.

Open Scope Z_scope.

(** What surrounds a request: what others commit before its step [n], whether the
    transaction of that step fails, and what it reads from outside. *)
Record PEnv (S : Type) := mkPEnv {
  p_db : nat → S → S;
  p_fault : nat → Fault;
  p_oracle : nat → Oracle;
  p_uuid : nat → uuid;
  p_now : nat → time;
  (* [io.ReadFull] of that many bytes *)
  p_random : nat → nat → option (list N)
}.
Arguments mkPEnv {S} _ _ _ _ _ _.
Arguments p_db {S} _ _ _.
Arguments p_fault {S} _ _.
Arguments p_oracle {S} _ _.
Arguments p_uuid {S} _ _.
Arguments p_now {S} _ _.
Arguments p_random {S} _ _ _.

Record PWorld (S : Type) := mkPWorld { pw_db : S; pw_step : nat }.
Arguments mkPWorld {S} _ _.
Arguments pw_db {S} _.
Arguments pw_step {S} _.

Definition Proc (S A : Type) := PEnv S → PWorld S → sres A * PWorld S.

#[export] Instance proc_ret {S} : MRet (Proc S) := λ A a _ w, (SOk a, w).
#[export] Instance proc_bind {S} : MBind (Proc S) := λ A B f m e w,
  match m e w with
  | (SOk a, w') => f a e w'
  | (SErr l, w') => (SErr l, w')
  end.

Definition p_fail {S A} (e : GoError) : Proc S A := λ _ w, (SErr [e], w).
Definition p_return {S A} (r : sres A) : Proc S A := λ _ w, (r, w).
Definition p_lift {S A} (r : res A) : Proc S A := λ _ w, (sres_of r, w).
Definition p_require {S} (b : bool) (e : GoError) : Proc S unit := if b then mret tt else p_fail e.

(** The outcome of a call as a value, for code that looks at the error. *)
Definition p_try {S A} (m : Proc S A) : Proc S (sres A) := λ e w, let (r, w') := m e w in (SOk r, w').

Definition p_read {S A} (f : PEnv S → nat → A) : Proc S A := λ e w,
  (SOk (f e (pw_step w)), mkPWorld (pw_db w) (Datatypes.S (pw_step w))).

Definition new_uuid {S} : Proc S uuid := p_read p_uuid.
Definition clock {S} : Proc S time := p_read p_now.
Definition random_bytes {S} (size : nat) : Proc S (option (list N)) := p_read (λ e n, p_random e n size).

(** A transaction, whose body may commit and report an error all the same; one whose
    commit is lost has run, but the caller sees an error. *)
Definition p_transact {S A} (tx : Tx S (res A)) : Proc S A := λ e w,
  let n := pw_step w in
  let d := p_db e n (pw_db w) in
  let (r, d') := transact tx (p_oracle e n) d in
  match p_fault e n with
  | NoFault => (match r with Ok r => sres_of r | Err x => SErr [x] end, mkPWorld d' (Datatypes.S n))
  | Refused => (SErr [ErrText "begin transaction"], mkPWorld d (Datatypes.S n))
  | CommitUnknown => (SErr [ErrText "commit transaction"], mkPWorld d' (Datatypes.S n))
  end.

Definition p_tx {S A} (tx : Tx S A) : Proc S A := p_transact (a ← tx; mret (Ok a)).

Definition p_query {S A} (q : S → res A) : Proc S A := λ e w,
  let n := pw_step w in
  let d := p_db e n (pw_db w) in
  match p_fault e n with
  | NoFault => (sres_of (q d), mkPWorld d (Datatypes.S n))
  | _ => (SErr [ErrText "query"], mkPWorld d (Datatypes.S n))
  end.

(** ** Proof rule

    [R] relates the states before and after anything others do; [G] is what every
    transaction of the request does.  A triple says that the whole request is a
    sequence of such steps, and what holds of its outcome. *)
Section logic.
Context {S : Type} (R : relation S).
Context {HR : PreOrder R}.

Definition respects (e : PEnv S) : Prop := ∀ n d, R d (p_db e n d).

(** [ptriple m e w Q]: started in [w], the request ends in a state related to its
    start, with an outcome in [Q]. *)
Definition ptriple {A} (m : Proc S A) (e : PEnv S) (w : PWorld S) (Q : sres A → S → Prop) : Prop :=
  let (r, w') := m e w in R (pw_db w) (pw_db w') ∧ Q r (pw_db w').

Lemma ptriple_bind {A B} (m : Proc S A) (f : A → Proc S B) e w (Q : sres B → S → Prop) :
  ptriple m e w (λ r d, match r with
    | SOk a => ∀ n, ptriple (f a) e (mkPWorld d n) Q
    | SErr l => Q (SErr l) d end) →
  ptriple (m ≫= f) e w Q.
Proof.
  unfold ptriple, mbind, proc_bind. destruct (m e w) as [[a|l] w']; [|done].
  intros [H1 H2]. destruct w' as [d n]. specialize (H2 n). simpl in *.
  destruct (f a e (mkPWorld d n)) as [r w'']. destruct H2. split; [by etrans|done].
Qed.

Lemma ptriple_mono {A} (m : Proc S A) e w (Q Q' : sres A → S → Prop) :
  ptriple m e w Q → (∀ r d, R (pw_db w) d → Q r d → Q' r d) → ptriple m e w Q'.
Proof. unfold ptriple. destruct (m e w) as [r w']. intros [? ?] HQ. eauto. Qed.

Lemma ptriple_pure {A} (r : sres A) e w (Q : sres A → S → Prop) :
  Q r (pw_db w) → ptriple (p_return r) e w Q.
Proof. unfold ptriple, p_return. intros H. split; [done|exact H]. Qed.

Lemma ptriple_ret {A} (a : A) e w (Q : sres A → S → Prop) : Q (SOk a) (pw_db w) → ptriple (mret a) e w Q.
Proof. apply ptriple_pure. Qed.

Lemma ptriple_fail {A} x e w (Q : sres A → S → Prop) : Q (SErr [x]) (pw_db w) → ptriple (p_fail x) e w Q.
Proof. apply ptriple_pure. Qed.

Lemma ptriple_lift {A} (r : res A) e w (Q : sres A → S → Prop) :
  Q (sres_of r) (pw_db w) → ptriple (p_lift r) e w Q.
Proof. apply ptriple_pure. Qed.

Lemma ptriple_require b x e w (Q : sres unit → S → Prop) :
  (b = true → Q (SOk tt) (pw_db w)) → (b = false → Q (SErr [x]) (pw_db w)) → ptriple (p_require b x) e w Q.
Proof. destruct b; intros H1 H2; [apply ptriple_ret|apply ptriple_fail]; auto. Qed.

Lemma ptriple_read {A} (f : PEnv S → nat → A) e w (Q : sres A → S → Prop) :
  (∀ n, Q (SOk (f e n)) (pw_db w)) → ptriple (p_read f) e w Q.
Proof. unfold ptriple, p_read. intros H. split; [done|apply H]. Qed.

Lemma ptriple_try {A} (m : Proc S A) e w (Q : sres (sres A) → S → Prop) :
  ptriple m e w (λ r d, Q (SOk r) d) → ptriple (p_try m) e w Q.
Proof. unfold ptriple, p_try. by destruct (m e w) as [r w']. Qed.

Lemma ptriple_query {A} (q : S → res A) e w (Q : sres A → S → Prop) :
  respects e →
  (∀ d, R (pw_db w) d → Q (sres_of (q d)) d) →
  (∀ d, R (pw_db w) d → Q (SErr [ErrText "query"]) d) →
  ptriple (p_query q) e w Q.
Proof.
  unfold ptriple, p_query. intros He H1 H2. pose proof (He (pw_step w) (pw_db w)).
  destruct (p_fault e _); (split; [done|auto]).
Qed.

(** A transaction: what it guarantees from every state others may leave. *)
Lemma ptriple_transact {A} (tx : Tx S (res A)) e w (Q : sres A → S → Prop) :
  respects e →
  (∀ d o r d', R (pw_db w) d → transact tx o d = (r, d') →
     R d d' ∧ Q (match r with Ok r => sres_of r | Err x => SErr [x] end) d'
     ∧ Q (SErr [ErrText "commit transaction"]) d') →
  (∀ d, R (pw_db w) d → Q (SErr [ErrText "begin transaction"]) d) →
  ptriple (p_transact tx) e w Q.
Proof.
  unfold ptriple, p_transact. intros He H1 H2. pose proof (He (pw_step w) (pw_db w)) as Hd.
  destruct (transact tx _ _) as [r d'] eqn:Et. apply H1 in Et as (?&?&?); [|done].
  destruct (p_fault e _); (split; [by (etrans; [done|])|auto]).
Qed.

Lemma ptriple_tx {A} (tx : Tx S A) e w (Q : sres A → S → Prop) :
  respects e →
  (∀ d o r d', R (pw_db w) d → transact tx o d = (r, d') →
     R d d' ∧ Q (sres_of r) d' ∧ Q (SErr [ErrText "commit transaction"]) d') →
  (∀ d, R (pw_db w) d → Q (SErr [ErrText "begin transaction"]) d) →
  ptriple (p_tx tx) e w Q.
Proof.
  intros He H1 H2. apply ptriple_transact; [done| |done]. intros d o r d' Hd Ht.
  unfold transact in Ht. unfold mbind, tx_bind in Ht.
  destruct (tx o (mkWorld d 0)) as [[a w']|x] eqn:E; simplify_eq/=;
    [apply (H1 d o (Ok a))|apply (H1 _ o (Err x))]; unfold transact; try rw E; done.
Qed.
End logic.

(** Symbolic execution of a request. *)
Ltac p_step :=
  lazymatch goal with
  | |- ptriple _ (mbind _ _) _ _ _ => apply ptriple_bind
  | |- ptriple _ (mret _) _ _ _ => apply ptriple_ret
  | |- ptriple _ (p_fail _) _ _ _ => apply ptriple_fail
  | |- ptriple _ (p_return _) _ _ _ => apply ptriple_pure
  | |- ptriple _ (p_lift _) _ _ _ => apply ptriple_lift
  | |- ptriple _ new_uuid _ _ _ => apply ptriple_read; intros ? ?
  | |- ptriple _ clock _ _ _ => apply ptriple_read; intros ? ?
  | |- ptriple _ (random_bytes _) _ _ _ => apply ptriple_read; intros ? ?
  | |- ptriple _ (p_try _) _ _ _ => apply ptriple_try
  end; cbn [pw_db pw_step].

(** ** Requests that succeed

    Inversion of a successful request, one call at a time. *)
Section success.
Context {S : Type}.

Lemma bind_SOk {A B} (m : Proc S A) (f : A → Proc S B) e w b w' :
  (m ≫= f) e w = (SOk b, w') → ∃ a w1, m e w = (SOk a, w1) ∧ f a e w1 = (SOk b, w').
Proof. unfold mbind, proc_bind. destruct (m e w) as [[a|l] w1]; [eauto|done]. Qed.

Lemma lift_SOk {A} (r : res A) e (w w' : PWorld S) a : p_lift r e w = (SOk a, w') → r = Ok a ∧ w' = w.
Proof. unfold p_lift. destruct r; intros [= <- <-]; auto. Qed.

Lemma require_SOk b x e (w w' : PWorld S) u : p_require b x e w = (SOk u, w') → b = true ∧ w' = w.
Proof. unfold p_require. destruct b; intros [= <- <-]; auto. Qed.

Lemma read_SOk {A} (f : PEnv S → nat → A) e w a w' :
  p_read f e w = (SOk a, w') → a = f e (pw_step w) ∧ pw_db w' = pw_db w.
Proof. unfold p_read. by intros [= <- <-]. Qed.

Lemma query_SOk {A} (q : S → res A) e w a w' :
  p_query q e w = (SOk a, w') → pw_db w' = p_db e (pw_step w) (pw_db w) ∧ q (pw_db w') = Ok a.
Proof. unfold p_query. destruct (p_fault _ _); try done. destruct (q _) eqn:E; [|done]. by intros [= <- <-]. Qed.

Lemma transact_SOk {A} (tx : Tx S (res A)) e w a w' : p_transact tx e w = (SOk a, w') →
  transact tx (p_oracle e (pw_step w)) (p_db e (pw_step w) (pw_db w)) = (Ok (Ok a), pw_db w').
Proof.
  unfold p_transact. destruct (transact _ _ _) as [[[b|x]|x] d'], (p_fault _ _); try done. by intros [= <- <-].
Qed.

Lemma tx_SOk {A} (tx : Tx S A) e w a w' : p_tx tx e w = (SOk a, w') →
  transact tx (p_oracle e (pw_step w)) (p_db e (pw_step w) (pw_db w)) = (Ok a, pw_db w').
Proof.
  intros H%transact_SOk. unfold transact, mbind, tx_bind, mret, tx_ret in *.
  destruct (tx _ _) as [[b w1]|x]; simplify_eq/=; congruence.
Qed.

Lemma try_SOk {A} (m : Proc S A) e w r w' : p_try m e w = (SOk r, w') → m e w = (r, w').
Proof. unfold p_try. destruct (m e w). by intros [= -> ->]. Qed.
End success.

(** Take a successful request apart, up to the calls that need a lemma of their own. *)
Ltac p_inv H :=
  lazymatch type of H with
  | (_ ≫= _) _ _ = (SOk _, _) =>
      let H1 := fresh "H" in
      apply bind_SOk in H as (?&?&H1&H); p_inv H1; try p_inv H
  | p_lift _ _ _ = (SOk _, _) => apply lift_SOk in H as [H ->]
  | p_require _ _ _ _ = (SOk _, _) => apply require_SOk in H as [H ->]
  | p_query _ _ _ = (SOk _, _) => apply query_SOk in H as [? H]
  | p_tx _ _ _ = (SOk _, _) => apply tx_SOk in H
  | p_transact _ _ _ = (SOk _, _) => apply transact_SOk in H
  | p_try _ _ _ = (SOk _, _) => apply try_SOk in H
  | random_bytes _ _ _ = (SOk _, _) => apply read_SOk in H as [? ?]
  | clock _ _ = (SOk _, _) => apply read_SOk in H as [? ?]
  | new_uuid _ _ = (SOk _, _) => apply read_SOk in H as [? ?]
  | (let '(_, _) := ?x in _) _ _ = (SOk _, _) => destruct x; p_inv H
  | mret _ _ _ = (SOk _, _) => injection H as <- <-
  | _ => idtac
  end.

(** ** Requests that fail

    Where an error comes from: [tx_errors tx P] says that the errors of a transaction
    satisfy [P]. *)
Section failure.
Context {S : Type}.

Definition tx_errors {A} (tx : Tx S A) (P : GoError → Prop) : Prop := ∀ o w x, tx o w = Err x → P x.

Lemma tx_errors_bind {A B} (m : Tx S A) (f : A → Tx S B) P :
  tx_errors m P → (∀ a, tx_errors (f a) P) → tx_errors (m ≫= f) P.
Proof.
  intros Hm Hf o w x. unfold mbind, tx_bind. destruct (m o w) as [[a w1]|y] eqn:E; [apply Hf|].
  intros [= <-]. by eapply Hm.
Qed.

Lemma tx_errors_ret {A} (a : A) P : tx_errors (mret a) P.
Proof. by intros o w x. Qed.
Lemma tx_errors_gets {A} (f : S → A) P : tx_errors (gets f) P.
Proof. by intros o w x. Qed.
Lemma tx_errors_modify f P : tx_errors (modify f) P.
Proof. by intros o w x. Qed.
Lemma tx_errors_now P : tx_errors sql_now P.
Proof. by intros o w x. Qed.
Lemma tx_errors_require b x P : P x → tx_errors (require b x) P.
Proof. intros Hx o w y. unfold require. destruct b; [done|]. by intros [= <-]. Qed.

Lemma bind_SErr {A B} (m : Proc S A) (f : A → Proc S B) e w l w' :
  (m ≫= f) e w = (SErr l, w') → m e w = (SErr l, w') ∨ ∃ a w1, m e w = (SOk a, w1) ∧ f a e w1 = (SErr l, w').
Proof. unfold mbind, proc_bind. destruct (m e w) as [[a|k] w1]; [eauto|]. intros [= <- <-]. by left. Qed.

Lemma tx_SErr {A} (tx : Tx S A) e w l w' (P : GoError → Prop) : p_tx tx e w = (SErr l, w') →
  tx_errors tx P → (∀ t, P (ErrText t)) → Forall P l.
Proof.
  intros H He Ht. unfold p_tx, p_transact, transact, mbind, tx_bind in H.
  destruct (tx _ _) as [[a w1]|x] eqn:E, (p_fault _ _); simplify_eq/=; repeat constructor; try apply Ht; by eapply He.
Qed.
End failure.

Create HintDb tx_errors.
#[export] Hint Resolve tx_errors_bind tx_errors_ret tx_errors_gets tx_errors_modify tx_errors_now tx_errors_require : tx_errors.
