(* ===== verification/IdentityStore.v ===== *)
(** Users, refresh tokens and API keys: identity/models.go and
    identity/repository_*.go, with the constraints of
    migrations/000002_identity.sql. *)

From S2P Require Import Prelude GoStrings Json Queue JobModel Schema Sql Sha256 Upload UploadModel Svc DatasetStore Authz Tokens.

Open Scope Z_scope.

(** ** Tables *)

Record UserRow := mkUserRow {
  ur_id : uuid; ur_email : string; ur_password_hash : string; ur_role : string;
  ur_disabled_at : option time; ur_created_at : time; ur_updated_at : time
}.

Record FamilyRow := mkFamilyRow {
  fr_id : uuid; fr_user_id : uuid; fr_created_at : time; fr_revoked_at : option time; fr_revoke_reason : option string
}.

Record TokenRow := mkTokenRow {
  tr_id : uuid; tr_family_id : uuid; tr_token_hash : list N; tr_issued_at : time; tr_expires_at : time;
  tr_used_at : option time; tr_revoked_at : option time
}.

Record KeyRow := mkKeyRow {
  kr_id : uuid; kr_user_id : uuid; kr_name : string; kr_key_prefix : string; kr_key_hash : list N;
  kr_scopes : list string; kr_created_at : time; kr_last_used_at : option time; kr_revoked_at : option time
}.

(** A row of [audit_events] with its metadata; an empty text column is NULL. *)
Record AuditEventRow := mkAuditEventRow {
  ae_actor_user_id : option uuid; ae_action : string; ae_resource_type : option string;
  ae_resource_id : option string; ae_request_id : option string; ae_metadata : json
}.

(** [user_scopes] is the set of its rows, in the order of their insertion. *)
Record IDB := mkIDB {
  i_users : gmap uuid UserRow;
  i_scopes : list (uuid * string);
  i_families : gmap uuid FamilyRow;
  i_tokens : gmap uuid TokenRow;
  i_keys : gmap uuid KeyRow;
  i_audit : list AuditEventRow
}.

Definition empty_idb : IDB := mkIDB ∅ [] ∅ ∅ ∅ [].

Definition on_users (f : gmap uuid UserRow → gmap uuid UserRow) (d : IDB) : IDB :=
  mkIDB (f (i_users d)) (i_scopes d) (i_families d) (i_tokens d) (i_keys d) (i_audit d).
Definition on_user_scopes (f : list (uuid * string) → list (uuid * string)) (d : IDB) : IDB :=
  mkIDB (i_users d) (f (i_scopes d)) (i_families d) (i_tokens d) (i_keys d) (i_audit d).
Definition on_families (f : gmap uuid FamilyRow → gmap uuid FamilyRow) (d : IDB) : IDB :=
  mkIDB (i_users d) (i_scopes d) (f (i_families d)) (i_tokens d) (i_keys d) (i_audit d).
Definition on_tokens (f : gmap uuid TokenRow → gmap uuid TokenRow) (d : IDB) : IDB :=
  mkIDB (i_users d) (i_scopes d) (i_families d) (f (i_tokens d)) (i_keys d) (i_audit d).
Definition on_keys (f : gmap uuid KeyRow → gmap uuid KeyRow) (d : IDB) : IDB :=
  mkIDB (i_users d) (i_scopes d) (i_families d) (i_tokens d) (f (i_keys d)) (i_audit d).
Definition on_audit_events (f : list AuditEventRow → list AuditEventRow) (d : IDB) : IDB :=
  mkIDB (i_users d) (i_scopes d) (i_families d) (i_tokens d) (i_keys d) (f (i_audit d)).

Abbreviation get_idb := (gets (λ d : IDB, d)).

(** ** Values *)

Record User := mkUser {
  usr_ID : uuid; usr_Email : string; usr_PasswordHash : string; usr_Role : string; usr_Scopes : list string;
  usr_DisabledAt : option time; usr_CreatedAt : time; usr_UpdatedAt : time
}.

Record APIKey := mkAPIKey {
  ak_ID : uuid; ak_Name : string; ak_Prefix : string; ak_Scopes : list string; ak_CreatedAt : time;
  ak_LastUsedAt : option time; ak_RevokedAt : option time
}.

Record APIKeyAuthentication := mkAPIKeyAuthentication { aka_Key : APIKey; aka_User : User; aka_Scopes : list string }.

Record AuditEvent := mkAuditEvent {
  ev_ActorUserID : option uuid; ev_Action : string; ev_ResourceType : string; ev_ResourceID : string;
  ev_RequestID : string; ev_Metadata : json
}.

(** The SQL function LOWER, which depends on the locale of the database. *)
Class PgLower := { pg_lower : string → string }.

(** ** Users *)

(** [array_agg(us.scope)] over the scopes of a user, in the order of the table. *)
Definition scopes_of (d : IDB) (userID : uuid) : list string :=
  (filter (λ us, us.1 = userID) (i_scopes d)).*2.

Definition user_of_row (d : IDB) (r : UserRow) : User :=
  mkUser (ur_id r) (ur_email r) (ur_password_hash r) (ur_role r) (scopes_of d (ur_id r))
    (ur_disabled_at r) (ur_created_at r) (ur_updated_at r).

Definition email_taken (d : IDB) (email : string) : bool :=
  existsb (λ r, bool_decide (ur_email r = email)) (rows (i_users d)).

Definition valid_role (role : string) : bool :=
  bool_decide (role = RoleAdmin) || bool_decide (role = RoleUser) || bool_decide (role = RoleService).

Definition insert_scope (userID : uuid) (scope : string) : Tx IDB unit :=
  d ← get_idb;
  _ ← require (pg_text scope) ErrEncoding;
  if bool_decide ((userID, scope) ∈ i_scopes d) then mret tt
  else modify (on_user_scopes (λ l, l ++ [(userID, scope)])).

Definition CreateUser `{PgLower} (email passwordHash role : string) (scopes : list string) : Tx IDB User :=
  _ ← require (valid_role role) (ErrText "invalid user role");
  userID ← uuid_new;
  now ← sql_now;
  d ← get_idb;
  _ ← require (pg_text email && pg_text passwordHash) ErrEncoding;
  _ ← require (bool_decide (email = pg_lower email)) ErrCheckViolation;
  _ ← require (bool_decide (i_users d !! userID = None) && negb (email_taken d email)) ErrEmailAlreadyExists;
  _ ← modify (on_users (insert userID (mkUserRow userID email passwordHash role None now now)));
  _ ← forM_ scopes (insert_scope userID);
  mret (mkUser userID email passwordHash role scopes None time_zero time_zero).

Definition FindUserByEmail (email : string) (d : IDB) : res User :=
  match filter (λ r, ur_email r = email) (rows (i_users d)) with
  | r :: _ => Ok (user_of_row d r)
  | [] => Err ErrUserNotFound
  end.

Definition FindUserByID (userID : uuid) (d : IDB) : res User :=
  match i_users d !! userID with
  | Some r => Ok (user_of_row d r)
  | None => Err ErrUserNotFound
  end.

(** ** Refresh tokens *)

Definition token_with_hash (d : IDB) (hash : list N) : option TokenRow :=
  head (filter (λ r, tr_token_hash r = hash) (rows (i_tokens d))).

Definition insert_token (tokenID familyID : uuid) (tokenHash : list N) (expiresAt now : time) : Tx IDB unit :=
  d ← get_idb;
  _ ← require (bool_decide (i_tokens d !! tokenID = None) && bool_decide (token_with_hash d tokenHash = None))
        ErrUniqueViolation;
  _ ← require (bool_decide (is_Some (i_families d !! familyID))) ErrReferenceViolation;
  modify (on_tokens (insert tokenID (mkTokenRow tokenID familyID tokenHash now expiresAt None None))).

Definition CreateRefreshSession (userID familyID tokenID : uuid) (tokenHash : list N) (expiresAt : time) : Tx IDB unit :=
  now ← sql_now;
  d ← get_idb;
  _ ← require (bool_decide (i_families d !! familyID = None)) ErrUniqueViolation;
  _ ← require (bool_decide (is_Some (i_users d !! userID))) ErrReferenceViolation;
  _ ← modify (on_families (insert familyID (mkFamilyRow familyID userID now None None)));
  insert_token tokenID familyID tokenHash expiresAt now.

(** COALESCE keeps the first revocation and its reason. *)
Definition revoke_family (now : time) (reason : string) (f : FamilyRow) : FamilyRow :=
  mkFamilyRow (fr_id f) (fr_user_id f) (fr_created_at f)
    (Some (default now (fr_revoked_at f))) (Some (default reason (fr_revoke_reason f))).

Definition use_token (now : time) (r : TokenRow) : TokenRow :=
  mkTokenRow (tr_id r) (tr_family_id r) (tr_token_hash r) (tr_issued_at r) (tr_expires_at r) (Some now) (tr_revoked_at r).

(** A replay commits the revocation of the family and then reports the error: the
    result inside the transaction. *)
Definition RotateRefreshToken (tokenHash : list N) (newTokenID : uuid) (newTokenHash : list N) (expiresAt : time)
  : Tx IDB (res User) :=
  now ← sql_now;
  d ← get_idb;
  token ← lift_opt ErrRefreshTokenInvalid (token_with_hash d tokenHash);
  family ← lift_opt ErrRefreshTokenInvalid (i_families d !! tr_family_id token);
  _ ← require (bool_decide (fr_revoked_at family = None)) ErrRefreshTokenInvalid;
  if bool_decide (tr_used_at token ≠ None) || bool_decide (tr_revoked_at token ≠ None) then
    _ ← modify (on_families (alter (revoke_family now "refresh_token_reuse") (tr_family_id token)));
    mret (Err ErrRefreshTokenReplay)
  else
    _ ← require (negb (tr_expires_at token <=? now)) ErrRefreshTokenExpired;
    user ← lift_res (FindUserByID (fr_user_id family) d);
    _ ← modify (on_tokens (alter (use_token now) (tr_id token)));
    _ ← insert_token newTokenID (tr_family_id token) newTokenHash expiresAt now;
    mret (Ok user).

Definition RevokeRefreshTokenFamily (tokenHash : list N) : Tx IDB unit :=
  now ← sql_now;
  d ← get_idb;
  match token_with_hash d tokenHash with
  | Some token => modify (on_families (alter (revoke_family now "logout") (tr_family_id token)))
  | None => mret tt
  end.

(** ** API keys *)

Definition key_of_row (r : KeyRow) : APIKey :=
  mkAPIKey (kr_id r) (kr_name r) (kr_key_prefix r) (kr_scopes r) (kr_created_at r) (kr_last_used_at r) (kr_revoked_at r).

Definition key_conflict (d : IDB) (prefix : string) (hash : list N) : bool :=
  existsb (λ r, bool_decide (kr_key_prefix r = prefix) || bool_decide (kr_key_hash r = hash)) (rows (i_keys d)).

Definition CreateAPIKey (userID : uuid) (name prefix : string) (keyHash : list N) (scopes : list string) : Tx IDB APIKey :=
  id ← uuid_new;
  now ← sql_now;
  d ← get_idb;
  _ ← require (pg_text name && pg_text prefix && forallb pg_text scopes) ErrEncoding;
  _ ← require (bool_decide (i_keys d !! id = None) && negb (key_conflict d prefix keyHash)) ErrUniqueViolation;
  _ ← require (bool_decide (is_Some (i_users d !! userID))) ErrReferenceViolation;
  let row := mkKeyRow id userID name prefix keyHash scopes now None None in
  _ ← modify (on_keys (insert id row));
  mret (key_of_row row).

Definition key_newer (x y : KeyRow) : bool := kr_created_at y <? kr_created_at x.

Definition ListAPIKeys (userID : uuid) (d : IDB) : list APIKey :=
  key_of_row <$> sort_by key_newer (filter (λ r, kr_user_id r = userID) (rows (i_keys d))).

Definition revoke_key (now : time) (r : KeyRow) : KeyRow :=
  mkKeyRow (kr_id r) (kr_user_id r) (kr_name r) (kr_key_prefix r) (kr_key_hash r) (kr_scopes r) (kr_created_at r)
    (kr_last_used_at r) (Some (default now (kr_revoked_at r))).

Definition RevokeAPIKey (userID keyID : uuid) : Tx IDB unit :=
  now ← sql_now;
  d ← get_idb;
  match i_keys d !! keyID with
  | Some r =>
      if bool_decide (kr_user_id r = userID) then modify (on_keys (alter (revoke_key now) keyID))
      else fail ErrAPIKeyNotFound
  | None => fail ErrAPIKeyNotFound
  end.

(** The query of [AuthenticateAPIKey]: the key with this prefix, not revoked, and its
    user, not disabled; then the comparison of the hashes. *)
Definition find_key (prefix : string) (presentedHash : list N) (d : IDB) : res APIKeyAuthentication :=
  match filter (λ r, kr_key_prefix r = prefix ∧ kr_revoked_at r = None) (rows (i_keys d)) with
  | [] => Err ErrAPIKeyInvalid
  | r :: _ =>
      match i_users d !! kr_user_id r with
      | Some u =>
          if bool_decide (ur_disabled_at u ≠ None) then Err ErrAPIKeyInvalid
          else if negb (bool_decide (kr_key_hash r = presentedHash)) then Err ErrAPIKeyInvalid
          else Ok (mkAPIKeyAuthentication (key_of_row r) (user_of_row d u) (kr_scopes r))
      | None => Err ErrAPIKeyInvalid
      end
  end.

Definition touch_key (now : time) (r : KeyRow) : KeyRow :=
  mkKeyRow (kr_id r) (kr_user_id r) (kr_name r) (kr_key_prefix r) (kr_key_hash r) (kr_scopes r) (kr_created_at r)
    (Some now) (kr_revoked_at r).

Definition update_key_usage (keyID : uuid) : Tx IDB unit :=
  now ← sql_now;
  modify (on_keys (alter (touch_key now) keyID)).

(** ** Audit events *)

Definition nullif_empty (s : string) : option string := if bool_decide (s = "") then None else Some s.

Definition RecordAudit (event : AuditEvent) : Tx IDB unit :=
  d ← get_idb;
  _ ← require (pg_text (ev_Action event) && pg_text (ev_ResourceType event) && pg_text (ev_ResourceID event)
               && pg_text (ev_RequestID event)) ErrEncoding;
  _ ← require (match ev_ActorUserID event with Some u => bool_decide (is_Some (i_users d !! u)) | None => true end)
        ErrReferenceViolation;
  modify (on_audit_events (λ l, l ++ [mkAuditEventRow (ev_ActorUserID event) (ev_Action event)
    (nullif_empty (ev_ResourceType event)) (nullif_empty (ev_ResourceID event)) (nullif_empty (ev_RequestID event))
    (ev_Metadata event)])).
