(* ===== verification/IdentityService.v ===== *)
(** The identity service: identity/service.go, service_keys.go and validation.go, each
    request a sequence of transactions of the identity repository. *)

From S2P Require Import Prelude GoStrings Json Queue JobModel Schema Sql Sha256 Upload UploadModel Svc Proc DatasetStore Authz Base64 Passwords Tokens IdentityStore.

Open Scope Z_scope.

(** ** Text *)

(** The tables of package unicode: the lower case of a rune outside ASCII, both in
    UTF-8. *)
Class UnicodeTables := { unicode_ToLower : list N → list N }.

(** net/mail: the address part of the address a text holds. *)
Class MailParser := { mail_ParseAddress : string → option string }.

(** [strings.ToLower]: rune by rune; a byte that starts none becomes U+FFFD. *)
Fixpoint lower_runes `{UnicodeTables} (fuel : nat) (l : list N) : list N :=
  match fuel, l with
  | _, [] | O, _ => []
  | S fuel, b :: l' =>
      match rune_len l with
      | O => replacement ++ lower_runes fuel l'
      | 1%nat => lower_byte b :: lower_runes fuel l'
      | n => unicode_ToLower (take n l) ++ lower_runes fuel (drop n l)
      end
  end.

Definition strings_ToLower `{UnicodeTables} (s : string) : string :=
  string_of_bytes (lower_runes (String.length s) (bytes_of s)).

Definition normalizeEmail `{UnicodeTables, MailParser} (value : string) : res string :=
  let email := strings_ToLower (trim_space value) in
  if bool_decide (email = "") || (254 <? go_len email) then Err (ErrText "email must be between 1 and 254 bytes")
  else if negb (bool_decide (mail_ParseAddress email = Some email)) || negb (contains_any email [64%N])
  then Err (ErrText "email must be a valid address")
  else Ok email.

Definition validateAPIKeyName (value : string) : res string :=
  let name := trim_space value in
  if bool_decide (name = "") || (100 <? go_len name) || contains_any name [13; 10]%N
  then Err (ErrText "API key name must be between 1 and 100 bytes")
  else Ok name.

Definition principalForUser (user : User) (method : string) : Principal :=
  mkPrincipal (usr_ID user) (usr_Role user) (usr_Scopes user) method.

Definition intersectScopes (left_ right_ : list string) : list string := filter (λ scope, scope ∈ right_) left_.

(** ** The service *)

Record IdentityService := mkIdentityService { is_AccessTokens : AccessTokenService; is_RefreshTokenTTL : duration }.

Record TokenPair := mkTokenPair { tp_AccessToken : string; tp_RefreshToken : string; tp_AccessTokenExpiry : time }.

Record CreatedAPIKey := mkCreatedAPIKey { cak_Key : APIKey; cak_Plaintext : string }.

(** [NewService], from the three settings it reads. *)
Definition NewIdentityService (jwtSigningKey : string) (accessTokenTTL refreshTokenTTL : duration) : res IdentityService :=
  if (go_len jwtSigningKey <? 32) || (accessTokenTTL <=? 0) || (refreshTokenTTL <=? 0) then Err ErrIdentityConfiguration
  else Ok (mkIdentityService (NewAccessTokenService jwtSigningKey accessTokenTTL) refreshTokenTTL).

Definition validateService (s : IdentityService) : res unit :=
  guard_err (negb (is_RefreshTokenTTL s <=? 0)) ErrIdentityConfiguration.

Section service.
Context `{UuidParser, JWT, Argon2, UnicodeTables, MailParser, PgLower} (s : IdentityService).

Definition recordAudit (userID : uuid) (action requestID : string) (metadata : json) : Proc IDB unit :=
  p_tx (RecordAudit (mkAuditEvent (Some userID) action "" "" requestID metadata)).

Definition issueTokenPair (user : User) : Proc IDB TokenPair :=
  random ← random_bytes (Z.to_nat opaqueTokenBytes);
  '(refreshToken, refreshHash) ← p_lift (NewOpaqueToken random);
  now ← clock;
  id ← new_uuid;
  '(accessToken, accessExpiry) ← p_lift (AccessTokenService_Issue (is_AccessTokens s) (usr_ID user) now id);
  familyID ← new_uuid;
  tokenID ← new_uuid;
  now ← clock;
  _ ← p_tx (CreateRefreshSession (usr_ID user) familyID tokenID refreshHash (now + is_RefreshTokenTTL s));
  mret (mkTokenPair accessToken refreshToken accessExpiry).

Definition IdentityService_Register (email password requestID : string) : Proc IDB (User * TokenPair) :=
  _ ← p_lift (validateService s);
  normalizedEmail ← p_lift (wrap_err ErrIdentityInvalidInput (normalizeEmail email));
  salt ← random_bytes (Z.to_nat passwordSaltLength);
  passwordHash ← p_lift (wrap_err ErrIdentityInvalidInput (PasswordHasher_Hash salt password));
  user ← p_tx (CreateUser normalizedEmail passwordHash RoleUser DefaultUserScopes);
  pair ← issueTokenPair user;
  _ ← recordAudit (usr_ID user) "identity.register" requestID (JObj [("role", JStr (usr_Role user))]);
  mret (user, pair).

Definition IdentityService_Login (email password requestID : string) : Proc IDB (User * TokenPair) :=
  _ ← p_lift (validateService s);
  normalizedEmail ← p_lift (wrap_err ErrInvalidCredentials (normalizeEmail email));
  found ← p_try (p_query (FindUserByEmail normalizedEmail));
  user ← match found with
         | SOk user => mret user
         | SErr l => p_return (if errors_Is l ErrUserNotFound then SErr [ErrInvalidCredentials] else SErr l)
         end;
  _ ← p_require (bool_decide (usr_DisabledAt user = None)) ErrInvalidCredentials;
  _ ← p_require (match VerifyPassword (usr_PasswordHash user) password with Ok valid => valid | Err _ => false end)
        ErrInvalidCredentials;
  pair ← issueTokenPair user;
  _ ← recordAudit (usr_ID user) "identity.login" requestID JNull;
  mret (user, pair).

Definition IdentityService_Refresh (refreshToken requestID : string) : Proc IDB (User * TokenPair) :=
  _ ← p_lift (validateService s);
  _ ← p_require (negb (bool_decide (refreshToken = ""))) ErrRefreshTokenInvalid;
  random ← random_bytes (Z.to_nat opaqueTokenBytes);
  '(newRefreshToken, newRefreshHash) ← p_lift (NewOpaqueToken random);
  newTokenID ← new_uuid;
  now ← clock;
  user ← p_transact (RotateRefreshToken (HashOpaqueToken refreshToken) newTokenID newRefreshHash (now + is_RefreshTokenTTL s));
  _ ← p_require (bool_decide (usr_DisabledAt user = None)) ErrInvalidCredentials;
  now ← clock;
  id ← new_uuid;
  '(accessToken, accessExpiry) ← p_lift (AccessTokenService_Issue (is_AccessTokens s) (usr_ID user) now id);
  let pair := mkTokenPair accessToken newRefreshToken accessExpiry in
  _ ← recordAudit (usr_ID user) "identity.refresh" requestID JNull;
  mret (user, pair).

Definition IdentityService_Logout (refreshToken requestID : string) : Proc IDB unit :=
  _ ← p_lift (validateService s);
  if bool_decide (refreshToken = "") then mret tt
  else
    _ ← p_tx (RevokeRefreshTokenFamily (HashOpaqueToken refreshToken));
    p_tx (RecordAudit (mkAuditEvent None "identity.logout" "" "" requestID JNull)).

Definition IdentityService_AuthenticateBearer (token : string) : Proc IDB Principal :=
  _ ← p_lift (validateService s);
  now ← clock;
  userID ← p_lift (wrap_err ErrInvalidCredentials (AccessTokenService_Parse (is_AccessTokens s) token now));
  found ← p_try (p_query (FindUserByID userID));
  match found with
  | SOk user =>
      _ ← p_require (bool_decide (usr_DisabledAt user = None)) ErrInvalidCredentials;
      mret (principalForUser user AuthMethodBearer)
  | SErr _ => p_fail ErrInvalidCredentials
  end.

(** [Repository.AuthenticateAPIKey]: a query and then an update of their own. *)
Definition AuthenticateAPIKey (value : string) (presentedHash : list N) : Proc IDB APIKeyAuthentication :=
  match APIKeyPrefix value with
  | None => p_fail ErrAPIKeyInvalid
  | Some prefix =>
      result ← p_query (find_key prefix presentedHash);
      _ ← p_tx (update_key_usage (ak_ID (aka_Key result)));
      mret (mkAPIKeyAuthentication (aka_Key result) (aka_User result) (ak_Scopes (aka_Key result)))
  end.

Definition IdentityService_AuthenticateAPIKey (value : string) : Proc IDB Principal :=
  _ ← p_lift (validateService s);
  _ ← p_require (negb (bool_decide (value = ""))) ErrAPIKeyInvalid;
  result ← AuthenticateAPIKey value (HashOpaqueToken value);
  let principal := principalForUser (aka_User result) AuthMethodAPIKey in
  mret (mkPrincipal (UserID principal) (Role principal)
          (intersectScopes (usr_Scopes (aka_User result)) (aka_Scopes result)) (AuthMethod principal)).

(** An API key whose creation cannot be audited is revoked again. *)
Definition IdentityService_CreateAPIKey (principal : Principal) (name : string) (scopes : list string) (requestID : string)
  : Proc IDB CreatedAPIKey :=
  _ ← p_lift (validateService s);
  _ ← p_require (negb (bool_decide (UserID principal = uuid_nil))) ErrUnauthenticated;
  validatedName ← p_lift (wrap_err ErrIdentityInvalidInput (validateAPIKeyName name));
  _ ← p_require (negb (bool_decide (scopes = []))) ErrInvalidScope;
  _ ← p_lift (ValidateGrantableScopes principal scopes);
  random ← random_bytes (Z.to_nat opaqueTokenBytes);
  '(plaintext, prefix, keyHash) ← p_lift (NewAPIKey random);
  key ← p_tx (CreateAPIKey (UserID principal) validatedName prefix keyHash scopes);
  audited ← p_try (recordAudit (UserID principal) "identity.api_key.create" requestID
              (JObj [("keyId", json_uuid (ak_ID key)); ("scopeCount", json_int (Z.of_nat (length scopes)))]));
  match audited with
  | SOk _ => mret (mkCreatedAPIKey key plaintext)
  | SErr l =>
      revoked ← p_try (p_tx (RevokeAPIKey (UserID principal) (ak_ID key)));
      p_return (SErr (l ++ errs revoked))
  end.

Definition IdentityService_ListAPIKeys (principal : Principal) : Proc IDB (list APIKey) :=
  _ ← p_lift (validateService s);
  _ ← p_require (negb (bool_decide (UserID principal = uuid_nil))) ErrUnauthenticated;
  p_query (λ d, Ok (ListAPIKeys (UserID principal) d)).

Definition IdentityService_RevokeAPIKey (principal : Principal) (keyID : uuid) (requestID : string) : Proc IDB unit :=
  _ ← p_lift (validateService s);
  _ ← p_require (negb (bool_decide (UserID principal = uuid_nil))) ErrUnauthenticated;
  _ ← p_require (negb (bool_decide (keyID = uuid_nil))) ErrAPIKeyNotFound;
  _ ← p_tx (RevokeAPIKey (UserID principal) keyID);
  recordAudit (UserID principal) "identity.api_key.revoke" requestID (JObj [("keyId", json_uuid keyID)]).
End service.
