(* ===== verification/IdentityProps.v ===== *)
(** The identity tables as a transition system: what its transactions preserve, and
    what that means for sessions and API keys. *)

From S2P Require Import Prelude GoStrings Json Queue JobModel Schema Sql Sha256 Upload UploadModel Svc Proc DatasetStore Authz Base64 Passwords Tokens IdentityStore IdentityService.

Open Scope Z_scope.

(** ** Rows that only move forward

    [rows_le R m m']: every row of [m] is still in [m'], related by [R]. *)
Definition rows_le {A} (R : relation A) (m m' : gmap uuid A) : Prop :=
  ∀ k r, m !! k = Some r → ∃ r', m' !! k = Some r' ∧ R r r'.

#[export] Instance rows_le_preorder {A} (R : relation A) `{!PreOrder R} : PreOrder (rows_le R).
Proof.
  split; [intros m k r ?; by exists r|]. intros m1 m2 m3 H1 H2 k r Hr.
  destruct (H1 _ _ Hr) as (r2&Hr2&?). destruct (H2 _ _ Hr2) as (r3&?&?). exists r3. split; [done|by etrans].
Qed.

Lemma rows_le_insert {A} (R : relation A) `{!PreOrder R} k (r : A) m :
  (∀ r0, m !! k = Some r0 → R r0 r) → rows_le R m (<[k := r]> m).
Proof.
  intros H j r0 Hr0. destruct (decide (k = j)) as [->|Hne].
  - exists r. rw lookup_insert_eq. auto.
  - exists r0. by rw lookup_insert_ne.
Qed.

Lemma rows_le_alter {A} (R : relation A) `{!PreOrder R} f k m :
  (∀ r, m !! k = Some r → R r (f r)) → rows_le R m (alter f k m).
Proof.
  intros H j r Hr. destruct (decide (k = j)) as [->|Hne].
  - exists (f r). rw lookup_alter_eq Hr. auto.
  - exists r. by rw lookup_alter_ne.
Qed.

(** What is set once stays as it was set. *)
Definition set_once {A} (x y : option A) : Prop := x ≠ None → y = x.

#[export] Instance set_once_preorder {A} : PreOrder (@set_once A).
Proof. split; unfold set_once; [done|]. intros x y z H1 H2 Hx. rw -H1 //. apply H2. by rw H1. Qed.

Definition user_le (r r' : UserRow) : Prop := ur_id r' = ur_id r ∧ ur_email r' = ur_email r.
Definition family_le (r r' : FamilyRow) : Prop :=
  fr_id r' = fr_id r ∧ fr_user_id r' = fr_user_id r ∧ set_once (fr_revoked_at r) (fr_revoked_at r').
Definition token_le (r r' : TokenRow) : Prop :=
  tr_id r' = tr_id r ∧ tr_family_id r' = tr_family_id r ∧ tr_token_hash r' = tr_token_hash r
  ∧ tr_expires_at r' = tr_expires_at r ∧ set_once (tr_used_at r) (tr_used_at r')
  ∧ set_once (tr_revoked_at r) (tr_revoked_at r').
Definition key_le (r r' : KeyRow) : Prop :=
  kr_id r' = kr_id r ∧ kr_user_id r' = kr_user_id r ∧ kr_key_prefix r' = kr_key_prefix r
  ∧ kr_key_hash r' = kr_key_hash r ∧ kr_scopes r' = kr_scopes r ∧ set_once (kr_revoked_at r) (kr_revoked_at r').

#[export] Instance user_le_preorder : PreOrder user_le.
Proof. split; unfold user_le; [done|]. intros ? ? ? [-> ->] [-> ->]. done. Qed.
#[export] Instance family_le_preorder : PreOrder family_le.
Proof.
  split; unfold family_le; [intros ?; split_and!; done|].
  intros ? ? ? (->&->&H1) (->&->&H2). split_and!; [done..|]. by etrans.
Qed.
#[export] Instance token_le_preorder : PreOrder token_le.
Proof.
  split; unfold token_le; [intros ?; split_and!; done|].
  intros ? ? ? (->&->&->&->&H1&H2) (->&->&->&->&H3&H4). split_and!; [done..| |]; by etrans.
Qed.
#[export] Instance key_le_preorder : PreOrder key_le.
Proof.
  split; unfold key_le; [intros ?; split_and!; done|].
  intros ? ? ? (->&->&->&->&->&H1) (->&->&->&->&->&H2). split_and!; [done..|]. by etrans.
Qed.

Record ident_le (d d' : IDB) : Prop := {
  le_users : rows_le user_le (i_users d) (i_users d');
  le_families : rows_le family_le (i_families d) (i_families d');
  le_tokens : rows_le token_le (i_tokens d) (i_tokens d');
  le_keys : rows_le key_le (i_keys d) (i_keys d')
}.

#[export] Instance ident_le_preorder : PreOrder ident_le.
Proof.
  split; [intros d; split; done|]. intros d1 d2 d3 [] []. split; by etrans.
Qed.

(** ** The invariant *)

Definition live (r : TokenRow) : Prop := tr_used_at r = None ∧ tr_revoked_at r = None.

(** Two rows of a table with the same value of a column are the same row. *)
Definition unique_column {A B} (f : A → B) (m : gmap uuid A) : Prop :=
  ∀ i j x y, m !! i = Some x → m !! j = Some y → f x = f y → i = j.

Record ident_inv (d : IDB) : Prop := {
  inv_user_id k r : i_users d !! k = Some r → ur_id r = k;
  inv_family_id k r : i_families d !! k = Some r → fr_id r = k;
  inv_token_id k r : i_tokens d !! k = Some r → tr_id r = k;
  inv_key_id k r : i_keys d !! k = Some r → kr_id r = k;
  inv_email : unique_column ur_email (i_users d);
  inv_token_hash : unique_column tr_token_hash (i_tokens d);
  inv_key_prefix : unique_column kr_key_prefix (i_keys d);
  inv_key_hash : unique_column kr_key_hash (i_keys d);
  inv_token_family k r : i_tokens d !! k = Some r → is_Some (i_families d !! tr_family_id r);
  inv_family_user k r : i_families d !! k = Some r → is_Some (i_users d !! fr_user_id r);
  inv_key_user k r : i_keys d !! k = Some r → is_Some (i_users d !! kr_user_id r);
  inv_live i j x y : i_tokens d !! i = Some x → i_tokens d !! j = Some y →
    live x → live y → tr_family_id x = tr_family_id y → i = j
}.

Lemma ident_inv_empty : ident_inv empty_idb.
Proof. split; unfold unique_column; simpl; intros; by simplify_map_eq. Qed.

Lemma token_with_hash_Some d h r : token_with_hash d h = Some r →
  ∃ k, i_tokens d !! k = Some r ∧ tr_token_hash r = h.
Proof.
  unfold token_with_hash. intros Hr%head_Some_elem_of.
  apply list_elem_of_filter in Hr as [? (k&?)%elem_of_rows]. eauto.
Qed.

Lemma token_with_hash_None d h : token_with_hash d h = None → ∀ k r, i_tokens d !! k = Some r → tr_token_hash r ≠ h.
Proof.
  unfold token_with_hash. rw head_None. intros Hf k r Hk Hh.
  assert (r ∈ filter (λ r, tr_token_hash r = h) (rows (i_tokens d))) as Hin
    by (apply list_elem_of_filter; split; [done|apply elem_of_rows; eauto]).
  rw Hf in Hin. by apply elem_of_nil in Hin.
Qed.

Lemma token_with_hash_eq d k r : ident_inv d → i_tokens d !! k = Some r → token_with_hash d (tr_token_hash r) = Some r.
Proof.
  intros Hi Hk. destruct (token_with_hash d (tr_token_hash r)) as [r'|] eqn:E.
  - apply token_with_hash_Some in E as (k'&Hk'&Hh).
    pose proof (inv_token_hash _ Hi _ _ _ _ Hk' Hk Hh) as ->. congruence.
  - by apply (token_with_hash_None _ _ E) in Hk.
Qed.

(** Inserting a row with a fresh value, and changing a row that keeps its value. *)
Lemma unique_column_insert {A B} (f : A → B) k x m :
  unique_column f m → (∀ j y, m !! j = Some y → f y ≠ f x) → unique_column f (<[k := x]> m).
Proof.
  intros H Hf i j y z. rw !lookup_insert_Some. intros [[<- <-]|[? Hy]] [[<- <-]|[? Hz]] E; eauto.
  - by apply Hf in Hz.
  - by apply Hf in Hy.
Qed.

Lemma unique_column_alter_at {A B} (f : A → B) g k m :
  unique_column f m → (∀ y, m !! k = Some y → f (g y) = f y) → unique_column f (alter g k m).
Proof.
  intros H Hg i j y z. rw !lookup_alter_Some. intros Hy Hz E.
  assert (∃ y', m !! i = Some y' ∧ f y' = f y) as (?&?&?) by naive_solver.
  assert (∃ z', m !! j = Some z' ∧ f z' = f z) as (?&?&?) by naive_solver.
  eapply H; [done..|]. congruence.
Qed.

Lemma unique_column_alter {A B} (f : A → B) g k m :
  unique_column f m → (∀ y, f (g y) = f y) → unique_column f (alter g k m).
Proof. intros ? ?. apply unique_column_alter_at; auto. Qed.

(** ** What a change of one table preserves *)

Definition good (d d' : IDB) : Prop := ident_inv d' ∧ ident_le d d'.

Lemma good_refl d : ident_inv d → good d d.
Proof. by split. Qed.

Lemma good_trans d d1 d2 : good d d1 → (ident_inv d1 → good d1 d2) → good d d2.
Proof. intros [Hi Hle] H. destruct (H Hi). split; [done|by etrans]. Qed.

(** Changes outside the tables of the invariant. *)
Lemma good_same d d' : ident_inv d → i_users d' = i_users d → i_families d' = i_families d →
  i_tokens d' = i_tokens d → i_keys d' = i_keys d → good d d'.
Proof.
  destruct d, d'; simpl. intros [] -> -> -> ->. split; [|split; done]. split; done.
Qed.

Lemma good_add_user d r : ident_inv d → i_users d !! ur_id r = None →
  (∀ k x, i_users d !! k = Some x → ur_email x ≠ ur_email r) → good d (on_users (insert (ur_id r) r) d).
Proof.
  intros Hi Hf He. split.
  - destruct Hi; split; simpl; try done.
    + intros k x. rw lookup_insert_Some. naive_solver.
    + by apply unique_column_insert.
    + intros k x Hx. apply lookup_insert_is_Some'. eauto.
    + intros k x Hx. apply lookup_insert_is_Some'. eauto.
  - split; simpl; try done. apply rows_le_insert; [apply _|]. intros r0. congruence.
Qed.

Lemma good_alter_user d u f : ident_inv d → (∀ r, user_le r (f r)) → good d (on_users (alter f u) d).
Proof.
  intros Hi Hf. split.
  - destruct Hi; split; simpl; try done.
    + intros k x Hx%lookup_alter_Some. destruct (Hf x). destruct Hx as [(->&y&Hy&->)|[_ Hx]]; [|eauto].
      rw (proj1 (Hf y)). eauto.
    + apply unique_column_alter; [done|]. intros y. apply Hf.
    + intros k x Hx. rw lookup_alter_is_Some. eauto.
    + intros k x Hx. rw lookup_alter_is_Some. eauto.
  - split; simpl; try done. apply rows_le_alter; [apply _|auto].
Qed.

Lemma good_add_family d r : ident_inv d → i_families d !! fr_id r = None → is_Some (i_users d !! fr_user_id r) →
  good d (on_families (insert (fr_id r) r) d).
Proof.
  intros Hi Hf Hu. split.
  - destruct Hi; split; simpl; try done.
    + intros k x. rw lookup_insert_Some. naive_solver.
    + intros k x Hx. apply lookup_insert_is_Some'. eauto.
    + intros k x. rw lookup_insert_Some. naive_solver.
  - split; simpl; try done. apply rows_le_insert; [apply _|]. intros r0. congruence.
Qed.

Lemma good_alter_family d k f : ident_inv d → (∀ r, family_le r (f r)) → good d (on_families (alter f k) d).
Proof.
  intros Hi Hf. split.
  - destruct Hi; split; simpl; try done.
    + intros j x Hx%lookup_alter_Some. destruct Hx as [(->&y&Hy&->)|[_ Hx]]; [|eauto].
      destruct (Hf y) as (->&_). eauto.
    + intros j x Hx. rw lookup_alter_is_Some. eauto.
    + intros j x Hx%lookup_alter_Some. destruct Hx as [(->&y&Hy&->)|[_ Hx]]; [|eauto].
      destruct (Hf y) as (_&->&_). eauto.
  - split; simpl; try done. apply rows_le_alter; [apply _|auto].
Qed.

(** A new token: its family has no live one. *)
Lemma good_add_token d r : ident_inv d → i_tokens d !! tr_id r = None → is_Some (i_families d !! tr_family_id r) →
  (∀ k x, i_tokens d !! k = Some x → tr_token_hash x ≠ tr_token_hash r) →
  (∀ k x, i_tokens d !! k = Some x → live x → tr_family_id x ≠ tr_family_id r) →
  good d (on_tokens (insert (tr_id r) r) d).
Proof.
  intros Hi Hf Hfam Hh Hl. split.
  - destruct Hi as [? ? ? ? ? ? ? ? ? ? ? Hlive]; split; simpl; try done.
    + intros k x. rw lookup_insert_Some. naive_solver.
    + by apply unique_column_insert.
    + intros k x. rw lookup_insert_Some. naive_solver.
    + intros i j x y. rw !lookup_insert_Some. intros [[<- <-]|[_ Hx]] [[<- <-]|[_ Hy]] Lx Ly E; [done|..].
      * by destruct (Hl _ _ Hy Ly).
      * by destruct (Hl _ _ Hx Lx).
      * by eapply Hlive.
  - split; simpl; try done. apply rows_le_insert; [apply _|]. intros r0. congruence.
Qed.

(** Changing a token that stops being live. *)
Lemma good_alter_token d k f : ident_inv d → (∀ r, i_tokens d !! k = Some r → token_le r (f r) ∧ ¬ live (f r)) →
  good d (on_tokens (alter f k) d).
Proof.
  intros Hi Hf. split.
  - destruct Hi as [? ? ? ? ? ? ? ? ? ? ? Hlive]; split; simpl; try done.
    + intros j x Hx%lookup_alter_Some. destruct Hx as [(->&y&Hy&->)|[_ Hx]]; [|eauto].
      destruct (Hf y Hy) as [(->&_) _]. eauto.
    + apply unique_column_alter_at; [done|]. intros y Hy. by destruct (Hf y Hy) as [(_&_&?&_) _].
    + intros j x Hx%lookup_alter_Some. destruct Hx as [(->&y&Hy&->)|[_ Hx]]; [|eauto].
      destruct (Hf y Hy) as [(_&->&_) _]. eauto.
    + assert (∀ j x, alter f k (i_tokens d) !! j = Some x → live x →
        ∃ x', i_tokens d !! j = Some x' ∧ live x' ∧ tr_family_id x' = tr_family_id x) as Hback.
      { intros j x Hx%lookup_alter_Some Lx. destruct Hx as [(->&y&Hy&->)|[_ Hx]]; [|eauto].
        by destruct (Hf y Hy). }
      intros i j x y Hx Hy Lx Ly E.
      destruct (Hback _ _ Hx Lx) as (x'&?&?&?), (Hback _ _ Hy Ly) as (y'&?&?&?). eapply Hlive; [done..|]. congruence.
  - split; simpl; try done. apply rows_le_alter; [apply _|]. intros r Hr. by apply Hf.
Qed.

Lemma good_add_key d r : ident_inv d → i_keys d !! kr_id r = None → is_Some (i_users d !! kr_user_id r) →
  (∀ k x, i_keys d !! k = Some x → kr_key_prefix x ≠ kr_key_prefix r ∧ kr_key_hash x ≠ kr_key_hash r) →
  good d (on_keys (insert (kr_id r) r) d).
Proof.
  intros Hi Hf Hu Hk. split.
  - destruct Hi; split; simpl; try done.
    + intros k x. rw lookup_insert_Some. naive_solver.
    + apply unique_column_insert; [done|]. intros j y Hy. by apply (Hk _ _ Hy).
    + apply unique_column_insert; [done|]. intros j y Hy. by apply (Hk _ _ Hy).
    + intros k x. rw lookup_insert_Some. naive_solver.
  - split; simpl; try done. apply rows_le_insert; [apply _|]. intros r0. congruence.
Qed.

Lemma good_alter_key d k f : ident_inv d → (∀ r, key_le r (f r)) → good d (on_keys (alter f k) d).
Proof.
  intros Hi Hf. split.
  - destruct Hi; split; simpl; try done.
    + intros j x Hx%lookup_alter_Some. destruct Hx as [(->&y&Hy&->)|[_ Hx]]; [|eauto].
      destruct (Hf y) as (->&_). eauto.
    + apply unique_column_alter; [done|]. intros y. by destruct (Hf y) as (_&_&?&_).
    + apply unique_column_alter; [done|]. intros y. by destruct (Hf y) as (_&_&_&?&_).
    + intros j x Hx%lookup_alter_Some. destruct Hx as [(->&y&Hy&->)|[_ Hx]]; [|eauto].
      destruct (Hf y) as (_&->&_). eauto.
  - split; simpl; try done. apply rows_le_alter; [apply _|auto].
Qed.

(** ** Transactions *)

(** The transactions of the repository, with any arguments; [op_set_user] and
    [op_set_scopes] are what an operator does by hand: disable a user or change a
    password, a role or scopes. *)
Inductive IdentityOp :=
  | op_CreateUser (email passwordHash role : string) (scopes : list string)
  | op_CreateRefreshSession (userID familyID tokenID : uuid) (tokenHash : list N) (expiresAt : time)
  | op_RotateRefreshToken (tokenHash : list N) (newTokenID : uuid) (newTokenHash : list N) (expiresAt : time)
  | op_RevokeRefreshTokenFamily (tokenHash : list N)
  | op_CreateAPIKey (userID : uuid) (name prefix : string) (keyHash : list N) (scopes : list string)
  | op_RevokeAPIKey (userID keyID : uuid)
  | op_update_key_usage (keyID : uuid)
  | op_RecordAudit (event : AuditEvent)
  | op_set_user (userID : uuid) (passwordHash role : string) (disabled : option time)
  | op_set_scopes (scopes : list (uuid * string)).

Definition set_user (passwordHash role : string) (disabled : option time) (r : UserRow) : UserRow :=
  mkUserRow (ur_id r) (ur_email r) passwordHash role disabled (ur_created_at r) (ur_updated_at r).

Section system.
Context `{PgLower}.

Definition discard {A} (m : Tx IDB A) : Tx IDB unit := _ ← m; mret tt.

Definition run_identity (op : IdentityOp) : Tx IDB unit :=
  match op with
  | op_CreateUser email passwordHash role scopes => discard (CreateUser email passwordHash role scopes)
  | op_CreateRefreshSession userID familyID tokenID tokenHash expiresAt =>
      CreateRefreshSession userID familyID tokenID tokenHash expiresAt
  | op_RotateRefreshToken tokenHash newTokenID newTokenHash expiresAt =>
      discard (RotateRefreshToken tokenHash newTokenID newTokenHash expiresAt)
  | op_RevokeRefreshTokenFamily tokenHash => RevokeRefreshTokenFamily tokenHash
  | op_CreateAPIKey userID name prefix keyHash scopes => discard (CreateAPIKey userID name prefix keyHash scopes)
  | op_RevokeAPIKey userID keyID => RevokeAPIKey userID keyID
  | op_update_key_usage keyID => update_key_usage keyID
  | op_RecordAudit event => RecordAudit event
  | op_set_user userID passwordHash role disabled => modify (on_users (alter (set_user passwordHash role disabled) userID))
  | op_set_scopes scopes => modify (on_user_scopes (λ _, scopes))
  end.

Definition identity_step (d d' : IDB) : Prop := ∃ op o r, transact (run_identity op) o d = (r, d').
Definition identity_run : relation IDB := rtc identity_step.

(** ** Every transaction is good *)

Lemma wp_insert_scope o u s d w : good d (st w) → wp o (insert_scope u s) (λ _ w', good d (st w')) w.
Proof.
  intros Hg. unfold insert_scope. wp_steps. wp_if; wp_steps; [done|].
  eapply good_trans; [done|]. intros Hi. by apply good_same.
Qed.

Lemma wp_CreateUser o e p r l w : ident_inv (st w) → wp o (CreateUser e p r l) (λ _ w', good (st w) (st w')) w.
Proof.
  intros Hi. unfold CreateUser. wp_steps. reflect_bool.
  eapply (wp_mono _ _ (λ _ w', good (st w) (st w'))); [intros ? ? Hg; by wp_steps|].
  apply (wp_forM o l _ (good (st w))).
  - intros s w' _ Hg. by apply wp_insert_scope.
  - apply (good_add_user (st w) (mkUserRow _ _ _ _ _ _ _)); [done|done|].
    intros k x Hx Hx'. match goal with H : email_taken _ _ = false |- _ => unfold email_taken in H; rename H into Ht end.
    apply not_true_iff_false in Ht. apply Ht, existsb_exists. exists x. rw -list_elem_of_In elem_of_rows.
    split; [eauto|]. by apply bool_decide_eq_true.
Qed.

(** A token for a family without a live one. *)
Lemma wp_insert_token o id f h e now d w :
  good d (st w) → (∀ k x, i_tokens (st w) !! k = Some x → live x → tr_family_id x ≠ f) →
  wp o (insert_token id f h e now) (λ _ w', good d (st w')) w.
Proof.
  intros Hg Hl. unfold insert_token. wp_steps. reflect_bool.
  eapply good_trans; [done|]. intros Hi.
  apply (good_add_token (st w) (mkTokenRow _ _ _ _ _ _ _)); try done. by apply token_with_hash_None.
Qed.

Lemma wp_CreateRefreshSession o u f t h e w : ident_inv (st w) →
  wp o (CreateRefreshSession u f t h e) (λ _ w', good (st w) (st w')) w.
Proof.
  intros Hi. unfold CreateRefreshSession. wp_steps. reflect_bool.
  apply wp_insert_token; simpl.
  - by apply (good_add_family (st w) (mkFamilyRow _ _ _ _ _)).
  - intros k x Hx _ <-. destruct (inv_token_family _ Hi _ _ Hx) as [? ?]. congruence.
Qed.

Lemma revoke_family_le now reason r : family_le r (revoke_family now reason r).
Proof. unfold family_le, revoke_family; simpl. split_and!; [done..|]. unfold set_once. by destruct (fr_revoked_at r). Qed.

Lemma wp_RotateRefreshToken o h t h' e w : ident_inv (st w) →
  wp o (RotateRefreshToken h t h' e) (λ _ w', good (st w) (st w')) w.
Proof.
  intros Hi. unfold RotateRefreshToken. wp_steps. reflect_bool.
  match goal with H : token_with_hash _ _ = Some ?r |- _ =>
    apply token_with_hash_Some in H as (k&Hk&Hh); rename r into token end.
  pose proof (inv_token_id _ Hi _ _ Hk) as Hid. wp_if as Hused; wp_steps.
  - apply good_alter_family; [done|]. apply revoke_family_le.
  - apply orb_false_iff in Hused as [Hu Hr]. rw !bool_decide_eq_false in Hu Hr.
    assert (live token) as Hlive by (split; by apply dec_stable).
    apply wp_insert_token; simpl.
    + apply good_alter_token; [done|]. rw Hid. intros r Hk'. simplify_eq. split; [|by intros []].
      unfold token_le, use_token, set_once; simpl. destruct Hlive as [-> _]. split_and!; done.
    + intros j x Hx%lookup_alter_Some Lx Hfam. destruct Hx as [(_&y&Hy&->)|[Hne Hx]]; [by destruct Lx|].
      apply Hne. rw Hid. symmetry. by eapply inv_live.
Qed.

Lemma wp_RevokeRefreshTokenFamily o h w : ident_inv (st w) →
  wp o (RevokeRefreshTokenFamily h) (λ _ w', good (st w) (st w')) w.
Proof.
  intros Hi. unfold RevokeRefreshTokenFamily. wp_steps. wp_if; wp_steps; [|by apply good_refl].
  apply good_alter_family; [done|]. apply revoke_family_le.
Qed.

Lemma wp_CreateAPIKey o u n p h l w : ident_inv (st w) →
  wp o (CreateAPIKey u n p h l) (λ _ w', good (st w) (st w')) w.
Proof.
  intros Hi. unfold CreateAPIKey. wp_steps. reflect_bool.
  apply (good_add_key (st w) (mkKeyRow _ _ _ _ _ _ _ _ _)); try done. simpl. intros k x Hx.
  match goal with H : key_conflict _ _ _ = false |- _ => unfold key_conflict in H; rename H into Hc end.
  rw existsb_false_Forall list.Forall_forall in Hc.
  specialize (Hc x ltac:(apply elem_of_rows; eauto)). simpl in Hc. apply orb_false_iff in Hc.
  rw !bool_decide_eq_false in Hc. done.
Qed.

Lemma wp_RevokeAPIKey o u k w : ident_inv (st w) → wp o (RevokeAPIKey u k) (λ _ w', good (st w) (st w')) w.
Proof.
  intros Hi. unfold RevokeAPIKey. wp_steps. wp_if; [|wp_steps]. wp_if; wp_steps.
  apply good_alter_key; [done|]. intros r. unfold key_le, revoke_key; simpl. split_and!; try done.
  unfold set_once. by destruct (kr_revoked_at r).
Qed.

Lemma identity_op_good op o d r d' :
  ident_inv d → transact (run_identity op) o d = (r, d') → good d d'.
Proof.
  intros Hi Ht. pose proof (transact_res o (run_identity op) d d' r (λ _ d', good d d') Ht) as Hres.
  enough (wp o (run_identity op) (λ _ w', good d (st w')) (mkWorld d 0)) as Hwp.
  { specialize (Hres Hwp). destruct r; [done|]. subst d'. by apply good_refl. }
  destruct op; cbn [run_identity]; unfold discard.
  - apply wp_bind. eapply wp_mono; [|by apply wp_CreateUser]. intros ? ? ?; by wp_steps.
  - by apply (wp_CreateRefreshSession o _ _ _ _ _ (mkWorld d 0)).
  - apply wp_bind. eapply wp_mono; [|by apply wp_RotateRefreshToken]. intros ? ? ?; by wp_steps.
  - by apply (wp_RevokeRefreshTokenFamily o _ (mkWorld d 0)).
  - apply wp_bind. eapply wp_mono; [|by apply wp_CreateAPIKey]. intros ? ? ?; by wp_steps.
  - by apply (wp_RevokeAPIKey o _ _ (mkWorld d 0)).
  - unfold update_key_usage. wp_steps. apply good_alter_key; [done|]. intros k. split_and!; done.
  - unfold RecordAudit. wp_steps. by apply good_same.
  - wp_steps. apply good_alter_user; [done|]. by intros k.
  - wp_steps. by apply good_same.
Qed.

(** Along a run the invariant is kept and rows only move forward. *)
Lemma identity_run_good d d' : identity_run d d' → ident_inv d → good d d'.
Proof.
  induction 1 as [d|d d1 d2 (op&o&r&Ht) _ IH]; intros Hi; [by apply good_refl|].
  eapply good_trans; [by eapply identity_op_good|exact IH].
Qed.

(** ** Sessions *)

(** A session is a family of refresh tokens; presenting a token is [RotateRefreshToken]. *)
Definition family_of (d : IDB) (hash : list N) : option uuid := tr_family_id <$> token_with_hash d hash.

Definition presented (d : IDB) (hash : list N) (r : res (res User)) (d' : IDB) : Prop :=
  ∃ o newID newHash expiresAt, transact (RotateRefreshToken hash newID newHash expiresAt) o d = (r, d').

Definition session_ended (d : IDB) (f : uuid) : Prop :=
  ∃ r, i_families d !! f = Some r ∧ fr_revoked_at r ≠ None.

Definition token_spent (d : IDB) (hash : list N) (f : uuid) : Prop :=
  ∃ k r, i_tokens d !! k = Some r ∧ tr_token_hash r = hash ∧ tr_family_id r = f ∧ ¬ live r.

Lemma session_ended_run d d' f : ident_inv d → identity_run d d' → session_ended d f → session_ended d' f.
Proof.
  intros Hi Hr (r&Hf&Hn). destruct (identity_run_good _ _ Hr Hi) as [_ Hle].
  destruct (le_families _ _ Hle _ _ Hf) as (r'&Hf'&_&_&Ho). exists r'. split; [done|]. by rw Ho.
Qed.

Lemma token_spent_run d d' h f : ident_inv d → identity_run d d' → token_spent d h f → token_spent d' h f.
Proof.
  intros Hi Hr (k&r&Hk&Hh&Hf&Hl). destruct (identity_run_good _ _ Hr Hi) as [_ Hle].
  destruct (le_tokens _ _ Hle _ _ Hk) as (r'&Hk'&_&Hf'&Hh'&_&Hu&Hv). exists k, r'. split_and!; try congruence.
  intros [Hu' Hv']. apply Hl. split; apply dec_stable; intros Hn; [specialize (Hu Hn)|specialize (Hv Hn)]; congruence.
Qed.

Lemma token_spent_lookup d h f : ident_inv d → token_spent d h f →
  ∃ r, token_with_hash d h = Some r ∧ tr_family_id r = f ∧ ¬ live r.
Proof. intros Hi (k&r&Hk&<-&Hf&Hl). exists r. split; [|done]. by eapply token_with_hash_eq. Qed.

#[local] Arguments token_with_hash : simpl never.

(** What presenting a token does, on every branch. *)
Lemma Rotate_ended d h f r d' : family_of d h = Some f → session_ended d f → presented d h r d' →
  r = Err ErrRefreshTokenInvalid ∧ d' = d.
Proof.
  intros Hf (fam&Hfam&Hn) (o&id&h'&e&Ht). unfold family_of in Hf. apply fmap_Some in Hf as (token&Htok&->).
  unfold transact, RotateRefreshToken, mbind, tx_bind in Ht. simpl in Ht. rw Htok in Ht. simpl in Ht. rw Hfam in Ht. simpl in Ht.
  rw bool_decide_eq_false_2 // in Ht. by injection Ht as <- <-.
Qed.

Lemma Rotate_spent d h f r d' : ident_inv d → token_spent d h f → ¬ session_ended d f → presented d h r d' →
  r = Ok (Err ErrRefreshTokenReplay) ∧ session_ended d' f ∧ i_tokens d' = i_tokens d.
Proof.
  intros Hi Hs He (o&id&h'&e&Ht). apply token_spent_lookup in Hs as (token&Htok&<-&Hl); [|done].
  destruct (token_with_hash_Some _ _ _ Htok) as (k&Hk&_). destruct (inv_token_family _ Hi _ _ Hk) as [fam Hfam].
  assert (fr_revoked_at fam = None) as Hnone by (apply dec_stable; intros Hx; apply He; by exists fam).
  unfold transact, RotateRefreshToken, mbind, tx_bind in Ht. simpl in Ht. rw Htok in Ht. simpl in Ht. rw Hfam in Ht. simpl in Ht.
  rw bool_decide_eq_true_2 // in Ht. simpl in Ht.
  assert (bool_decide (tr_used_at token ≠ None) || bool_decide (tr_revoked_at token ≠ None) = true) as Hb.
  { apply orb_true_iff. rw !bool_decide_eq_true. destruct (decide (tr_used_at token = None)); [|by left].
    right. intros ?. by apply Hl. }
  rw Hb in Ht. simpl in Ht. injection Ht as <- <-. split; [done|]. simpl. split; [|done].
  exists (revoke_family (o_sqlnow o) "refresh_token_reuse" fam). simpl. by rw lookup_alter_eq Hfam.
Qed.

Lemma Rotate_success d h user d' : ident_inv d → presented d h (Ok (Ok user)) d' →
  ∃ f, family_of d h = Some f ∧ ¬ session_ended d f ∧ ¬ token_spent d h f ∧ token_spent d' h f
    ∧ (usr_ID <$> (fam ← i_families d !! f; row ← i_users d !! fr_user_id fam; Some (user_of_row d row)))
      = Some (usr_ID user).
Proof.
  intros Hi (o&id&h'&e&Ht). eapply transact_inv; [done|]. clear Ht. unfold RotateRefreshToken. wp_steps.
  match goal with H : token_with_hash _ _ = Some ?r, H' : i_families _ !! _ = Some ?f |- _ =>
    rename r into token; rename f into fam; rename H into Htok; rename H' into Hfam end.
  reflect_bool. wp_if as Hb; wp_steps; [done|]. apply orb_false_iff in Hb as [Hu Hv]. rw !bool_decide_eq_false in Hu Hv.
  assert (live token) as Hl by (split; by apply dec_stable).
  unfold insert_token. wp_steps. intros [= <-] ->. simpl.
  destruct (token_with_hash_Some _ _ _ Htok) as (k&Hk&Hh). pose proof (inv_token_id _ Hi _ _ Hk) as Hid.
  exists (tr_family_id token). unfold family_of. rw Htok. split; [done|]. split_and!.
  - intros (?&?&?). simplify_eq.
  - intros (?&r&Hr&Hrh&_&Hnl). apply (token_with_hash_eq _ _ _ Hi) in Hr. rw Hrh in Hr. by simplify_eq.
  - exists k, (use_token (o_sqlnow o) token). split_and!; [|done|done|by intros []].
    reflect_bool. rw lookup_insert_ne; [intros ->; by simplify_map_eq|]. rw Hid lookup_alter_eq Hk. done.
  - rw Hfam. simpl. match goal with H : FindUserByID _ _ = Ok _ |- _ => unfold FindUserByID in H end.
    case_match; simplify_eq. done.
Qed.
End system.

Lemma token_with_hash_family d h r : token_with_hash d h = Some r → family_of d h = Some (tr_family_id r).
Proof. unfold family_of. by intros ->. Qed.

(** Once its session has ended, no token of it is accepted again. *)
Lemma ended_refused `{PgLower} d d' h f r d'' : ident_inv d → identity_run d d' → session_ended d f →
  family_of d' h = Some f → presented d' h r d'' → r = Err ErrRefreshTokenInvalid ∧ d'' = d'.
Proof. intros Hi Hr He Hf Hp. eapply Rotate_ended; [done| |done]. by eapply session_ended_run. Qed.

(** The session of a token is over: whenever one of its tokens is presented later, it
    is refused and nothing changes. *)
Definition session_over `{PgLower} (d : IDB) (h : list N) : Prop :=
  ∀ d' h' r d'', identity_run d d' → family_of d' h' = family_of d' h → presented d' h' r d'' →
    r = Err ErrRefreshTokenInvalid ∧ d'' = d'.

Lemma ended_over `{PgLower} d h f : ident_inv d → family_of d h = Some f → session_ended d f → session_over d h.
Proof.
  intros Hi Hf He d' h' r d'' Hr Hf' Hp. eapply ended_refused; [done..| |done]. rw Hf'.
  unfold family_of in Hf. apply fmap_Some in Hf as (t&Ht&->). destruct (token_with_hash_Some _ _ _ Ht) as (k&Hk&<-).
  destruct (identity_run_good _ _ Hr Hi) as [Hi' Hle]. destruct (le_tokens _ _ Hle _ _ Hk) as (t'&Hk'&_&<-&Hh&_).
  rw -Hh. by eapply token_with_hash_family, token_with_hash_eq.
Qed.

(** The transactions of the repository are steps. *)
Lemma transact_discard {A} (m : Tx IDB A) o d r d' :
  transact m o d = (r, d') → ∃ r', transact (discard m) o d = (r', d').
Proof.
  unfold discard, transact, mbind, tx_bind. destruct (m o _) as [[a w]|e]; intros [= <- <-]; eauto.
Qed.

Lemma presented_run `{PgLower} d h r d' : presented d h r d' → identity_run d d'.
Proof.
  intros (o&id&h'&e&[r' Ht]%transact_discard). apply rtc_once. by exists (op_RotateRefreshToken h id h' e), o, r'.
Qed.

Lemma identity_run_inv `{PgLower} d d' : identity_run d d' → ident_inv d → ident_inv d'.
Proof. intros Hr Hi. by apply (identity_run_good _ _ Hr Hi). Qed.

(** Presenting a spent token and logging out both end the session. *)
Lemma spent_presented_over `{PgLower} d h f r d' : ident_inv d → token_spent d h f → presented d h r d' →
  (∀ u, r ≠ Ok (Ok u)) ∧ session_over d' h.
Proof.
  intros Hi Hs Hp. pose proof (identity_run_inv _ _ (presented_run _ _ _ _ Hp) Hi) as Hi'.
  pose proof (token_spent_lookup _ _ _ Hi Hs) as (t&Ht&<-&_). pose proof (token_with_hash_family _ _ _ Ht) as Hf.
  destruct (token_with_hash_Some _ _ _ Ht) as (k&Hk&_). destruct (inv_token_family _ Hi _ _ Hk) as [fam Hfam].
  destruct (decide (fr_revoked_at fam = None)) as [Hn|Hn].
  - assert (¬ session_ended d (tr_family_id t)) as He by (intros (?&?&?); by simplify_eq).
    destruct (Rotate_spent _ _ _ _ _ Hi Hs He Hp) as (->&He'&Htok). split; [done|].
    eapply ended_over; [done| |done]. unfold family_of, token_with_hash in *. by rw Htok.
  - assert (session_ended d (tr_family_id t)) as He by by exists fam.
    destruct (Rotate_ended _ _ _ _ _ Hf He Hp) as [-> ->]. split; [done|]. by eapply ended_over.
Qed.

Lemma logout_over `{PgLower} d h o : ident_inv d → is_Some (token_with_hash d h) →
  ∃ d', transact (RevokeRefreshTokenFamily h) o d = (Ok tt, d') ∧ session_over d' h.
Proof.
  intros Hi [t Ht].
  destruct (transact (RevokeRefreshTokenFamily h) o d) as [r d'] eqn:Hr.
  assert (ident_inv d') as Hi' by by eapply identity_run_inv; [|done]; apply rtc_once; exists (op_RevokeRefreshTokenFamily h), o, r.
  unfold transact, RevokeRefreshTokenFamily, mbind, tx_bind in Hr. simpl in Hr. rw Ht in Hr. injection Hr as <- <-.
  eexists. split; [done|].
  destruct (token_with_hash_Some _ _ _ Ht) as (k&Hk&_). destruct (inv_token_family _ Hi _ _ Hk) as [fam Hfam].
  apply (ended_over _ _ (tr_family_id t)); [done|by apply token_with_hash_family|].
  exists (revoke_family (o_sqlnow o) "logout" fam). simpl. by rw lookup_alter_eq Hfam.
Qed.

(** C23. Refresh tokens are good for one use, and reuse ends the session.  In every
    reachable database: after a token was exchanged, presenting it again, whenever
    that happens, gives no tokens, and from then on no token of that session is
    accepted, the one it was exchanged for included.  A logout with any stored token,
    live or used, succeeds and ends its session in the same way. *)
Theorem refresh_reuse_ends_session `{PgLower} d :
  identity_run empty_idb d →
  (∀ h user d1 d2 r d3, presented d h (Ok (Ok user)) d1 → identity_run d1 d2 → presented d2 h r d3 →
     (∀ u, r ≠ Ok (Ok u)) ∧ session_over d3 h)
  ∧ (∀ h o, is_Some (token_with_hash d h) →
       ∃ d', transact (RevokeRefreshTokenFamily h) o d = (Ok tt, d') ∧ session_over d' h).
Proof.
  intros Hd. pose proof (identity_run_inv _ _ Hd ident_inv_empty) as Hi. split; [|by intros; apply logout_over].
  intros h user d1 d2 r d3 Hp Hr. pose proof (identity_run_inv _ _ (presented_run _ _ _ _ Hp) Hi) as Hi1.
  destruct (Rotate_success _ _ _ _ Hi Hp) as (f&_&_&_&Hs&_). apply (token_spent_run _ _ _ _ Hi1 Hr) in Hs.
  eapply spent_presented_over; [|done]. by eapply identity_run_inv.
Qed.

(** A concrete history: a user, a session with the token [1], exchanged for [2]. *)
Definition ascii_lower : PgLower := {| pg_lower s := string_of_bytes (lower_byte <$> bytes_of s) |}.

Definition at_time (t : time) : Oracle :=
  {| o_uuid n := N.of_nat (7 + n); o_time _ := t; o_sqlnow := t; o_locked _ := false; o_rand _ _ := 0 |}.

Definition example_session : IDB :=
  (transact (CreateRefreshSession 7 20 21 [1%N] 1000) (at_time 10)
    (transact (@CreateUser ascii_lower "a@b.c" "hash" RoleUser DefaultUserScopes) (at_time 10) empty_idb).2).2.

Lemma example_session_run : @identity_run ascii_lower empty_idb example_session.
Proof.
  eapply rtc_l; [|apply rtc_once].
  - by exists (op_CreateUser "a@b.c" "hash" RoleUser DefaultUserScopes), (at_time 10), (Ok tt).
  - by exists (op_CreateRefreshSession 7 20 21 [1%N] 1000), (at_time 10), (Ok tt).
Qed.

Lemma refresh_reuse_ends_session_witness :
  ∃ d1 d3 user, presented example_session [1%N] (Ok (Ok user)) d1
    ∧ presented d1 [1%N] (Ok (Err ErrRefreshTokenReplay)) d3 ∧ @session_over ascii_lower d3 [1%N]
    ∧ ∃ d', transact (RevokeRefreshTokenFamily [1%N]) (at_time 40) example_session = (Ok tt, d')
        ∧ @session_over ascii_lower d' [1%N].
Proof.
  set (d1 := (transact (RotateRefreshToken [1%N] 22 [2%N] 2000) (at_time 20) example_session).2).
  set (d3 := (transact (RotateRefreshToken [1%N] 23 [3%N] 2000) (at_time 30) d1).2).
  set (user := mkUser 7 "a@b.c" "hash" RoleUser DefaultUserScopes None 10 10).
  assert (presented example_session [1%N] (Ok (Ok user)) d1) as H1
    by (exists (at_time 20), 22%N, [2%N], 2000; vm_compute; reflexivity).
  assert (presented d1 [1%N] (Ok (Err ErrRefreshTokenReplay)) d3) as H3
    by (exists (at_time 30), 23%N, [3%N], 2000; vm_compute; reflexivity).
  exists d1, d3, user. split; [exact H1|]. split; [exact H3|].
  destruct (@refresh_reuse_ends_session ascii_lower example_session example_session_run) as [Hreuse Hlogout]. split.
  - by destruct (Hreuse _ _ _ _ _ _ H1 (rtc_refl _ _) H3).
  - apply Hlogout. vm_compute. by eexists.
Defined.
