(* ===== verification/IdentityExamples.v ===== *)
(** Concrete stand-ins for the libraries the identity code uses, to run it on: UUID
    text in its canonical form, tokens that carry their key and claims, addresses
    that contain one [@]. *)

From S2P Require Import Prelude GoStrings Json Queue JobModel Schema Sql Sha256 Upload UploadModel Svc Proc DatasetStore Authz Base64 Passwords Tokens IdentityStore IdentityService IdentityProps.
From stdpp Require Import countable.
From Stdlib Require Import ZifyBool ZifyN.

Open Scope Z_scope.

(** ** UUIDs *)

Definition undash (l : list N) : list N :=
  take 8 l ++ take 4 (drop 9 l) ++ take 4 (drop 14 l) ++ take 4 (drop 19 l) ++ drop 24 l.

Definition hex_fold (l : list N) : option N :=
  foldl (λ acc b, a ← acc; v ← hex_val b; Some (a * 16 + v)%N) (Some 0%N) l.

Definition canonical_uuid (s : string) : option uuid :=
  v ← hex_fold (undash (bytes_of s)); if (v <? 2 ^ 128)%N then Some v else None.

Lemma hex_fold_digits n u : hex_fold (hex_digits n u) = Some (u mod 16 ^ N.of_nat n)%N.
Proof.
  unfold hex_fold. revert u. induction n as [|n IH]; intros u; simpl; [by rw N.mod_1_r|].
  rw foldl_app IH /=. rw hex_val_digit; [by apply N.mod_lt|]. simpl. f_equal.
  rw Nat2N.inj_succ N.pow_succ_r'. rw (N.Div0.mod_mul_r u 16 (16 ^ N.of_nat n)). lia.
Qed.

Lemma undash_dashed d : length d = 32%nat → undash (dashed d) = d.
Proof. intros Hd. do 32 (destruct d as [|? d]; [done|]). destruct d; [reflexivity|done]. Qed.

Lemma canonical_uuid_string u : (u < 2 ^ 128)%N → canonical_uuid (uuid_string u) = Some u.
Proof.
  intros Hu. unfold canonical_uuid, uuid_string. rw bytes_of_string_of; [apply uuid_bytes_lt|].
  unfold uuid_bytes. rw undash_dashed; [apply length_hex_digits|]. rw hex_fold_digits. cbn [mbind option_bind].
  change (16 ^ N.of_nat 32)%N with (2 ^ 128)%N. rw N.mod_small //. by destruct (N.ltb_spec u (2 ^ 128)); [|lia].
Qed.

Lemma canonical_uuid_bound s u : canonical_uuid s = Some u → (u < 2 ^ 128)%N.
Proof.
  unfold canonical_uuid. intros H. apply bind_Some in H as (v&_&H). destruct (N.ltb_spec v (2 ^ 128)); by simplify_eq.
Qed.

Definition canonical_parser : UuidParser :=
  {| uuid_Parse := canonical_uuid; uuid_Parse_String := canonical_uuid_string; uuid_Parse_bound := canonical_uuid_bound |}.

(** ** Tokens *)

Fixpoint bits (p : positive) : list N :=
  match p with xH => [50%N] | xO p => 48%N :: bits p | xI p => 49%N :: bits p end.

Fixpoint of_bits (l : list N) : option positive :=
  match l with
  | [] => None
  | b :: l => if (b =? 50)%N then Some xH else p ← of_bits l; Some (if (b =? 48)%N then xO p else xI p)
  end.

Lemma of_bits_bits p : of_bits (bits p) = Some p.
Proof. induction p as [p IH|p IH|]; simpl; [by rw IH..|done]. Qed.

Lemma bits_bytes p : Forall (λ b, (b < 256)%N) (bits p).
Proof. induction p; simpl; constructor; (done || lia). Qed.

Abbreviation fields := (string * string * string * string * string * option Z * option Z * option Z)%type.

Definition to_fields (key : string) (c : accessClaims) : fields :=
  (key, ac_TokenType c, ac_Issuer c, ac_Subject c, ac_ID c, ac_IssuedAt c, ac_NotBefore c, ac_ExpiresAt c).

Definition toy_sign (key : string) (c : accessClaims) : option string :=
  Some (string_of_bytes (bits (encode (to_fields key c)))).

Definition toy_parse (key issuer : string) (now : time) (s : string) : option accessClaims :=
  p ← of_bits (bytes_of s);
  match decode p : option fields with
  | Some (k, t, i, sub, id, iat, nbf, exp) =>
      if bool_decide (k = key) && bool_decide (i = issuer)
         && match nbf with Some b => b <=? now | None => true end
         && match exp with Some e => now <? e | None => true end
      then Some (mkAccessClaims t i sub id iat nbf exp) else None
  | None => None
  end.

Lemma toy_parse_signed key issuer now c s nbf exp :
  toy_sign key c = Some s → ac_Issuer c = issuer → ac_NotBefore c = Some nbf → ac_ExpiresAt c = Some exp →
  nbf <= now < exp → toy_parse key issuer now s = Some c.
Proof.
  unfold toy_sign, toy_parse. intros [= <-] <- Hn He Hr. rw bytes_of_string_of; [apply bits_bytes|].
  rw of_bits_bits. cbn [mbind option_bind]. rw decode_encode. unfold to_fields. rw Hn He !bool_decide_eq_true_2 //.
  destruct c; simpl in *; simplify_eq. by destruct (Z.leb_spec nbf now), (Z.ltb_spec now exp); try lia.
Qed.

Lemma toy_parse_claims key issuer now c s c' :
  toy_sign key c = Some s → toy_parse key issuer now s = Some c' → c' = c.
Proof.
  unfold toy_sign, toy_parse. intros [= <-]. rw bytes_of_string_of; [apply bits_bytes|].
  rw of_bits_bits. cbn [mbind option_bind]. rw decode_encode. unfold to_fields. case_match; [|done].
  intros [= <-]. by destruct c.
Qed.

Lemma toy_parse_valid key issuer now s c : toy_parse key issuer now s = Some c →
  ac_Issuer c = issuer ∧ (∀ e, ac_ExpiresAt c = Some e → now < e) ∧ (∀ b, ac_NotBefore c = Some b → b <= now).
Proof.
  unfold toy_parse. intros H. apply bind_Some in H as (p&_&H).
  destruct (decode p) as [[[[[[[[k t] i] sub] id] iat] nbf] exp]|]; [|done].
  case_match eqn:E; [|done]. simplify_eq. simpl. reflect_bool. split_and!; [done|..].
  - intros e ->. lia.
  - intros b ->. lia.
Qed.

Lemma toy_sign_nonempty key c s : toy_sign key c = Some s → s ≠ "".
Proof. unfold toy_sign. intros [= <-]. by destruct (encode (to_fields key c)). Qed.

Definition toy_jwt : JWT := {|
  jwt_NewNumericDate t := t - t mod Second;
  jwt_SignedString := toy_sign;
  jwt_ParseWithClaims := toy_parse;
  jwt_signed_nonempty := toy_sign_nonempty;
  jwt_NewNumericDate_trunc t := ltac:(pose proof (Z.mod_pos_bound t Second); unfold Second in *; lia);
  jwt_parse_signed := toy_parse_signed;
  jwt_parse_claims := toy_parse_claims;
  jwt_parse_valid := toy_parse_valid
|}.

(** ** Text *)

Definition ascii_tables : UnicodeTables := {| unicode_ToLower l := l |}.

Definition toy_mail : MailParser :=
  {| mail_ParseAddress s := if contains_any s [64%N] && negb (contains_any s [32; 60; 62]%N) then Some s else None |}.

(** ** A quiet environment *)

(** Fresh identifiers and random bytes from [base] on, a clock that stands still. *)
Definition still (base : N) (t : time) : PEnv IDB := {|
  p_db _ d := d; p_fault _ := NoFault;
  p_oracle n := {| o_uuid k := (base + 100 * N.of_nat n + N.of_nat k)%N; o_time _ := t; o_sqlnow := t;
                   o_locked _ := false; o_rand _ _ := 0 |};
  p_uuid n := (base + 100 * N.of_nat n + 50)%N; p_now _ := t;
  p_random n size := Some (replicate size ((base + N.of_nat n) mod 256)%N)
|}.

Definition example_service : IdentityService :=
  mkIdentityService (NewAccessTokenService "0123456789abcdef0123456789abcdef" (15 * Minute)) (30 * 24 * Hour).
