(* ===== verification/IdentityRequests.v ===== *)
(** What the identity service guarantees to its callers. *)

From S2P Require Import Prelude GoStrings Json Queue JobModel Schema Sql Sha256 Upload UploadModel Svc Proc DatasetStore Authz Base64 Passwords Tokens IdentityStore IdentityService IdentityProps IdentityExamples.

Open Scope Z_scope.

Lemma wrap_err_Ok {A} x (r : res A) a : wrap_err x r = Ok a → r = Ok a.
Proof. by destruct r. Qed.

Section requests.
Context `{UuidParser, JWT, Argon2, UnicodeTables, MailParser, PgLower} (s : IdentityService).

#[local] Instance identity_run_preorder : PreOrder identity_run.
Proof. unfold identity_run. apply _. Qed.

Lemma step_run op o d r d' : transact (run_identity op) o d = (r, d') → identity_run d d'.
Proof. intros Ht. apply rtc_once. by exists op, o, r. Qed.

Lemma discard_run {A} (m : Tx IDB A) op o d r d' :
  run_identity op = discard m → transact m o d = (r, d') → identity_run d d'.
Proof. intros Hop [r' Ht]%transact_discard. apply (step_run op o d r' d'). by rw Hop. Qed.

(** A transaction of a request, after what others did. *)
Lemma tx_run op o e n d r d' : respects identity_run e →
  transact (run_identity op) o (p_db e n d) = (r, d') → identity_run d d'.
Proof. intros He Ht. etrans; [apply He|]. by eapply step_run. Qed.

Lemma tx_discard_run {A} (m : Tx IDB A) op o e n d r d' : respects identity_run e →
  run_identity op = discard m → transact m o (p_db e n d) = (r, d') → identity_run d d'.
Proof. intros He Hop Ht. etrans; [apply He|]. by eapply discard_run. Qed.

(** ** API keys *)

Lemma key_kept d d' k r : ident_inv d → identity_run d d' → i_keys d !! k = Some r →
  ∃ r', i_keys d' !! k = Some r' ∧ key_le r r'.
Proof. intros Hi Hr Hk. exact (le_keys _ _ (proj2 (identity_run_good _ _ Hr Hi)) _ _ Hk). Qed.

(** What the query of an authentication returns. *)
Lemma find_key_ok d prefix hash a : ident_inv d → find_key prefix hash d = Ok a →
  ∃ r u, i_keys d !! kr_id r = Some r ∧ i_users d !! kr_user_id r = Some u ∧ kr_key_hash r = hash
    ∧ kr_revoked_at r = None ∧ ur_disabled_at u = None
    ∧ a = mkAPIKeyAuthentication (key_of_row r) (user_of_row d u) (kr_scopes r).
Proof.
  intros Hi. unfold find_key. destruct (filter _ _) as [|r l] eqn:Ef; [done|].
  assert (r ∈ filter (λ r, kr_key_prefix r = prefix ∧ kr_revoked_at r = None) (rows (i_keys d))) as Hr
    by (rw Ef; left). apply list_elem_of_filter in Hr as [[_ Hrev] (k&Hk)%elem_of_rows].
  destruct (i_users d !! kr_user_id r) as [u|] eqn:Eu; [|done].
  destruct (bool_decide_reflect (ur_disabled_at u ≠ None)) as [|Hd%dec_stable]; [done|].
  destruct (bool_decide_reflect (kr_key_hash r = hash)); [|done]. intros [= <-].
  exists r, u. pose proof (inv_key_id _ Hi _ _ Hk) as ->. done.
Qed.

(** A successful authentication with an API key: the key was not revoked and its
    user not disabled when it was looked up, and the principal has the scopes both
    had then. *)
Lemma AuthenticateAPIKey_ok value e w p w' :
  ident_inv (pw_db w) → respects identity_run e →
  IdentityService_AuthenticateAPIKey s value e w = (SOk p, w') →
  ∃ d r u, identity_run (pw_db w) d ∧ identity_run d (pw_db w')
    ∧ i_keys d !! kr_id r = Some r ∧ i_users d !! kr_user_id r = Some u ∧ kr_key_hash r = HashOpaqueToken value
    ∧ kr_revoked_at r = None ∧ ur_disabled_at u = None
    ∧ p = mkPrincipal (ur_id u) (ur_role u) (intersectScopes (scopes_of d (ur_id u)) (kr_scopes r)) AuthMethodAPIKey.
Proof.
  intros Hi He Hr. unfold IdentityService_AuthenticateAPIKey, AuthenticateAPIKey in Hr. p_inv Hr.
  destruct (APIKeyPrefix value) as [prefix|]; [|done].
  match goal with Ha : (_ ≫= _) e w = _ |- _ => p_inv Ha end.
  pose proof (He (pw_step w) (pw_db w)) as Hrun.
  match goal with Hd : pw_db ?x = p_db e _ _, Hf : find_key _ _ _ = Ok _ |- _ =>
    rw -Hd in Hrun; apply find_key_ok in Hf as (r&u&?&?&?&?&?&->); [|by eapply identity_run_inv] ; exists (pw_db x), r, u end.
  split_and!; try done. by eapply (tx_run (op_update_key_usage _)).
Qed.

Lemma CreateAPIKey_row u n p h l o d key d' : transact (CreateAPIKey u n p h l) o d = (Ok key, d') →
  ∃ r, i_keys d' !! ak_ID key = Some r ∧ kr_user_id r = u ∧ kr_key_hash r = h ∧ kr_scopes r = l.
Proof.
  intros Ht. eapply transact_inv; [exact Ht|]. unfold CreateAPIKey. wp_steps. intros -> ->. simpl.
  eexists. by rw lookup_insert_eq.
Qed.

Lemma NewAPIKey_hash random value prefix hash : NewAPIKey random = Ok (value, prefix, hash) → hash = HashOpaqueToken value.
Proof. unfold NewAPIKey. intros Hn. apply res_bind_Ok in Hn as (v&_&Hn). case_match; [|done]. by simplify_eq. Qed.

(** A successful creation stored the key, with scopes its creator could grant. *)
Lemma CreateAPIKey_ok p name scopes rid e w created w' :
  ident_inv (pw_db w) → respects identity_run e →
  IdentityService_CreateAPIKey s p name scopes rid e w = (SOk created, w') →
  ident_inv (pw_db w') ∧ ValidateGrantableScopes p scopes = Ok tt
  ∧ ∃ k r, i_keys (pw_db w') !! k = Some r ∧ kr_user_id r = UserID p
    ∧ kr_key_hash r = HashOpaqueToken (cak_Plaintext created) ∧ kr_scopes r = scopes.
Proof.
  intros Hi He Hr. unfold IdentityService_CreateAPIKey in Hr. p_inv Hr.
  match goal with Ha : ValidateGrantableScopes _ _ = Ok ?u |- _ => destruct u; rename Ha into Hg end.
  match goal with Ha : NewAPIKey _ = _ |- _ => apply NewAPIKey_hash in Ha as -> end.
  match goal with Ha : recordAudit _ _ _ _ _ _ = (?r, ?w1) |- _ => rename w1 into wa; rename Ha into Haudit; destruct r as [u|l] end.
  2: { p_inv Hr. done. }
  p_inv Hr. unfold recordAudit in Haudit. p_inv Haudit.
  match goal with Ha : transact (CreateAPIKey _ _ _ _ _) _ _ = (Ok ?key, pw_db ?w1) |- _ => rename Ha into Hc; rename key into k; rename w1 into wc end.
  pose proof (tx_discard_run _ (op_CreateAPIKey _ _ _ _ _) _ _ _ _ _ _ He eq_refl Hc) as Rc.
  pose proof (tx_run (op_RecordAudit _) _ _ _ _ _ _ He Haudit) as Ra.
  match goal with Hd : pw_db _ = pw_db w |- _ => rw Hd in Rc end.
  pose proof (identity_run_inv _ _ Rc Hi) as Hc'. apply CreateAPIKey_row in Hc as (r&Hk&Hu&Hh&Hs).
  destruct (key_kept _ _ _ _ Hc' Ra Hk) as (r'&Hk'&_&Hu'&_&Hh'&Hs'&_).
  split; [by eapply identity_run_inv|]. split; [done|]. exists (ak_ID k), r'. simpl. split_and!; congruence.
Qed.

(** The key an authentication finds is the one with the hash of the presented text. *)
Lemma AuthenticateAPIKey_key value e w p w' k r :
  ident_inv (pw_db w) → respects identity_run e → i_keys (pw_db w) !! k = Some r → kr_key_hash r = HashOpaqueToken value →
  IdentityService_AuthenticateAPIKey s value e w = (SOk p, w') →
  kr_revoked_at r = None ∧ UserID p = kr_user_id r ∧ AuthMethod p = AuthMethodAPIKey ∧ ∀ x, x ∈ Scopes p → x ∈ kr_scopes r.
Proof.
  intros Hi He Hk Hh Ha. destruct (AuthenticateAPIKey_ok _ _ _ _ _ Hi He Ha) as (d&r1&u&Hrun&_&Hk1&Hu&Hh1&Hr1&_&->).
  pose proof (identity_run_inv _ _ Hrun Hi) as Hi1.
  destruct (key_kept _ _ _ _ Hi Hrun Hk) as (r'&Hk'&_&Hu'&_&Hh'&Hs'&Ho).
  assert (k = kr_id r1) as -> by exact (inv_key_hash _ Hi1 _ _ _ _ Hk' Hk1 ltac:(congruence)). simplify_eq. simpl.
  split_and!; [|by rw -(inv_user_id _ Hi1 _ _ Hu) in Hu'|done|].
  - apply dec_stable. intros Hn. specialize (Ho Hn). congruence.
  - intros x [? _]%list_elem_of_filter. by rw -Hs'.
Qed.

(** ** Passwords *)

(** [io.ReadFull] fills the buffer or fails; no one interferes and nothing fails. *)
Definition random_ok (e : PEnv IDB) : Prop :=
  ∀ n size l, p_random e n size = Some l → length l = size ∧ Forall (λ b, (b < 256)%N) l.
Definition quiet (e : PEnv IDB) : Prop := (∀ n d, p_db e n d = d) ∧ ∀ n, p_fault e n = NoFault.

Lemma CreateUser_row em h role l o d user d' : ident_inv d → transact (CreateUser em h role l) o d = (Ok user, d') →
  usr_PasswordHash user = h ∧ ∃ r, i_users d' !! usr_ID user = Some r ∧ ur_email r = em.
Proof.
  intros Hi Ht. eapply transact_inv; [exact Ht|]. clear Ht. unfold CreateUser. wp_steps.
  set (I := λ d : IDB, is_Some (i_users d !! u) ∧ ∀ r, i_users d !! u = Some r → ur_email r = em).
  eapply (wp_mono _ _ (λ _ w', I (st w'))).
  - intros _ w' [[r Hr] He]. wp_steps. intros -> ->. split; [done|]. exists r. eauto.
  - apply wp_forM; [|unfold I; simpl; rw lookup_insert_eq; naive_solver].
    intros x w' _ Hw'. unfold insert_scope. wp_steps. wp_if; wp_steps; done.
Qed.

Lemma issueTokenPair_run user e w pair w' : respects identity_run e →
  issueTokenPair s user e w = (SOk pair, w') → identity_run (pw_db w) (pw_db w').
Proof.
  intros He Hp. unfold issueTokenPair in Hp. p_inv Hp.
  match goal with Ht : transact (CreateRefreshSession _ _ _ _ _) _ _ = _ |- _ =>
    apply (tx_run (op_CreateRefreshSession _ _ _ _ _) _ _ _ _ _ _ He) in Ht as Hrun end.
  congruence.
Qed.

(** A registration that returns has stored the user under the normalised address with
    a hash of the password. *)
Lemma Register_ok email password rid e w user pair w' :
  ident_inv (pw_db w) → respects identity_run e → random_ok e →
  IdentityService_Register s email password rid e w = (SOk (user, pair), w') →
  identity_run (pw_db w) (pw_db w') ∧ validateService s = Ok tt
  ∧ ∃ em salt r, normalizeEmail email = Ok em ∧ length salt = 16%nat ∧ Forall (λ b, (b < 256)%N) salt
    ∧ usr_PasswordHash user = formatPasswordHash salt (password_key salt password)
    ∧ i_users (pw_db w') !! usr_ID user = Some r ∧ ur_email r = em.
Proof.
  intros Hi He Hrand Hr. unfold IdentityService_Register in Hr. p_inv Hr. simplify_eq.
  repeat match goal with Hx : wrap_err _ _ = Ok _ |- _ => apply wrap_err_Ok in Hx end.
  match goal with Hx : PasswordHasher_Hash _ _ = Ok _ |- _ => apply Hash_ok in Hx as (salt&Hsalt&Hv&Hhash) end.
  match goal with Hx : transact (CreateUser _ _ _ _) _ _ = _ |- _ => rename Hx into Hc end.
  match goal with Hx : issueTokenPair _ _ _ _ = _ |- _ => apply (issueTokenPair_run _ _ _ _ _ He) in Hx as Rp end.
  match goal with Hx : recordAudit _ _ _ _ _ _ = _ |- _ => unfold recordAudit in Hx; p_inv Hx;
    apply (tx_run (op_RecordAudit _) _ _ _ _ _ _ He) in Hx as Ra end.
  match goal with Hx : pw_db _ = pw_db w |- _ => rw Hx in Hc end.
  pose proof (tx_discard_run _ (op_CreateUser _ _ _ _) _ _ _ _ _ _ He eq_refl Hc) as Rc.
  apply CreateUser_row in Hc as (Hph&r&Hu&Hem); [|by eapply identity_run_inv; [apply He|]].
  pose proof (identity_run_inv _ _ Rc Hi) as Hic. pose proof (transitivity Rp Ra) as Rw.
  destruct (le_users _ _ (proj2 (identity_run_good _ _ Rw Hic)) _ _ Hu) as (r'&Hu'&_&Hem').
  destruct (Hrand _ _ _ Hsalt) as [Hl Hb]. match goal with Hx : validateService s = Ok ?u |- _ => destruct u end.
  split; [by etrans|]. split; [done|]. eexists _, salt, r'. split_and!; try done; congruence.
Qed.

Lemma issueTokenPair_errors user e w l w' : issueTokenPair s user e w = (SErr l, w') → ErrInvalidCredentials ∉ l.
Proof.
  intros Hp. enough (Forall (λ x, x ≠ ErrInvalidCredentials) l) as Hl.
  { intros Hin. rw list.Forall_forall in Hl. by apply (Hl _ Hin). }
  unfold issueTokenPair in Hp.
  apply bind_SErr in Hp as [Hp|(random&w1&_&Hp)]; [done|].
  apply bind_SErr in Hp as [Hp|([tok h]&w2&_&Hp)].
  { unfold p_lift, NewOpaqueToken, randomURLValue in Hp. destruct random; simplify_eq/=. by repeat constructor. }
  do 2 (apply bind_SErr in Hp as [Hp|(?&?&_&Hp)]; [done|]).
  apply bind_SErr in Hp as [Hp|([at_ ex]&w3&_&Hp)].
  { unfold p_lift, AccessTokenService_Issue in Hp. repeat (case_match; simplify_eq/=); by repeat constructor. }
  do 3 (apply bind_SErr in Hp as [Hp|(?&?&_&Hp)]; [done|]).
  apply bind_SErr in Hp as [Hp|(?&?&_&Hp)]; [|done].
  eapply tx_SErr; [exact Hp| |done]. unfold CreateRefreshSession, insert_token. eauto 20 with tx_errors.
Qed.

Lemma recordAudit_errors u a rid m e w l w' : recordAudit u a rid m e w = (SErr l, w') → ErrInvalidCredentials ∉ l.
Proof.
  intros Hp. enough (Forall (λ x, x ≠ ErrInvalidCredentials) l) as Hl.
  { intros Hin. rw list.Forall_forall in Hl. by apply (Hl _ Hin). }
  eapply tx_SErr; [exact Hp| |done]. unfold RecordAudit. eauto 20 with tx_errors.
Qed.

Lemma FindUserByEmail_eq d k r : ident_inv d → i_users d !! k = Some r →
  FindUserByEmail (ur_email r) d = Ok (user_of_row d r).
Proof.
  intros Hi Hk. unfold FindUserByEmail.
  destruct (filter (λ x, ur_email x = ur_email r) (rows (i_users d))) as [|r' l] eqn:Ef.
  - assert (r ∈ filter (λ x, ur_email x = ur_email r) (rows (i_users d))) as Hin
      by (apply list_elem_of_filter; split; [done|apply elem_of_rows; eauto]).
    rw Ef in Hin. by apply elem_of_nil in Hin.
  - assert (r' ∈ filter (λ x, ur_email x = ur_email r) (rows (i_users d))) as Hin by (rw Ef; left).
    apply list_elem_of_filter in Hin as [He (k'&Hk')%elem_of_rows].
    pose proof (inv_email _ Hi _ _ _ _ Hk' Hk He) as ->. by simplify_eq.
Qed.

(** What a login decides, when nothing interferes. *)
Lemma Login_decides email em password rid e d n k r :
  ident_inv d → quiet e → validateService s = Ok tt → normalizeEmail email = Ok em →
  i_users d !! k = Some r → ur_email r = em → ur_disabled_at r = None →
  match VerifyPassword (ur_password_hash r) password with
  | Ok true => ∀ l w', IdentityService_Login s email password rid e (mkPWorld d n) = (SErr l, w') → ErrInvalidCredentials ∉ l
  | _ => ∃ w', IdentityService_Login s email password rid e (mkPWorld d n) = (SErr [ErrInvalidCredentials], w') ∧ pw_db w' = d
  end.
Proof.
  intros Hi [Hdb Hf] Hs Hem Hk <- Hd.
  assert (IdentityService_Login s email password rid e (mkPWorld d n)
    = (_ ← p_require (match VerifyPassword (ur_password_hash r) password with Ok valid => valid | Err _ => false end)
             ErrInvalidCredentials;
       pair ← issueTokenPair s (user_of_row d r);
       _ ← recordAudit (ur_id r) "identity.login" rid JNull;
       mret (user_of_row d r, pair)) e (mkPWorld d (S n))) as ->.
  { unfold IdentityService_Login, mbind at 1 2 3 4 5, proc_bind at 1 2 3 4 5. rw Hs Hem. cbn [wrap_err p_lift sres_of].
    unfold p_try, p_query. cbn [pw_step pw_db]. rw Hf Hdb (FindUserByEmail_eq _ _ _ Hi Hk). cbn [sres_of].
    cbn -[VerifyPassword issueTokenPair recordAudit]. by rw Hd. }
  destruct (VerifyPassword _ _) as [[]|x]; [|eexists; split; reflexivity..].
  intros l w' Hl. apply bind_SErr in Hl as [Hl|(?&?&_&Hl)]; [done|].
  apply bind_SErr in Hl as [Hl|(?&?&_&Hl)]; [by eapply issueTokenPair_errors|].
  apply bind_SErr in Hl as [Hl|(?&?&_&Hl)]; [by eapply recordAudit_errors|done].
Qed.

(** ** Access tokens *)

(** A successful authentication with an access token: the token is one of this
    issuer, in its period at the clock of the request, and its user exists and is not disabled when looked up. *)
Lemma AuthenticateBearer_ok token e w p w' :
  ident_inv (pw_db w) → respects identity_run e → IdentityService_AuthenticateBearer s token e w = (SOk p, w') →
  ∃ r, identity_run (pw_db w) (pw_db w') ∧ i_users (pw_db w') !! UserID p = Some r ∧ ur_disabled_at r = None
    ∧ p = mkPrincipal (ur_id r) (ur_role r) (scopes_of (pw_db w') (ur_id r)) AuthMethodBearer
    ∧ UserID p ≠ uuid_nil ∧ AccessTokenService_Parse (is_AccessTokens s) token (p_now e (pw_step w)) = Ok (UserID p).
Proof.
  intros Hi He Hr. unfold IdentityService_AuthenticateBearer in Hr. p_inv Hr.
  match goal with Hx : wrap_err _ _ = Ok _ |- _ => apply wrap_err_Ok in Hx as Hparse end.
  match goal with Hx : p_query _ _ _ = (?f, _) |- _ => destruct f as [user|l]; [|done]; p_inv Hx; rename Hx into Hq end.
  p_inv Hr. match goal with Hx : bool_decide (usr_DisabledAt _ = None) = true |- _ => apply bool_decide_eq_true in Hx end.
  unfold FindUserByID in Hq. match type of Hq with context [i_users ?d !! ?u] => destruct (i_users d !! u) as [r|] eqn:Eu; [|done] end.
  simplify_eq. match goal with Hx : pw_db ?x = p_db e ?n (pw_db ?y), Hy : pw_db ?y = pw_db w |- _ =>
    assert (identity_run (pw_db w) (pw_db x)) as Hrun by (rw Hx Hy; apply He) end.
  pose proof (inv_user_id _ (identity_run_inv _ _ Hrun Hi) _ _ Eu) as Hid. pose proof (Parse_sound _ _ _ _ Hparse) as (Hnil&_&_).
  exists r. simpl. rw Hid. split_and!; try done. unfold principalForUser, user_of_row. simpl. by rw Hid.
Qed.

Lemma AuthenticateBearer_quiet token e d n u : quiet e → validateService s = Ok tt →
  AccessTokenService_Parse (is_AccessTokens s) token (p_now e n) = Ok u →
  IdentityService_AuthenticateBearer s token e (mkPWorld d n)
  = (match i_users d !! u with
     | Some r => if bool_decide (ur_disabled_at r = None) then SOk (principalForUser (user_of_row d r) AuthMethodBearer)
                 else SErr [ErrInvalidCredentials]
     | None => SErr [ErrInvalidCredentials]
     end, mkPWorld d (S (S n))).
Proof.
  intros [Hdb Hf] Hs Hp. unfold IdentityService_AuthenticateBearer, mbind, proc_bind, p_lift, clock, p_read, p_try, p_query.
  rw Hs. simpl. rw Hp. simpl. rw Hf Hdb. unfold FindUserByID. destruct (i_users d !! u) as [r|]; [|done]. simpl.
  by case_bool_decide.
Qed.
Lemma AuthenticateBearer_refused token e w :
  AccessTokenService_Parse (is_AccessTokens s) token (p_now e (pw_step w)) = Err ErrInvalidAccessToken →
  validateService s = Ok tt →
  (IdentityService_AuthenticateBearer s token e w).1 = SErr [ErrInvalidCredentials].
Proof.
  intros Hp Hs. unfold IdentityService_AuthenticateBearer, mbind, proc_bind, p_lift, clock, p_read. rw Hs. simpl.
  by rw Hp.
Qed.
End requests.

(** C24. An API key is never more than its creator.  A key that was created, whatever
    happened since, authenticates as the user that created it, with no scope that was
    not asked for it and that its creator did not hold when creating it, an
    administrator's key included; and once it has been revoked it never authenticates
    again. *)
Theorem api_key_life `{UuidParser, JWT, Argon2, UnicodeTables, MailParser, PgLower} s p name scopes rid e w created w1 d2 e2 n q w3 :
  identity_run empty_idb (pw_db w) → respects identity_run e → respects identity_run e2 →
  IdentityService_CreateAPIKey s p name scopes rid e w = (SOk created, w1) →
  identity_run (pw_db w1) d2 →
  IdentityService_AuthenticateAPIKey s (cak_Plaintext created) e2 (mkPWorld d2 n) = (SOk q, w3) →
  UserID q = UserID p
  ∧ (∀ scope, HasScope q scope = true → scope ∈ scopes ∧ HasScope p scope = true)
  ∧ ∀ k r, i_keys d2 !! k = Some r → kr_key_hash r = HashOpaqueToken (cak_Plaintext created) → kr_revoked_at r = None.
Proof.
  intros Hw He He2 Hc Hrun Ha. pose proof (identity_run_inv _ _ Hw ident_inv_empty) as Hi.
  destruct (CreateAPIKey_ok _ _ _ _ _ _ _ _ _ Hi He Hc) as (Hi1&Hg&k&r&Hk&Hu&Hh&Hs).
  destruct (key_kept _ _ _ _ Hi1 Hrun Hk) as (r'&Hk'&_&Hu'&_&Hh'&Hs'&_).
  pose proof (identity_run_inv _ _ Hrun Hi1) as Hi2.
  destruct (AuthenticateAPIKey_key s (cak_Plaintext created) e2 (mkPWorld d2 n) q w3 k r' Hi2 He2 Hk' ltac:(congruence) Ha) as (_&Hq&Hm&Hsc).
  split; [congruence|]. split.
  - intros x (_&_&[[_ ?]|Hin])%HasScope_iff; [done|]. apply Hsc in Hin. rw Hs' Hs in Hin.
    split; [done|]. by apply (proj1 (ValidateGrantableScopes_ok _ _) Hg).
  - intros k0 r0 Hk0 Hh0. by apply (AuthenticateAPIKey_key s _ _ (mkPWorld d2 n) _ _ _ _ Hi2 He2 Hk0 Hh0 Ha).
Qed.

(** A login accepts the registered password and no other.  After a registration
    that returned, and as long as the user is neither disabled nor given another
    password, a login under any spelling of the address that normalises to the same
    one is not refused for its credentials when the password is acceptable and has
    the registered key under the stored salt, and is refused for its credentials,
    changing nothing, when it is not. *)
Lemma register_then_login `{UuidParser, JWT, Argon2, UnicodeTables, MailParser, PgLower}
  s email password rid e w user pair w1 d2 r2 email2 password2 rid2 e2 n :
  identity_run empty_idb (pw_db w) → respects identity_run e → random_ok e →
  IdentityService_Register s email password rid e w = (SOk (user, pair), w1) →
  identity_run (pw_db w1) d2 → i_users d2 !! usr_ID user = Some r2 →
  ur_password_hash r2 = usr_PasswordHash user → ur_disabled_at r2 = None →
  quiet e2 → normalizeEmail email2 = normalizeEmail email →
  ∃ salt, length salt = 16%nat ∧
    if is_ok (ValidatePassword password2) && bool_decide (password_key salt password2 = password_key salt password)
    then ∀ l w', IdentityService_Login s email2 password2 rid2 e2 (mkPWorld d2 n) = (SErr l, w') → ErrInvalidCredentials ∉ l
    else ∃ w', IdentityService_Login s email2 password2 rid2 e2 (mkPWorld d2 n) = (SErr [ErrInvalidCredentials], w')
               ∧ pw_db w' = d2.
Proof.
  intros Hw He Hrand Hreg Hrun Hu Hph Hdis Hq Hem. pose proof (identity_run_inv _ _ Hw ident_inv_empty) as Hi.
  destruct (Register_ok s _ _ _ _ _ _ _ _ Hi He Hrand Hreg) as (R1&Hs&em&salt&r&Hem1&Hl&Hb&Hh&Hu1&He1).
  pose proof (identity_run_inv _ _ R1 Hi) as Hi1. pose proof (identity_run_inv _ _ Hrun Hi1) as Hi2. exists salt. split; [done|].
  destruct (le_users _ _ (proj2 (identity_run_good _ _ Hrun Hi1)) _ _ Hu1) as (r'&Hu2&_&He2). simplify_eq.
  pose proof (Login_decides s email2 (ur_email r) password2 rid2 e2 d2 n _ _ Hi2 Hq Hs
    (eq_trans Hem Hem1) Hu He2 Hdis) as Hlogin.
  rw Hph Hh VerifyPassword_formatted // in Hlogin.
  destruct (ValidatePassword password2) as [[]|x]; simpl in *; [|exact Hlogin].
  by destruct (bool_decide (password_key salt password2 = password_key salt password)).
Qed.

#[local] Existing Instances canonical_parser toy_jwt toy_argon2 ascii_tables toy_mail ascii_lower.

Lemma still_quiet base t : quiet (still base t).
Proof. by split. Qed.

Lemma still_respects base t : respects identity_run (still base t).
Proof. intros n d. apply rtc_refl. Qed.

Lemma still_random base t : random_ok (still base t).
Proof.
  intros n size l [= <-]. split; [apply length_replicate|]. apply Forall_replicate. by apply N.mod_lt.
Qed.

Definition example_registration : sres (User * TokenPair) * PWorld IDB :=
  IdentityService_Register example_service " Ada@Example.org" "correct horse" "r1" (still 1000 (Hour)) (mkPWorld empty_idb 0).

Definition example_user : User :=
  match example_registration.1 with SOk (u, _) => u | SErr _ => mkUser 0 "" "" "" [] None 0 0 end.

Lemma example_registered :
  is_ok (match example_registration.1 with SOk _ => Ok tt | SErr _ => Err ErrUserNotFound end) = true
  ∧ (λ r, (ur_password_hash r, ur_disabled_at r)) <$> (i_users (pw_db example_registration.2) !! usr_ID example_user)
    = Some (usr_PasswordHash example_user, None).
Proof. split; vm_compute; reflexivity. Qed.

Lemma register_then_login_witness :
  ∃ user pair w1, example_registration = (SOk (user, pair), w1)
    ∧ ∀ l w', IdentityService_Login example_service "ada@example.org" "correct horse" "r2" (still 9000 (2 * Hour)) (mkPWorld (pw_db w1) 0)
               = (SErr l, w') → ErrInvalidCredentials ∉ l.
Proof.
  destruct example_registered as [Hok Hrow]. unfold example_user in Hrow. fold example_user in Hrow.
  destruct example_registration as [[[user pair]|l] w1] eqn:E; [|discriminate Hok].
  assert (example_user = user) as Eu by (unfold example_user; rw E; reflexivity). rw Eu in Hrow. simpl in Hrow.
  apply fmap_Some in Hrow as (r2&Hr2&[= Hh Hd]). exists user, pair, w1. split; [reflexivity|].
  destruct (register_then_login example_service " Ada@Example.org" "correct horse" "r1" (still 1000 Hour) (mkPWorld empty_idb 0)
    user pair w1 (pw_db w1) r2 "ada@example.org" "correct horse" "r2" (still 9000 (2 * Hour)) 0) as (salt&Hl&Hlogin).
  - apply rtc_refl.
  - apply still_respects.
  - apply still_random.
  - exact E.
  - apply rtc_refl.
  - exact Hr2.
  - symmetry. exact Hh.
  - symmetry. exact Hd.
  - apply still_quiet.
  - vm_compute. reflexivity.
  - rw bool_decide_eq_true_2 // in Hlogin.
Defined.

Lemma example_registration_run : identity_run empty_idb (pw_db example_registration.2).
Proof.
  destruct example_registered as [Hok _]. destruct example_registration as [[[user pair]|l] w1] eqn:E; [|discriminate Hok].
  apply (Register_ok example_service " Ada@Example.org" "correct horse" "r1" (still 1000 Hour) (mkPWorld empty_idb 0) user pair w1
    ident_inv_empty (still_respects _ _) (still_random _ _) E).
Qed.

Definition example_key : sres CreatedAPIKey * PWorld IDB :=
  IdentityService_CreateAPIKey example_service (principalForUser example_user AuthMethodBearer) "ci" [ScopeJobsRead] "r3"
    (still 5000 (2 * Hour)) (mkPWorld (pw_db example_registration.2) 0).

Definition example_key_use : option Principal :=
  match example_key with
  | (SOk created, w) =>
      match (IdentityService_AuthenticateAPIKey example_service (cak_Plaintext created) (still 6000 (3 * Hour)) (mkPWorld (pw_db w) 0)).1 with
      | SOk p => Some p
      | SErr _ => None
      end
  | _ => None
  end.

Lemma example_key_used : (λ p, (HasScope p ScopeJobsRead, HasScope p ScopeJobsWrite)) <$> example_key_use = Some (true, false).
Proof. vm_compute. reflexivity. Qed.

Lemma api_key_life_witness :
  ∃ q, example_key_use = Some q ∧ UserID q = usr_ID example_user ∧ HasScope q ScopeJobsRead = true
    ∧ ScopeJobsRead ∈ [ScopeJobsRead].
Proof.
  pose proof example_key_used as Hu. apply fmap_Some in Hu as (q&Hq&[= Hr _]). exists q. split; [exact Hq|].
  unfold example_key_use in Hq. destruct example_key as [[created|l] w1] eqn:Ek; [|discriminate Hq].
  destruct (IdentityService_AuthenticateAPIKey _ _ _ _) as [[p|l] w3] eqn:Ea; [|discriminate Hq]. injection Hq as ->.
  destruct (api_key_life example_service (principalForUser example_user AuthMethodBearer) "ci" [ScopeJobsRead] "r3"
    (still 5000 (2 * Hour)) (mkPWorld (pw_db example_registration.2) 0) created w1 (pw_db w1) (still 6000 (3 * Hour)) 0 q w3
    example_registration_run (still_respects _ _) (still_respects _ _) Ek (rtc_refl _ _) Ea) as (H1&H2&_).
  split; [exact H1|]. split; [symmetry; exact Hr|]. apply (H2 ScopeJobsRead). symmetry. exact Hr.
Defined.

(** C38. An access token stands for its user as the user is now, until it expires.
    Take a token that a configured service, with an issuer, issued for a user id (of 128
    bits), and any reachable database.  A request
    that presents it between the moment it was issued and a second before the expiry
    announced with it, by the clock the request reads, authenticates as that user with
    the role and the scopes stored at that time, or is refused when the user has been
    disabled or is gone; this when the lookup meets no fault and nothing is committed
    during the request.  A request whose clock reads the expiry or later is refused,
    whatever the database does.  And whatever others commit meanwhile, a bearer token
    that authenticates at all is, at the clock of the request, a valid access token of
    this issuer that is not past its expiry, whose subject is the user authenticated,
    and that user is not disabled and has the role and scopes then stored. *)
Theorem access_token_current `{UuidParser, JWT, Argon2, UnicodeTables, MailParser, PgLower} s u t id token expiresAt e d n :
  identity_run empty_idb d → validateService s = Ok tt → ats_Issuer (is_AccessTokens s) ≠ "" → (u < 2 ^ 128)%N →
  AccessTokenService_Issue (is_AccessTokens s) u t id = Ok (token, expiresAt) →
  (quiet e → t <= p_now e n → p_now e n + Second <= expiresAt →
   IdentityService_AuthenticateBearer s token e (mkPWorld d n)
   = (match i_users d !! u with
      | Some r => if bool_decide (ur_disabled_at r = None)
                  then SOk (mkPrincipal u (ur_role r) (scopes_of d u) AuthMethodBearer) else SErr [ErrInvalidCredentials]
      | None => SErr [ErrInvalidCredentials]
      end, mkPWorld d (S (S n))))
  ∧ (expiresAt <= p_now e n →
     (IdentityService_AuthenticateBearer s token e (mkPWorld d n)).1 = SErr [ErrInvalidCredentials])
  ∧ ∀ other e2 p w', respects identity_run e2 →
      IdentityService_AuthenticateBearer s other e2 (mkPWorld d n) = (SOk p, w') →
      ∃ r claims, i_users (pw_db w') !! UserID p = Some r ∧ ur_disabled_at r = None
        ∧ Role p = ur_role r ∧ Scopes p = scopes_of (pw_db w') (UserID p)
        ∧ jwt_ParseWithClaims (ats_SigningKey (is_AccessTokens s)) (ats_Issuer (is_AccessTokens s)) (p_now e2 n) other = Some claims
        ∧ ac_TokenType claims = "access" ∧ ac_Issuer claims = ats_Issuer (is_AccessTokens s)
        ∧ uuid_Parse (ac_Subject claims) = Some (UserID p)
        ∧ ∀ x, ac_ExpiresAt claims = Some x → p_now e2 n < x.
Proof.
  intros Hd Hs Hiss Hu Hissue. pose proof (identity_run_inv _ _ Hd ident_inv_empty) as Hi. split; [|split].
  - intros Hq Hlo Hhi. rw (AuthenticateBearer_quiet s token e d n u Hq Hs); [by eapply Issue_Parse|].
    destruct (i_users d !! u) as [r|] eqn:Er; [|done]. unfold principalForUser, user_of_row. simpl.
    by rw (inv_user_id _ Hi _ _ Er).
  - intros Hlate. apply AuthenticateBearer_refused; [|done]. by eapply Issue_expired.
  - intros other e2 p w' He2 Ha. destruct (AuthenticateBearer_ok s _ _ (mkPWorld d n) _ _ Hi He2 Ha) as (r&_&Hr&Hdis&Hp&_&Hparse).
    destruct (Parse_sound _ _ _ _ Hparse) as (_&_&claims&Hc&Ht&Hi'&Hsub&Hx). exists r, claims. split; [done|]. split; [done|].
    split; [by rw Hp|]. split; [by rw Hp|]. done.
Qed.

Lemma access_token_current_witness :
  ∃ token expiresAt, AccessTokenService_Issue (is_AccessTokens example_service) (usr_ID example_user) (2 * Hour) 5 = Ok (token, expiresAt)
    ∧ (IdentityService_AuthenticateBearer example_service token (still 3000 (2 * Hour)) (mkPWorld (pw_db example_registration.2) 0)).1
      = SOk (mkPrincipal (usr_ID example_user) RoleUser DefaultUserScopes AuthMethodBearer).
Proof.
  destruct (AccessTokenService_Issue (is_AccessTokens example_service) (usr_ID example_user) (2 * Hour) 5) as [[token expiresAt]|x] eqn:E.
  2: { exfalso. assert (is_ok (AccessTokenService_Issue (is_AccessTokens example_service) (usr_ID example_user) (2 * Hour) 5) = true) as Hx
         by (vm_compute; reflexivity). rw E in Hx. discriminate Hx. }
  exists token, expiresAt. split; [reflexivity|].
  destruct (access_token_current example_service (usr_ID example_user) (2 * Hour) 5 token expiresAt (still 3000 (2 * Hour))
    (pw_db example_registration.2) 0 example_registration_run) as [H _]; [reflexivity|discriminate|vm_compute; reflexivity|exact E|].
  rw H; [apply still_quiet|reflexivity| |].
  - rw (Issue_expiry _ _ _ _ _ _ E). vm_compute. discriminate.
  - vm_compute. reflexivity.
Defined.
