(* ===== verification/JsonDecode.v ===== *)
(** Decoding of JSON into Go structs, as [json.Decoder] does it with
    [DisallowUnknownFields]: what the request bodies of the API and the events of
    workers go through. *)

From S2P Require Import Prelude GoStrings Json GoValue Upload Svc Tokens.
From Stdlib Require Import ZifyBool ZifyN.

Open Scope Z_scope.

(** ** Field names *)

(** [foldName]: names match regardless of case; two runes outside ASCII fold to an
    ASCII letter (U+017F to s, U+212A to k). *)
Fixpoint fold_name (l : list N) : list N :=
  match l with
  | [] => []
  | b :: r =>
      match r with
      | c :: r2 =>
          if (b =? 197)%N && (c =? 191)%N then 115%N :: fold_name r2
          else match r2 with
               | d :: r3 =>
                   if (b =? 226)%N && (c =? 132)%N && (d =? 170)%N then 107%N :: fold_name r3
                   else lower_byte b :: fold_name r
               | [] => lower_byte b :: fold_name r
               end
      | [] => [lower_byte b]
      end
  end.

(** The field a member is for: an exact match first. *)
Definition find_field {A} (fields : list (string * A)) (key : string) : option A :=
  match assoc_first key fields with
  | Some f => Some f
  | None => snd <$> head (filter (λ nf, fold_name (bytes_of nf.1) = fold_name (bytes_of key)) fields)
  end.

(** ** Values

    A decoder of a Go type takes the value a variable has and gives the one it gets;
    a [null] leaves a variable that is not a pointer, slice or map as it is. *)
Definition Dec (A : Type) := json → A → option A.

Definition dec_string : Dec string := λ v old,
  match v with JNull => Some old | JStr s => Some s | _ => None end.

Definition dec_bool : Dec bool := λ v old,
  match v with JNull => Some old | JBool b => Some b | _ => None end.

(** A signed integer of [bits] bits: the text of an integer in its range. *)
Definition dec_int (bits : Z) : Dec Z := λ v old,
  match v with
  | JNull => Some old
  | JNum t => z ← ParseInt t; if (- 2 ^ (bits - 1) <=? z) && (z <? 2 ^ (bits - 1)) then Some z else None
  | _ => None
  end.

(** [uuid.UUID] reads text. *)
Definition dec_uuid `{UuidParser} : Dec uuid := λ v old,
  match v with JNull => Some old | JStr s => uuid_Parse s | _ => None end.

(** A pointer: [null] makes it nil, a value goes where it points. *)
Definition dec_ptr {A} (zero : A) (dec : Dec A) : Dec (option A) := λ v old,
  match v with JNull => Some None | _ => Some <$> dec v (default zero old) end.

(** A slice: [null] makes it nil; elements are read over those the variable has. *)
Fixpoint dec_elements {A} (zero : A) (dec : Dec A) (l : list json) (old : list A) : option (list A) :=
  match l with
  | [] => Some []
  | v :: l => x ← dec v (default zero (head old)); r ← dec_elements zero dec l (tail old); Some (x :: r)
  end.

Definition dec_slice {A} (zero : A) (dec : Dec A) : Dec (option (list A)) := λ v old,
  match v with
  | JNull => Some None
  | JArr l => Some <$> dec_elements zero dec l (default [] old)
  | _ => None
  end.

(** A struct: every member is for a field, and the members are read in their order. *)
Fixpoint dec_members {A} (fields : list (string * Dec A)) (l : list (string * json)) (old : A) : option A :=
  match l with
  | [] => Some old
  | (k, v) :: l => dec ← find_field fields k; x ← dec v old; dec_members fields l x
  end.

Definition dec_struct {A} (fields : list (string * Dec A)) : Dec A := λ v old,
  match v with JNull => Some old | JObj l => dec_members fields l old | _ => None end.

(** A field of a struct. *)
Definition field {A B} (get : A → B) (set : B → A → A) (dec : Dec B) : Dec A := λ v x,
  y ← dec v (get x); Some (set y x).

(** ** [any] and [map[string]any]

    A number becomes a float64; it is kept as the text [json.Marshal] gives for it. *)
Class FloatText := {
  json_float : string → string;
  json_float_value t f : ParseFloat t = Some f → ParseFloat (json_float t) = Some f
}.

(** Setting a key of a map. *)
Fixpoint map_put {A} (k : string) (v : A) (m : list (string * A)) : list (string * A) :=
  match m with
  | [] => [(k, v)]
  | (k', v') :: m => if bool_decide (k = k') then (k, v) :: m else (k', v') :: map_put k v m
  end.

Definition map_puts {A} (l m : list (string * A)) : list (string * A) := foldl (λ m kv, map_put kv.1 kv.2 m) m l.

Fixpoint dec_any `{FloatText} (v : json) : option json :=
  match v with
  | JNum t => if bool_decide (is_Some (ParseFloat t)) then Some (JNum (json_float t)) else None
  | JArr l => JArr <$> mapM dec_any l
  | JObj l => l ← mapM (λ kv, x ← dec_any kv.2; Some (kv.1, x)) l; Some (JObj (map_puts l []))
  | _ => Some v
  end.

Definition dec_map `{FloatText} : Dec (option (list (string * json))) := λ v old,
  match v with
  | JNull => Some None
  | JObj l => l ← mapM (λ kv, x ← dec_any kv.2; Some (kv.1, x)) l; Some (Some (map_puts l (default [] old)))
  | _ => None
  end.

(** ** A body *)

(** The first [Decode] reads a value off the body, the second must find its end.
    [http.MaxBytesReader] ends a body of more than [limit] bytes with an error, and a
    value that is not bracketed is complete only once a further byte or the end of
    the input is seen. *)
Inductive Decoded (A : Type) := DecodeOk (a : A) | DecodeInvalid | DecodeTrailing.
Arguments DecodeOk {A} _.
Arguments DecodeInvalid {A}.
Arguments DecodeTrailing {A}.

Definition bracketed (v : json) : bool := match v with JArr _ | JObj _ => true | _ => false end.

Definition decode_body {A} (limit : Z) (dec : Dec A) (zero : A) (body : Reader) : Decoded A :=
  let broken := (limit <? Z.of_nat (length (rd_bytes body))) || bool_decide (rd_error body ≠ None) in
  let seen := take (Z.to_nat limit) (rd_bytes body) in
  match parse_value (S (2 * length seen)) 0 seen with
  | None => DecodeInvalid
  | Some (v, rest) =>
      if broken && bool_decide (rest = []) && negb (bracketed v) then DecodeInvalid
      else match dec v zero with
           | None => DecodeInvalid
           | Some x => if broken || negb (bool_decide (skip_ws rest = [])) then DecodeTrailing else DecodeOk x
           end
  end.

(** ** Lemmas *)

(** A body with a member for no field is refused. *)
Lemma dec_members_known {A} (fields : list (string * Dec A)) l old x :
  dec_members fields l old = Some x → Forall (λ kv, is_Some (find_field fields kv.1)) l.
Proof.
  revert old. induction l as [|[k v] l IH]; intros old; simpl; [constructor|].
  intros Hd. apply bind_Some in Hd as (d&Hf&Hd). apply bind_Some in Hd as (y&_&Hd). constructor; [by exists d|by eapply IH].
Qed.

(** A body that is accepted is one JSON value of at most [limit] bytes. *)
Lemma decode_body_Ok {A} limit (dec : Dec A) zero body x : decode_body limit dec zero body = DecodeOk x →
  Z.of_nat (length (rd_bytes body)) <= limit ∧ ∃ v, json_parse (rd_bytes body) = Some v ∧ dec v zero = Some x.
Proof.
  unfold decode_body. intros Hd. repeat case_match; try done. simplify_eq. reflect_bool. destruct_and?.
  assert (Hl : Z.of_nat (length (rd_bytes body)) <= limit) by lia.
  rw (take_ge (rd_bytes body)) in H; [lia|]. split; [done|]. eexists. split; [|done].
  unfold json_parse. rw H. simpl. by case_match.
Qed.

Lemma decode_body_parse {A} limit (dec : Dec A) zero bytes v x :
  Z.of_nat (length bytes) <= limit → json_parse bytes = Some v → dec v zero = Some x →
  decode_body limit dec zero (mkReader bytes None) = DecodeOk x.
Proof.
  unfold decode_body, json_parse. intros Hl Hp Hd. cbn [rd_bytes rd_error]. rw (take_ge bytes); [lia|].
  apply bind_Some in Hp as ([w r]&->&Hr). case_match eqn:E; simplify_eq.
  replace (limit <? Z.of_nat (length bytes)) with false by lia. simpl. by rw Hd.
Qed.
