(* ===== verification/GoFloat.v ===== *)
(** float64 arithmetic: the exact result of an operation on finite numbers, rounded.
    The value of a float is a rational number; sums and products are off by at most
    one part in 2^53, and a number of at least one is decremented exactly. *)

From S2P Require Import Prelude GoStrings Json GoValue.
From Stdlib Require Import QArith Qpower Lqa Qround ZifyBool ZifyN.

Open Scope Z_scope.

(** ** Operations *)

Definition fneg (f : float64) : float64 :=
  match f with FNaN => FNaN | FInf a => FInf (negb a) | FFin a m e => FFin (negb a) m e end.

Definition fadd (f g : float64) : float64 :=
  match f, g with
  | FNaN, _ | _, FNaN => FNaN
  | FInf a, FInf b => if Bool.eqb a b then FInf a else FNaN
  | FInf a, FFin _ _ _ => FInf a
  | FFin _ _ _, FInf b => FInf b
  | FFin a m e, FFin b n k =>
      let low := Z.min e k in
      let s := at_exponent low a m e + at_exponent low b n k in
      if s =? 0 then FFin (a && b) 0 0 else round64 (s <? 0) (Z.abs_N s * pow2 low) (pow2 (- low))
  end.

Definition fsub (f g : float64) : float64 := fadd f (fneg g).

Definition is_fzero (f : float64) : bool := match f with FFin _ m _ => (m =? 0)%N | _ => false end.
Definition fsign (f : float64) : bool := match f with FNaN => false | FInf a => a | FFin a _ _ => a end.

Definition fmul (f g : float64) : float64 :=
  let neg := xorb (fsign f) (fsign g) in
  match f, g with
  | FNaN, _ | _, FNaN => FNaN
  | FInf _, g => if is_fzero g then FNaN else FInf neg
  | f, FInf _ => if is_fzero f then FNaN else FInf neg
  | FFin _ m e, FFin _ n k => round64 neg (m * n * pow2 (e + k)) (pow2 (- (e + k)))
  end.

Definition fdiv (f g : float64) : float64 :=
  let neg := xorb (fsign f) (fsign g) in
  match f, g with
  | FNaN, _ | _, FNaN => FNaN
  | FInf _, FInf _ => FNaN
  | FInf _, _ => FInf neg
  | _, FInf _ => FFin neg 0 0
  | FFin _ m e, FFin _ n k =>
      if (n =? 0)%N then (if (m =? 0)%N then FNaN else FInf neg)
      else round64 neg (m * pow2 (e - k)) (n * pow2 (k - e))
  end.

(** [math.Min]: a negative infinity, then NaN, then the smaller one; of two zeros a
    negative one. *)
Definition fmin (f g : float64) : float64 :=
  match f, g with
  | FInf true, _ | _, FInf true => FInf true
  | FNaN, _ | _, FNaN => FNaN
  | _, _ => if is_fzero f && is_fzero g then (if fsign f then f else g) else if flt f g then f else g
  end.

(** [math.Ceil]; a result of zero keeps the sign. *)
Definition fceil (f : float64) : float64 :=
  match f with
  | FFin a m e =>
      if integral f then f
      else let t := (m * pow2 e / pow2 (- e))%N in FFin a (if a then t else t + 1)%N 0
  | _ => f
  end.

Definition fge (f g : float64) : bool := bool_decide (fcompare f g = Some Gt ∨ fcompare f g = Some Eq).

(** [Duration.Seconds]. *)
Definition Seconds (d : duration) : float64 :=
  fadd (float64_of_Z (Z.quot d Second)) (fdiv (float64_of_Z (Z.rem d Second)) (float64_of_Z 1000000000)).

Example fadd_tenths : feq (fadd (round64 false 1 10) (round64 false 2 10)) (FFin false 5404319552844596 (-54)) = true.
Proof. by vm_compute. Qed.

Example fmul_tenth : feq (fmul (round64 false 1 10) (float64_of_Z 10)) (float64_of_Z 1) = true.
Proof. by vm_compute. Qed.

Example fsub_tenths : feq (fsub (float64_of_Z 1) (round64 false 9 10)) (FFin false 7205759403792792 (-56)) = true.
Proof. by vm_compute. Qed.

Example Seconds_milli : feq (Seconds 1500000000) (FFin false 3 (-1)) = true.
Proof. by vm_compute. Qed.

(** ** Values *)

Definition fval (f : float64) : Q :=
  match f with FFin a m e => (inject_Z (signed a m) * Qpower 2 e)%Q | _ => 0%Q end.

Lemma q2_pos e : (0 < Qpower 2 e)%Q.
Proof. by apply Qpower_0_lt. Qed.

Lemma q2_add a b : (Qpower 2 (a + b) == Qpower 2 a * Qpower 2 b)%Q.
Proof. by apply Qpower_plus. Qed.

Lemma q2_neg e : (Qpower 2 e * Qpower 2 (- e) == 1)%Q.
Proof. rw -q2_add. by replace (e + - e) with 0 by lia. Qed.

Lemma q2_cancel x e : (x * Qpower 2 (- e) * Qpower 2 e == x)%Q.
Proof. rw -Qmult_assoc (Qmult_comm (Qpower 2 (- e))) q2_neg. ring. Qed.

Lemma q2_pow2 e : 0 <= e → (inject_Z (Z.of_N (pow2 e)) == Qpower 2 e)%Q.
Proof.
  intros He. unfold pow2. rw N2Z.inj_pow Z2N.id //. by rw (Zpower_Qpower 2 e He).
Qed.

(** Both parts of a fraction of powers. *)
Lemma q2_ratio e : (inject_Z (Z.of_N (pow2 e)) == Qpower 2 e * inject_Z (Z.of_N (pow2 (- e))))%Q.
Proof.
  destruct (Z_le_gt_dec 0 e).
  - rw (pow2_neg (- e)); [lia|]. rw q2_pow2; [lia|]. ring.
  - rw (pow2_neg e); [lia|]. rw (q2_pow2 (- e)); [lia|]. by rw q2_neg.
Qed.

Lemma fval_at low a m e : low <= e → (fval (FFin a m e) == inject_Z (at_exponent low a m e) * Qpower 2 low)%Q.
Proof.
  intros Hl. unfold fval, at_exponent. rw signed_mul inject_Z_mult. rw q2_pow2; [lia|].
  rw -Qmult_assoc -q2_add. by replace (e - low + low) with e by lia.
Qed.

Lemma fcompare_fval a m e b n k :
  fcompare (FFin a m e) (FFin b n k) = Some (Qcompare (fval (FFin a m e)) (fval (FFin b n k))).
Proof.
  cbn [fcompare]. f_equal. set (low := Z.min e k).
  pose proof (fval_at low a m e ltac:(lia)) as E1. pose proof (fval_at low b n k ltac:(lia)) as E2.
  rw E1 E2. pose proof (q2_pos low) as Hp.
  destruct (Z.compare_spec (at_exponent low a m e) (at_exponent low b n k)) as [->|Hlt|Hlt]; symmetry.
  - by apply Qeq_alt.
  - apply Qlt_alt. apply Qmult_lt_r; [done|]. by rw -Zlt_Qlt.
  - apply Qgt_alt. apply Qmult_lt_r; [done|]. by rw -Zlt_Qlt.
Qed.

(** ** Rounding *)

(** The exponent leaves at most 53 bits. *)
Lemma pow2_mono a b : a <= b → (pow2 a <= pow2 b)%N.
Proof. intros. unfold pow2. apply N.pow_le_mono_r; lia. Qed.

Lemma pow2_succ e : 0 <= e → pow2 (e + 1) = (2 * pow2 e)%N.
Proof. intros. rw pow2_add; [lia..|]. change (pow2 1) with 2%N. lia. Qed.

Lemma scaled_small num den : num ≠ 0%N → den ≠ 0%N →
  let e0 := Z.of_N (N.log2 num) - Z.of_N (N.log2 den) - 52 in
  let below := (num * pow2 (- e0) <? den * pow2 e0 * 2 ^ 52)%N in
  ∀ e, (if below then e0 - 1 else e0) <= e → (num * pow2 (- e) <= 2 ^ 53 * (den * pow2 e))%N.
Proof.
  intros Hn Hd e0 below e He. set (e1 := if below then e0 - 1 else e0) in *.
  assert (num * pow2 (- e1) <= 2 ^ 53 * (den * pow2 e1))%N as H1.
  { unfold e1. destruct below eqn:Hb.
    - apply N.ltb_lt in Hb. destruct (Z_le_gt_dec 1 e0).
      + rw (pow2_neg (- e0)) in Hb; [lia|]. rw (pow2_neg (- (e0 - 1))); [lia|].
        replace e0 with (e0 - 1 + 1) in Hb by lia. rw pow2_succ in Hb; [lia|]. nia.
      + rw (pow2_neg e0) in Hb; [lia|]. rw (pow2_neg (e0 - 1)); [lia|].
        replace (- (e0 - 1)) with (- e0 + 1) by lia. rw pow2_succ; [lia|]. nia.
    - pose proof (pow2_log2 num Hn) as [_ Hln]. pose proof (pow2_log2 den Hd) as [Hld _].
      destruct (Z_le_gt_dec 0 e0).
      + rw (pow2_neg (- e0)); [lia|]. assert (2 * 2 ^ N.log2 num = 2 ^ 53 * 2 ^ N.log2 den * pow2 e0)%N as El.
        { unfold pow2. rw -N.pow_succ_r' -!N.pow_add_r. f_equal. lia. }
        pose proof (pow2_pos e0). nia.
      + rw (pow2_neg e0); [lia|]. assert (2 * 2 ^ N.log2 num * pow2 (- e0) = 2 ^ 53 * 2 ^ N.log2 den)%N as El.
        { unfold pow2. rw -N.pow_succ_r' -!N.pow_add_r. f_equal. lia. }
        pose proof (pow2_pos (- e0)). nia. }
  pose proof (pow2_mono (- e) (- e1) ltac:(lia)). pose proof (pow2_mono e1 e He). nia.
Qed.

(** [round64] with the exponent it picks: the quotient is within one half of the
    scaled fraction, which is at least 2^52 unless the number is subnormal. *)
Lemma round64_quotient neg num den : num ≠ 0%N → den ≠ 0%N → ∃ q e,
  let n := Z.of_N (num * pow2 (- e)) in let d := Z.of_N (den * pow2 e) in
  round64 neg num den = (if (0 <=? e) && (2 ^ 1024 <=? q * pow2 e)%N then FInf neg else FFin neg q e)
  ∧ -1074 <= e ∧ (q <= 2 ^ 53)%N ∧ 2 * Z.abs (Z.of_N q * d - n) <= d ∧ (n mod d = 0 → Z.of_N q * d = n) ∧ (e = -1074 ∨ 2 ^ 52 * d <= n).
Proof.
  intros Hn Hd. unfold round64. rw (proj2 (N.eqb_neq num 0)); [done|]. cbn zeta.
  set (e0 := _ - _ - 52). set (below := N.ltb _ _). set (e := Z.max _ _).
  set (n := (num * pow2 (- e))%N). set (d := (den * pow2 e)%N).
  assert (Hdp : (0 < d)%N) by (unfold d; pose proof (pow2_pos e); nia).
  set (up := if _ then N.odd _ else _). set (q := if up then _ else _).
  exists q, e. split; [done|]. split; [lia|]. fold n d.
  pose proof (N.div_mod n d ltac:(lia)) as Edm. pose proof (N.mod_lt n d ltac:(lia)) as Hlt.
  assert (Hup : if up then (d <= 2 * (n mod d))%N else (2 * (n mod d) <= d)%N).
  { unfold up. destruct (N.eqb_spec (2 * (n mod d)) d); [destruct (N.odd _); lia|].
    destruct (N.ltb_spec d (2 * (n mod d))); lia. }
  assert (Hq : 2 * Z.abs (Z.of_N q * Z.of_N d - Z.of_N n) <= Z.of_N d) by (unfold q; destruct up; nia).
  split; [|split; [done|split]].
  - pose proof (scaled_small num den Hn Hd e ltac:(unfold e, below, e0; lia)) as Hs. fold n d in Hs. nia.
  - intros Hm. assert (n mod d = 0)%N as Hm' by (rw -N2Z.inj_mod in Hm; lia).
    unfold q, up. rw Hm' N.mul_0_r. rw (proj2 (N.eqb_neq 0 d)); [lia|]. rw (proj2 (N.ltb_ge d 0)); [lia|]. nia.
  - destruct (Z.eq_dec e (-1074)) as [|He]; [by left|right]. unfold n, d.
    assert (He' : e = if below then e0 - 1 else e0) by lia. rw He'. destruct below eqn:Hb.
    + pose proof (pow2_log2 num Hn) as [Hln _]. pose proof (pow2_log2 den Hd) as [_ Hld].
      assert (2 ^ 52 * (den * pow2 (e0 - 1)) <= num * pow2 (- (e0 - 1)))%N; [|lia].
      destruct (Z_le_gt_dec 1 e0) as [H1|H1].
      * rw (pow2_neg (- (e0 - 1))); [lia|]. assert (2 ^ N.log2 num = 2 ^ 52 * (2 * 2 ^ N.log2 den) * pow2 (e0 - 1))%N as El.
        { unfold pow2. rw -N.pow_succ_r' -!N.pow_add_r. f_equal. lia. }
        pose proof (pow2_pos (e0 - 1)). nia.
      * rw (pow2_neg (e0 - 1)); [lia|]. assert (2 ^ N.log2 num * pow2 (- (e0 - 1)) = 2 ^ 52 * (2 * 2 ^ N.log2 den))%N as El.
        { unfold pow2. rw -N.pow_succ_r' -!N.pow_add_r. f_equal. lia. }
        pose proof (pow2_pos (- (e0 - 1))). nia.
    + apply N.ltb_ge in Hb. lia.
Qed.

Abbreviation ulp := (Qpower 2 (-53)).

(** The scaled fraction is the fraction over a power of two. *)
Lemma scaled_fraction num den e : den ≠ 0%N →
  (inject_Z (Z.of_N (num * pow2 (- e))) / inject_Z (Z.of_N (den * pow2 e))
   == inject_Z (Z.of_N num) / inject_Z (Z.of_N den) * Qpower 2 (- e))%Q.
Proof.
  intros Hd. rw !N2Z.inj_mul !inject_Z_mult (q2_ratio e).
  pose proof (pow2_pos (- e)). pose proof (q2_pos e). pose proof (q2_neg e) as E.
  assert (~ inject_Z (Z.of_N den) == 0)%Q by (change 0%Q with (inject_Z 0); rw inject_Z_injective; lia).
  assert (~ inject_Z (Z.of_N (pow2 (- e))) == 0)%Q by (change 0%Q with (inject_Z 0); rw inject_Z_injective; lia).
  assert (Qpower 2 (- e) == / Qpower 2 e)%Q as ->; [by rw Qpower_opp|]. field. repeat split; try done. lra.
Qed.

Lemma inject_pos n : (n ≠ 0)%N → (0 < inject_Z (Z.of_N n))%Q.
Proof. intros. change 0%Q with (inject_Z 0). rw -Zlt_Qlt. lia. Qed.

(** The error of rounding [x = num / den]. *)
Lemma round64_error neg num den : num ≠ 0%N → den ≠ 0%N → ∃ q e,
  let x := (inject_Z (Z.of_N num) / inject_Z (Z.of_N den))%Q in let y := (inject_Z (Z.of_N q) * Qpower 2 e)%Q in
  round64 neg num den = (if (0 <=? e) && (2 ^ 1024 <=? q * pow2 e)%N then FInf neg else FFin neg q e)
  ∧ -1074 <= e ∧ (q <= 2 ^ 53)%N ∧ (e ≠ -1074 ∨ (Qpower 2 (-1022) <= x)%Q → (x * (1 - ulp) <= y /\ y <= x * (1 + ulp))%Q)
  ∧ (∀ s low, (x == inject_Z s * Qpower 2 low)%Q → -1074 <= low → s < 2 ^ 53 → (y == x)%Q).
Proof.
  intros Hn Hd. destruct (round64_quotient neg num den Hn Hd) as (q&e&Er&He&Hq53&Hh&Hx&Hs). exists q, e. cbn zeta.
  set (x := (_ / _)%Q). pose proof (scaled_fraction num den e Hd) as Ef. fold x in Ef.
  set (n := Z.of_N (num * pow2 (- e))) in *. set (d := Z.of_N (den * pow2 e)) in *.
  assert (Hdp : 0 < d) by (unfold d; pose proof (pow2_pos e); nia). set (f := (inject_Z n / inject_Z d)%Q) in *.
  assert (Hdq : (0 < inject_Z d)%Q) by (change 0%Q with (inject_Z 0); by rw -Zlt_Qlt).
  assert (Enf : (inject_Z n == f * inject_Z d)%Q) by (unfold f; field; lra).
  assert (Exf : (x == f * Qpower 2 e)%Q) by (rw Ef; by rw q2_cancel).
  pose proof (q2_pos e) as Hp.
  split; [done|]. split; [done|]. split; [done|]. split.
  - intros Hnorm. assert (H52 : (inject_Z (2 ^ 52) <= f)%Q).
    { destruct Hs as [->|Hs].
      - destruct Hnorm as [|Hnorm]; [done|]. rw Ef. apply (Qle_trans _ (Qpower 2 (-1022) * Qpower 2 (- -1074))); [by vm_compute|]. by apply Qmult_le_compat_r; [|vm_compute].
      - apply Qle_shift_div_l; [done|]. by rw -inject_Z_mult -Zle_Qle. }
    assert (Hq : (2 * (inject_Z (Z.of_N q) * inject_Z d) <= (2 * f + 1) * inject_Z d /\
                  (2 * f - 1) * inject_Z d <= 2 * (inject_Z (Z.of_N q) * inject_Z d))%Q).
    { assert (2 * (Z.of_N q * d) <= 2 * n + d ∧ 2 * n - d <= 2 * (Z.of_N q * d)) as [H1 H2] by lia.
      rw Zle_Qle !inject_Z_plus !inject_Z_mult in H1. rw Zle_Qle /Z.sub !inject_Z_plus inject_Z_opp !inject_Z_mult in H2.
      change (inject_Z 2) with 2%Q in *. split; lra. }
    assert (Hq' : (2 * inject_Z (Z.of_N q) <= 2 * f + 1 /\ 2 * f - 1 <= 2 * inject_Z (Z.of_N q))%Q) by (split; nra).
    assert (Hu : (1 <= f * (2 * ulp))%Q).
    { apply (Qle_trans _ (inject_Z (2 ^ 52) * (2 * ulp))); [by vm_compute|]. by apply Qmult_le_compat_r; [|vm_compute]. }
    rw Exf. split; nra.
  - intros s low Es Hlow Hsm. destruct (Z_le_gt_dec e low) as [Hle|Hgt].
    + assert (Efs : (f == inject_Z (s * 2 ^ (low - e)))%Q).
      { rw Ef Es inject_Z_mult Zpower_Qpower; [lia|]. change (inject_Z 2) with 2%Q.
        rw -Qmult_assoc -q2_add. by replace (low + - e) with (low - e) by lia. }
      assert (n = s * 2 ^ (low - e) * d) as En.
      { apply inject_Z_injective. rw inject_Z_mult -Efs. exact Enf. }
      assert (Hq : Z.of_N q * d = n) by (apply Hx; rw En; by apply Z_mod_mult).
      assert (Z.of_N q = s * 2 ^ (low - e)) as Eq by nia. rw Eq -Efs Exf. reflexivity.
    + destruct Hs as [Hs|Hs]; [lia|].
      assert (H52 : (inject_Z (2 ^ 52) <= f)%Q) by (apply Qle_shift_div_l; [done|]; by rw -inject_Z_mult -Zle_Qle).
      assert (Efs : (f * inject_Z (2 ^ (e - low)) == inject_Z s)%Q).
      { rw Ef Es Zpower_Qpower; [lia|]. change (inject_Z 2) with 2%Q. rw -!Qmult_assoc -!q2_add.
        replace (low + (- e + (e - low))) with 0 by lia. change (Qpower 2 0) with 1%Q. ring. }
      assert (2 <= 2 ^ (e - low)) by (transitivity (2 ^ 1); [done|apply Z.pow_le_mono_r; lia]).
      assert (inject_Z (2 ^ 52) * inject_Z (2 ^ (e - low)) <= inject_Z s)%Q as Hc.
      { rw -Efs. apply Qmult_le_compat_r; [done|]. change 0%Q with (inject_Z 0). rw -Zle_Qle. lia. }
      rw -inject_Z_mult -Zle_Qle in Hc. nia.
Qed.

(** ** Operations on numbers that are not negative *)

Definition fnonneg (f : float64) : Prop :=
  match f with FFin false m e => (m <= 2 ^ 53)%N ∧ -1074 <= e | _ => False end.

(** The result of an operation whose exact result is [x]: within one part in 2^53 of
    it, unless that is too small, and finite, unless that is too large. *)
Definition normal (x : Q) : Prop := (x == 0 \/ Qpower 2 (-1022) <= x)%Q.
Definition rounds_to (f : float64) (x : Q) : Prop :=
  (f = FInf false ∧ Qpower 2 1000 < x)%Q
  ∨ fnonneg f ∧ (normal x → x * (1 - ulp) <= fval f /\ fval f <= x * (1 + ulp))%Q.

#[export] Instance rounds_to_proper : Proper (eq ==> Qeq ==> iff) rounds_to.
Proof. intros f _ <- x y E. unfold rounds_to, normal. by setoid_rewrite E. Qed.

Lemma fval_nonneg f : fnonneg f → (0 <= fval f)%Q.
Proof.
  destruct f as [| |[] m e]; [done..|]. intros _. apply Qmult_le_0_compat; [|pose proof (q2_pos e); lra].
  change 0%Q with (inject_Z 0). rw -Zle_Qle. simpl. lia.
Qed.

Lemma round64_to num den x : den ≠ 0%N → (inject_Z (Z.of_N num) / inject_Z (Z.of_N den) == x)%Q →
  rounds_to (round64 false num den) x.
Proof.
  intros Hd Hv. destruct (N.eq_dec num 0%N) as [->|Hn].
  { right. split; [done|]. intros _. assert (x == 0)%Q as ->; [|by vm_compute].
    rw -Hv. change (inject_Z (Z.of_N 0%N)) with 0%Q. unfold Qdiv. ring. }
  destruct (round64_error false num den Hn Hd) as (q&e&->&He&Hq&Hb&_). cbn zeta in Hb.
  assert (0 < x)%Q as Hx.
  { rw -Hv. apply Qlt_shift_div_l; [by apply inject_pos|]. rw Qmult_0_l. by apply inject_pos. }
  case_match eqn:Eo; [left|right]; (split; [done|]); [|intros [Hz|Hz]; [lra|rw -Hv; apply Hb; right; by rw Hv]].
  apply andb_true_iff in Eo as [Ho1 Ho2]. apply N.leb_le in Ho2. apply Qnot_le_lt. intros Hle.
  destruct Hb as [_ Hb]; [left; lia|]. rw Hv in Hb.
  assert (inject_Z (2 ^ 1024) <= inject_Z (Z.of_N q) * Qpower 2 e)%Q as Hc.
  { rw -q2_pow2; [lia|]. rw -inject_Z_mult -Zle_Qle. lia. }
  assert (x * (1 + ulp) <= Qpower 2 1000 * (1 + ulp))%Q as Hc2 by (apply Qmult_le_compat_r; [done|by vm_compute]).
  assert (Qpower 2 1000 * (1 + ulp) < inject_Z (2 ^ 1024))%Q as Hc3 by by vm_compute. lra.
Qed.

Lemma abs_N_sum a b : 0 <= a → 0 <= b → Z.of_N (Z.abs_N (a + b)) = a + b.
Proof. lia. Qed.

Lemma at_exponent_nonneg low m e : 0 <= at_exponent low false m e.
Proof. unfold at_exponent, signed. lia. Qed.

(** A fraction of powers of two. *)
Lemma q2_fraction s low :
  (inject_Z (Z.of_N (s * pow2 low)) / inject_Z (Z.of_N (pow2 (- low))) == inject_Z (Z.of_N s) * Qpower 2 low)%Q.
Proof.
  rw N2Z.inj_mul inject_Z_mult (q2_ratio low). pose proof (pow2_pos (- low)) as Hp.
  pose proof (inject_pos (pow2 (- low)) ltac:(lia)). field. lra.
Qed.

Lemma fmul_to f g : fnonneg f → fnonneg g → rounds_to (fmul f g) (fval f * fval g).
Proof.
  destruct f as [| |[] m e]; [done..|]. destruct g as [| |[] n k]; [done..|]. intros Hf Hg.
  cbn [fmul fsign xorb]. apply round64_to; [pose proof (pow2_pos (- (e + k))); lia|].
  rw q2_fraction N2Z.inj_mul inject_Z_mult q2_add. cbn [fval signed]. ring.
Qed.

Lemma fdiv_to f g : fnonneg f → fnonneg g → (0 < fval g)%Q → rounds_to (fdiv f g) (fval f / fval g).
Proof.
  destruct f as [| |[] m e]; [done..|]. destruct g as [| |[] n k]; [done..|]. intros Hf Hg Hpos.
  assert (Hn : n ≠ 0%N) by (intros ->; cbn [fval signed] in Hpos; change (inject_Z (Z.of_N 0%N)) with 0%Q in Hpos; lra).
  cbn [fdiv fsign xorb]. rw (proj2 (N.eqb_neq n 0) Hn). pose proof (pow2_pos (k - e)) as Hp.
  apply round64_to; [nia|]. rw !N2Z.inj_mul !inject_Z_mult (q2_ratio (e - k)).
  replace (- (e - k)) with (k - e) by lia. cbn [fval signed].
  pose proof (inject_pos n Hn). pose proof (inject_pos (pow2 (k - e)) ltac:(lia)). pose proof (q2_pos k). pose proof (q2_pos e).
  assert (Qpower 2 e == Qpower 2 (e - k) * Qpower 2 k)%Q as E by (rw -q2_add; by replace (e - k + k) with e by lia).
  rw E. field. repeat split; lra.
Qed.

Lemma fcompare_nonneg f g : fnonneg f → fnonneg g → fcompare f g = Some (Qcompare (fval f) (fval g)).
Proof. destruct f as [| |[] m e]; [done..|]. destruct g as [| |[] n k]; [done..|]. intros _ _. apply fcompare_fval. Qed.

Lemma fge_nonneg f g : fnonneg f → fnonneg g → fge f g = true ↔ (fval g <= fval f)%Q.
Proof.
  intros Hf Hg. unfold fge. rw fcompare_nonneg // bool_decide_eq_true.
  destruct (Qcompare_spec (fval f) (fval g)); (split; [intros [?|?]; simplify_eq; lra|]); intros; auto. lra.
Qed.

Lemma fmin_nonneg f g : fnonneg f → g = FInf false ∨ fnonneg g →
  fnonneg (fmin f g) ∧ (fval (fmin f g) <= fval f)%Q ∧ (fnonneg g → (fval (fmin f g) <= fval g)%Q).
Proof.
  intros Hf [->|Hg].
  { destruct f as [| |[] m e]; [done..|]. cbn [fmin is_fzero flt fcompare]. rw andb_false_r. simpl. split; [done|]. split; [lra|done]. }
  pose proof (fcompare_nonneg f g Hf Hg) as Hc.
  assert (fmin f g = f ∧ (fval f <= fval g)%Q ∨ fmin f g = g ∧ (fval g <= fval f)%Q) as [[-> ?]|[-> ?]]; [|split; [done|split; [lra|intros; lra]]..].
  destruct f as [| |[] m e]; [done..|]. destruct g as [| |[] n k]; [done..|]. cbn [fmin fsign is_fzero].
  destruct ((m =? 0)%N && (n =? 0)%N) eqn:Ez.
  - right. split; [done|]. apply andb_true_iff in Ez as [->%N.eqb_eq ->%N.eqb_eq]. cbn [fval signed].
    change (inject_Z (Z.of_N 0%N)) with 0%Q. lra.
  - unfold flt. rw Hc. case_bool_decide as E; [left|right]; (split; [done|]).
    + simplify_eq. apply Qlt_le_weak. by apply Qlt_alt.
    + apply Qnot_lt_le. intros Hlt. apply E. f_equal. by apply Qlt_alt.
Qed.

(** A number of 53 bits is rounded to itself. *)
Lemma round64_exact num den x s low :
  num ≠ 0%N → den ≠ 0%N → (inject_Z (Z.of_N num) / inject_Z (Z.of_N den) == x)%Q → (x == inject_Z s * Qpower 2 low)%Q →
  -1074 <= low → s < 2 ^ 53 → (x <= inject_Z (2 ^ 53))%Q →
  fnonneg (round64 false num den) ∧ (fval (round64 false num den) == x)%Q.
Proof.
  intros Hn Hd Hv Hs Hlow H53 Hx. destruct (round64_error false num den Hn Hd) as (q&e&E&He&Hq&_&Hex).
  cbn zeta in Hex.
  specialize (Hex s low (Qeq_trans _ _ _ Hv Hs) Hlow H53). rw Hv in Hex. rw E. case_match eqn:Eo; [exfalso|by split].
  apply andb_true_iff in Eo as [Ho1 Ho2]. apply N.leb_le in Ho2. assert (0 <= e) by lia.
  assert (inject_Z (Z.of_N (q * pow2 e)) <= inject_Z (2 ^ 53))%Q as Hc.
  { rw N2Z.inj_mul inject_Z_mult q2_pow2; [done|]. by rw Hex. }
  rw -Zle_Qle in Hc. assert (2 ^ 53 < 2 ^ 1024)%N by done. lia.
Qed.

(** A sum is never too small: below the normal numbers it is exact. *)
Lemma fadd_sum f g : fnonneg f → fnonneg g → let x := (fval f + fval g)%Q in (x <= Qpower 2 1000)%Q →
  fnonneg (fadd f g) ∧ (x * (1 - ulp) <= fval (fadd f g) /\ fval (fadd f g) <= x * (1 + ulp))%Q.
Proof.
  destruct f as [| |[] m e]; [done..|]. destruct g as [| |[] n k]; [done..|]. intros [_ He] [_ Hk] x Hbig.
  cbn [fadd]. set (low := Z.min e k). cbn zeta.
  pose proof (fval_at low false m e ltac:(lia)) as E1. pose proof (fval_at low false n k ltac:(lia)) as E2.
  pose proof (at_exponent_nonneg low m e) as P1. pose proof (at_exponent_nonneg low n k) as P2. fold x.
  revert E1 E2 P1 P2. generalize (at_exponent low false m e), (at_exponent low false n k). intros a b E1 E2 P1 P2.
  assert (Ex : (x == inject_Z (a + b) * Qpower 2 low)%Q) by (unfold x; rw E1 E2 -Qmult_plus_distr_l -inject_Z_plus; reflexivity).
  destruct (Z.eqb_spec (a + b) 0) as [E|E].
  { split; [done|]. assert (x == 0)%Q as ->; [|by vm_compute]. rw Ex E. ring. }
  rw (proj2 (Z.ltb_ge (a + b) 0)); [lia|].
  assert (Ef : (inject_Z (Z.of_N (Z.abs_N (a + b) * pow2 low)) / inject_Z (Z.of_N (pow2 (- low))) == x)%Q).
  { by rw q2_fraction abs_N_sum // Ex. }
  pose proof (pow2_pos low). pose proof (pow2_pos (- low)).
  destruct (Qlt_le_dec x (Qpower 2 (-1022))) as [Hs|Hs].
  - destruct (round64_exact (Z.abs_N (a + b) * pow2 low) (pow2 (- low)) x (a + b) low) as [? Hv]; try done; [nia|lia|lia|..].
    + apply Z.lt_nge. intros Hc. rw Zle_Qle in Hc. apply (Qlt_not_le _ _ Hs). rw Ex.
      apply (Qle_trans _ (inject_Z (2 ^ 53) * Qpower 2 low)); [|apply Qmult_le_compat_r; [done|pose proof (q2_pos low); lra]].
      change (inject_Z (2 ^ 53)) with (Qpower 2 53). rw -q2_add. apply Qpower_le_compat_l; [lia|done].
    + apply Qlt_le_weak, (Qlt_trans _ _ _ Hs). by vm_compute.
    + split; [done|]. rw Hv. assert (0 <= x)%Q; [|assert (0 < ulp)%Q by apply q2_pos; split; nra].
      rw Ex. apply Qmult_le_0_compat; [|pose proof (q2_pos low); lra]. change 0%Q with (inject_Z 0). rw -Zle_Qle. lia.
  - destruct (round64_to (Z.abs_N (a + b) * pow2 low) (pow2 (- low)) x ltac:(lia) Ef) as [[_ ?]|[? Hb]]; [lra|]. split; [done|]. apply Hb. by right.
Qed.

Lemma float64_of_nonneg z : 0 <= z < 2 ^ 53 → fnonneg (float64_of_Z z) ∧ (fval (float64_of_Z z) == inject_Z z)%Q.
Proof.
  intros Hz. unfold float64_of_Z. rw (proj2 (Z.ltb_ge z 0)); [lia|]. destruct (Z.eq_dec z 0) as [->|]; [done|].
  apply (round64_exact _ _ _ z 0); try done; [lia|..].
  - replace (Z.of_N (Z.abs_N z)) with z by lia. change (inject_Z (Z.of_N 1)) with 1%Q. field.
  - change (Qpower 2 0) with 1%Q. ring.
  - lia.
  - rw -Zle_Qle. lia.
Qed.

Definition fone : float64 := float64_of_Z 1.

(** A number between one and 2^53 is decremented exactly. *)
Lemma fsub_one f : fnonneg f → (1 <= fval f)%Q → (fval f <= inject_Z (2 ^ 53))%Q →
  fnonneg (fsub f fone) ∧ (fval (fsub f fone) == fval f - 1)%Q.
Proof.
  destruct f as [| |[] m e]; [done..|]. intros [Hm He] H1 H53. set (x := FFin false m e) in *.
  change (fsub x fone) with (fadd x (FFin true (2 ^ 52) (-52))). subst x. cbn [fadd]. set (low := Z.min e (-52)). cbn zeta.
  pose proof (fval_at low false m e ltac:(lia)) as E1. pose proof (fval_at low true (2 ^ 52) (-52) ltac:(lia)) as E2.
  assert (fval (FFin true (2 ^ 52) (-52)) == -1)%Q as E3 by by vm_compute. rw E3 in E2.
  set (s := at_exponent low false m e + _).
  assert (Es : (inject_Z s * Qpower 2 low == fval (FFin false m e) - 1)%Q).
  { unfold s. rw inject_Z_plus Qmult_plus_distr_l -E1 -E2. ring. }
  pose proof (q2_pos low) as Hp. assert (0 <= s) as Hs.
  { rw Zle_Qle. change (inject_Z 0) with 0%Q. nra. }
  destruct (Z.eqb_spec s 0) as [E0|E0].
  { rw E0 in Es. split; [done|]. rw -Es. by vm_compute. }
  rw (proj2 (Z.ltb_ge s 0)); [lia|].
  assert (∃ s' low', (fval (FFin false m e) - 1 == inject_Z s' * Qpower 2 low')%Q ∧ -1074 <= low' ∧ s' < 2 ^ 53) as (s'&low'&Hs'&Hl'&Hb').
  { destruct (Z_le_gt_dec e 0) as [Hle|Hgt].
    - exists (Z.of_N m - 2 ^ (- e)), e. assert (0 < 2 ^ (- e)) by (apply Z.pow_pos_nonneg; lia). split; [|lia].
      unfold Z.sub. rw inject_Z_plus inject_Z_opp Zpower_Qpower; [lia|]. change (inject_Z 2) with 2%Q.
      cbn [fval signed]. pose proof (q2_neg (- e)) as En. replace (- - e) with e in En by lia. lra.
    - exists (Z.of_N m * 2 ^ e - 1), 0. split; [|split; [done|]].
      + unfold Z.sub. rw inject_Z_plus inject_Z_opp inject_Z_mult Zpower_Qpower; [lia|]. change (inject_Z 2) with 2%Q.
        cbn [fval signed]. change (Qpower 2 0) with 1%Q. change (inject_Z 1) with 1%Q. ring.
      + assert (Z.of_N m * 2 ^ e <= 2 ^ 53); [|lia]. rw Zle_Qle inject_Z_mult Zpower_Qpower; [lia|]. exact H53. }
  apply (round64_exact _ _ _ s' low'); try done.
  - pose proof (pow2_pos low). nia.
  - pose proof (pow2_pos (- low)). lia.
  - rw q2_fraction. replace (Z.of_N (Z.abs_N s)) with s by lia. exact Es.
  - lra.
Qed.

(** ** Seconds *)

Definition fnonpos (f : float64) : Prop :=
  match f with FFin true _ _ | FInf true => True | FFin false m _ => m = 0%N | _ => False end.

Lemma round64_cases neg num den : round64 neg num den = FInf neg ∨ ∃ m e, round64 neg num den = FFin neg m e.
Proof. unfold round64. repeat case_match; eauto. Qed.

Lemma round64_nonpos num den : fnonpos (round64 true num den).
Proof. by destruct (round64_cases true num den) as [->|(m&e&->)]. Qed.

Lemma float64_of_nonpos z : z <= 0 → fnonpos (float64_of_Z z).
Proof.
  intros Hz. unfold float64_of_Z. destruct (Z.ltb_spec z 0); [apply round64_nonpos|]. by replace z with 0 by lia.
Qed.

Lemma fadd_nonpos f g : fnonpos f → fnonpos g → fnonpos (fadd f g).
Proof.
  assert (∀ low a m e, fnonpos (FFin a m e) → at_exponent low a m e <= 0) as Hat.
  { intros low [] m e; unfold at_exponent, signed; simpl; [lia|]. intros ->. lia. }
  destruct f as [|[]|a m e]; try done; (destruct g as [|[]|b n k]; try done); intros Hf Hg.
  cbn [fadd]. cbn zeta. pose proof (Hat (Z.min e k) _ _ _ Hf). pose proof (Hat (Z.min e k) _ _ _ Hg).
  destruct (Z.eqb_spec (at_exponent (Z.min e k) a m e + at_exponent (Z.min e k) b n k) 0); [by destruct a, b|].
  rw (proj2 (Z.ltb_lt _ 0)); [lia|]. apply round64_nonpos.
Qed.

Lemma fgt_nonpos f : fnonpos f → fgt f (float64_of_Z 0) = false.
Proof.
  intros Hf. unfold fgt, flt. change (float64_of_Z 0) with (FFin false 0 0).
  destruct f as [|[]|a m e]; try done. cbn [fcompare]. apply bool_decide_eq_false. intros Hc.
  apply (inj Some) in Hc. apply (proj1 (Z.compare_lt_iff _ _)) in Hc. unfold at_exponent in Hc. rw !signed_mul in Hc. cbn [signed] in Hc. destruct a; cbn [signed fnonpos] in Hc, Hf; [|subst m]. { nia. } nia.
Qed.

Lemma Seconds_nonpos d : d <= 0 → fgt (Seconds d) (float64_of_Z 0) = false.
Proof.
  intros Hd. apply fgt_nonpos, fadd_nonpos; [apply float64_of_nonpos; unfold Second; apply Z.quot_le_upper_bound; lia|].
  assert (Hr : Z.rem d Second <= 0) by (apply Z.rem_nonpos; unfold Second; lia). revert Hr. generalize (Z.rem d Second). intros r Hr.
  assert (float64_of_Z 1000000000 = FFin false 8388608000000000 (-23)) as -> by by vm_compute.
  unfold float64_of_Z. destruct (Z.ltb_spec r 0); [|by replace r with 0 by lia].
  destruct (round64_cases true (Z.abs_N r) 1) as [->|(m&e&->)]; [done|]. cbn [fdiv fsign xorb].
  case_match; [by case_match|]. apply round64_nonpos.
Qed.

Lemma ulp_small : (0 < ulp /\ ulp <= 1 # 8)%Q.
Proof. split; by vm_compute. Qed.

Lemma Seconds_pos d : 0 < d <= MaxInt64 → let x := (inject_Z d / inject_Z Second)%Q in
  fnonneg (Seconds d) ∧ (x * (1 - ulp) * (1 - ulp) <= fval (Seconds d) /\ fval (Seconds d) <= x * (1 + ulp) * (1 + ulp))%Q.
Proof.
  intros Hd x. unfold MaxInt64 in Hd. unfold Seconds. rw Z.quot_div_nonneg; [lia|done|]. rw Z.rem_mod_nonneg; [lia|done|].
  pose proof (Z.div_mod d Second ltac:(done)) as Ed. pose proof (Z.mod_pos_bound d Second ltac:(done)) as Hr.
  assert (Hq : 0 <= d / Second < 2 ^ 53) by (split; [by apply Z.div_pos; lia|apply Z.div_lt_upper_bound; unfold Second; lia]).
  revert Ed Hr Hq. generalize (d / Second), (d mod Second). intros q r Ed Hr Hq.
  destruct (float64_of_nonneg q ltac:(lia)) as [Fq Vq]. destruct (float64_of_nonneg r ltac:(unfold Second in *; lia)) as [Fr Vr].
  destruct (float64_of_nonneg 1000000000 ltac:(done)) as [Fg Vg]. change 1000000000 with Second in *.
  assert (Hsec : (0 < inject_Z Second)%Q) by by vm_compute. assert (0 < inject_Z d)%Q as Hdq by (change 0%Q with (inject_Z 0); rw -Zlt_Qlt; lia).
  assert (0 <= inject_Z q)%Q as Hq0 by (change 0%Q with (inject_Z 0); rw -Zle_Qle; lia).
  assert (0 <= inject_Z r)%Q as Hr0 by (change 0%Q with (inject_Z 0); rw -Zle_Qle; lia).
  set (y := (inject_Z r / inject_Z Second)%Q).
  assert (Hxy : (x == inject_Z q + y)%Q) by (unfold x, y; rw Ed inject_Z_plus inject_Z_mult; field; lra).
  assert (0 <= y)%Q as Hy0 by (apply Qle_shift_div_l; lra).
  assert (y <= 1)%Q as Hy1 by (apply Qle_shift_div_r; [done|]; rw Qmult_1_l -Zle_Qle; lia).
  assert (Hn : normal y).
  { destruct (Z.eq_dec r 0) as [->|]; [left; unfold y; change (inject_Z 0) with 0%Q; unfold Qdiv; ring|right].
    apply Qle_shift_div_l; [done|]. apply (Qle_trans _ 1); [by vm_compute|]. change 1%Q with (inject_Z 1). rw -Zle_Qle. lia. }
  pose proof (fdiv_to _ _ Fr Fg ltac:(by rw Vg)) as Hdiv. set (g := fdiv _ _) in *.
  assert (fval (float64_of_Z r) / fval (float64_of_Z Second) == y)%Q as Ey by (rw Vr Vg; reflexivity).
  rw Ey in Hdiv. destruct Hdiv as [[_ Hbig]|[Fd Hb]]; [exfalso; apply (Qlt_not_le _ _ Hbig), (Qle_trans _ _ _ Hy1); by vm_compute|].
  specialize (Hb Hn) as [Hb1 Hb2]. pose proof ulp_small as [Hu1 Hu2].
  destruct (fadd_sum _ _ Fq Fd) as [Fs [Hs1 Hs2]].
  { apply (Qle_trans _ (inject_Z (2 ^ 53) + 2)); [|by vm_compute]. rw Vq. apply Qplus_le_compat; [rw -Zle_Qle; lia|nra]. }
  split; [done|]. rw Vq in Hs1 Hs2. rw Hxy. revert Hs1 Hs2 Hb1 Hb2 Hu1 Hu2 Hq0 Hy0. clear.
  generalize (fval (fadd (float64_of_Z q) g)), (fval g), (inject_Z q), y, ulp. intros v w a b u Hs1 Hs2 Hb1 Hb2 Hu1 Hu2 Ha Hb.
  assert ((a + b) * (1 - u) <= a + w /\ a + w <= (a + b) * (1 + u))%Q as [H1 H2] by (split; nra).
  split; [apply (Qle_trans _ ((a + w) * (1 - u)))|apply (Qle_trans _ ((a + w) * (1 + u)))]; try done; apply Qmult_le_compat_r; lra.
Qed.
