(* ===== verification/RateLimit.v ===== *)
(** The token bucket in front of the credential routes,
    src/go/internal/httpapi/auth-rate-limit.go: how many requests of a client it lets
    through, rounding included, and how many clients it remembers. *)

From S2P Require Import Prelude GoStrings Json GoValue GoFloat.
From Stdlib Require Import QArith Qpower Lqa Qround ZifyBool ZifyN.

Open Scope Z_scope.

(** ** The limiter *)

Record AuthRateLimitConfig := mkAuthRateLimitConfig {
  RequestsPerMinute : Z; Burst : Z; MaxClients : Z; EntryTTL : duration
}.

Record authRateBucket := mkBucket { tokens : float64; lastRefill : time; lastSeen : time }.

Record AuthRateLimiter := mkAuthRateLimiter {
  rate : float64; burst : float64; maxClients : Z; entryTTL : duration; clients : gmap string authRateBucket
}.

Definition set_clients (m : gmap string authRateBucket) (l : AuthRateLimiter) : AuthRateLimiter :=
  mkAuthRateLimiter (rate l) (burst l) (maxClients l) (entryTTL l) m.

Definition NewAuthRateLimiter (cfg : AuthRateLimitConfig) : res AuthRateLimiter :=
  if (RequestsPerMinute cfg <? 1) || (Burst cfg <? 1) || (MaxClients cfg <? 1) || (EntryTTL cfg <=? 0)
  then Err ErrInvalidAuthRateLimitConfig
  else Ok (mkAuthRateLimiter (fdiv (float64_of_Z (RequestsPerMinute cfg)) (float64_of_Z (Minute / Second)))
             (float64_of_Z (Burst cfg)) (MaxClients cfg) (EntryTTL cfg) ∅).

(** [Time.Sub], which saturates. *)
Definition time_Sub (t u : time) : duration := Z.max MinInt64 (Z.min MaxInt64 (t - u)).

Definition removeExpired (l : AuthRateLimiter) (now : time) : AuthRateLimiter :=
  set_clients (filter (λ kb, time_Sub now (lastSeen kb.2) < entryTTL l) (clients l)) l.

(** One round of the loop over the buckets. *)
Definition older (acc : string * time) (kb : string * authRateBucket) : string * time :=
  if bool_decide (acc.1 = "") || (lastSeen kb.2 <? acc.2) then (kb.1, lastSeen kb.2) else acc.

Section limiter.
(** The order in which [range] visits a map. *)
Context (map_order : gmap string authRateBucket → list (string * authRateBucket)).
Context (Hmap_order : ∀ m, map_order m ≡ₚ map_to_list m).
Context `{GoArch}.

Definition removeOldest (l : AuthRateLimiter) : AuthRateLimiter :=
  let oldestClient := (fold_left older (map_order (clients l)) ("", time_zero)).1 in
  if bool_decide (oldestClient = "") then l else set_clients (delete oldestClient (clients l)) l.

(** The bucket of a client, a new one if need be. *)
Definition find_bucket (l : AuthRateLimiter) (client : string) (now : time) : authRateBucket * AuthRateLimiter :=
  match clients l !! client with
  | Some bucket => (bucket, l)
  | None =>
      let l := removeExpired l now in
      let l := if maxClients l <=? Z.of_nat (size (clients l)) then removeOldest l else l in
      let bucket := mkBucket (burst l) now now in
      (bucket, set_clients (<[client := bucket]> (clients l)) l)
  end.

(** What a request makes of a bucket, and whether it is let through. *)
Definition refill (l : AuthRateLimiter) (now : time) (bucket : authRateBucket) : authRateBucket :=
  let elapsed := Seconds (time_Sub now (lastRefill bucket)) in
  if fgt elapsed (float64_of_Z 0)
  then mkBucket (fmin (burst l) (fadd (tokens bucket) (fmul elapsed (rate l)))) now now
  else mkBucket (tokens bucket) (lastRefill bucket) now.

Definition spend (l : AuthRateLimiter) (bucket : authRateBucket) : (bool * duration) * authRateBucket :=
  if fge (tokens bucket) (float64_of_Z 1)
  then ((true, 0), mkBucket (fsub (tokens bucket) (float64_of_Z 1)) (lastRefill bucket) (lastSeen bucket))
  else ((false, int64_of_float (fceil (fmul (fdiv (fsub (float64_of_Z 1) (tokens bucket)) (rate l)) (float64_of_Z Second)))),
        bucket).

Definition allow (l : AuthRateLimiter) (client : string) (now : time) : (bool * duration) * AuthRateLimiter :=
  let (bucket, l) := find_bucket l client now in
  let (answer, bucket) := spend l (refill l now bucket) in
  (answer, set_clients (<[client := bucket]> (clients l)) l).

(** [max(1, int(math.Ceil(retryAfter.Seconds())))]. *)
Definition retry_after (d : duration) : Z := Z.max 1 (int64_of_float (fceil (Seconds d))).

(** ** The peer address *)

Definition last_index (c : N) (l : list N) : option nat :=
  match list_find (λ b, b = c) (rev l) with Some (i, _) => Some (length l - 1 - i)%nat | None => None end.
Definition first_index (c : N) (l : list N) : option nat := fst <$> list_find (λ b, b = c) l.

(** [net.SplitHostPort]: host and port, [None] for an error. *)
Definition SplitHostPort (hostport : list N) : option (list N * list N) :=
  i ← last_index 58 hostport;
  '(host, j, k) ←
    (if bool_decide (head hostport = Some 91%N) then
       stop ← first_index 93 hostport;
       if bool_decide (S stop = i) then Some (take (stop - 1) (drop 1 hostport), 1%nat, S stop) else None
     else
       let host := take i hostport in
       if bool_decide (58%N ∈ host) then None else Some (host, 0%nat, 0%nat));
  if bool_decide (91%N ∈ drop j hostport) || bool_decide (93%N ∈ drop k hostport) then None
  else Some (host, drop (S i) hostport).

Definition clientAddress (remoteAddr : string) : string :=
  match SplitHostPort (bytes_of remoteAddr) with
  | Some (b :: host, _) => string_of_bytes (b :: host)
  | _ => if bool_decide (remoteAddr = "") then "unknown" else remoteAddr
  end.

(** A run: requests from addresses at readings of the clock, with the answers. *)
Fixpoint limiter_run (l : AuthRateLimiter) (requests : list (string * time)) : list (string * bool) * AuthRateLimiter :=
  match requests with
  | [] => ([], l)
  | (addr, now) :: requests =>
      let client := clientAddress addr in
      let '(allowed, _, l) := allow l client now in
      let (log, l) := limiter_run l requests in
      ((client, allowed) :: log, l)
  end.

(** How often the bucket of a client is dropped while the requests come in: as
    expired, or as the oldest when there are too many. *)
Fixpoint drops (client : string) (l : AuthRateLimiter) (requests : list (string * time)) : Z :=
  match requests with
  | [] => 0
  | (addr, now) :: requests =>
      let l' := (allow l (clientAddress addr) now).2 in
      match clients l !! client, clients l' !! client with Some _, None => 1 | _, _ => 0 end + drops client l' requests
  end.
End limiter.

Example clientAddress_v4 : clientAddress "203.0.113.7:52114" = "203.0.113.7".
Proof. by vm_compute. Qed.

Example clientAddress_v6 : clientAddress "[2001:db8::1]:443" = "2001:db8::1".
Proof. by vm_compute. Qed.

Example clientAddress_bare : clientAddress "2001:db8::1" = "2001:db8::1" ∧ clientAddress "" = "unknown".
Proof. by vm_compute. Qed.

Definition asked (client : string) (log : list (string * bool)) : Z :=
  Z.of_nat (length (filter (λ e, e.1 = client) log)).
Definition granted (client : string) (log : list (string * bool)) : Z :=
  Z.of_nat (length (filter (λ e, e.1 = client ∧ e.2 = true) log)).

(** ** Memory *)

Section memory.
Context (map_order : gmap string authRateBucket → list (string * authRateBucket)).
Context (Hmap_order : ∀ m, map_order m ≡ₚ map_to_list m).
Context `{GoArch}.

Lemma string_of_bytes_nonempty b l : string_of_bytes (b :: l) ≠ "".
Proof. done. Qed.

Lemma clientAddress_nonempty addr : clientAddress addr ≠ "".
Proof. unfold clientAddress. repeat case_match; reflect_bool; done. Qed.

Lemma fold_older l acc : Forall (λ kb, kb.1 ≠ "") l →
  (fold_left older l acc).1 = acc.1 ∧ (acc.1 ≠ "" ∨ l = []) ∨ (fold_left older l acc).1 ∈ l.*1.
Proof.
  revert acc. induction l as [|kb l IH]; intros acc Hl; [left; auto|]. apply list.Forall_cons in Hl as [Hk Hl]. simpl.
  destruct (IH (older acc kb) Hl) as [[E _]|Hin]; [|right; by right].
  rw E. unfold older. destruct (bool_decide_reflect (acc.1 = "")) as [E0|E0]; simpl; [right; left|].
  case_match; [right; left|left; auto].
Qed.

Definition named (l : AuthRateLimiter) : Prop := map_Forall (λ k _, k ≠ "") (clients l).
Definition bounded (l : AuthRateLimiter) : Prop :=
  named l ∧ 1 <= maxClients l ∧ Z.of_nat (size (clients l)) <= maxClients l.

Lemma named_subseteq l m : m ⊆ clients l → named l → named (set_clients m l).
Proof. intros Hm Hn k b Hk. apply (Hn k b). by eapply lookup_weaken. Qed.

Lemma removeOldest_bounded l : named l → 1 <= maxClients l → Z.of_nat (size (clients l)) <= maxClients l →
  let l' := if maxClients l <=? Z.of_nat (size (clients l)) then removeOldest map_order l else l in
  named l' ∧ maxClients l' = maxClients l ∧ clients l' ⊆ clients l ∧ Z.of_nat (size (clients l')) < maxClients l.
Proof.
  intros Hn H1 Hs l'. unfold l'. destruct (Z.leb_spec (maxClients l) (Z.of_nat (size (clients l)))); [|done].
  unfold removeOldest. pose proof (Hmap_order (clients l)) as Hp.
  destruct (fold_older (map_order (clients l)) ("", time_zero)) as [[_ [?|E]]|Hin].
  - rw Hp. apply list.Forall_forall. intros [k b] Hk%elem_of_map_to_list. by apply (Hn k b).
  - done.
  - rw E in Hp. symmetry in Hp. apply Permutation_nil_r, map_to_list_empty_iff in Hp. rw Hp map_size_empty in Hs H0. lia.
  - set (k := (fold_left _ _ _).1) in *. rw Hp in Hin. apply list_elem_of_fmap in Hin as ([k' b]&Ek&Hk%elem_of_map_to_list).
    simpl in Ek. subst k'. rw bool_decide_false; [by apply (Hn k b)|]. split; [|split; [done|split]].
    + apply named_subseteq; [apply delete_subseteq|done].
    + apply delete_subseteq.
    + simpl. rw map_size_delete_Some; [by eexists|]. assert (size (clients l) ≠ 0%nat); [|lia].
      intros Hz%map_size_empty_inv. by rw Hz in Hk.
Qed.

Lemma filter_size {P : string * authRateBucket → Prop} `{∀ x, Decision (P x)} (m : gmap string authRateBucket) :
  (size (filter P m) <= size m)%nat.
Proof. apply map_subseteq_size, map_filter_subseteq. Qed.

Lemma find_bucket_bounded l client now b l' : client ≠ "" → bounded l → find_bucket map_order l client now = (b, l') →
  bounded l' ∧ clients l' !! client = Some b ∧ rate l' = rate l ∧ burst l' = burst l ∧ maxClients l' = maxClients l
  ∧ (clients l !! client = Some b ∧ l' = l ∨ clients l !! client = None ∧ b = mkBucket (burst l) now now)
  ∧ ∀ c x, c ≠ client → clients l' !! c = Some x → clients l !! c = Some x.
Proof.
  intros Hc (Hn&H1&Hs). unfold find_bucket. destruct (clients l !! client) as [b0|] eqn:E.
  { intros [= <- <-]. split; [done|]. repeat split; auto. }
  cbn zeta. set (l1 := removeExpired l now).
  assert (Hsub : clients l1 ⊆ clients l) by apply map_filter_subseteq.
  destruct (removeOldest_bounded l1) as (Hn2&E2&Hsub2&Hs2); [by apply named_subseteq|done| |].
  { pose proof (filter_size (P := λ kb, time_Sub now (lastSeen kb.2) < entryTTL l) (clients l)). simpl. lia. }
  set (l2 := if maxClients l1 <=? _ then _ else l1) in *. intros [= <- <-].
  assert (rate l2 = rate l ∧ burst l2 = burst l) as [Er Eb].
  { unfold l2. case_match; [|done]. unfold removeOldest. by case_match. }
  split; [|split; [apply lookup_insert_eq|]].
  - split; [|split].
    + intros k x Hk. simpl in Hk. apply lookup_insert_Some in Hk as [[<- _]|[_ Hk]]; [done|]. by apply (Hn2 k x).
    + simpl. rw E2. done.
    + simpl. rw map_size_insert. simpl in E2, Hs2. rw E2. case_match; simpl; lia.
  - simpl. rw E2 Er Eb. repeat split; auto. intros c x Hne Hk. rw lookup_insert_ne // in Hk.
    eapply lookup_weaken; [|exact Hsub]. by eapply lookup_weaken.
Qed.
End memory.

(** ** Tokens *)

Section tokens.
Context (R B : Z) (HR : 1 <= R < 2 ^ 53) (HB : 1 <= B < 2 ^ 53).

(** Tokens per nanosecond. *)
Definition per_ns : Q := (inject_Z R / inject_Z (60 * Second))%Q.
Abbreviation slack := (Qpower 2 (-50)).

Definition configured (l : AuthRateLimiter) : Prop :=
  rate l = fdiv (float64_of_Z R) (float64_of_Z 60) ∧ burst l = float64_of_Z B.

Definition bucket_ok (b : authRateBucket) : Prop := fnonneg (tokens b) ∧ (fval (tokens b) <= inject_Z B)%Q.

Lemma inject_le a b : a <= b → (inject_Z a <= inject_Z b)%Q.
Proof. by rw -Zle_Qle. Qed.

Lemma per_ns_nonneg : (0 <= per_ns)%Q.
Proof. apply Qle_shift_div_l; [by vm_compute|]. rw Qmult_0_l. apply (inject_le 0). lia. Qed.

Lemma rate_bounds l : configured l → let r := (inject_Z R / 60)%Q in
  fnonneg (rate l) ∧ (r * (1 - ulp) <= fval (rate l) /\ fval (rate l) <= r * (1 + ulp))%Q.
Proof.
  intros [-> _] r. destruct (float64_of_nonneg R ltac:(lia)) as [F1 V1]. destruct (float64_of_nonneg 60 ltac:(done)) as [F2 V2].
  pose proof (fdiv_to _ _ F1 F2 ltac:(by rw V2)) as Hd.
  assert (fval (float64_of_Z R) / fval (float64_of_Z 60) == r)%Q as E by (rw V1 V2; reflexivity). rw E in Hd.
  assert (1 <= inject_Z R)%Q as H1 by (apply (inject_le 1); lia). assert (inject_Z R <= inject_Z (2 ^ 53))%Q as H2 by (apply inject_le; lia).
  assert (1 # 60 <= r /\ r <= inject_Z (2 ^ 53))%Q as [Hr1 Hr2] by (unfold r; split; [apply Qle_shift_div_l|apply Qle_shift_div_r]; lra).
  destruct Hd as [[_ Hbig]|[? Hb]].
  - exfalso. apply (Qlt_not_le _ _ Hbig), (Qle_trans _ _ _ Hr2). by vm_compute.
  - split; [done|]. apply Hb. right. apply (Qle_trans _ (1 # 60)); [by vm_compute|done].
Qed.

(** The error of five roundings. *)
Lemma five_ulps : ((1 + ulp) * (1 + ulp) * (1 + ulp) * (1 + ulp) * (1 + ulp) <= 1 + slack)%Q.
Proof. by vm_compute. Qed.

Lemma product_up el r D rho p : (0 <= D)%Q → (0 <= rho)%Q → (0 <= el)%Q → (0 <= r)%Q →
  (el <= D * (1 + ulp) * (1 + ulp))%Q → (r <= rho * (1 + ulp))%Q → (p <= el * r * (1 + ulp))%Q →
  (p * (1 + ulp) <= D * rho * (1 + slack))%Q.
Proof.
  intros HD Hrho Hel Hr He Hr' Hp. pose proof ulp_small as [Hu _].
  assert (el * r <= D * (1 + ulp) * (1 + ulp) * (rho * (1 + ulp)))%Q as H1.
  { apply (Qle_trans _ (D * (1 + ulp) * (1 + ulp) * r)); [by apply Qmult_le_compat_r|].
    rw !(Qmult_comm (D * (1 + ulp) * (1 + ulp))). apply Qmult_le_compat_r; [done|]. repeat apply Qmult_le_0_compat; lra. }
  apply (Qle_trans _ (D * rho * ((1 + ulp) * (1 + ulp) * (1 + ulp) * (1 + ulp) * (1 + ulp)))).
  - apply (Qle_trans _ (el * r * (1 + ulp) * (1 + ulp))); [apply Qmult_le_compat_r; lra|].
    apply (Qle_trans _ (D * (1 + ulp) * (1 + ulp) * (rho * (1 + ulp)) * (1 + ulp) * (1 + ulp))); [|apply Qle_lteq; right; ring].
    apply Qmult_le_compat_r; [|lra]. apply Qmult_le_compat_r; [done|lra].
  - rw !(Qmult_comm (D * rho)). apply Qmult_le_compat_r; [apply five_ulps|by apply Qmult_le_0_compat].
Qed.

Lemma finite_product D rho el r :
  (1 # 1000000000 <= D /\ D <= inject_Z (2 ^ 63))%Q → (1 # 60 <= rho /\ rho <= inject_Z (2 ^ 53))%Q →
  (D * (1 - ulp) * (1 - ulp) <= el)%Q → (el <= D * (1 + ulp) * (1 + ulp))%Q → (rho * (1 - ulp) <= r)%Q → (r <= rho * (1 + ulp))%Q →
  (0 <= el /\ 0 <= r /\ 1 # 1000000000000 <= el * r /\ el * r <= inject_Z (2 ^ 118))%Q.
Proof.
  intros [D1 D2] [R1 R2] He1 He2 Hr1 Hr2. pose proof ulp_small as [Hu1 Hu2].
  assert (1 # 10000000000 <= el)%Q as L1.
  { apply (Qle_trans _ (D * (7 # 8) * (7 # 8))); [lra|]. apply (Qle_trans _ (D * (1 - ulp) * (1 - ulp))); [nra|done]. }
  assert (1 # 100 <= r)%Q as L2 by nra.
  assert (el <= inject_Z (2 ^ 64))%Q as U1.
  { apply (Qle_trans _ _ _ He2), (Qle_trans _ (inject_Z (2 ^ 63) * (1 + ulp) * (1 + ulp))); [|by vm_compute].
    apply Qmult_le_compat_r; [apply Qmult_le_compat_r; [done|lra]|lra]. }
  assert (r <= inject_Z (2 ^ 54))%Q as U2.
  { apply (Qle_trans _ _ _ Hr2), (Qle_trans _ (inject_Z (2 ^ 53) * (1 + ulp))); [apply Qmult_le_compat_r; [done|lra]|by vm_compute]. }
  split; [lra|]. split; [lra|]. split.
  - apply (Qle_trans _ ((1 # 10000000000) * (1 # 100))); [by vm_compute|].
    apply (Qle_trans _ (el * (1 # 100))); [by apply Qmult_le_compat_r|]. rw !(Qmult_comm el). apply Qmult_le_compat_r; [done|lra].
  - apply (Qle_trans _ (inject_Z (2 ^ 64) * r)); [apply Qmult_le_compat_r; [done|lra]|].
    rw Qmult_comm. apply (Qle_trans _ (inject_Z (2 ^ 54) * inject_Z (2 ^ 64))); [by apply Qmult_le_compat_r; [|vm_compute]|by vm_compute].
Qed.

Lemma refill_up l now b : configured l → bucket_ok b → let b' := refill l now b in
  bucket_ok b' ∧ lastRefill b <= lastRefill b' ∧ (lastRefill b' = lastRefill b ∨ lastRefill b' = now)
  ∧ (fval (tokens b') <= fval (tokens b) + inject_Z B * ulp + inject_Z (lastRefill b' - lastRefill b) * per_ns * (1 + slack))%Q.
Proof.
  intros Hl [Fb Vb] b'. pose proof ulp_small as [Hu _]. assert (1 <= inject_Z B)%Q as HB1 by (apply (inject_le 1); lia).
  pose proof per_ns_nonneg as Hrho.
  assert (Hsame : b' = mkBucket (tokens b) (lastRefill b) now → bucket_ok b' ∧ lastRefill b <= lastRefill b'
    ∧ (lastRefill b' = lastRefill b ∨ lastRefill b' = now)
    ∧ (fval (tokens b') <= fval (tokens b) + inject_Z B * ulp + inject_Z (lastRefill b' - lastRefill b) * per_ns * (1 + slack))%Q).
  { intros ->. cbn [tokens lastRefill]. rw Z.sub_diag. change (inject_Z 0) with 0%Q. split; [done|]. split; [lia|]. split; [auto|].
    rw !Qmult_0_l. pose proof (Qmult_le_0_compat (inject_Z B) ulp ltac:(lra) ltac:(lra)). lra. }
  unfold refill in b'. set (d := time_Sub now (lastRefill b)) in *. cbn zeta in b'.
  destruct (Z_le_gt_dec d 0) as [Hd|Hd]; [by apply Hsame; unfold b'; rw Seconds_nonpos|].
  destruct (fgt (Seconds d) (float64_of_Z 0)); [clear Hsame|by apply Hsame].
  assert (Hd' : 0 < d <= MaxInt64 ∧ d <= now - lastRefill b).
  { unfold d, time_Sub in *. unfold MaxInt64, MinInt64 in *. lia. }
  destruct Hd' as [Hd' Hdn]. destruct (Seconds_pos d Hd') as [Fs [Hs1 Hs2]]. destruct (rate_bounds l Hl) as [Fr [Hr1 Hr2]].
  set (D := (inject_Z d / inject_Z Second)%Q) in *. set (rho := (inject_Z R / 60)%Q) in *.
  assert (HD : (1 # 1000000000 <= D /\ D <= inject_Z (2 ^ 63))%Q).
  { assert (inject_Z 1 <= inject_Z d)%Q by (apply inject_le; lia).
    assert (inject_Z d <= inject_Z (2 ^ 63))%Q by (apply inject_le; unfold MaxInt64 in *; lia).
    assert (0 < inject_Z Second)%Q by by vm_compute. unfold D. split; [apply Qle_shift_div_l|apply Qle_shift_div_r]; try done.
    - apply (Qle_trans _ (inject_Z 1)); [by vm_compute|done].
    - apply (Qle_trans _ (inject_Z (2 ^ 63))); [done|by vm_compute]. }
  assert (Hrh : (1 # 60 <= rho /\ rho <= inject_Z (2 ^ 53))%Q).
  { assert (1 <= inject_Z R)%Q by (apply (inject_le 1); lia). assert (inject_Z R <= inject_Z (2 ^ 53))%Q by (apply inject_le; lia).
    unfold rho; split; [apply Qle_shift_div_l|apply Qle_shift_div_r]; lra. }
  destruct (finite_product D rho (fval (Seconds d)) (fval (rate l))) as (Hel&Hr&Hx1&Hx2); try done.
  destruct (fmul_to _ _ Fs Fr) as [[_ Hbig]|[Fp Hp]]; [exfalso; apply (Qlt_not_le _ _ Hbig), (Qle_trans _ _ _ Hx2); by vm_compute|].
  destruct Hp as [_ Hp]; [right; apply (Qle_trans _ (1 # 1000000000000)); [by vm_compute|done]|]. set (p := fmul _ _) in *.
  destruct Hl as [_ El]. destruct (float64_of_nonneg B ltac:(lia)) as [FB VB].
  destruct (fadd_sum (tokens b) p Fb Fp) as [Fa [_ Ha]].
  { apply (Qle_trans _ (inject_Z (2 ^ 53) + inject_Z (2 ^ 119))); [|by vm_compute].
    apply Qplus_le_compat; [apply (Qle_trans _ _ _ Vb), inject_le; lia|]. apply (Qle_trans _ _ _ Hp).
    apply (Qle_trans _ (inject_Z (2 ^ 118) * (1 + ulp))); [apply Qmult_le_compat_r; [done|lra]|by vm_compute]. }
  unfold b'. cbn [tokens lastRefill]. rw El.
  destruct (fmin_nonneg (float64_of_Z B) (fadd (tokens b) p) FB (or_intror Fa)) as (Fm&Hm1&Hm2). specialize (Hm2 Fa).
  rw VB in Hm1. split; [by split|]. split; [lia|]. split; [by right|].
  apply (Qle_trans _ _ _ Hm2), (Qle_trans _ _ _ Ha).
  pose proof (product_up (fval (Seconds d)) (fval (rate l)) D rho (fval p) ltac:(lra) ltac:(lra) Hel Hr Hs2 Hr2 Hp) as Hprod.
  assert (D * rho <= inject_Z (now - lastRefill b) * per_ns)%Q as HDr.
  { assert (D * rho == inject_Z d * per_ns)%Q as ->; [unfold D, rho, per_ns; rw inject_Z_mult; field; by vm_compute|].
    apply Qmult_le_compat_r; [by apply inject_le|done]. }
  assert (D * rho * (1 + slack) <= inject_Z (now - lastRefill b) * per_ns * (1 + slack))%Q as HDs.
  { apply Qmult_le_compat_r; [done|by vm_compute]. }
  assert (fval (tokens b) * ulp <= inject_Z B * ulp)%Q as HBu by (apply Qmult_le_compat_r; [done|lra]).
  lra.
Qed.

Context (map_order : gmap string authRateBucket → list (string * authRateBucket)).
Context (Hmap_order : ∀ m, map_order m ≡ₚ map_to_list m).
Context `{GoArch}.

Lemma spend_ok l b : configured l → bucket_ok b → let '(ans, _, b') := spend l b in
  bucket_ok b' ∧ lastRefill b' = lastRefill b
  ∧ (fval (tokens b') == fval (tokens b) - (if ans : bool then 1 else 0))%Q.
Proof.
  intros Hl [Fb Vb]. unfold spend. destruct (float64_of_nonneg 1 ltac:(done)) as [F1 V1].
  destruct (fge (tokens b) (float64_of_Z 1)) eqn:E; [|split; [done|]; split; [done|]; ring].
  apply fge_nonneg in E; [|done..]. rw V1 in E.
  assert (inject_Z B <= inject_Z (2 ^ 53))%Q by (apply inject_le; lia).
  destruct (fsub_one (tokens b) Fb E ltac:(lra)) as [Fs Vs]. change fone with (float64_of_Z 1) in *.
  split; [|by split]. split; [done|]. simpl. lra.
Qed.

(** A request: the bucket it finds, refills and takes a token from. *)
Lemma allow_bucket l client now : client ≠ "" → bounded l → configured l →
  let '(ans, _, l') := allow map_order l client now in
  ∃ b b', bounded l' ∧ configured l' ∧ maxClients l' = maxClients l
    ∧ (clients l !! client = Some b ∨ clients l !! client = None ∧ b = mkBucket (burst l) now now)
    ∧ clients l' !! client = Some b'
    ∧ (∀ c x, c ≠ client → clients l' !! c = Some x → clients l !! c = Some x)
    ∧ (bucket_ok b → bucket_ok b' ∧ lastRefill b <= lastRefill b' ∧ (lastRefill b' = lastRefill b ∨ lastRefill b' = now)
       ∧ (fval (tokens b') + (if ans : bool then 1 else 0)
          <= fval (tokens b) + inject_Z B * ulp + inject_Z (lastRefill b' - lastRefill b) * per_ns * (1 + slack))%Q).
Proof.
  intros Hc Hb Hl. unfold allow. destruct (find_bucket map_order l client now) as [b l1] eqn:Ef.
  destruct (find_bucket_bounded map_order Hmap_order _ _ _ _ _ Hc Hb Ef) as ((Hn&H1&Hs)&Hk&Er&Eb&Em&Hfound&Hothers).
  assert (Hl1 : configured l1) by (unfold configured; by rw Er Eb).
  destruct (spend l1 (refill l1 now b)) as [[ans d] b'] eqn:Es. exists b, b'. split; [|split; [done|split; [done|]]].
  - split; [|split; [done|]]; simpl; [|by rw map_size_insert Hk /=].
    intros k x Hx. simpl in Hx. apply lookup_insert_Some in Hx as [[<- _]|[_ Hx]]; [done|by apply (Hn k x)].
  - split; [naive_solver|]. split; [apply lookup_insert_eq|]. split.
    { intros c x Hne Hx. simpl in Hx. rw lookup_insert_ne // in Hx. by apply Hothers. }
    intros Hok. destruct (refill_up l1 now b Hl1 Hok) as (Hok1&Hle&Hor&Hup).
    pose proof (spend_ok l1 _ Hl1 Hok1) as Hsp. rw Es in Hsp. destruct Hsp as (Hok2&El&Ev). rw El.
    split; [done|]. split; [done|]. split; [done|]. destruct ans; lra.
Qed.

Lemma asked_cons c e log : asked c (e :: log) = (if bool_decide (e.1 = c) then 1 else 0) + asked c log.
Proof. unfold asked. rw filter_cons. case_decide as E; [rw bool_decide_true //|rw bool_decide_false //]; cbn [length]; lia. Qed.

Lemma granted_cons c e log : granted c (e :: log) = (if bool_decide (e.1 = c) && e.2 then 1 else 0) + granted c log.
Proof.
  unfold granted. rw filter_cons. destruct (bool_decide_reflect (e.1 = c)), (e.2) eqn:E2;
    case_decide as E; cbn [length andb]; (naive_solver || lia).
Qed.

(** What a client can still be granted. *)
Definition budget (b : authRateBucket) (t1 : time) (n : Z) : Q :=
  (fval (tokens b) + inject_Z n * (inject_Z B * ulp) + inject_Z (t1 - lastRefill b) * per_ns * (1 + slack))%Q.

Lemma budget_step b b' t1 n (ans : bool) :
  (fval (tokens b') + (if ans then 1 else 0)
   <= fval (tokens b) + inject_Z B * ulp + inject_Z (lastRefill b' - lastRefill b) * per_ns * (1 + slack))%Q →
  (budget b' t1 n + (if ans then 1 else 0) <= budget b t1 (1 + n))%Q.
Proof.
  unfold budget. replace (t1 - lastRefill b) with ((t1 - lastRefill b') + (lastRefill b' - lastRefill b)) by lia.
  generalize (lastRefill b' - lastRefill b). intros d Hs. rw !inject_Z_plus. change (inject_Z 1) with 1%Q. lra.
Qed.

Lemma budget_nonneg b t1 n : bucket_ok b → lastRefill b <= t1 → 0 <= n → (0 <= budget b t1 n)%Q.
Proof.
  intros [Fb _] Hle Hn. pose proof (fval_nonneg _ Fb). pose proof ulp_small as [Hu _].
  assert (0 <= inject_Z n)%Q as H1 by (by apply (inject_le 0)). assert (0 <= inject_Z B)%Q as H2 by (apply (inject_le 0); lia).
  assert (0 <= inject_Z (t1 - lastRefill b))%Q as H3 by (apply (inject_le 0); lia). assert (0 <= 1 + slack)%Q as H4 by by vm_compute.
  pose proof (Qmult_le_0_compat _ _ H1 (Qmult_le_0_compat _ _ H2 (Qlt_le_weak _ _ Hu))).
  pose proof (Qmult_le_0_compat _ _ (Qmult_le_0_compat _ _ H3 per_ns_nonneg) H4). unfold budget. lra.
Qed.

Lemma new_bucket_ok now : bucket_ok (mkBucket (float64_of_Z B) now now).
Proof. destruct (float64_of_nonneg B ltac:(lia)) as [F V]. split; [done|]. simpl. rw V. apply Qle_refl. Qed.

(** What every admission of a client brings: a burst, and the refills from then on. *)
Definition allowance (t0 t1 : time) : Q := (inject_Z B + inject_Z (t1 - t0) * per_ns * (1 + slack))%Q.

Definition rounding (n : Z) : Q := (inject_Z n * (inject_Z B * ulp))%Q.

Lemma new_budget t0 now t1 n : t0 <= now →
  (budget (mkBucket (float64_of_Z B) now now) t1 n <= allowance t0 t1 + rounding n)%Q.
Proof.
  intros Hle. unfold budget, allowance, rounding. cbn [tokens lastRefill].
  destruct (float64_of_nonneg B ltac:(lia)) as [_ V].
  assert (inject_Z (t1 - now) * per_ns * (1 + slack) <= inject_Z (t1 - t0) * per_ns * (1 + slack))%Q; [|lra].
  apply Qmult_le_compat_r; [|by vm_compute]. apply Qmult_le_compat_r; [apply inject_le; lia|apply per_ns_nonneg].
Qed.

Lemma budget_rounding b t1 n : bucket_ok b → lastRefill b <= t1 → (rounding n <= budget b t1 n)%Q.
Proof.
  intros Hb Ht. pose proof (budget_nonneg b t1 0 Hb Ht ltac:(done)) as H0. revert H0. unfold budget, rounding.
  change (inject_Z 0) with 0%Q. rw Qmult_0_l. lra.
Qed.

Lemma drops_nonneg c l requests : 0 <= drops map_order c l requests.
Proof.
  revert l. induction requests as [|[addr now] requests IH]; intros l; simpl; [done|].
  pose proof (IH (allow map_order l (clientAddress addr) now).2). repeat case_match; lia.
Qed.

Lemma inject_one_plus (ans : bool) (g : Z) :
  (inject_Z ((if ans then 1 else 0) + g)%Z == (if ans then 1 else 0) + inject_Z g)%Q.
Proof. rw inject_Z_plus. by destruct ans. Qed.

(** What a client is granted in a run: what its bucket has left, if it has one, and an
    allowance for every time it is admitted anew. *)
Lemma run_client c t0 t1 requests l log l' : t0 <= t1 → bounded l → configured l →
  limiter_run map_order l requests = (log, l') → Forall (λ r, clientAddress r.1 = c → t0 <= r.2 <= t1) requests →
  (∀ b, clients l !! c = Some b → bucket_ok b ∧ lastRefill b <= t1) →
  (inject_Z (granted c log) <= match clients l !! c with
     | Some b => budget b t1 (asked c log) | None => allowance t0 t1 + rounding (asked c log) end
     + inject_Z (drops map_order c l requests) * allowance t0 t1)%Q.
Proof.
  intros H01. assert (0 <= allowance t0 t1)%Q as Hall.
  { pose proof (new_budget t0 t0 t1 0 ltac:(lia)) as Hn. revert Hn. unfold rounding. change (inject_Z 0) with 0%Q.
    rw Qmult_0_l. pose proof (budget_nonneg _ t1 0 (new_bucket_ok t0) H01 ltac:(done)). lra. }
  revert l log. induction requests as [|[addr now] requests IH]; intros l log Hb Hl Hrun Ht Hok.
  { simpl in Hrun. simplify_eq. simpl. change (inject_Z (granted c [])) with 0%Q. change (inject_Z 0) with 0%Q. rw Qmult_0_l.
    destruct (clients l' !! c) as [b|]; [destruct (Hok b eq_refl); pose proof (budget_nonneg b t1 0 ltac:(done) ltac:(done) ltac:(done)); change (asked c []) with 0; lra|].
    unfold rounding. change (inject_Z (asked c [])) with 0%Q. rw Qmult_0_l. lra. }
  simpl in Hrun |- *. apply list.Forall_cons in Ht as [Ht0 Ht]. simpl in Ht0.
  pose proof (allow_bucket l (clientAddress addr) now (clientAddress_nonempty addr) Hb Hl) as Ha.
  destruct (allow map_order l (clientAddress addr) now) as [[ans d] l1].
  destruct Ha as (b0&b1&Hb1&Hl1&Em&Hf&Hk1&Hoth&Hstep). simpl.
  destruct (limiter_run map_order l1 requests) as [log1 l2] eqn:Er. simplify_eq. rw asked_cons granted_cons. simpl.
  specialize (IH l1 log1 Hb1 Hl1 Er Ht). set (D := drops map_order c l1 requests) in *.
  destruct (bool_decide_reflect (clientAddress addr = c)) as [<-|Hne].
  - rw Hk1 in IH |- *.
    assert (bucket_ok b0 ∧ lastRefill b0 <= t1) as [Hok0 Hle0].
    { destruct Hf as [Hf|[_ ->]]; [by apply Hok|]. destruct Hl as [_ ->]. split; [apply new_bucket_ok|simpl; lia]. }
    destruct (Hstep Hok0) as (Hok1&Hle1&Hor&Hup).
    assert (Hg := IH ltac:(intros b [= <-]; split; [done|naive_solver lia])).
    pose proof (budget_step b0 b1 t1 (asked (clientAddress addr) log1) ans Hup) as Hst.
    assert (budget b0 t1 (1 + asked (clientAddress addr) log1) <= match clients l !! clientAddress addr with
      | Some b => budget b t1 (1 + asked (clientAddress addr) log1)
      | None => allowance t0 t1 + rounding (1 + asked (clientAddress addr) log1) end)%Q as Hm.
    { destruct Hf as [->|[-> ->]]; [apply Qle_refl|]. destruct Hl as [_ ->]. apply new_budget. lia. }
    rw (inject_one_plus ans). destruct (clients l !! clientAddress addr); rw Z.add_0_l; lra.
  - cbn [andb]. rw !Z.add_0_l. destruct (clients l1 !! c) as [x|] eqn:Ex.
    + assert (clients l !! c = Some x) as Hx by by apply Hoth. rw Hx. rw Z.add_0_l. apply IH.
      intros b [= <-]. by apply Hok.
    + assert (Hg := IH ltac:(done)). destruct (clients l !! c) as [b|] eqn:Eb; [|by rw Z.add_0_l].
      destruct (Hok b eq_refl) as [Hok0 Hle0]. pose proof (budget_rounding b t1 (asked c log1) Hok0 Hle0).
      rw (inject_one_plus true). rw Qmult_plus_distr_l. lra.
Qed.

Lemma run_bounded requests l log l' : bounded l → configured l → limiter_run map_order l requests = (log, l') →
  bounded l' ∧ maxClients l' = maxClients l.
Proof.
  revert l log. induction requests as [|[addr now] requests IH]; intros l log Hb Hl Hrun; simpl in Hrun; [by simplify_eq|].
  pose proof (allow_bucket l (clientAddress addr) now (clientAddress_nonempty addr) Hb Hl) as Ha.
  destruct (allow map_order l (clientAddress addr) now) as [[ans d] l1]. destruct Ha as (?&?&Hb1&Hl1&Em&_).
  destruct (limiter_run map_order l1 requests) as [log1 l2] eqn:Er. simplify_eq.
  destruct (IH l1 log1 Hb1 Hl1 Er) as [? ->]. by rw Em.
Qed.

(** The bound on integers. *)
Lemma budget_integers t0 t1 n k g :
  (inject_Z g <= allowance t0 t1 + rounding n + inject_Z k * allowance t0 t1)%Q → 0 <= n →
  g * (60 * Second) * 2 ^ 50
  <= (1 + k) * (B * (60 * Second) * 2 ^ 50 + (t1 - t0) * R * (2 ^ 50 + 1)) + n * B * (60 * Second).
Proof.
  unfold allowance, rounding. intros Hg Hn.
  assert (0 <= inject_Z n * inject_Z B)%Q as Hnb by (rw -inject_Z_mult; apply (inject_le 0); nia).
  assert (inject_Z n * (inject_Z B * ulp) <= inject_Z n * inject_Z B * slack)%Q as Hs.
  { rw Qmult_assoc !(Qmult_comm (inject_Z n * inject_Z B)). apply Qmult_le_compat_r; [by vm_compute|done]. }
  assert (per_ns * inject_Z (60 * Second) == inject_Z R)%Q as Ep by (unfold per_ns; field; by vm_compute).
  assert (slack * inject_Z (2 ^ 50) == 1)%Q as E50 by by vm_compute.
  assert (0 <= inject_Z (60 * Second))%Q as HM by by vm_compute. assert (0 <= inject_Z (2 ^ 50))%Q as HP by by vm_compute.
  revert Ep E50 HM HP. revert Hg. generalize (60 * Second), (2 ^ 50), (t1 - t0). intros M P d Hg Ep E50 HM HP.
  rw Zle_Qle. apply (Qle_trans _ (((1 + inject_Z k) * (inject_Z B + inject_Z d * per_ns * (1 + slack))
    + inject_Z n * inject_Z B * slack) * inject_Z M * inject_Z P)).
  - rw !inject_Z_mult. apply Qmult_le_compat_r; [|done]. apply Qmult_le_compat_r; [|done]. rw Qmult_plus_distr_l Qmult_1_l. lra.
  - apply Qle_lteq. right. rw !(inject_Z_plus, inject_Z_mult). change (inject_Z 1) with 1%Q. rw -Ep. revert E50.
    generalize slack. intros u E. transitivity
      ((1 + inject_Z k) * (inject_Z B * inject_Z M * inject_Z P
         + inject_Z d * per_ns * inject_Z M * inject_Z P + inject_Z d * per_ns * inject_Z M * (u * inject_Z P))
       + inject_Z n * inject_Z B * inject_Z M * (u * inject_Z P))%Q; [ring|].
    rw E. ring.
Qed.
End tokens.

(** ** Buckets that stay *)

Section stay.
Context (map_order : gmap string authRateBucket → list (string * authRateBucket)).
Context `{GoArch}.
Context (known : gset string) (s0 s1 : time).

(** Few clients, all seen lately. *)
Definition lately (l : AuthRateLimiter) : Prop :=
  Z.of_nat (size known) <= maxClients l ∧ s1 - s0 < entryTTL l ∧ 0 < entryTTL l
  ∧ map_Forall (λ k b, k ∈ known ∧ s0 <= lastSeen b) (clients l).

(** Nothing expires then, and there is room for everybody. *)
Lemma find_bucket_stays l client now :
  lately l → client ∈ known → now <= s1 →
  ∃ b, find_bucket map_order l client now = (b, set_clients (<[client := b]> (clients l)) l).
Proof.
  intros (Hs&Httl&Hpos&Hall) Hk Hnow. unfold find_bucket. destruct (clients l !! client) as [b|] eqn:E.
  { exists b. rw insert_id //. by destruct l. }
  assert (removeExpired l now = l) as ->.
  { unfold removeExpired. rw map_filter_id; [|by destruct l].
    intros k b Hb. destruct (Hall k b Hb) as [_ Hseen]. simpl. unfold time_Sub, MinInt64 in *. lia. }
  destruct (Z.leb_spec (maxClients l) (Z.of_nat (size (clients l)))) as [Hfull|_]; [exfalso|by eexists].
  assert ({[client]} ∪ dom (clients l) ⊆ known) as Hsub.
  { apply union_subseteq. split; [set_solver|]. intros k [b Hb]%elem_of_dom. by apply (Hall k b). }
  apply subseteq_size in Hsub. rw size_union in Hsub; [apply disjoint_singleton_l; by apply not_elem_of_dom|].
  rw size_singleton size_dom in Hsub. lia.
Qed.

Lemma spend_seen l now b : lastSeen (spend l (refill l now b)).2 = now.
Proof. unfold spend, refill. by destruct (fgt _ _), (fge _ _). Qed.

Lemma allow_stays l client now :
  lately l → client ∈ known → s0 <= now <= s1 →
  let l' := (allow map_order l client now).2 in lately l' ∧ dom (clients l) ⊆ dom (clients l').
Proof.
  intros Hl Hk Hnow. destruct (find_bucket_stays l client now Hl Hk ltac:(lia)) as [b E]. unfold allow. rw E.
  destruct (spend _ _) as [[ans d] b'] eqn:Es. simpl. rw insert_insert_eq. split; [|set_solver].
  destruct Hl as (Hs&Httl&Hpos&Hall). split; [done|]. split; [done|]. split; [done|].
  apply map_Forall_insert_2; [|done]. split; [done|].
  assert (lastSeen b' = now) as ->; [|lia]. pose proof (spend_seen (set_clients (<[client:=b]> (clients l)) l) now b) as Hseen.
  by rw Es in Hseen.
Qed.

Lemma drops_none c requests l :
  lately l → Forall (λ r, clientAddress r.1 ∈ known ∧ s0 <= r.2 <= s1) requests → drops map_order c l requests = 0.
Proof.
  revert l. induction requests as [|[addr now] requests IH]; intros l Hl Hr; simpl; [done|].
  apply list.Forall_cons in Hr as [[Hk Ht] Hr]. destruct (allow_stays l (clientAddress addr) now Hl Hk Ht) as [Hl' Hdom].
  rw (IH _ Hl' Hr). destruct (clients l !! c) as [b|] eqn:E; [|done].
  assert (is_Some (clients (allow map_order l (clientAddress addr) now).2 !! c)) as [b' ->]; [|done].
  apply elem_of_dom, Hdom. by apply elem_of_dom_2 in E.
Qed.
End stay.

(** C37. However requests come in, the limiter never remembers more than MaxClients
    clients.  Every time a client is admitted anew, at first and after its bucket was
    dropped, it is let through at most Burst times plus RequestsPerMinute times per
    minute that passed between its first and its last request, up to the rounding of
    float64: one part in 2^50 of the allowance, and one part in 2^50 of the burst per
    request.  A bucket is dropped when it was idle for EntryTTL or as the oldest one
    when the limiter is full; never, when no more than MaxClients addresses send
    requests and these come within EntryTTL.  The rate and the burst are below 2^53
    (the configuration allows 100000 and 10000), and a map is visited in any order. *)
Theorem credential_requests_limited map_order `{GoArch} cfg l requests log l' c t0 t1 :
  (∀ m, map_order m ≡ₚ map_to_list m) →
  NewAuthRateLimiter cfg = Ok l → RequestsPerMinute cfg < 2 ^ 53 → Burst cfg < 2 ^ 53 →
  limiter_run map_order l requests = (log, l') →
  Z.of_nat (size (clients l')) <= MaxClients cfg
  ∧ (t0 <= t1 → Forall (λ r, clientAddress r.1 = c → t0 <= r.2 <= t1) requests →
     granted c log * (60 * Second) * 2 ^ 50
     <= (1 + drops map_order c l requests)
        * (Burst cfg * (60 * Second) * 2 ^ 50 + (t1 - t0) * RequestsPerMinute cfg * (2 ^ 50 + 1))
        + asked c log * Burst cfg * (60 * Second))
  ∧ (∀ (known : gset string) s0 s1, Z.of_nat (size known) <= MaxClients cfg → s1 - s0 < EntryTTL cfg →
     Forall (λ r, clientAddress r.1 ∈ known ∧ s0 <= r.2 <= s1) requests → drops map_order c l requests = 0).
Proof.
  intros Hmo Hnew HR HB Hrun. unfold NewAuthRateLimiter in Hnew. case_match eqn:Hv; [done|]. simplify_eq.
  set (l := mkAuthRateLimiter _ _ _ _ _) in *.
  assert (Hb : bounded l) by (split; [apply map_Forall_empty|]; simpl; rw map_size_empty; lia).
  assert (Hl : configured (RequestsPerMinute cfg) (Burst cfg) l) by done.
  split; [|split].
  - destruct (run_bounded (RequestsPerMinute cfg) (Burst cfg) ltac:(lia) ltac:(lia) map_order Hmo _ _ _ _ Hb Hl Hrun) as [(_&_&Hs) Em]. by rw Em in Hs.
  - intros H01 Ht. apply budget_integers; [lia..| |unfold asked; lia].
    eapply (run_client (RequestsPerMinute cfg) (Burst cfg) ltac:(lia) ltac:(lia) map_order Hmo c t0 t1 requests l); eauto.
    intros b Hc. simpl in Hc. by rw lookup_empty in Hc.
  - intros known s0 s1 Hsize Httl Hall. apply (drops_none map_order known s0 s1); [|done].
    split; [done|]. split; [done|]. split; [simpl; lia|apply map_Forall_empty].
Qed.

(** Thirteen requests within a second against a burst of ten and sixty a minute. *)
Definition example_limits : AuthRateLimitConfig := mkAuthRateLimitConfig 60 10 10000 (15 * Minute).
Definition example_limiter : AuthRateLimiter :=
  mkAuthRateLimiter (fdiv (float64_of_Z 60) (float64_of_Z (Minute / Second))) (float64_of_Z 10) 10000 (15 * Minute) ∅.
Definition example_requests : list (string * time) :=
  (λ i : nat, ("203.0.113.7:4000", 1000 * Second + Z.of_nat i / 10 * Second)) <$> seq 0 13.

Definition example_run : list (string * bool) * AuthRateLimiter :=
  limiter_run (H := amd64) map_to_list example_limiter example_requests.

Lemma example_granted : granted "203.0.113.7" example_run.1 = 11 ∧ asked "203.0.113.7" example_run.1 = 13.
Proof. vm_compute. done. Qed.

Lemma example_times :
  Forall (λ r, clientAddress r.1 = "203.0.113.7" → 1000 * Second <= r.2 <= 1001 * Second) example_requests.
Proof. apply list.Forall_forall. intros r (i&->&Hi)%list_elem_of_fmap. apply elem_of_seq in Hi. simpl. intros _.
  assert (0 <= Z.of_nat i / 10 <= 1) by (split; [apply Z.div_pos|apply Z.lt_succ_r, Z.div_lt_upper_bound]; lia). unfold Second. lia.
Qed.

Lemma example_seen : Forall (λ r, clientAddress r.1 ∈ ({["203.0.113.7"]} : gset string) ∧ 1000 * Second <= r.2 <= 1001 * Second) example_requests.
Proof.
  apply list.Forall_forall. intros r Hr.
  assert (clientAddress r.1 = "203.0.113.7") as Hc by (apply list_elem_of_fmap in Hr as (i&->&_); vm_compute; reflexivity).
  split; [by apply elem_of_singleton|]. by apply (proj1 (list.Forall_forall _ _) example_times).
Qed.

Lemma credential_requests_limited_witness :
  Z.of_nat (size (clients example_run.2)) <= 10000
  ∧ drops (H := amd64) map_to_list "203.0.113.7" example_limiter example_requests = 0
  ∧ granted "203.0.113.7" example_run.1 * (60 * Second) * 2 ^ 50
    <= (10 * (60 * Second) * 2 ^ 50 + Second * 60 * (2 ^ 50 + 1)) + 13 * 10 * (60 * Second).
Proof.
  destruct (credential_requests_limited (H := amd64) map_to_list example_limits example_limiter example_requests example_run.1
    example_run.2 "203.0.113.7" (1000 * Second) (1001 * Second)) as (Hs&Hg&Hd).
  - done.
  - done.
  - done.
  - done.
  - by destruct example_run eqn:E.
  - assert (drops (H := amd64) map_to_list "203.0.113.7" example_limiter example_requests = 0) as E.
    { apply (Hd {["203.0.113.7"]} (1000 * Second) (1001 * Second)); [done|done|exact example_seen]. }
    split; [exact Hs|]. split; [exact E|]. specialize (Hg ltac:(done) example_times).
    rw E (proj2 example_granted) in Hg. exact Hg.
Defined.

(** Two clients that take turns at a limiter with room for one: each request drops the
    bucket of the other client, and none is ever refused. *)
Definition crowded_limits : AuthRateLimitConfig := mkAuthRateLimitConfig 1 1 1 (15 * Minute).
Definition crowded_requests : list (string * time) :=
  (λ i : nat, (if Nat.even i then "203.0.113.7:4000" else "203.0.113.8:4000", 1000 * Second + Z.of_nat i)) <$> seq 0 10.

Example crowded_limiter_refuses_none :
  match NewAuthRateLimiter crowded_limits with
  | Ok l => granted "203.0.113.7" (limiter_run (H := amd64) map_to_list l crowded_requests).1 = 5
            ∧ drops (H := amd64) map_to_list "203.0.113.7" l crowded_requests = 5
  | Err _ => False
  end.
Proof. vm_compute. done. Qed.
