(* ===== verification/Http.v ===== *)
(** The HTTP side of src/go/internal/httpapi: requests, responses, the services the
    handlers call, the problems errors are reported as, and the readers of path,
    query and body values the handlers share. *)

From S2P Require Import Prelude GoStrings Json GoValue JobModel Schema JobStore Upload UploadModel Svc DatasetStore SessionStore Authz.
From S2P Require Import Dlq JobService ResultReads DatasetService MultipartService QualityStore Tokens IdentityStore IdentityService JsonDecode.
From Stdlib Require Import ZifyBool ZifyN.

Open Scope Z_scope.

(** ** Requests and responses *)

(** A request, with what the router (the path parameters) and the middlewares (the
    request id, the principal) add to its context.  Lists give the first value of a
    name first; header names are in canonical form. *)
Record Request := mkRequest {
  rq_Method : string; rq_Path : string; rq_params : list (string * string); rq_query : list (string * string);
  rq_header : list (string * string); rq_ContentLength : Z; rq_Body : Reader; rq_RemoteAddr : string;
  rq_RequestID : string; rq_principal : option Principal
}.

Definition URLParam (r : Request) (name : string) : string := default "" (assoc_first name (rq_params r)).
Definition Query_Get (r : Request) (name : string) : string := default "" (assoc_first name (rq_query r)).
Definition Header_Get (r : Request) (name : string) : string := default "" (assoc_first name (rq_header r)).

Record userResponse := mkUserResponse { urs_ID : uuid; urs_Email : string; urs_Role : string; urs_Scopes : list string }.

Record tokenResponse := mkTokenResponse {
  tkr_AccessToken : string; tkr_RefreshToken : string; tkr_TokenType : string; tkr_ExpiresAt : time; tkr_User : userResponse
}.

Record createdAPIKeyResponse := mkCreatedAPIKeyResponse {
  ckr_ID : uuid; ckr_Name : string; ckr_Prefix : string; ckr_Scopes : list string; ckr_CreatedAt : time; ckr_APIKey : string
}.

Record apiKeyResponse := mkAPIKeyResponse {
  akr_ID : uuid; akr_Name : string; akr_Prefix : string; akr_Scopes : list string; akr_CreatedAt : time;
  akr_LastUsedAt : option time; akr_RevokedAt : option time
}.

(** A page of [A]s, as every listing answers with. *)
Record listResponse (A : Type) := mkListResponse { lr_Items : list A; lr_Page : Z; lr_PageSize : Z; lr_Total : Z }.
Arguments mkListResponse {A} _ _ _ _.
Arguments lr_Items {A} _.
Arguments lr_Page {A} _.
Arguments lr_PageSize {A} _.
Arguments lr_Total {A} _.

(** The values the handlers give to the JSON encoder. *)
Inductive Payload :=
  | PStatus (status : string)
  | PToken (t : tokenResponse)
  | PCreatedKey (k : createdAPIKeyResponse)
  | PKeys (l : list apiKeyResponse)
  | PJob (j : JobRow)
  | PJobs (l : listResponse JobRow)
  | PDataset (d : Dataset)
  | PDatasets (l : listResponse Dataset)
  | PDatasetDetail (d : Dataset) (versions : list DatasetVersion)
  | PVersion (v : DatasetVersion)
  | PSession (s : Session)
  | PSessionDetail (s : Session) (parts : list Part)
  | PParts (parts : list Part)
  | PPartURL (u : PartURL)
  | PPart (p : Part)
  | PRule (r : Rule)
  | PRules (l : listResponse Rule)
  | PArtifact (a : ArtifactRow)
  | PArtifacts (l : listResponse ArtifactRow)
  | PProgress (p : ProgressSnapshot)
  | PProgressPage (p : ProgressPage)
  | PDeadLetters (p : DlqPage)
  | PReplay (r : ReplayResult).

(** What a request is answered with: a problem, one with a [Retry-After] header, a
    JSON value, a status alone, an artifact, and what the Prometheus library and the
    router write of themselves. *)
Inductive Response :=
  | Problem (status : Z) (code message requestID : string)
  | RateLimited (retryAfter : Z) (requestID : string)
  | JSON (status : Z) (body : Payload)
  | NoContent
  | Download (contentType : string) (length : Z) (filename : string) (body : option (list N))
  | MetricsPage
  | Unrouted (status : Z).

Definition WriteProblem (r : Request) (status : Z) (code message : string) : Response :=
  Problem status code message (rq_RequestID r).

(** The status line. *)
Definition status (x : Response) : Z :=
  match x with
  | Problem s _ _ _ => s | RateLimited _ _ => 429 | JSON s _ => s | NoContent => 204 | Download _ _ _ _ => 200 | MetricsPage => 200 | Unrouted s => s
  end.

(** ** The services

    What the handlers call, as operations on a state [W] of everything behind them. *)
Definition Call (W A : Type) := W → sres A * W.

Record IdentityAPI (W : Type) := mkIdentityAPI {
  id_Register : string → string → string → Call W (User * TokenPair);
  id_Login : string → string → string → Call W (User * TokenPair);
  id_Refresh : string → string → Call W (User * TokenPair);
  id_Logout : string → string → Call W unit;
  id_AuthenticateBearer : string → Call W Principal;
  id_AuthenticateAPIKey : string → Call W Principal;
  id_CreateAPIKey : Principal → string → list string → string → Call W CreatedAPIKey;
  id_ListAPIKeys : Principal → Call W (list APIKey);
  id_RevokeAPIKey : Principal → uuid → string → Call W unit
}.

Record JobAPI (W : Type) := mkJobAPI {
  job_Create : Principal → uuid → CreateRequest → string → string → Call W (JobRow * bool);
  job_List : Principal → Z → Z → string → Call W JobPage;
  job_Get : Principal → uuid → Call W JobRow;
  job_Cancel : Principal → uuid → string → string → Call W JobRow;
  job_Retry : Principal → uuid → string → Call W JobRow
}.

Record DatasetAPI (W : Type) := mkDatasetAPI {
  ds_Create : Principal → string → string → Call W Dataset;
  ds_List : Principal → Z → Z → string → string → Call W DatasetPage;
  ds_Get : Principal → uuid → Call W (Dataset * list DatasetVersion);
  ds_Delete : Principal → uuid → Call W unit;
  ds_UploadVersion : Principal → uuid → UploadRequest → Call W DatasetVersion
}.

Record MultipartAPI (W : Type) := mkMultipartAPI {
  mu_Initiate : Principal → uuid → InitiateRequest → Call W Session;
  mu_Get : Principal → uuid → Call W (Session * list Part);
  mu_ListParts : Principal → uuid → Call W (list Part);
  mu_PresignPart : Principal → uuid → Z → Call W PartURL;
  mu_RegisterPart : Principal → uuid → Z → string → Z → Call W Part;
  mu_Complete : Principal → uuid → list CompletePart → Call W DatasetVersion;
  mu_Abort : Principal → uuid → Call W unit
}.

Record QualityAPI (W : Type) := mkQualityAPI {
  qa_Create : Principal → RuleCreateRequest → Call W Rule;
  qa_List : Principal → option uuid → Z → Z → Call W RulePage;
  qa_Get : Principal → uuid → Call W Rule;
  qa_Update : Principal → uuid → RuleUpdateRequest → Call W Rule;
  qa_Delete : Principal → uuid → Call W unit
}.

Record ResultAPI (W : Type) := mkResultAPI {
  re_ListArtifacts : Principal → option uuid → string → Z → Z → Call W ArtifactPage;
  re_GetArtifact : Principal → uuid → Call W ArtifactRow;
  re_GetProgress : Principal → uuid → Call W ProgressSnapshot;
  re_ListProgress : Principal → uuid → Z → Z → Call W ProgressPage;
  re_OpenArtifact : Principal → uuid → Call W (ArtifactRow * Reader)
}.

Record DlqAPI (W : Type) := mkDlqAPI {
  dlq_List : Principal → Z → Z → bool → Call W DlqPage;
  dlq_Replay : Principal → ReplayCommand → Call W ReplayResult
}.

(** ** Handlers

    A handler writes its response and returns early, or goes on. *)
Definition H (W A : Type) := W → (Response + A) * W.

#[export] Instance h_ret {W} : MRet (H W) := λ A a w, (inr a, w).
#[export] Instance h_bind {W} : MBind (H W) := λ A B f m w,
  match m w with
  | (inr a, w') => f a w'
  | (inl x, w') => (inl x, w')
  end.

Definition respond {W A} (x : Response) : H W A := λ w, (inl x, w).

Definition run_handler {W} (m : H W Response) : W → Response * W := λ w,
  match m w with (inl x, w') | (inr x, w') => (x, w') end.

(** A call whose error [write] reports. *)
Definition call {W A} (write : Request → list GoError → Response) (r : Request) (m : Call W A) : H W A := λ w,
  match m w with
  | (SOk a, w') => (inr a, w')
  | (SErr l, w') => (inl (write r l), w')
  end.

(** The result of a function without effects. *)
Definition check {W A} (write : Request → list GoError → Response) (r : Request) (x : res A) : H W A :=
  call write r (λ w, (sres_of x, w)).

(** [switch { case errors.Is(err, ...): ... default: ... }]. *)
Fixpoint error_case (err : list GoError) (cases : list (list GoError * (Z * string * string))) (otherwise : Z * string * string)
  : Z * string * string :=
  match cases with
  | [] => otherwise
  | (sentinels, x) :: cases => if existsb (errors_Is err) sentinels then x else error_case err cases otherwise
  end.

Definition write_case (r : Request) (x : Z * string * string) : Response := WriteProblem r x.1.1 x.1.2 x.2.

Definition unauthenticated : Z * string * string := (401, "UNAUTHENTICATED", "Authentication is required.").
Definition forbidden : Z * string * string :=
  (403, "FORBIDDEN", "The authenticated principal is not allowed to perform this operation.").

(** [principalFromRequest]. *)
Definition principalFromRequest (r : Request) : option Principal :=
  p ← rq_principal r; if bool_decide (UserID p = uuid_nil) then None else Some p.

(** The principal of a handler, or a problem. *)
Definition principal_or {W} (write : Request → list GoError → Response) (r : Request) : H W Principal :=
  match principalFromRequest r with Some p => mret p | None => respond (write r [ErrUnauthenticated]) end.

(** ** Request bodies

    [decodeIdentityJSON], [decodeJobJSON], [decodeDatasetJSON], [decodeMultipartJSON]
    and [decodeQualityJSON] differ in the limit and in the first message. *)
Definition decodeJSON {W A} (limit : Z) (message : string) (dec : Dec A) (zero : A) (r : Request) : H W A :=
  match decode_body limit dec zero (rq_Body r) with
  | DecodeOk x => mret x
  | DecodeInvalid => respond (WriteProblem r 400 "INVALID_REQUEST" message)
  | DecodeTrailing => respond (WriteProblem r 400 "INVALID_REQUEST" "The request body must contain one JSON value.")
  end.

(** ** Path and query values *)

(** [strconv.Atoi]. *)
Definition Atoi (s : string) : option Z :=
  let '(neg, l) := match bytes_of s with
                   | 45%N :: l => (true, l)
                   | 43%N :: l => (false, l)
                   | l => (false, l)
                   end in
  if bool_decide (l = []) || negb (forallb is_digit l) then None
  else let z := signed neg (digits_value l) in
       if (MinInt64 <=? z) && (z <=? MaxInt64) then Some z else None.

(** [strconv.ParseBool]. *)
Definition ParseBool (s : string) : option bool :=
  if bool_decide (s ∈ ["1"; "t"; "T"; "true"; "TRUE"; "True"]) then Some true
  else if bool_decide (s ∈ ["0"; "f"; "F"; "false"; "FALSE"; "False"]) then Some false
  else None.

Definition parsePositiveQueryInt (r : Request) (name : string) : res Z :=
  let value := trim_space (Query_Get r name) in
  if bool_decide (value = "") then Ok 0
  else match Atoi value with
       | Some parsed => if parsed <? 1 then Err ErrDatasetInvalidInput else Ok parsed
       | None => Err ErrDatasetInvalidInput
       end.

(** A pagination whose errors are reported as [e]. *)
Definition parse_pagination (e : GoError) (r : Request) : res (Z * Z) :=
  page ← wrap_err e (parsePositiveQueryInt r "page");
  pageSize ← wrap_err e (parsePositiveQueryInt r "pageSize");
  _ ← guard_err (pageSize <=? 100) e;
  Ok (page, pageSize).

Definition parse_id `{UuidParser} (e : GoError) (name : string) (r : Request) : res uuid :=
  match uuid_Parse (URLParam r name) with Some u => Ok u | None => Err e end.

(** ** Lemmas *)

Lemma run_handler_bind {W A} (m : H W A) (f : A → H W Response) w :
  run_handler (m ≫= f) w = match m w with (inl x, w') => (x, w') | (inr a, w') => run_handler (f a) w' end.
Proof. unfold run_handler, mbind, h_bind. by destruct (m w) as [[?|?] ?]. Qed.

Lemma Atoi_range s z : Atoi s = Some z → MinInt64 <= z <= MaxInt64.
Proof.
  unfold Atoi. match goal with |- context [let '(_, _) := ?m in _] => destruct m as [neg l] end.
  repeat case_match; intros; simplify_eq. lia.
Qed.

Lemma parse_pagination_bounds e r page pageSize :
  parse_pagination e r = Ok (page, pageSize) → 0 <= page <= MaxInt64 ∧ 0 <= pageSize <= 100.
Proof.
  unfold parse_pagination. intros Hp. apply res_bind_Ok in Hp as (a&Ha&Hp). apply res_bind_Ok in Hp as (b&Hb&Hp).
  apply res_bind_Ok in Hp as (u&Hu&Hp). apply guard_err_Ok in Hu. simplify_eq.
  assert (∀ name z, wrap_err e (parsePositiveQueryInt r name) = Ok z → 0 <= z <= MaxInt64) as Hz.
  { intros name z. unfold parsePositiveQueryInt. repeat case_match; simpl; intros; simplify_eq; [unfold MaxInt64; lia|].
    match goal with E : Atoi _ = Some _ |- _ => apply Atoi_range in E end. lia. }
  apply Hz in Ha, Hb. lia.
Qed.
