(* ===== verification/HttpHandlers.v ===== *)
(** The handlers of src/go/internal/httpapi: credentials, API keys, jobs, datasets,
    multipart uploads, quality rules, results and dead letters. *)

From S2P Require Import Prelude GoStrings Json GoValue JobModel Schema JobStore Upload UploadModel Svc DatasetStore SessionStore Authz.
From S2P Require Import Dlq JobService ResultReads DatasetService MultipartService QualityStore Tokens IdentityStore IdentityService JsonDecode Http.

Open Scope Z_scope.

(** ** Request bodies *)

Definition maxIdentityRequestBytes : Z := 1048576.
Definition maxJobRequestBytes : Z := 64 * 1024.
Definition maxDatasetMetadataRequestBytes : Z := 64 * 1024.
Definition maxMultipartJSONRequestBytes : Z := 2 * 1024 * 1024.
Definition maxQualityRuleRequestBytes : Z := 64 * 1024.

Record credentialsRequest := mkCredentialsRequest { crq_Email : string; crq_Password : string }.

Definition dec_credentials : Dec credentialsRequest := dec_struct
  [("email", field crq_Email (λ v x, mkCredentialsRequest v (crq_Password x)) dec_string);
   ("password", field crq_Password (λ v x, mkCredentialsRequest (crq_Email x) v) dec_string)].

(** [refreshRequest] and [cancelJobRequest] have one field. *)
Definition dec_refresh : Dec string := dec_struct [("refreshToken", dec_string)].
Definition dec_cancel : Dec string := dec_struct [("reason", dec_string)].

Record createAPIKeyRequest := mkCreateAPIKeyRequest { kq_Name : string; kq_Scopes : option (list string) }.

Definition dec_create_key : Dec createAPIKeyRequest := dec_struct
  [("name", field kq_Name (λ v x, mkCreateAPIKeyRequest v (kq_Scopes x)) dec_string);
   ("scopes", field kq_Scopes (λ v x, mkCreateAPIKeyRequest (kq_Name x) v) (dec_slice "" dec_string))].

Record createDatasetRequest := mkCreateDatasetRequest { dq_Name : string; dq_Description : string }.

Definition dec_create_dataset : Dec createDatasetRequest := dec_struct
  [("name", field dq_Name (λ v x, mkCreateDatasetRequest v (dq_Description x)) dec_string);
   ("description", field dq_Description (λ v x, mkCreateDatasetRequest (dq_Name x) v) dec_string)].

(** [initiateMultipartRequest]; the handler copies it field by field. *)
Definition dec_initiate : Dec InitiateRequest := dec_struct
  [("filename", field ir_filename (λ v x, mkInitiateRequest v (ir_content_type x) (ir_expected_size x) (ir_expected_checksum x) (ir_idempotency_key x)) dec_string);
   ("contentType", field ir_content_type (λ v x, mkInitiateRequest (ir_filename x) v (ir_expected_size x) (ir_expected_checksum x) (ir_idempotency_key x)) dec_string);
   ("expectedSize", field ir_expected_size (λ v x, mkInitiateRequest (ir_filename x) (ir_content_type x) v (ir_expected_checksum x) (ir_idempotency_key x)) (dec_int 64));
   ("expectedChecksumSha256", field ir_expected_checksum (λ v x, mkInitiateRequest (ir_filename x) (ir_content_type x) (ir_expected_size x) v (ir_idempotency_key x)) dec_string);
   ("idempotencyKey", field ir_idempotency_key (λ v x, mkInitiateRequest (ir_filename x) (ir_content_type x) (ir_expected_size x) (ir_expected_checksum x) v) dec_string)].

Record registerMultipartPartRequest := mkRegisterPartRequest { rpq_ETag : string; rpq_SizeBytes : Z }.

Definition dec_register_part : Dec registerMultipartPartRequest := dec_struct
  [("etag", field rpq_ETag (λ v x, mkRegisterPartRequest v (rpq_SizeBytes x)) dec_string);
   ("sizeBytes", field rpq_SizeBytes (λ v x, mkRegisterPartRequest (rpq_ETag x) v) (dec_int 64))].

Definition dec_complete_part : Dec CompletePart := dec_struct
  [("partNumber", field cp_part_number (λ v x, mkCompletePart v (cp_etag x)) (dec_int 64));
   ("etag", field cp_etag (λ v x, mkCompletePart (cp_part_number x) v) dec_string)].

(** [multipart.CompleteRequest], whose only field is [Parts]. *)
Definition dec_complete : Dec (option (list CompletePart)) :=
  dec_struct [("parts", dec_slice (mkCompletePart 0 "") dec_complete_part)].

Section decoders.
Context `{!UuidParser, !FloatText}.

Definition dec_operation : Dec Operation := dec_struct
  [("type", field op_type (λ v x, mkOperation v (op_config x)) dec_string);
   ("config", field op_config (λ v x, mkOperation (op_type x) v) dec_map)].

(** [job.CreateRequest]; no operations and a nil slice are the same to the service. *)
Definition dec_create_job : Dec CreateRequest := dec_struct
  [("operations", field (λ x, Some (cr_Operations x)) (λ v x, mkCreateRequest (default [] v) (cr_Priority x) (cr_MaxAttempts x))
                    (dec_slice (mkOperation "" None) dec_operation));
   ("priority", field cr_Priority (λ v x, mkCreateRequest (cr_Operations x) v (cr_MaxAttempts x)) (dec_int 16));
   ("maxAttempts", field cr_MaxAttempts (λ v x, mkCreateRequest (cr_Operations x) (cr_Priority x) v) (dec_int 16))].

(** [createQualityRuleRequest], which has the fields of [quality.CreateRequest]. *)
Definition dec_create_rule : Dec RuleCreateRequest := dec_struct
  [("datasetId", field qc_DatasetID (λ v x, mkRuleCreateRequest v (qc_Name x) (qc_ColumnScope x) (qc_RuleType x) (qc_Configuration x) (qc_Severity x) (qc_Enabled x)) dec_uuid);
   ("name", field qc_Name (λ v x, mkRuleCreateRequest (qc_DatasetID x) v (qc_ColumnScope x) (qc_RuleType x) (qc_Configuration x) (qc_Severity x) (qc_Enabled x)) dec_string);
   ("columnScope", field qc_ColumnScope (λ v x, mkRuleCreateRequest (qc_DatasetID x) (qc_Name x) v (qc_RuleType x) (qc_Configuration x) (qc_Severity x) (qc_Enabled x)) (dec_slice "" dec_string));
   ("ruleType", field qc_RuleType (λ v x, mkRuleCreateRequest (qc_DatasetID x) (qc_Name x) (qc_ColumnScope x) v (qc_Configuration x) (qc_Severity x) (qc_Enabled x)) dec_string);
   ("configuration", field qc_Configuration (λ v x, mkRuleCreateRequest (qc_DatasetID x) (qc_Name x) (qc_ColumnScope x) (qc_RuleType x) v (qc_Severity x) (qc_Enabled x)) dec_map);
   ("severity", field qc_Severity (λ v x, mkRuleCreateRequest (qc_DatasetID x) (qc_Name x) (qc_ColumnScope x) (qc_RuleType x) (qc_Configuration x) v (qc_Enabled x)) dec_string);
   ("enabled", field qc_Enabled (λ v x, mkRuleCreateRequest (qc_DatasetID x) (qc_Name x) (qc_ColumnScope x) (qc_RuleType x) (qc_Configuration x) (qc_Severity x) v) (dec_ptr false dec_bool))].

(** [patchQualityRuleRequest], which has the fields of [quality.UpdateRequest]. *)
Definition dec_patch_rule : Dec RuleUpdateRequest := dec_struct
  [("name", field qu_Name (λ v x, mkRuleUpdateRequest v (qu_ColumnScope x) (qu_RuleType x) (qu_Configuration x) (qu_Severity x) (qu_Enabled x)) (dec_ptr "" dec_string));
   ("columnScope", field qu_ColumnScope (λ v x, mkRuleUpdateRequest (qu_Name x) v (qu_RuleType x) (qu_Configuration x) (qu_Severity x) (qu_Enabled x)) (dec_ptr None (dec_slice "" dec_string)));
   ("ruleType", field qu_RuleType (λ v x, mkRuleUpdateRequest (qu_Name x) (qu_ColumnScope x) v (qu_Configuration x) (qu_Severity x) (qu_Enabled x)) (dec_ptr "" dec_string));
   ("configuration", field qu_Configuration (λ v x, mkRuleUpdateRequest (qu_Name x) (qu_ColumnScope x) (qu_RuleType x) v (qu_Severity x) (qu_Enabled x)) (dec_ptr None dec_map));
   ("severity", field qu_Severity (λ v x, mkRuleUpdateRequest (qu_Name x) (qu_ColumnScope x) (qu_RuleType x) (qu_Configuration x) v (qu_Enabled x)) (dec_ptr "" dec_string));
   ("enabled", field qu_Enabled (λ v x, mkRuleUpdateRequest (qu_Name x) (qu_ColumnScope x) (qu_RuleType x) (qu_Configuration x) (qu_Severity x) v) (dec_ptr false dec_bool))].
End decoders.

(** ** Errors *)

Definition writeIdentityError (r : Request) (err : list GoError) : Response := write_case r (error_case err
  [([ErrIdentityInvalidInput; ErrInvalidScope], (400, "INVALID_REQUEST", "The request is invalid."));
   ([ErrEmailAlreadyExists], (409, "EMAIL_ALREADY_REGISTERED", "The email is already registered."));
   ([ErrInvalidCredentials; ErrRefreshTokenInvalid; ErrRefreshTokenReplay; ErrRefreshTokenExpired; ErrAPIKeyInvalid; ErrUnauthenticated], unauthenticated);
   ([ErrForbidden], forbidden);
   ([ErrAPIKeyNotFound], (404, "API_KEY_NOT_FOUND", "The API key was not found."))]
  (500, "INTERNAL_ERROR", "The server could not complete the request.")).

Definition writeJobError (r : Request) (err : list GoError) : Response := write_case r (error_case err
  [([ErrJobInvalidInput], (400, "INVALID_REQUEST", "The job request is invalid."));
   ([ErrUnauthenticated], unauthenticated);
   ([ErrForbidden], forbidden);
   ([ErrJobNotFound; ErrVersionNotFound; ErrDatasetNotFound; ErrDatasetVersionNotFound],
    (404, "NOT_FOUND", "The requested job resource was not found."));
   ([ErrIdempotencyConflict], (409, "IDEMPOTENCY_CONFLICT", "The idempotency key was reused with a different request."));
   ([ErrVersionUnavailable; ErrJobState; ErrInvalidTransition],
    (409, "JOB_STATE_CONFLICT", "The job or dataset version is not available for this operation."));
   ([ErrQuotaExceeded], (429, "JOB_QUOTA_EXCEEDED", "The job quota for this owner has been reached."))]
  (500, "INTERNAL_ERROR", "The server could not complete the job operation.")).

Definition writeDatasetError (r : Request) (err : list GoError) : Response := write_case r (error_case err
  [([ErrDatasetInvalidInput], (400, "INVALID_REQUEST", "The request is invalid."));
   ([ErrDatasetUploadTooLarge], (413, "UPLOAD_TOO_LARGE", "The upload exceeds the configured size limit."));
   ([ErrDatasetUploadSizeMismatch], (400, "UPLOAD_SIZE_MISMATCH", "The upload size does not match the request metadata."));
   ([ErrDatasetChecksumMismatch], (400, "CHECKSUM_MISMATCH", "The upload checksum does not match."));
   ([ErrUnauthenticated], unauthenticated);
   ([ErrForbidden], forbidden);
   ([ErrDatasetNameUsed], (409, "DATASET_NAME_USED", "A dataset with this name already exists for the owner."));
   ([ErrDatasetNotFound; ErrDatasetVersionNotFound], (404, "NOT_FOUND", "The requested dataset resource was not found."));
   ([ErrDatasetDeleted; ErrDatasetVersionState],
    (409, "RESOURCE_STATE_CONFLICT", "The dataset resource is not available for this operation."));
   ([ErrObjectStorage], (502, "STORAGE_ERROR", "The upload could not be stored."))]
  (500, "INTERNAL_ERROR", "The server could not complete the request.")).

Definition writeMultipartError (r : Request) (err : list GoError) : Response := write_case r (error_case err
  [([ErrMultipartInvalidInput], (400, "INVALID_REQUEST", "The multipart request is invalid."));
   ([ErrMultipartUploadTooLarge], (413, "UPLOAD_TOO_LARGE", "The upload exceeds the configured size limit."));
   ([ErrMultipartSizeMismatch],
    (400, "UPLOAD_SIZE_MISMATCH", "The upload part or object size does not match the request metadata."));
   ([ErrMultipartChecksumMismatch], (400, "CHECKSUM_MISMATCH", "The upload checksum does not match."));
   ([ErrUnauthenticated], unauthenticated);
   ([ErrForbidden], forbidden);
   ([ErrSessionNotFound; ErrPartNotFound; ErrDatasetNotFound], (404, "NOT_FOUND", "The requested upload resource was not found."));
   ([ErrSessionExpired], (409, "SESSION_EXPIRED", "The upload session has expired."));
   ([ErrSessionCompleted], (409, "SESSION_COMPLETED", "The upload session is already completed."));
   ([ErrSessionState; ErrSessionInProgress; ErrMultipartIdempotencyConflict; ErrPartConflict; ErrDatasetVersionState],
    (409, "RESOURCE_STATE_CONFLICT", "The upload session cannot be changed in its current state."));
   ([ErrRemoteStorage; ErrObjectStorage], (502, "STORAGE_ERROR", "The upload could not be stored or verified."));
   ([ErrDatasetDeleted], (409, "RESOURCE_STATE_CONFLICT", "The dataset is not available for this operation."))]
  (500, "INTERNAL_ERROR", "The server could not complete the request.")).

Definition writeQualityError (r : Request) (err : list GoError) : Response := write_case r (error_case err
  [([ErrQualityInvalidInput], (400, "INVALID_REQUEST", "The quality rule request is invalid."));
   ([ErrUnauthenticated], unauthenticated);
   ([ErrForbidden], forbidden);
   ([ErrRuleNameUsed], (409, "QUALITY_RULE_NAME_USED", "A quality rule with this name already exists for the dataset."));
   ([ErrRuleNotFound; ErrDatasetNotFound], (404, "NOT_FOUND", "The requested quality rule resource was not found."));
   ([ErrDatasetDeleted], (409, "RESOURCE_STATE_CONFLICT", "The dataset is not available for this operation."))]
  (500, "INTERNAL_ERROR", "The server could not complete the request.")).

Definition writeResultError (r : Request) (err : list GoError) : Response := write_case r (error_case err
  [([ErrUnauthenticated], unauthenticated);
   ([ErrForbidden], forbidden);
   ([ErrResultInvalidInput], (400, "INVALID_REQUEST", "The artifact request is invalid."));
   ([ErrArtifactNotFound], (404, "NOT_FOUND", "The requested artifact was not found."));
   ([ErrArtifactTooLarge], (413, "ARTIFACT_TOO_LARGE", "The artifact exceeds the download limit."));
   ([ErrArtifactUnavailable], (502, "ARTIFACT_UNAVAILABLE", "The artifact is temporarily unavailable."));
   ([ErrProgressNotFound], (404, "PROGRESS_NOT_FOUND", "No progress snapshot is available for this job."))]
  (500, "INTERNAL_ERROR", "The server could not complete the artifact request.")).

Definition writeDLQError (r : Request) (err : list GoError) : Response := write_case r (error_case err
  [([ErrUnauthenticated], unauthenticated);
   ([ErrForbidden], forbidden);
   ([ErrDlqInvalidInput], (400, "INVALID_REQUEST", "The dead-letter request is invalid."));
   ([ErrDlqNotFound], (404, "NOT_FOUND", "The dead-letter record was not found."));
   ([ErrAlreadyReplayed; ErrDlqJobState],
    (409, "DLQ_STATE_CONFLICT", "The dead-letter record cannot be replayed in its current state."));
   ([ErrDlqQuotaExceeded], (429, "JOB_QUOTA_EXCEEDED", "The job quota for this owner has been reached."))]
  (500, "INTERNAL_ERROR", "The server could not complete the dead-letter operation.")).

(** ** Credentials and API keys (auth_handlers.go) *)

Definition tokenResponseFrom (user : User) (pair : TokenPair) : tokenResponse :=
  mkTokenResponse (tp_AccessToken pair) (tp_RefreshToken pair) "Bearer" (tp_AccessTokenExpiry pair)
    (mkUserResponse (usr_ID user) (usr_Email user) (usr_Role user) (usr_Scopes user)).

Section identity.
Context {W : Type} `{!UuidParser} (service : IdentityAPI W).

Definition decodeIdentityJSON {A} (dec : Dec A) (zero : A) (r : Request) : H W A :=
  decodeJSON maxIdentityRequestBytes "The request body is invalid." dec zero r.

Definition identity_register (r : Request) : H W Response :=
  request ← decodeIdentityJSON dec_credentials (mkCredentialsRequest "" "") r;
  '(user, tokens) ← call writeIdentityError r (id_Register W service (crq_Email request) (crq_Password request) (rq_RequestID r));
  mret (JSON 201 (PToken (tokenResponseFrom user tokens))).

Definition identity_login (r : Request) : H W Response :=
  request ← decodeIdentityJSON dec_credentials (mkCredentialsRequest "" "") r;
  '(user, tokens) ← call writeIdentityError r (id_Login W service (crq_Email request) (crq_Password request) (rq_RequestID r));
  mret (JSON 200 (PToken (tokenResponseFrom user tokens))).

Definition identity_refresh (r : Request) : H W Response :=
  refreshToken ← decodeIdentityJSON dec_refresh "" r;
  '(user, tokens) ← call writeIdentityError r (id_Refresh W service refreshToken (rq_RequestID r));
  mret (JSON 200 (PToken (tokenResponseFrom user tokens))).

Definition identity_logout (r : Request) : H W Response :=
  refreshToken ← decodeIdentityJSON dec_refresh "" r;
  _ ← (if bool_decide (trim_space refreshToken = "")
       then respond (WriteProblem r 400 "INVALID_REQUEST" "refreshToken is required.") else mret tt);
  _ ← call writeIdentityError r (id_Logout W service refreshToken (rq_RequestID r));
  mret NoContent.

(** The three handlers of API keys write the problem themselves when there is no
    principal; it is the one [writeIdentityError] writes. *)
Definition identity_createAPIKey (r : Request) : H W Response :=
  principal ← principal_or writeIdentityError r;
  request ← decodeIdentityJSON dec_create_key (mkCreateAPIKeyRequest "" None) r;
  created ← call writeIdentityError r
    (id_CreateAPIKey W service principal (kq_Name request) (default [] (kq_Scopes request)) (rq_RequestID r));
  let key := cak_Key created in
  mret (JSON 201 (PCreatedKey (mkCreatedAPIKeyResponse (ak_ID key) (ak_Name key) (ak_Prefix key) (ak_Scopes key)
    (ak_CreatedAt key) (cak_Plaintext created)))).

Definition key_response (key : APIKey) : apiKeyResponse :=
  mkAPIKeyResponse (ak_ID key) (ak_Name key) (ak_Prefix key) (ak_Scopes key) (ak_CreatedAt key) (ak_LastUsedAt key) (ak_RevokedAt key).

Definition identity_listAPIKeys (r : Request) : H W Response :=
  principal ← principal_or writeIdentityError r;
  keys ← call writeIdentityError r (id_ListAPIKeys W service principal);
  mret (JSON 200 (PKeys (key_response <$> keys))).

Definition identity_revokeAPIKey (r : Request) : H W Response :=
  principal ← principal_or writeIdentityError r;
  keyID ← match uuid_Parse (URLParam r "keyID") with
          | Some u => mret u
          | None => respond (WriteProblem r 404 "API_KEY_NOT_FOUND" "The API key was not found.")
          end;
  _ ← call writeIdentityError r (id_RevokeAPIKey W service principal keyID (rq_RequestID r));
  mret NoContent.
End identity.

(** ** Jobs (job_handlers.go, job_handler_support.go) *)

Section jobs.
Context {W : Type} `{!UuidParser, !FloatText} (service : JobAPI W).

Definition decodeJobJSON {A} (dec : Dec A) (zero : A) (r : Request) : H W A :=
  decodeJSON maxJobRequestBytes "The job request body is invalid." dec zero r.

Definition decodeCancelJobRequest (r : Request) : H W string :=
  if bool_decide (rq_ContentLength r = 0) then mret "" else decodeJobJSON dec_cancel "" r.

Definition parseDatasetVersionID : Request → res uuid := parse_id ErrJobInvalidInput "datasetVersionID".
Definition parseJobID : Request → res uuid := parse_id ErrJobInvalidInput "jobID".
Definition parseJobPagination : Request → res (Z * Z) := parse_pagination ErrJobInvalidInput.

Definition jobs_create (r : Request) : H W Response :=
  principal ← principal_or writeJobError r;
  request ← decodeJobJSON dec_create_job (mkCreateRequest [] 0 0) r;
  versionID ← check writeJobError r (parseDatasetVersionID r);
  '(created, replayed) ← call writeJobError r
    (job_Create W service principal versionID request (Header_Get r "Idempotency-Key") (rq_RequestID r));
  mret (JSON (if replayed : bool then 200 else 201) (PJob created)).

Definition jobs_list (r : Request) : H W Response :=
  principal ← principal_or writeJobError r;
  '(page, pageSize) ← check writeJobError r (parseJobPagination r);
  result ← call writeJobError r (job_List W service principal page pageSize (Query_Get r "state"));
  mret (JSON 200 (PJobs (mkListResponse (jp_Items result) page pageSize (jp_Total result)))).

Definition jobs_get (r : Request) : H W Response :=
  principal ← principal_or writeJobError r;
  jobID ← check writeJobError r (parseJobID r);
  item ← call writeJobError r (job_Get W service principal jobID);
  mret (JSON 200 (PJob item)).

Definition jobs_cancel (r : Request) : H W Response :=
  principal ← principal_or writeJobError r;
  jobID ← check writeJobError r (parseJobID r);
  reason ← decodeCancelJobRequest r;
  item ← call writeJobError r (job_Cancel W service principal jobID reason (rq_RequestID r));
  mret (JSON 200 (PJob item)).

Definition jobs_retry (r : Request) : H W Response :=
  principal ← principal_or writeJobError r;
  jobID ← check writeJobError r (parseJobID r);
  item ← call writeJobError r (job_Retry W service principal jobID (rq_RequestID r));
  mret (JSON 200 (PJob item)).
End jobs.

(** ** Datasets (dataset_handlers.go) *)

Section datasets.
Context {W : Type} `{!UuidParser} (service : DatasetAPI W).

Definition decodeDatasetJSON {A} (dec : Dec A) (zero : A) (r : Request) : H W A :=
  decodeJSON maxDatasetMetadataRequestBytes "The request body is invalid." dec zero r.

Definition parseDatasetID : Request → res uuid := parse_id ErrDatasetInvalidInput "datasetID".
Definition parseDatasetPagination : Request → res (Z * Z) := parse_pagination ErrDatasetInvalidInput.

Definition datasets_create (r : Request) : H W Response :=
  principal ← principal_or writeDatasetError r;
  request ← decodeDatasetJSON dec_create_dataset (mkCreateDatasetRequest "" "") r;
  created ← call writeDatasetError r (ds_Create W service principal (dq_Name request) (dq_Description request));
  mret (JSON 201 (PDataset created)).

Definition datasets_list (r : Request) : H W Response :=
  principal ← principal_or writeDatasetError r;
  '(page, pageSize) ← check writeDatasetError r (parseDatasetPagination r);
  result ← call writeDatasetError r (ds_List W service principal page pageSize (Query_Get r "state") (Query_Get r "name"));
  mret (JSON 200 (PDatasets (mkListResponse (dp_items result) page pageSize (dp_total result)))).

Definition datasets_get (r : Request) : H W Response :=
  principal ← principal_or writeDatasetError r;
  datasetID ← check writeDatasetError r (parseDatasetID r);
  '(item, versions) ← call writeDatasetError r (ds_Get W service principal datasetID);
  mret (JSON 200 (PDatasetDetail item versions)).

Definition datasets_delete (r : Request) : H W Response :=
  principal ← principal_or writeDatasetError r;
  datasetID ← check writeDatasetError r (parseDatasetID r);
  _ ← call writeDatasetError r (ds_Delete W service principal datasetID);
  mret NoContent.

Definition datasets_uploadVersion (r : Request) : H W Response :=
  principal ← principal_or writeDatasetError r;
  datasetID ← check writeDatasetError r (parseDatasetID r);
  let filename := trim_space (Header_Get r "X-Filename") in
  _ ← check writeDatasetError r (guard_err (negb (bool_decide (filename = ""))) ErrDatasetInvalidInput);
  version ← call writeDatasetError r (ds_UploadVersion W service principal datasetID
    (mkUploadRequest filename (Header_Get r "Content-Type") (Header_Get r "X-Checksum-Sha256") (rq_ContentLength r) (Some (rq_Body r))));
  mret (JSON 201 (PVersion version)).
End datasets.

(** ** Multipart uploads (multipart_handlers.go) *)

Section multipart.
Context {W : Type} `{!UuidParser} (service : MultipartAPI W).

Definition decodeMultipartJSON {A} (dec : Dec A) (zero : A) (r : Request) : H W A :=
  decodeJSON maxMultipartJSONRequestBytes "The request body is invalid." dec zero r.

Definition parseMultipartSessionID : Request → res uuid := parse_id ErrMultipartInvalidInput "sessionID".

Definition parseMultipartPartNumber (r : Request) : res Z :=
  match Atoi (trim_space (URLParam r "partNumber")) with
  | Some partNumber => if partNumber <? 1 then Err ErrMultipartInvalidInput else Ok partNumber
  | None => Err ErrMultipartInvalidInput
  end.

Definition multipart_initiate (r : Request) : H W Response :=
  principal ← principal_or writeMultipartError r;
  datasetID ← check writeMultipartError r (parseDatasetID r);
  request ← decodeMultipartJSON dec_initiate (mkInitiateRequest "" "" 0 "" "") r;
  session ← call writeMultipartError r (mu_Initiate W service principal datasetID request);
  mret (JSON 201 (PSession session)).

Definition multipart_get (r : Request) : H W Response :=
  principal ← principal_or writeMultipartError r;
  sessionID ← check writeMultipartError r (parseMultipartSessionID r);
  '(session, parts) ← call writeMultipartError r (mu_Get W service principal sessionID);
  mret (JSON 200 (PSessionDetail session parts)).

Definition multipart_listParts (r : Request) : H W Response :=
  principal ← principal_or writeMultipartError r;
  sessionID ← check writeMultipartError r (parseMultipartSessionID r);
  parts ← call writeMultipartError r (mu_ListParts W service principal sessionID);
  mret (JSON 200 (PParts parts)).

Definition multipart_presignPart (r : Request) : H W Response :=
  principal ← principal_or writeMultipartError r;
  sessionID ← check writeMultipartError r (parseMultipartSessionID r);
  partNumber ← check writeMultipartError r (parseMultipartPartNumber r);
  partURL ← call writeMultipartError r (mu_PresignPart W service principal sessionID partNumber);
  mret (JSON 200 (PPartURL partURL)).

Definition multipart_registerPart (r : Request) : H W Response :=
  principal ← principal_or writeMultipartError r;
  sessionID ← check writeMultipartError r (parseMultipartSessionID r);
  partNumber ← check writeMultipartError r (parseMultipartPartNumber r);
  request ← decodeMultipartJSON dec_register_part (mkRegisterPartRequest "" 0) r;
  part ← call writeMultipartError r
    (mu_RegisterPart W service principal sessionID partNumber (rpq_ETag request) (rpq_SizeBytes request));
  mret (JSON 200 (PPart part)).

Definition multipart_complete (r : Request) : H W Response :=
  principal ← principal_or writeMultipartError r;
  sessionID ← check writeMultipartError r (parseMultipartSessionID r);
  parts ← decodeMultipartJSON dec_complete None r;
  version ← call writeMultipartError r (mu_Complete W service principal sessionID (default [] parts));
  mret (JSON 201 (PVersion version)).

Definition multipart_abort (r : Request) : H W Response :=
  principal ← principal_or writeMultipartError r;
  sessionID ← check writeMultipartError r (parseMultipartSessionID r);
  _ ← call writeMultipartError r (mu_Abort W service principal sessionID);
  mret NoContent.
End multipart.

(** ** Quality rules (quality_handlers.go) *)

Section quality.
Context {W : Type} `{!UuidParser, !FloatText} (service : QualityAPI W).

Definition decodeQualityJSON {A} (dec : Dec A) (zero : A) (r : Request) : H W A :=
  decodeJSON maxQualityRuleRequestBytes "The request body is invalid." dec zero r.

Definition optional_uuid (e : GoError) (value : string) : res (option uuid) :=
  if bool_decide (value = "") then Ok None
  else match uuid_Parse value with Some u => Ok (Some u) | None => Err e end.

Definition optionalQualityDatasetID (r : Request) : res (option uuid) :=
  optional_uuid ErrQualityInvalidInput (trim_space (URLParam r "datasetID")).

Definition qualityDatasetFilter (r : Request) : res (option uuid) :=
  pathID ← optionalQualityDatasetID r;
  queryID ← optional_uuid ErrQualityInvalidInput (trim_space (Query_Get r "datasetId"));
  match pathID, queryID with
  | _, None => Ok pathID
  | Some p, Some q => if bool_decide (p = q) then Ok queryID else Err ErrQualityInvalidInput
  | None, Some q => Ok queryID
  end.

Definition parseQualityRuleID : Request → res uuid := parse_id ErrQualityInvalidInput "ruleID".
Definition parseQualityPagination : Request → res (Z * Z) := parse_pagination ErrQualityInvalidInput.

(** The dataset of a creation: the one of the path, which the body may repeat. *)
Definition rule_dataset (pathDatasetID : option uuid) (request : RuleCreateRequest) : res RuleCreateRequest :=
  match pathDatasetID with
  | None => Ok request
  | Some p =>
      if negb (bool_decide (qc_DatasetID request = uuid_nil)) && negb (bool_decide (qc_DatasetID request = p))
      then Err ErrQualityInvalidInput
      else Ok (mkRuleCreateRequest p (qc_Name request) (qc_ColumnScope request) (qc_RuleType request) (qc_Configuration request)
                 (qc_Severity request) (qc_Enabled request))
  end.

Definition quality_create (r : Request) : H W Response :=
  principal ← principal_or writeQualityError r;
  request ← decodeQualityJSON dec_create_rule (mkRuleCreateRequest uuid_nil "" None "" None "" None) r;
  pathDatasetID ← check writeQualityError r (optionalQualityDatasetID r);
  request ← check writeQualityError r (rule_dataset pathDatasetID request);
  created ← call writeQualityError r (qa_Create W service principal request);
  mret (JSON 201 (PRule created)).

Definition quality_list (r : Request) : H W Response :=
  principal ← principal_or writeQualityError r;
  datasetID ← check writeQualityError r (qualityDatasetFilter r);
  '(page, pageSize) ← check writeQualityError r (parseQualityPagination r);
  result ← call writeQualityError r (qa_List W service principal datasetID page pageSize);
  mret (JSON 200 (PRules (mkListResponse (rp_Items result) (rp_Page result) (rp_PageSize result) (rp_Total result)))).

Definition quality_get (r : Request) : H W Response :=
  principal ← principal_or writeQualityError r;
  ruleID ← check writeQualityError r (parseQualityRuleID r);
  item ← call writeQualityError r (qa_Get W service principal ruleID);
  mret (JSON 200 (PRule item)).

Definition quality_update (r : Request) : H W Response :=
  principal ← principal_or writeQualityError r;
  ruleID ← check writeQualityError r (parseQualityRuleID r);
  request ← decodeQualityJSON dec_patch_rule (mkRuleUpdateRequest None None None None None None) r;
  updated ← call writeQualityError r (qa_Update W service principal ruleID request);
  mret (JSON 200 (PRule updated)).

Definition quality_delete (r : Request) : H W Response :=
  principal ← principal_or writeQualityError r;
  ruleID ← check writeQualityError r (parseQualityRuleID r);
  _ ← call writeQualityError r (qa_Delete W service principal ruleID);
  mret NoContent.
End quality.

(** ** Results (result_handlers.go) *)

Section results.
Context {W : Type} `{!UuidParser} (service : ResultAPI W).

(** [^[a-z0-9_-]{1,64}$]. *)
Definition artifactKindPattern (s : string) : bool :=
  (1 <=? go_len s) && (go_len s <=? 64)
  && forallb (λ b, in_range 97 122 b || is_digit b || (b =? 95)%N || (b =? 45)%N) (bytes_of s).

Definition optionalArtifactJobID (r : Request) : res (option uuid) :=
  let value := trim_space (URLParam r "jobID") in
  let value := if bool_decide (value = "") then trim_space (Query_Get r "jobId") else value in
  optional_uuid ErrResultInvalidInput value.

Definition parseArtifactID : Request → res uuid := parse_id ErrResultInvalidInput "artifactID".
Definition parseResultJobID : Request → res uuid := parse_id ErrResultInvalidInput "jobID".
Definition parseArtifactPagination : Request → res (Z * Z) := parse_pagination ErrResultInvalidInput.

Definition results_progress (r : Request) : H W Response :=
  principal ← principal_or writeResultError r;
  jobID ← check writeResultError r (parseResultJobID r);
  item ← call writeResultError r (re_GetProgress W service principal jobID);
  mret (JSON 200 (PProgress item)).

Definition results_progressHistory (r : Request) : H W Response :=
  principal ← principal_or writeResultError r;
  jobID ← check writeResultError r (parseResultJobID r);
  '(page, pageSize) ← check writeResultError r (parseArtifactPagination r);
  items ← call writeResultError r (re_ListProgress W service principal jobID page pageSize);
  mret (JSON 200 (PProgressPage items)).

Definition results_list (r : Request) : H W Response :=
  principal ← principal_or writeResultError r;
  jobID ← check writeResultError r (optionalArtifactJobID r);
  '(page, pageSize) ← check writeResultError r (parseArtifactPagination r);
  let kind := trim_space (Query_Get r "kind") in
  _ ← check writeResultError r (guard_err (bool_decide (kind = "") || artifactKindPattern kind) ErrResultInvalidInput);
  result ← call writeResultError r (re_ListArtifacts W service principal jobID kind page pageSize);
  mret (JSON 200 (PArtifacts (mkListResponse (ap_Items result) (ap_Page result) (ap_PageSize result) (ap_Total result)))).

Definition results_get (r : Request) : H W Response :=
  principal ← principal_or writeResultError r;
  artifactID ← check writeResultError r (parseArtifactID r);
  item ← call writeResultError r (re_GetArtifact W service principal artifactID);
  mret (JSON 200 (PArtifact item)).

(** [io.CopyN]: at most [SizeBytes] bytes of the object. *)
Definition results_download (r : Request) : H W Response :=
  principal ← principal_or writeResultError r;
  _ ← (if bool_decide (Header_Get r "Range" = "") then mret tt
       else respond (WriteProblem r 416 "RANGE_NOT_SUPPORTED" "Range downloads are not supported by this endpoint."));
  artifactID ← check writeResultError r (parseArtifactID r);
  '(item, reader) ← call writeResultError r (re_OpenArtifact W service principal artifactID);
  mret (Download (f_content_type item) (f_size_bytes item) (uuid_string (f_id item))
    (if bool_decide (rq_Method r = "HEAD") then None else Some (take (Z.to_nat (f_size_bytes item)) (rd_bytes reader)))).
End results.

(** ** Dead letters (dlq_handlers.go) *)

Section dead_letters.
Context {W : Type} `{!UuidParser} (service : DlqAPI W).

Definition parseDLQPagination : Request → res (Z * Z) := parse_pagination ErrDlqInvalidInput.

Definition parse_open_only (r : Request) : res bool :=
  let raw := trim_space (Query_Get r "openOnly") in
  if bool_decide (raw = "") then Ok true
  else match ParseBool raw with Some b => Ok b | None => Err ErrDlqInvalidInput end.

Definition dead_letters_list (r : Request) : H W Response :=
  principal ← principal_or writeDLQError r;
  '(page, pageSize) ← check writeDLQError r (parseDLQPagination r);
  openOnly ← check writeDLQError r (parse_open_only r);
  result ← call writeDLQError r (dlq_List W service principal page pageSize openOnly);
  mret (JSON 200 (PDeadLetters result)).

(** The service sets the actor of the command. *)
Definition dead_letters_replay (r : Request) : H W Response :=
  principal ← principal_or writeDLQError r;
  recordID ← check writeDLQError r (parse_id ErrDlqInvalidInput "recordID" r);
  result ← call writeDLQError r
    (dlq_Replay W service principal (mkReplay recordID uuid_nil false (rq_RequestID r) (rq_RequestID r)));
  mret (JSON 200 (PReplay result)).
End dead_letters.
