(* ===== verification/HttpRouter.v ===== *)
(** The middlewares and routes of src/go/internal/httpapi/router.go,
    auth_middleware.go and src/go/internal/observability: request ids, metrics, the
    rate limit of the credential routes, authentication, and which handler serves
    which route. *)

From S2P Require Import Prelude GoStrings Json GoValue Sha256 Upload Svc Authz Tokens IdentityStore IdentityService JsonDecode.
From S2P Require Import Http HttpHandlers RateLimit.
From stdpp Require Import pretty.
From Stdlib Require Import ZifyBool ZifyN.

Open Scope Z_scope.

(** ** Request ids (observability/request_id.go) *)

Definition request_id_byte (b : N) : bool :=
  in_range 65 90 b || in_range 97 122 b || is_digit b || (b =? 46)%N || (b =? 95)%N || (b =? 58)%N || (b =? 45)%N.

Definition validRequestID (s : string) : bool :=
  (1 <=? go_len s) && (go_len s <=? 128) && forallb request_id_byte (bytes_of s).

(** [newRequestID], from what [rand.Read] gives. *)
Definition newRequestID (random : option (list N)) : string :=
  match random with Some raw => EncodeToString raw | None => "request-id-unavailable" end.

Definition RequestIDMiddleware (random : option (list N)) (r : Request) : string :=
  let requestID := Header_Get r "X-Request-Id" in
  if validRequestID requestID then requestID else newRequestID random.

(** ** Credentials (auth_middleware.go) *)

Inductive Credentials := BearerToken (token : string) | ApiKeyValue (value : string).

(** [strings.Fields]: the runs of bytes between spaces; every step takes a byte or
    the bytes of a space. *)
Fixpoint fields_loop (fuel : nat) (l current : list N) : list (list N) :=
  let done := match current with [] => [] | _ => [rev current] end in
  match fuel, l with
  | S fuel, b :: r =>
      match space_len l with
      | O => fields_loop fuel r (b :: current)
      | n => done ++ fields_loop fuel (drop n l) []
      end
  | _, _ => done
  end.

Definition strings_Fields (s : string) : list string :=
  string_of_bytes <$> fields_loop (length (bytes_of s)) (bytes_of s) [].

(** [strings.EqualFold] with a word no rune outside ASCII folds into. *)
Definition equal_fold (s word : string) : bool :=
  bool_decide (lower_byte <$> bytes_of s = lower_byte <$> bytes_of word).

Definition extractCredentials (r : Request) : option Credentials :=
  let authorization := trim_space (Header_Get r "Authorization") in
  let apiKey := trim_space (Header_Get r "X-Api-Key") in
  if negb (bool_decide (authorization = "")) && negb (bool_decide (apiKey = "")) then None
  else if negb (bool_decide (apiKey = "")) then Some (ApiKeyValue apiKey)
  else if bool_decide (authorization = "") then None
  else match strings_Fields authorization with
       | [scheme; token] =>
           if equal_fold scheme "bearer" && negb (bool_decide (token = "")) then Some (BearerToken token) else None
       | _ => None
       end.

Definition set_principal (p : Principal) (r : Request) : Request :=
  mkRequest (rq_Method r) (rq_Path r) (rq_params r) (rq_query r) (rq_header r) (rq_ContentLength r) (rq_Body r)
    (rq_RemoteAddr r) (rq_RequestID r) (Some p).

Definition set_context (requestID : string) (params : list (string * string)) (r : Request) : Request :=
  mkRequest (rq_Method r) (rq_Path r) params (rq_query r) (rq_header r) (rq_ContentLength r) (rq_Body r)
    (rq_RemoteAddr r) requestID None.

Definition Handler (W : Type) := Request → H W Response.

Definition authenticate {W} (service : IdentityAPI W) (c : Credentials) : Call W Principal :=
  match c with
  | BearerToken token => id_AuthenticateBearer W service token
  | ApiKeyValue value => id_AuthenticateAPIKey W service value
  end.

Definition identityAuthMiddleware {W} (service : IdentityAPI W) (next : Handler W) : Handler W := λ r,
  match extractCredentials r with
  | None => respond (write_case r unauthenticated)
  | Some c =>
      principal ← call (λ r _, write_case r unauthenticated) r (authenticate service c);
      next (set_principal principal r)
  end.

(** ** Routes *)

(** What stands in front of a handler. *)
Inductive Guard := Open | Limited | Authenticated.

Record Route (W : Type) := mkRoute { rt_method : string; rt_pattern : string; rt_guard : Guard; rt_handler : Handler W }.
Arguments mkRoute {W} _ _ _ _.
Arguments rt_method {W} _.
Arguments rt_pattern {W} _.
Arguments rt_guard {W} _.
Arguments rt_handler {W} _.

Record Dependencies (W : Type) := mkDependencies {
  dep_Readiness : option (Call W unit); dep_Identity : option (IdentityAPI W); dep_Dataset : option (DatasetAPI W);
  dep_Multipart : option (MultipartAPI W); dep_Job : option (JobAPI W); dep_Quality : option (QualityAPI W);
  dep_Result : option (ResultAPI W); dep_DLQ : option (DlqAPI W)
}.
Arguments mkDependencies {W} _ _ _ _ _ _ _ _.

Definition liveHandler {W} : Handler W := λ _, mret (JSON 200 (PStatus "ok")).

Definition readyHandler {W} (check : Call W unit) : Handler W := λ r,
  _ ← call (λ r _, WriteProblem r 503 "NOT_READY" "A required dependency is not ready.") r check;
  mret (JSON 200 (PStatus "ready")).

Definition metricsHandler {W} : Handler W := λ _, mret MetricsPage.

Definition prefixes : list string := ["/v1"; "/api/v1"].

Section routes.
Context {W : Type} `{!UuidParser, !FloatText}.

(** The empty method stands for every method. *)
Definition registerIdentityRoutes (s : IdentityAPI W) : list (Route W) :=
  [mkRoute "POST" "/v1/auth/register" Limited (identity_register s);
   mkRoute "POST" "/v1/auth/login" Limited (identity_login s);
   mkRoute "POST" "/v1/auth/refresh" Limited (identity_refresh s);
   mkRoute "POST" "/v1/auth/logout" Open (identity_logout s);
   mkRoute "POST" "/v1/api-keys" Authenticated (identity_createAPIKey s);
   mkRoute "GET" "/v1/api-keys" Authenticated (identity_listAPIKeys s);
   mkRoute "DELETE" "/v1/api-keys/{keyID}" Authenticated (identity_revokeAPIKey s)].

Definition registerDatasetRoutes (s : DatasetAPI W) : list (Route W) :=
  [mkRoute "POST" "/v1/datasets" Authenticated (datasets_create s);
   mkRoute "GET" "/v1/datasets" Authenticated (datasets_list s);
   mkRoute "GET" "/v1/datasets/{datasetID}" Authenticated (datasets_get s);
   mkRoute "DELETE" "/v1/datasets/{datasetID}" Authenticated (datasets_delete s);
   mkRoute "POST" "/v1/datasets/{datasetID}/versions" Authenticated (datasets_uploadVersion s)].

Definition registerMultipartRoutes (s : MultipartAPI W) : list (Route W) :=
  [mkRoute "POST" "/v1/datasets/{datasetID}/uploads" Authenticated (multipart_initiate s);
   mkRoute "GET" "/v1/uploads/{sessionID}" Authenticated (multipart_get s);
   mkRoute "GET" "/v1/uploads/{sessionID}/parts" Authenticated (multipart_listParts s);
   mkRoute "POST" "/v1/uploads/{sessionID}/parts/{partNumber}/presign" Authenticated (multipart_presignPart s);
   mkRoute "PUT" "/v1/uploads/{sessionID}/parts/{partNumber}" Authenticated (multipart_registerPart s);
   mkRoute "POST" "/v1/uploads/{sessionID}/complete" Authenticated (multipart_complete s);
   mkRoute "POST" "/v1/uploads/{sessionID}/abort" Authenticated (multipart_abort s)].

Definition registerJobRoutes (s : JobAPI W) : list (Route W) :=
  [mkRoute "POST" "/v1/datasets/{datasetVersionID}/jobs" Authenticated (jobs_create s);
   mkRoute "POST" "/v1/dataset-versions/{datasetVersionID}/jobs" Authenticated (jobs_create s);
   mkRoute "POST" "/api/v1/datasets/{datasetVersionID}/jobs" Authenticated (jobs_create s);
   mkRoute "POST" "/api/v1/dataset-versions/{datasetVersionID}/jobs" Authenticated (jobs_create s);
   mkRoute "GET" "/v1/jobs" Authenticated (jobs_list s);
   mkRoute "GET" "/v1/jobs/{jobID}" Authenticated (jobs_get s);
   mkRoute "POST" "/v1/jobs/{jobID}/cancel" Authenticated (jobs_cancel s);
   mkRoute "POST" "/v1/jobs/{jobID}/retry" Authenticated (jobs_retry s);
   mkRoute "GET" "/api/v1/jobs" Authenticated (jobs_list s);
   mkRoute "GET" "/api/v1/jobs/{jobID}" Authenticated (jobs_get s);
   mkRoute "POST" "/api/v1/jobs/{jobID}/cancel" Authenticated (jobs_cancel s);
   mkRoute "POST" "/api/v1/jobs/{jobID}/retry" Authenticated (jobs_retry s)].

Definition registerQualityRoutes (s : QualityAPI W) : list (Route W) :=
  prefixes ≫= λ prefix,
  [mkRoute "POST" (prefix +:+ "/quality-rules") Authenticated (quality_create s);
   mkRoute "GET" (prefix +:+ "/quality-rules") Authenticated (quality_list s);
   mkRoute "GET" (prefix +:+ "/quality-rules/{ruleID}") Authenticated (quality_get s);
   mkRoute "PATCH" (prefix +:+ "/quality-rules/{ruleID}") Authenticated (quality_update s);
   mkRoute "DELETE" (prefix +:+ "/quality-rules/{ruleID}") Authenticated (quality_delete s);
   mkRoute "POST" (prefix +:+ "/datasets/{datasetID}/quality-rules") Authenticated (quality_create s);
   mkRoute "GET" (prefix +:+ "/datasets/{datasetID}/quality-rules") Authenticated (quality_list s)].

Definition registerResultRoutes (s : ResultAPI W) : list (Route W) :=
  prefixes ≫= λ prefix,
  [mkRoute "GET" (prefix +:+ "/artifacts") Authenticated (results_list s);
   mkRoute "GET" (prefix +:+ "/artifacts/{artifactID}") Authenticated (results_get s);
   mkRoute "GET" (prefix +:+ "/artifacts/{artifactID}/download") Authenticated (results_download s);
   mkRoute "HEAD" (prefix +:+ "/artifacts/{artifactID}/download") Authenticated (results_download s);
   mkRoute "GET" (prefix +:+ "/jobs/{jobID}/artifacts") Authenticated (results_list s);
   mkRoute "GET" (prefix +:+ "/jobs/{jobID}/progress") Authenticated (results_progress s);
   mkRoute "GET" (prefix +:+ "/jobs/{jobID}/progress/history") Authenticated (results_progressHistory s)].

Definition registerDLQRoutes (s : DlqAPI W) : list (Route W) :=
  prefixes ≫= λ prefix,
  [mkRoute "GET" (prefix +:+ "/dead-letters") Authenticated (dead_letters_list s);
   mkRoute "POST" (prefix +:+ "/dead-letters/{recordID}/replay") Authenticated (dead_letters_replay s)].

Definition register {A} (s : option A) (f : A → list (Route W)) : list (Route W) :=
  match s with Some s => f s | None => [] end.

(** [r.Use(identityAuthMiddleware(...))] in front of the routes of a group. *)
Definition with_auth (s : IdentityAPI W) (rt : Route W) : Route W :=
  match rt_guard rt with
  | Authenticated => mkRoute (rt_method rt) (rt_pattern rt) Authenticated (identityAuthMiddleware s (rt_handler rt))
  | _ => rt
  end.

Definition NewRouter (deps : Dependencies W) : list (Route W) :=
  [mkRoute "GET" "/health/live" Open liveHandler;
   mkRoute "GET" "/health/ready" Open (readyHandler (default (λ w, (SOk tt, w)) (dep_Readiness W deps)));
   mkRoute "" "/metrics" Open metricsHandler]
  ++ match dep_Identity W deps with
     | None => []
     | Some s => with_auth s <$>
         (registerIdentityRoutes s
          ++ register (dep_Dataset W deps) registerDatasetRoutes ++ register (dep_Multipart W deps) registerMultipartRoutes
          ++ register (dep_Job W deps) registerJobRoutes ++ register (dep_Quality W deps) registerQualityRoutes
          ++ register (dep_Result W deps) registerResultRoutes ++ register (dep_DLQ W deps) registerDLQRoutes)
     end.
End routes.

(** The router (github.com/go-chi/chi) picks a route by method and path, with the
    parameters of the path; it answers by itself when there is none, with the pattern
    it got to. *)
Inductive RouteMatch := Matched (index : nat) (params : list (string * string)) | Unmatched (status : Z) (pattern : string).

Class Chi := { chi_route : list (string * string) → string → string → RouteMatch }.

(** ** Metrics (observability/metrics.go) *)

Abbreviation Labels := (string * string * string)%type.
Record Metrics := mkMetrics { HTTPRequests : gmap Labels Z; HTTPErrors : gmap Labels Z }.

Definition inc (k : Labels) (m : gmap Labels Z) : gmap Labels Z := <[k := default 0 (m !! k) + 1]> m.

(** The counters of [Metrics.Middleware] after a response; the latency histogram is
    left out. *)
Definition Metrics_Middleware (m : Metrics) (method route : string) (code : Z) : Metrics :=
  let route := if bool_decide (route = "") then "unmatched" else route in
  let labels := (method, route, pretty code) in
  mkMetrics (inc labels (HTTPRequests m)) (if 400 <=? code then inc labels (HTTPErrors m) else HTTPErrors m).

(** ** A request *)

Record HttpState (W : Type) := mkHttpState { hs_limiter : option AuthRateLimiter; hs_metrics : Metrics; hs_world : W }.
Arguments mkHttpState {W} _ _ _.
Arguments hs_limiter {W} _.
Arguments hs_metrics {W} _.
Arguments hs_world {W} _.

Section serve.
Context {W : Type} `{!UuidParser, !FloatText, !Chi, !GoArch}.
Context (map_order : gmap string authRateBucket → list (string * authRateBucket)).

Definition run_route (rt : Route W) (r : Request) (now : time) (l : option AuthRateLimiter) (w : W)
  : Response * option AuthRateLimiter * W :=
  let run (l : option AuthRateLimiter) := let (x, w') := run_handler (rt_handler rt r) w in (x, l, w') in
  match rt_guard rt, l with
  | Limited, Some limiter =>
      let '(allowed, retryAfter, limiter) := allow map_order limiter (clientAddress (rq_RemoteAddr r)) now in
      if allowed : bool then run (Some limiter)
      else (RateLimited (retry_after retryAfter) (rq_RequestID r), Some limiter, w)
  | _, _ => run l
  end.

(** The answer, and the request id in its header. *)
Definition serve (deps : Dependencies W) (random : option (list N)) (now : time) (r : Request) (s : HttpState W)
  : Response * string * HttpState W :=
  let requestID := RequestIDMiddleware random r in
  let routes := NewRouter deps in
  let finish x pattern l w :=
    (x, requestID, mkHttpState l (Metrics_Middleware (hs_metrics s) (rq_Method r) pattern (status x)) w) in
  match chi_route ((λ rt, (rt_method rt, rt_pattern rt)) <$> routes) (rq_Method r) (rq_Path r) with
  | Unmatched code pattern => finish (Unrouted code) pattern (hs_limiter s) (hs_world s)
  | Matched i params =>
      match routes !! i with
      | None => finish (Unrouted 404) "" (hs_limiter s) (hs_world s)
      | Some rt =>
          let '(x, l, w) := run_route rt (set_context requestID params r) now (hs_limiter s) (hs_world s) in
          finish x (rt_pattern rt) l w
      end
  end.
End serve.
