(* ===== verification/HttpApp.v ===== *)
(** The HTTP API on top of the services: the router with the identity, job, result and
    dead-letter services of the other files behind it. *)

From S2P Require Import Prelude GoStrings Retry Json GoValue Queue JobModel Schema Sql Outbox JobStore WorkerRegistry Authz Lease Result Dlq Lifecycle Refinement System Logs JobService ResultReads.
From S2P Require Import Upload UploadModel Svc Passwords Tokens Proc IdentityStore IdentityService IdentityProps IdentityRequests JsonDecode Http HttpHandlers RateLimit HttpRouter.

Open Scope Z_scope.

(** ** The application *)

(** The tables of identity and of jobs. *)
Record AppWorld := mkAppWorld { aw_identity : PWorld IDB; aw_jobs : DB }.

(** What surrounds a request: the environment of its identity calls; what others
    commit to the tables of jobs before its transaction [n]; clocks and identifiers;
    the object store. *)
Record AppEnv := mkAppEnv {
  ae_identity : PEnv IDB; ae_between : nat → DB → DB; ae_oracle : Oracle; ae_fresh : uuid;
  ae_objects : option (string → res Reader)
}.

Section app.
Context `{!UuidParser, !JWT, !Argon2, !UnicodeTables, !MailParser, !PgLower, !FloatText, !Enqueuer, !WorkerSelector}.
Context (s : IdentityService) (validate : CreateCommand → res string) (e : AppEnv).

Definition on_identity {A} (m : Proc IDB A) : Call AppWorld A := λ w,
  let (r, pw) := m (ae_identity e) (aw_identity w) in (r, mkAppWorld pw (aw_jobs w)).

(** A call that reads in two states and writes in a third. *)
Definition on_jobs {A} (f : DB → DB → DB → res A * DB) : Call AppWorld A := λ w,
  let d := ae_between e 0 (aw_jobs w) in
  let d1 := ae_between e 1 d in
  let d2 := ae_between e 2 d1 in
  let (r, d') := f d d1 d2 in (sres_of r, mkAppWorld (aw_identity w) d').

Definition on_jobs_tx {A} (tx : Tx DB A) : Call AppWorld A := on_jobs (λ _ _ d, transact tx (ae_oracle e) d).

Definition identity_api : IdentityAPI AppWorld := {|
  id_Register email password rid := on_identity (IdentityService_Register s email password rid);
  id_Login email password rid := on_identity (IdentityService_Login s email password rid);
  id_Refresh token rid := on_identity (IdentityService_Refresh s token rid);
  id_Logout token rid := on_identity (IdentityService_Logout s token rid);
  id_AuthenticateBearer token := on_identity (IdentityService_AuthenticateBearer s token);
  id_AuthenticateAPIKey value := on_identity (IdentityService_AuthenticateAPIKey s value);
  id_CreateAPIKey p name scopes rid := on_identity (IdentityService_CreateAPIKey s p name scopes rid);
  id_ListAPIKeys p := on_identity (IdentityService_ListAPIKeys s p);
  id_RevokeAPIKey p keyID rid := on_identity (IdentityService_RevokeAPIKey s p keyID rid)
|}.

Definition job_api : JobAPI AppWorld := {|
  job_Create p versionID request key rid :=
    on_jobs (JobService_Create validate p versionID request key rid (ae_fresh e) (ae_oracle e));
  job_List p page pageSize state := on_jobs_tx (JobService_List p page pageSize state);
  job_Get p jobID := on_jobs_tx (JobService_Get p jobID);
  job_Cancel p jobID reason rid := on_jobs (λ d _ d2, JobService_Cancel p jobID reason rid (ae_oracle e) d d2);
  job_Retry p jobID rid := on_jobs (λ d _ d2, JobService_Retry p jobID rid (ae_oracle e) d d2)
|}.

Definition result_api : ResultAPI AppWorld := {|
  re_ListArtifacts p jobID kind page pageSize := on_jobs_tx (ResultService_ListArtifacts p jobID kind page pageSize);
  re_GetArtifact p id := on_jobs_tx (ResultService_GetArtifact p id);
  re_GetProgress p jobID := on_jobs_tx (ResultService_GetProgress p jobID);
  re_ListProgress p jobID page pageSize := on_jobs_tx (ResultService_ListProgress p jobID page pageSize);
  re_OpenArtifact p id := on_jobs_tx (OpenArtifact (ae_objects e) p id)
|}.

Definition dlq_api : DlqAPI AppWorld := {|
  dlq_List p page pageSize openOnly := on_jobs_tx (DlqService_List p page pageSize openOnly);
  dlq_Replay p command := on_jobs (λ d _ d2, DlqService_Replay p command (ae_oracle e) d d2)
|}.
End app.

(** ** What a request can show and change *)

(** Everything an answer shows is [u]'s, as stored in [d]. *)
Definition owned (u : uuid) (d : DB) (x : Response) : Prop :=
  match x with
  | JSON _ (PJob j) => j_owner_user_id j = u
  | JSON _ (PJobs l) => Forall (λ j, j_owner_user_id j = u) (lr_Items l)
  | JSON _ (PArtifact a) => f_owner_user_id a = u
  | JSON _ (PArtifacts l) => Forall (λ a, f_owner_user_id a = u) (lr_Items l)
  | JSON _ (PProgress p) => ps_OwnerUserID p = u
  | JSON _ (PProgressPage l) => Forall (λ p, ps_OwnerUserID p = u) (pp_Items l)
  | JSON _ (PDeadLetters l) => Forall (λ r, dr_OwnerUserID r = u) (dp_Items l)
  | Download _ _ name _ => ∃ id a, t_artifacts d !! id = Some a ∧ f_owner_user_id a = u ∧ name = uuid_string (f_id a)
  | _ => False
  end.

(** The tables of jobs before and after a request of [u]: what others committed before
    its last transaction, then nothing for a request that failed, and otherwise a change
    to [u]'s own rows only, with an answer about them. *)
Definition confined `{!Enqueuer, !WorkerSelector} (u : uuid) (d : DB) (x : Response) (d' : DB) : Prop :=
  ∃ d2, rtc transition d d2 ∧ (400 <= status x ∧ d' = d2 ∨ owned u d2 x ∧ others_kept u d2 d').

Section confinement.
Context `{!Enqueuer, !WorkerSelector} (u : uuid).

Definition call_ok {A} (m : Call AppWorld A) (own : A → DB → Prop) : Prop := ∀ w r w',
  reachable (aw_jobs w) → m w = (r, w') → aw_identity w' = aw_identity w
  ∧ ∃ d2, rtc transition (aw_jobs w) d2
    ∧ match r with SOk a => own a d2 ∧ others_kept u d2 (aw_jobs w') | SErr _ => aw_jobs w' = d2 end.

Definition handler_ok (m : H AppWorld Response) : Prop := ∀ w x w',
  reachable (aw_jobs w) → run_handler m w = (x, w') →
  aw_identity w' = aw_identity w ∧ confined u (aw_jobs w) x (aw_jobs w').

Lemma handler_ok_respond x : 400 <= status x → handler_ok (respond x).
Proof. intros Hx w x' w' _. unfold run_handler, respond. intros; simplify_eq. split; [done|]. eexists. split; [done|auto]. Qed.

(** A step that leaves the state alone: it goes on, or answers with an error. *)
Lemma handler_ok_pure {A} (m : H AppWorld A) f :
  (∀ w, (∃ a, m w = (inr a, w) ∧ handler_ok (f a)) ∨ ∃ x, m w = (inl x, w) ∧ 400 <= status x) → handler_ok (m ≫= f).
Proof.
  intros Hm w x w' Hw. rw run_handler_bind. destruct (Hm w) as [(a&->&Ha)|(y&->&Hy)]; [by apply Ha|].
  intros; simplify_eq. split; [done|]. eexists. split; [done|auto].
Qed.

Context (write : Request → list GoError → Response) (Hwrite : ∀ r l, 400 <= status (write r l)).

Lemma handler_ok_check {A} r (v : res A) f : (∀ a, v = Ok a → handler_ok (f a)) → handler_ok (check write r v ≫= f).
Proof.
  intros Hf. apply handler_ok_pure. intros w. unfold check, call. destruct v as [a|x]; simpl; [left|right]; eauto.
Qed.

Lemma handler_ok_principal r f :
  (∀ p, principalFromRequest r = Some p → handler_ok (f p)) → handler_ok (principal_or write r ≫= f).
Proof.
  intros Hf. apply handler_ok_pure. intros w. unfold principal_or.
  destruct (principalFromRequest r); [left|right]; unfold respond; eauto.
Qed.

Lemma handler_ok_decode {A} limit message (dec : Dec A) zero r f :
  (∀ a, handler_ok (f a)) → handler_ok (decodeJSON limit message dec zero r ≫= f).
Proof.
  intros Hf. apply handler_ok_pure. intros w. unfold decodeJSON.
  destruct (decode_body _ _ _ _); [left; eauto|right; unfold respond; eexists; (split; [done|]); simpl; lia..].
Qed.

Lemma handler_ok_call {A} r (m : Call AppWorld A) own f :
  call_ok m own → (∀ a d, own a d → ∃ x, f a = mret x ∧ owned u d x) → handler_ok (call write r m ≫= f).
Proof.
  intros Hm Hf w x w' Hw. rw run_handler_bind. unfold call. destruct (m w) as [[a|l] w1] eqn:E.
  - destruct (Hm _ _ _ Hw E) as (Hi&d2&Hr&Ho&Hk). destruct (Hf a d2 Ho) as (y&->&Hy). unfold run_handler, mret, h_ret.
    intros; simplify_eq. split; [done|]. exists d2. auto.
  - destruct (Hm _ _ _ Hw E) as (Hi&d2&Hr&Hd). intros; simplify_eq. split; [done|]. eexists. eauto.
Qed.
End confinement.

Lemma error_case_status err cases otherwise :
  Forall (λ c, 400 <= c.2.1.1) cases → 400 <= otherwise.1.1 → 400 <= (error_case err cases otherwise).1.1.
Proof.
  intros Hc Ho. induction cases as [|[l x] cases IH]; simpl; [done|]. apply list.Forall_cons in Hc as [Hx Hc].
  case_match; [done|auto].
Qed.

Ltac error_status := intros r l; apply error_case_status; [repeat (constructor; [simpl; lia|]); constructor|simpl; lia].

Lemma writeJobError_status r l : 400 <= status (writeJobError r l).
Proof. revert r l. error_status. Qed.
Lemma writeResultError_status r l : 400 <= status (writeResultError r l).
Proof. revert r l. error_status. Qed.
Lemma writeDLQError_status r l : 400 <= status (writeDLQError r l).
Proof. revert r l. error_status. Qed.

Section services.
Context `{!UuidParser, !FloatText, !Enqueuer, !WorkerSelector}.
Context (validate : CreateCommand → res string) (e : AppEnv).
Context (Hbetween : ∀ n d, rtc transition d (ae_between e n d)).
Context (p : Principal) (Hp : Role p ≠ RoleAdmin).
Abbreviation u := (UserID p).

Lemma on_jobs_ok {A} (f : DB → DB → DB → res A * DB) own :
  (∀ d d1 d2, reachable d2 → match f d d1 d2 with
     | (Ok a, d') => own a d2 ∧ others_kept u d2 d' | (Err _, d') => d' = d ∨ d' = d2 end) →
  call_ok u (on_jobs e f) own.
Proof.
  intros Hf w r w' Hw. unfold on_jobs. set (d := ae_between e 0 _). set (d1 := ae_between e 1 d). set (d2 := ae_between e 2 d1).
  assert (Hd : rtc transition (aw_jobs w) d) by apply Hbetween.
  assert (Hd2 : rtc transition (aw_jobs w) d2) by (etrans; [exact Hd|]; etrans; apply Hbetween).
  specialize (Hf d d1 d2 (reachable_rtc _ _ Hw Hd2)). destruct (f d d1 d2) as [[a|x] d']; intros; simplify_eq/=; (split; [done|]).
  - eauto.
  - destruct Hf as [->| ->]; eauto.
Qed.

Lemma on_jobs_read {A} (tx : Tx DB A) (own : A → DB → Prop) :
  (∀ o d a d', transact tx o d = (Ok a, d') → d' = d ∧ own a d) → call_ok u (on_jobs_tx e tx) own.
Proof.
  intros Hf. apply on_jobs_ok. intros d d1 d2 _. destruct (transact tx (ae_oracle e) d2) as [[a|x] d'] eqn:E.
  - apply Hf in E as [-> ?]. split; [done|apply others_kept_refl].
  - right. by eapply transact_err.
Qed.

(** A call of the job service that answers with a job. *)
Lemma on_jobs_call c (f : DB → DB → DB → res JobRow * DB) :
  (∀ d d1 d2, f d d1 d2 = JobService_call p c (ae_oracle e) d d1 d2) →
  call_ok u (on_jobs e f) (λ j _, j_owner_user_id j = u).
Proof.
  intros Hf. apply on_jobs_ok. intros d d1 d2 Hd2. rw Hf. destruct (JobService_call _ _ _ _ _ _) as [r d'] eqn:E.
  apply JobService_call_confined in E; [|done..]. destruct r; [done|by right].
Qed.

Lemma create_ok versionID request key rid :
  call_ok u (job_Create AppWorld (job_api validate e) p versionID request key rid) (λ x _, j_owner_user_id x.1 = u).
Proof.
  apply on_jobs_ok. intros d d1 d2 Hd2.
  pose proof (JobService_call_confined p (CallCreate validate versionID request key rid (ae_fresh e)) (ae_oracle e) d d1 d2) as Hc.
  simpl in Hc. destruct (JobService_Create _ _ _ _ _ _ _ _ _ _ _) as [[[j b]|x] d']; [|right];
    apply (Hc _ _ Hp Hd2 eq_refl).
Qed.

Lemma readable_own owner : readable p owner → owner = u.
Proof. by intros [?|?]. Qed.

Ltac handler := repeat first
  [ apply handler_ok_principal; [exact writeJobError_status || exact writeResultError_status || exact writeDLQError_status|];
    let q := fresh "q" in let Hq := fresh "Hq" in intros q Hq
  | apply handler_ok_check; [exact writeJobError_status || exact writeResultError_status || exact writeDLQError_status|];
    let a := fresh "a" in let Ha := fresh "Ha" in intros a Ha
  | apply handler_ok_decode; let a := fresh "a" in intros a ].

Context (r : Request) (Hr : ∀ q, principalFromRequest r = Some q → q = p).

Lemma jobs_create_ok : handler_ok u (jobs_create (job_api validate e) r).
Proof.
  unfold jobs_create, decodeJobJSON. handler. rw (Hr _ Hq).
  eapply handler_ok_call; [exact writeJobError_status|apply create_ok|]. intros [j b] d Hj. eauto.
Qed.

Lemma jobs_list_ok : handler_ok u (jobs_list (job_api validate e) r).
Proof.
  unfold jobs_list. handler. rw (Hr _ Hq). destruct a as [page pageSize].
  eapply handler_ok_call; [exact writeJobError_status|apply (on_jobs_read _ (λ pg _, Forall (λ j, j_owner_user_id j = u) (jp_Items pg)))|].
  - intros o d pg d' E. apply JobService_List_confined in E as [-> E]. split; [done|]. apply list.Forall_forall. naive_solver.
  - eauto.
Qed.

Lemma jobs_get_ok : handler_ok u (jobs_get (job_api validate e) r).
Proof.
  unfold jobs_get. handler. rw (Hr _ Hq). eapply handler_ok_call; [exact writeJobError_status| |].
  - by apply (on_jobs_call (JobService.CallGet a)).
  - eauto.
Qed.

Lemma jobs_cancel_ok : handler_ok u (jobs_cancel (job_api validate e) r).
Proof.
  unfold jobs_cancel, decodeCancelJobRequest, decodeJobJSON. handler. rw (Hr _ Hq).
  assert (∀ reason, handler_ok u (item ← call writeJobError r (job_Cancel AppWorld (job_api validate e) p a reason (rq_RequestID r));
    mret (JSON 200 (PJob item)))) as Hc.
  { intros reason. eapply handler_ok_call; [exact writeJobError_status|by apply (on_jobs_call (CallCancel a reason (rq_RequestID r)))|eauto]. }
  case_bool_decide; [|by handler]. apply handler_ok_pure. intros w. left. eauto.
Qed.

Lemma jobs_retry_ok : handler_ok u (jobs_retry (job_api validate e) r).
Proof.
  unfold jobs_retry. handler. rw (Hr _ Hq).
  eapply handler_ok_call; [exact writeJobError_status|by apply (on_jobs_call (CallRetry a (rq_RequestID r)))|eauto].
Qed.

Lemma results_progress_ok : handler_ok u (results_progress (result_api e) r).
Proof.
  unfold results_progress. handler. rw (Hr _ Hq).
  eapply handler_ok_call; [exact writeResultError_status|apply (on_jobs_read _ (λ x _, ps_OwnerUserID x = u))|eauto].
  intros o d x d' E. apply GetProgress_confined in E as [-> E]. split; [done|]. by apply readable_own.
Qed.

Lemma results_progressHistory_ok : handler_ok u (results_progressHistory (result_api e) r).
Proof.
  unfold results_progressHistory. handler. rw (Hr _ Hq). destruct a0 as [page pageSize].
  eapply handler_ok_call; [exact writeResultError_status|apply (on_jobs_read _ (λ pg _, Forall (λ x, ps_OwnerUserID x = u) (pp_Items pg)))|eauto].
  intros o d pg d' E. apply ListProgress_confined in E as [-> E]. split; [done|]. apply list.Forall_forall. intros x Hx.
  apply readable_own. naive_solver.
Qed.

Lemma results_list_ok : handler_ok u (results_list (result_api e) r).
Proof.
  unfold results_list. handler. rw (Hr _ Hq). destruct a0 as [page pageSize]. handler.
  eapply handler_ok_call; [exact writeResultError_status|apply (on_jobs_read _ (λ pg _, Forall (λ x, f_owner_user_id x = u) (ap_Items pg)))|eauto].
  intros o d pg d' E. apply ListArtifacts_confined in E as (->&_&E). split; [done|]. apply list.Forall_forall. intros x Hx.
  apply readable_own. naive_solver.
Qed.

Lemma results_get_ok : handler_ok u (results_get (result_api e) r).
Proof.
  unfold results_get. handler. rw (Hr _ Hq).
  eapply handler_ok_call; [exact writeResultError_status|apply (on_jobs_read _ (λ x _, f_owner_user_id x = u))|eauto].
  intros o d x d' E. apply GetArtifact_confined in E as (->&_&_&E). split; [done|]. by apply readable_own.
Qed.

Lemma results_download_ok : handler_ok u (results_download (result_api e) r).
Proof.
  unfold results_download. handler. rw (Hr _ Hq). apply handler_ok_pure. intros w.
  destruct (bool_decide_reflect (Header_Get r "Range" = "")); [left|right; unfold respond; eexists; (split; [done|simpl; lia])].
  exists tt. split; [done|]. handler.
  eapply handler_ok_call; [exact writeResultError_status|
    apply (on_jobs_read _ (λ x d, ∃ id, t_artifacts d !! id = Some x.1 ∧ f_owner_user_id x.1 = u))|].
  - intros o d [x reader] d' E. apply OpenArtifact_confined in E as (->&Hx&_&Ho&_). split; [done|]. apply readable_own in Ho. eauto.
  - intros [x reader] d (id&Hx&Ho). eexists. split; [done|]. simpl. eauto.
Qed.

Lemma dead_letters_list_ok : handler_ok u (dead_letters_list (dlq_api e) r).
Proof.
  unfold dead_letters_list. handler. rw (Hr _ Hq). destruct a as [page pageSize]. handler.
  eapply handler_ok_call; [exact writeDLQError_status|apply (on_jobs_read _ (λ pg _, Forall (λ x, dr_OwnerUserID x = u) (dp_Items pg)))|eauto].
  intros o d pg d' E. apply DlqService_List_confined in E as [-> E]. split; [done|]. apply list.Forall_forall. naive_solver.
Qed.

Lemma dead_letters_replay_ok : handler_ok u (dead_letters_replay (dlq_api e) r).
Proof.
  unfold dead_letters_replay. handler. rw (Hr _ Hq).
  eapply handler_ok_call; [exact writeDLQError_status|apply (on_jobs_ok _ (λ _ _, False))|done].
  intros d d1 d2 _. unfold DlqService_Replay. repeat case_match; simplify_eq; eauto; 
    match goal with E : transact (Replay ?c) ?o ?d = _ |- _ => destruct (Replay_fails c o d) as [x Ex]; rw Ex in E; simplify_eq end; auto.
Qed.

(** Every route of the three groups. *)
Lemma routes_ok rt :
  rt ∈ registerJobRoutes (job_api validate e) ++ registerResultRoutes (result_api e) ++ registerDLQRoutes (dlq_api e) →
  handler_ok u (rt_handler rt r).
Proof.
  revert rt. apply list.Forall_forall.
  unfold registerJobRoutes, registerResultRoutes, registerDLQRoutes, prefixes. simpl.
  repeat (apply list.Forall_cons; split; [cbn [rt_handler]|]); [..|by apply list.Forall_nil].
  all: auto using jobs_create_ok, jobs_list_ok, jobs_get_ok, jobs_cancel_ok, jobs_retry_ok, results_progress_ok,
    results_progressHistory_ok, results_list_ok, results_get_ok, results_download_ok, dead_letters_list_ok, dead_letters_replay_ok.
Qed.
End services.
