(* ===== verification/HttpProps.v ===== *)
(** What the HTTP API guarantees end to end: who gets in, and that a user sees and
    changes only what is theirs. *)

From S2P Require Import Prelude GoStrings Retry Json GoValue Queue JobModel Schema Sql Outbox JobStore WorkerRegistry Authz Lease Result Dlq Lifecycle Refinement System Logs JobService ResultReads.
From S2P Require Import Upload UploadModel Svc Passwords Tokens Proc IdentityStore IdentityService IdentityProps IdentityExamples IdentityRequests JsonDecode Http HttpHandlers RateLimit HttpRouter HttpApp.

Open Scope Z_scope.

(** ** Authentication *)

(** The credentials [c] stand for [p] in the identity database [d], for a request
    whose clock reads [now]. *)
Definition authentic `{!UuidParser, !JWT} (s : IdentityService) (c : Credentials) (p : Principal) (now : time) (d : IDB) : Prop :=
  (∃ r, i_users d !! UserID p = Some r ∧ ur_disabled_at r = None ∧ Role p = ur_role r)
  ∧ match c with
    | BearerToken token => AccessTokenService_Parse (is_AccessTokens s) token now = Ok (UserID p)
    | ApiKeyValue value => ∃ k, i_keys d !! kr_id k = Some k ∧ kr_key_hash k = HashOpaqueToken value
                                ∧ kr_revoked_at k = None ∧ kr_user_id k = UserID p
    end.

Section auth.
Context `{!UuidParser, !JWT, !Argon2, !UnicodeTables, !MailParser, !PgLower}.

Lemma authenticate_authentic s e c w p w' :
  ident_inv (pw_db (aw_identity w)) → respects identity_run (ae_identity e) →
  authenticate (identity_api s e) c w = (SOk p, w') →
  ∃ d, identity_run (pw_db (aw_identity w)) d ∧ authentic s c p (p_now (ae_identity e) (pw_step (aw_identity w))) d.
Proof.
  intros Hi He. destruct c as [token|value]; simpl; unfold on_identity; intros Ha.
  - destruct (IdentityService_AuthenticateBearer s token (ae_identity e) (aw_identity w)) as [r pw] eqn:E. simplify_eq.
    destruct (AuthenticateBearer_ok s _ _ _ _ _ Hi He E) as (r&Hrun&Hr&Hd&->&_&Hp). eexists. split; [exact Hrun|]. split; eauto.
  - destruct (IdentityService_AuthenticateAPIKey s value (ae_identity e) (aw_identity w)) as [r pw] eqn:E. simplify_eq.
    destruct (AuthenticateAPIKey_ok s _ _ _ _ _ Hi He E) as (d1&k&u&Hrun&_&Hk&Hu&Hh&Hrv&Hd&->).
    pose proof (inv_user_id _ (identity_run_inv _ _ Hrun Hi) _ _ Hu) as Eu. exists d1. split; [done|]. split; simpl.
    + exists u. by rw Eu.
    + exists k. by rw Eu.
Qed.

Lemma authenticate_jobs s e c w r w' : authenticate (identity_api s e) c w = (r, w') → aw_jobs w' = aw_jobs w.
Proof. destruct c; simpl; unfold on_identity; case_match; intros; by simplify_eq. Qed.
End auth.

(** ** Every route of the three groups is behind the authentication *)

Lemma guarded `{!UuidParser, !FloatText} {W} (j : JobAPI W) (re : ResultAPI W) (dl : DlqAPI W) rt :
  rt ∈ registerJobRoutes j ++ registerResultRoutes re ++ registerDLQRoutes dl → rt_guard rt = Authenticated.
Proof.
  revert rt. apply list.Forall_forall. unfold registerJobRoutes, registerResultRoutes, registerDLQRoutes, prefixes. simpl.
  repeat (apply list.Forall_cons; split; [done|]). by apply list.Forall_nil.
Qed.

(** C9. Users are isolated from each other, end to end.  Any request to a route of
    jobs, results or dead letters is answered 401 and leaves the tables of jobs alone,
    or carries credentials of a user who is not disabled: an access token of that user
    that is valid and has not expired by the clock of the request, or an API key of that
    user that is not revoked.  Unless that user is an administrator, an answer that is
    not an error shows only rows of that user, the transaction behind it leaves the jobs
    and quota counters of all others as they were, and a request answered with an error
    changes nothing; whatever others commit meanwhile, and whatever the other services
    do. *)
Theorem tenant_isolation
  `{!UuidParser, !JWT, !Argon2, !UnicodeTables, !MailParser, !PgLower, !FloatText, !Enqueuer, !WorkerSelector, !Chi, !GoArch}
  map_order s validate e readiness datasets multipart quality random now r i params rt l m w x rid st' :
  let identity := identity_api s e in
  let deps := mkDependencies readiness (Some identity) datasets multipart (Some (job_api validate e)) quality
                (Some (result_api e)) (Some (dlq_api e)) in
  identity_run empty_idb (pw_db (aw_identity w)) → reachable (aw_jobs w) →
  respects identity_run (ae_identity e) → (∀ n d, rtc transition d (ae_between e n d)) →
  chi_route ((λ rt, (rt_method rt, rt_pattern rt)) <$> NewRouter deps) (rq_Method r) (rq_Path r) = Matched i params →
  rt ∈ registerJobRoutes (job_api validate e) ++ registerResultRoutes (result_api e) ++ registerDLQRoutes (dlq_api e) →
  NewRouter deps !! i = Some (with_auth identity rt) →
  serve map_order deps random now r (mkHttpState l m w) = (x, rid, st') →
  let w' := hs_world st' in
  status x = 401 ∧ aw_jobs w' = aw_jobs w
  ∨ ∃ c p d, extractCredentials r = Some c ∧ identity_run (pw_db (aw_identity w)) d
      ∧ authentic s c p (p_now (ae_identity e) (pw_step (aw_identity w))) d
      ∧ (Role p ≠ RoleAdmin → confined (UserID p) (aw_jobs w) x (aw_jobs w')).
Proof.
  intros identity deps Hid Hw He Hb Hchi Hrt Hi. unfold serve. rw Hchi Hi. unfold with_auth. rw (guarded _ _ _ _ Hrt).
  unfold run_route. cbn [rt_guard rt_handler rt_pattern hs_limiter hs_world hs_metrics].
  set (r1 := set_context _ _ _). unfold identityAuthMiddleware. change (extractCredentials r1) with (extractCredentials r).
  destruct (extractCredentials r) as [c|]; [|unfold run_handler, respond; intros; simplify_eq; left; by split].
  rw run_handler_bind. unfold call. destruct (authenticate identity c w) as [[p|err] w1] eqn:Ha.
  - pose proof (identity_run_inv _ _ Hid ident_inv_empty) as Hinv.
    destruct (authenticate_authentic s e c w p w1 Hinv He Ha) as (d&Hrun&Hauth).
    destruct (run_handler (rt_handler rt (set_principal p r1)) w1) as [y w2] eqn:Hh. intros; simplify_eq. right. exists c, p, d.
    split_and!; [done..|]. intros Hp. pose proof (authenticate_jobs _ _ _ _ _ _ Ha) as Ej. rw -Ej in Hw |- *.
    eapply (routes_ok validate e Hb p Hp (set_principal p r1)); [|exact Hrt|exact Hw|exact Hh].
    unfold principalFromRequest. simpl. intros q. case_bool_decide; intros; by simplify_eq.
  - intros; simplify_eq. left. split; [done|]. by eapply authenticate_jobs.
Qed.

(** ** Routes *)

(** The routes that need no credentials. *)
Definition public_routes : list (string * string) :=
  [("GET", "/health/live"); ("GET", "/health/ready"); ("", "/metrics"); ("POST", "/v1/auth/register");
   ("POST", "/v1/auth/login"); ("POST", "/v1/auth/refresh"); ("POST", "/v1/auth/logout")].

Lemma register_elem {W A} (s : option A) (f : A → list (Route W)) rt : rt ∈ register s f → ∃ a, s = Some a ∧ rt ∈ f a.
Proof. destruct s; simpl; [eauto|]. by intros ?%not_elem_of_nil. Qed.

Lemma with_auth_public `{!UuidParser, !FloatText} {W} (deps : Dependencies W) rt : rt ∈ NewRouter deps →
  (rt_method rt, rt_pattern rt) ∈ public_routes
  ∨ ∃ s rt0, dep_Identity W deps = Some s ∧ rt_guard rt = Authenticated ∧ rt_handler rt = identityAuthMiddleware s (rt_handler rt0).
Proof.
  unfold NewRouter. intros [Hin|Hin]%elem_of_app.
  { left. revert rt Hin. apply list.Forall_forall.
    repeat (apply list.Forall_cons; split; [apply list_elem_of_In; simpl; tauto|]). by apply list.Forall_nil. }
  destruct (dep_Identity W deps) as [s|]; [|by apply not_elem_of_nil in Hin].
  apply list_elem_of_fmap in Hin as (rt0&->&Hin).
  assert (rt_guard rt0 = Authenticated ∨ (rt_guard rt0 ≠ Authenticated ∧ (rt_method rt0, rt_pattern rt0) ∈ public_routes)) as [Hg|[Hg Hp]].
  { revert Hin. rw !elem_of_app. intros Hin. destruct_or!;
      first [apply register_elem in Hin as (x&_&Hin)|idtac];
      revert rt0 Hin; apply list.Forall_forall;
      unfold registerIdentityRoutes, registerDatasetRoutes, registerMultipartRoutes, registerJobRoutes, registerQualityRoutes,
        registerResultRoutes, registerDLQRoutes, prefixes; simpl;
      repeat (apply list.Forall_cons; split; [first [by left|right; split; [done|apply list_elem_of_In; simpl; tauto]]|]); by apply list.Forall_nil. }
  - right. exists s, rt0. unfold with_auth. by rw Hg.
  - left. unfold with_auth. by destruct (rt_guard rt0).
Qed.

(** C25. Nothing but the seven public routes is served without credentials.  Whatever
    the services behind the router are, a request to any other route that carries no
    credentials, ambiguous ones or ones the identity service refuses is answered 401,
    and no service is called but the authentication. *)
Theorem routes_protected `{!UuidParser, !FloatText, !GoArch} {W} map_order (deps : Dependencies W) rt r now l w :
  rt ∈ NewRouter deps →
  (rt_method rt, rt_pattern rt) ∈ public_routes
  ∨ ∃ s, dep_Identity W deps = Some s
      ∧ match extractCredentials r with
        | None => run_route map_order rt r now l w = (write_case r unauthenticated, l, w)
        | Some c => ∀ err w', authenticate s c w = (SErr err, w') →
                    run_route map_order rt r now l w = (write_case r unauthenticated, l, w')
        end.
Proof.
  intros [Hp|(s&rt0&Hs&Hg&Hh)]%with_auth_public; [by left|right]. exists s. split; [done|].
  unfold run_route. rw Hg Hh. unfold identityAuthMiddleware. destruct (extractCredentials r) as [c|]; [|done].
  intros err w' Ha. rw run_handler_bind. unfold call. by rw Ha.
Qed.

(** A malformed dataset id is reported as a server error by one route.  The
    handler that initiates a multipart upload reports the error of parseDatasetID with
    the table of the multipart package, which does not list it: the request is
    answered 500, where the other routes of datasets answer 400. *)
Lemma upload_id_error_internal `{!UuidParser} {W} (uploads : MultipartAPI W) (datasets : DatasetAPI W) r p w :
  principalFromRequest r = Some p → uuid_Parse (URLParam r "datasetID") = None →
  run_handler (multipart_initiate uploads r) w
    = (WriteProblem r 500 "INTERNAL_ERROR" "The server could not complete the request.", w)
  ∧ run_handler (datasets_get datasets r) w = (WriteProblem r 400 "INVALID_REQUEST" "The request is invalid.", w).
Proof.
  intros Hp Hu. unfold run_handler, multipart_initiate, datasets_get, principal_or, mbind, h_bind. rw Hp.
  unfold parseDatasetID, parse_id, check, call. simpl. by rw Hu.
Qed.

(** A listing of jobs or datasets that names no page is answered with page 0 and page
    size 0, whatever page the service read. *)
Lemma default_page_reported {W} (jobs : JobAPI W) r p pg w w' :
  principalFromRequest r = Some p → rq_query r = [] → job_List W jobs p 0 0 "" w = (SOk pg, w') →
  run_handler (jobs_list jobs r) w = (JSON 200 (PJobs (mkListResponse (jp_Items pg) 0 0 (jp_Total pg))), w').
Proof.
  intros Hp Hq Hl. unfold run_handler, jobs_list, principal_or, mbind, h_bind. rw Hp.
  unfold parseJobPagination, parse_pagination, parsePositiveQueryInt, Query_Get, check, call. rw Hq. simpl. by rw Hl.
Qed.

(** ** An example *)

(** A router that compares segments. *)
Fixpoint match_segments (pattern path : list string) : option (list (string * string)) :=
  match pattern, path with
  | [], [] => Some []
  | s :: pattern, t :: path =>
      match bytes_of s with
      | 123%N :: name => ((string_of_bytes (take (length name - 1) name), t) ::.) <$> match_segments pattern path
      | _ => if bool_decide (s = t) then match_segments pattern path else None
      end
  | _, _ => None
  end.

Fixpoint first_match (i : nat) (table : list (string * string)) (method path : string) : RouteMatch :=
  match table with
  | [] => Unmatched 404 ""
  | (m, pattern) :: table =>
      match (if bool_decide (m = method) then match_segments (strings_Split pattern 47) (strings_Split path 47) else None) with
      | Some params => Matched i params
      | None => first_match (S i) table method path
      end
  end.

#[local] Instance segment_router : Chi := {| chi_route := first_match 0 |}.
#[local] Instance same_float : FloatText := {| json_float t := t; json_float_value _ _ H := H |}.
#[local] Existing Instances canonical_parser toy_jwt toy_argon2 ascii_tables toy_mail ascii_lower amd64.
#[local] Instance example_selector : WorkerSelector := registry_selector DefaultHeartbeatTTL.

(** The owner of the jobs of [ex_run] has an API key and asks for a job. *)
Definition member_key : string := "pfk_AAAAAAAAAAAAAAAAAAAAAAAAAAAAAAAAAAAAAAAAAAA".
Definition member_user_db : IDB :=
  (transact (run_identity (op_CreateUser "owner@example.org" "" "USER" DefaultUserScopes)) (ex_env 7 Hour) empty_idb).2.
Definition member_db : IDB :=
  (transact (run_identity (op_CreateAPIKey 7 "ci" "pfk_AAAAAAAA" (HashOpaqueToken member_key) [ScopeJobsRead])) (ex_env 900 Hour)
     member_user_db).2.

Definition member_app : AppEnv := mkAppEnv (still 5000 (2 * Hour)) (λ _ d, d) (ex_env 700 1000) 800 None.
Definition member_world : AppWorld := mkAppWorld (mkPWorld member_db 0) (ex_run 1).
Definition member_deps : Dependencies AppWorld :=
  mkDependencies None (Some (identity_api example_service member_app)) None None (Some (job_api (λ _, Ok "") member_app)) None
    (Some (result_api member_app)) (Some (dlq_api member_app)).
Definition member_request (headers : list (string * string)) : Request :=
  mkRequest "GET" ("/v1/jobs/" +:+ uuid_string ex_job) [] [] headers 0 (mkReader [] None) "203.0.113.7:4000" "" None.
Definition member_answer (headers : list (string * string)) : Response * string * HttpState AppWorld :=
  serve map_to_list member_deps None 0 (member_request headers) (mkHttpState None (mkMetrics ∅ ∅) member_world).
Definition member_route : Route AppWorld :=
  mkRoute "GET" "/v1/jobs/{jobID}" Authenticated (jobs_get (job_api (λ _, Ok "") member_app)).

Lemma member_db_run : identity_run empty_idb member_db.
Proof.
  apply (rtc_l _ _ member_user_db); [|apply rtc_once]; eexists _, _, _; apply surjective_pairing.
Qed.

Lemma member_status : status (member_answer [("X-Api-Key", member_key)]).1.1 = 200 ∧ status (member_answer []).1.1 = 401.
Proof. split; vm_compute; reflexivity. Qed.

Lemma member_matched :
  chi_route ((λ rt, (rt_method rt, rt_pattern rt)) <$> NewRouter member_deps) "GET" ("/v1/jobs/" +:+ uuid_string ex_job)
  = Matched 15 [("jobID", uuid_string ex_job)].
Proof. vm_compute. reflexivity. Qed.

Lemma member_registered : member_route ∈ registerJobRoutes (job_api (λ _, Ok "") member_app)
  ++ registerResultRoutes (result_api member_app) ++ registerDLQRoutes (dlq_api member_app).
Proof. apply elem_of_app. left. apply list_elem_of_In. simpl. tauto. Qed.

Lemma tenant_isolation_witness :
  let request := member_request [("X-Api-Key", member_key)] in
  let answer := member_answer [("X-Api-Key", member_key)] in
  status answer.1.1 = 200
  ∧ ∃ c p d, extractCredentials request = Some c ∧ authentic example_service c p (p_now (ae_identity member_app) 0) d
      ∧ (Role p ≠ RoleAdmin → confined (UserID p) (ex_run 1) answer.1.1 (aw_jobs (hs_world answer.2))).
Proof.
  split; [exact (proj1 member_status)|].
  destruct (tenant_isolation map_to_list example_service (λ _, Ok "") member_app None None None None None 0
    (member_request [("X-Api-Key", member_key)]) 15 [("jobID", uuid_string ex_job)] member_route None (mkMetrics ∅ ∅) member_world
    (member_answer [("X-Api-Key", member_key)]).1.1 (member_answer [("X-Api-Key", member_key)]).1.2
    (member_answer [("X-Api-Key", member_key)]).2) as [[Hs _]|(c&p&d&Hc&_&Ha&Hok)].
  - exact member_db_run.
  - exact (ex_run_reachable 1).
  - apply still_respects.
  - intros n d. apply rtc_refl.
  - exact member_matched.
  - exact member_registered.
  - reflexivity.
  - unfold member_answer. destruct (serve _ _ _ _ _ _) as [[x rid] st']. reflexivity.
  - rw (proj1 member_status) in Hs. discriminate Hs.
  - exists c, p, d. split; [exact Hc|]. split; [exact Ha|exact Hok].
Defined.

Lemma routes_protected_witness :
  run_route map_to_list (with_auth (identity_api example_service member_app) member_route) (member_request []) 0 None member_world
  = (write_case (member_request []) unauthenticated, None, member_world).
Proof.
  destruct (routes_protected map_to_list member_deps (with_auth (identity_api example_service member_app) member_route)
    (member_request []) 0 None member_world) as [Hp|(s&_&H)].
  - apply (list_elem_of_lookup_2 _ 15). reflexivity.
  - exfalso. apply list_elem_of_In in Hp. simpl in Hp. intuition discriminate.
  - exact H.
Defined.

Lemma upload_id_error_internal_witness :
  let r := set_principal (mkPrincipal 7 "USER" [] "bearer") (set_context "r1" [("datasetID", "not-a-uuid")] (member_request [])) in
  ∀ (uploads : MultipartAPI unit), status (run_handler (multipart_initiate uploads r) tt).1 = 500.
Proof.
  intros r uploads.
  destruct (upload_id_error_internal uploads
    {| ds_Create _ _ _ w := (SErr [], w); ds_List _ _ _ _ _ w := (SErr [], w); ds_Get _ _ w := (SErr [], w);
       ds_Delete _ _ w := (SErr [], w); ds_UploadVersion _ _ _ w := (SErr [], w) |} r (mkPrincipal 7 "USER" [] "bearer") tt) as [H _].
  - reflexivity.
  - vm_compute. reflexivity.
  - rw H. reflexivity.
Defined.
