(* ===== verification/GoTime.v ===== *)
(** Text of durations and instants in Go's [time] package: [time.ParseDuration], which
    the configuration reads its timeouts with, and the RFC 3339 text of an instant that
    messages carry, with the proof that reading takes back what writing gives. *)

From S2P Require Import Prelude GoStrings Json GoValue GoFloat.
From Stdlib Require Import ZifyBool ZifyN.

Open Scope Z_scope.

(** ** [time.ParseDuration] *)

(** [leadingInt]: the error of a number above 2^63. *)
Fixpoint leadingInt (x : N) (l : list N) : option (N * list N) :=
  match l with
  | b :: r =>
      if negb (is_digit b) then Some (x, l)
      else if (2 ^ 63 / 10 <? x)%N then None
      else let x := (x * 10 + (b - 48))%N in if (2 ^ 63 <? x)%N then None else leadingInt x r
  | [] => Some (x, [])
  end.

(** [leadingFraction]: digits that no longer fit are read and dropped. *)
Fixpoint leadingFraction (x : N) (scale : float64) (overflow : bool) (l : list N) : N * float64 * list N :=
  match l with
  | b :: r =>
      if negb (is_digit b) then (x, scale, l)
      else
        let y := (x * 10 + (b - 48))%N in
        if overflow || ((2 ^ 63 - 1) / 10 <? x)%N || (2 ^ 63 <? y)%N then leadingFraction x scale true r
        else leadingFraction y (fmul scale (float64_of_Z 10)) false r
  | [] => (x, scale, [])
  end.

(** [unitMap]; the micro sign is U+00B5 or U+03BC. *)
Definition unit_value (u : list N) : option Z :=
  if bool_decide (u = bytes_of "ns") then Some Nanosecond
  else if bool_decide (u = bytes_of "us" ∨ u = [194; 181; 115]%N ∨ u = [206; 188; 115]%N) then Some 1000
  else if bool_decide (u = bytes_of "ms") then Some 1000000
  else if bool_decide (u = bytes_of "s") then Some Second
  else if bool_decide (u = bytes_of "m") then Some Minute
  else if bool_decide (u = bytes_of "h") then Some Hour
  else None.

Fixpoint span_unit (l : list N) : list N * list N :=
  match l with
  | b :: r => if (b =? 46)%N || is_digit b then ([], l) else let (u, k) := span_unit r in (b :: u, k)
  | [] => ([], [])
  end.

(** A number before the unit: its whole part, the digits after the point and their
    scale. *)
Definition duration_number (l : list N) : option (N * N * float64 * list N) :=
  '(v, l1) ← leadingInt 0 l;
  let pre := negb (length l =? length l1)%nat in
  let '(f, scale, l2, post) :=
    match l1 with
    | 46%N :: r => let '(f, scale, r') := leadingFraction 0 (float64_of_Z 1) false r in
                   (f, scale, r', negb (length r =? length r')%nat)
    | _ => (0%N, float64_of_Z 1, l1, false)
    end in
  if pre || post then Some (v, f, scale, l2) else None.

(** [v*unit + uint64(float64(f) * (float64(unit) / scale))], [None] when it is above
    2^63. *)
Definition duration_value (v f : N) (scale : float64) (unit : Z) : option N :=
  if (2 ^ 63 / Z.to_N unit <? v)%N then None
  else
    let v := (v * Z.to_N unit)%N in
    if (f =? 0)%N then Some v
    else let v := (v + Z.to_N (trunc (fmul (float64_of_Z (Z.of_N f)) (fdiv (float64_of_Z unit) scale))))%N in
         if (2 ^ 63 <? v)%N then None else Some v.

(** The loop over the numbers; the sum is a [uint64].  A round reads a byte or more,
    so the length of the text is enough fuel. *)
Fixpoint duration_loop (fuel : nat) (d : N) (l : list N) : option N :=
  match l, fuel with
  | [], _ => Some d
  | _, O => None
  | b :: _, S fuel =>
      if negb ((b =? 46)%N || is_digit b) then None
      else
        '(v, f, scale, l) ← duration_number l;
        let (u, l) := span_unit l in
        unit ← unit_value u;
        v ← duration_value v f scale unit;
        let d := ((d + v) mod 2 ^ 64)%N in
        if (2 ^ 63 <? d)%N then None else duration_loop fuel d l
  end.

Definition ParseDuration (s : string) : option duration :=
  let (neg, l) := match bytes_of s with
                  | 45%N :: l => (true, l)
                  | 43%N :: l => (false, l)
                  | l => (false, l)
                  end in
  if bool_decide (l = [48%N]) then Some 0
  else if bool_decide (l = []) then None
  else
    d ← duration_loop (length l) 0 l;
    if neg then Some (- Z.of_N d) else if (2 ^ 63 - 1 <? d)%N then None else Some (Z.of_N d).

Example ParseDuration_compound : ParseDuration "1h15m30.918s" = Some (Hour + 15 * Minute + 30918000000).
Proof. vm_compute. reflexivity. Qed.

Example ParseDuration_micro :
  ParseDuration (string_of_bytes ([49; 194; 181; 115]%N)) = Some 1000 ∧ ParseDuration "-2.5us" = Some (-2500)
  ∧ ParseDuration "0.30000000000000000000h" = Some (18 * Minute) ∧ ParseDuration "+0" = Some 0.
Proof. vm_compute. done. Qed.

Example ParseDuration_errors :
  omap ParseDuration [""; "3"; "-"; "s"; "."; "+.s"; "1.s.m"; "3000000h"; "1 s"; "1d"] = [].
Proof. vm_compute. reflexivity. Qed.

(** ** Civil dates *)

Definition is_leap (y : Z) : bool := (y mod 4 =? 0) && (negb (y mod 100 =? 0) || (y mod 400 =? 0)).

(** Days from 0001-01-01 to the first day of a year, and of a month in its year. *)
Definition days_before_year (y : Z) : Z := 365 * (y - 1) + (y - 1) / 4 - (y - 1) / 100 + (y - 1) / 400.

Definition days_before_month (leap : bool) (m : Z) : Z :=
  nth (Z.to_nat (m - 1)) [0; 31; 59; 90; 120; 151; 181; 212; 243; 273; 304; 334; 365] 0
  + (if leap && (2 <? m) then 1 else 0).

Definition daysIn (y m : Z) : Z := days_before_month (is_leap y) (m + 1) - days_before_month (is_leap y) m.

Definition date_days (y m d : Z) : Z := days_before_year y + days_before_month (is_leap y) m + (d - 1).

(** The year of a day and the day's number in it. *)
Definition day_year (days : Z) : Z * Z :=
  let n400 := days / 146097 in
  let r := days mod 146097 in
  let n100 := Z.min 3 (r / 36524) in
  let r := r - 36524 * n100 in
  let n4 := r / 1461 in
  let r := r mod 1461 in
  let n1 := Z.min 3 (r / 365) in
  (400 * n400 + 100 * n100 + 4 * n4 + n1 + 1, r - 365 * n1).

(** The last month that starts by the day. *)
Fixpoint find_month (leap : bool) (fuel : nat) (yday : Z) : Z :=
  match fuel with
  | O => 1
  | S fuel' => if days_before_month leap (Z.of_nat fuel + 1) <=? yday then Z.of_nat fuel + 1 else find_month leap fuel' yday
  end.

Definition civil (days : Z) : Z * Z * Z :=
  let (y, yday) := day_year days in
  let m := find_month (is_leap y) 11 yday in
  (y, m, yday - days_before_month (is_leap y) m + 1).

(** ** RFC 3339 *)

Fixpoint dec_digits (w : nat) (n : N) : list N :=
  match w with O => [] | S w => dec_digits w (n / 10) ++ [(48 + n mod 10)%N] end.

Definition two (z : Z) : list N := dec_digits 2 (Z.to_N z).

Definition trim_zeros (l : list N) : list N := rev (trim_while (λ l, match l with 48%N :: _ => 1 | _ => 0 end)%nat (length l) (rev l)).

Definition Day : duration := 24 * Hour.

(** [Time.MarshalJSON] without the quotes: RFC3339Nano of an instant in UTC, an error
    outside the years 0 to 9999. *)
Definition format_time (t : time) : option (list N) :=
  let '(y, m, d) := civil (t / Day) in
  let s := t mod Day / Second in
  let frac := trim_zeros (dec_digits 9 (Z.to_N (t mod Second))) in
  if (y <? 0) || (9999 <? y) then None
  else Some (dec_digits 4 (Z.to_N y) ++ [45%N] ++ two m ++ [45%N] ++ two d ++ [84%N]
             ++ two (s / 3600) ++ [58%N] ++ two (s / 60 mod 60) ++ [58%N] ++ two (s mod 60)
             ++ (if bool_decide (frac = []) then [] else 46%N :: frac) ++ [90%N]).

(** [getnum]: two digits, or one when [fixed] is off. *)
Definition getnum (fixed : bool) (l : list N) : option (Z * list N) :=
  match l with
  | a :: l =>
      if negb (is_digit a) then None
      else match l with
           | b :: r => if is_digit b then Some (Z.of_N ((a - 48) * 10 + (b - 48)), r)
                       else if fixed then None else Some (Z.of_N (a - 48), l)
           | [] => if fixed then None else Some (Z.of_N (a - 48), [])
           end
  | [] => None
  end.

(** The first digits after the point count as nanoseconds. *)
Definition parse_frac (l : list N) : Z * list N :=
  match l with
  | c :: r =>
      let (ds, r') := span_digits r in
      if ((c =? 46)%N || (c =? 44)%N) && negb (bool_decide (ds = []))
      then let ds := take 9 ds in (Z.of_N (digits_value ds) * 10 ^ (9 - Z.of_nat (length ds)), r')
      else (0, l)
  | [] => (0, l)
  end.

(** The offset of a zone in seconds: [Z], or a sign, hours and minutes. *)
Definition parse_zone (l : list N) : option (Z * list N) :=
  match l with
  | 90%N :: r => Some (0, r)
  | sign :: h1 :: h2 :: 58%N :: m1 :: m2 :: r =>
      '(hr, _) ← getnum true [h1; h2];
      '(mm, _) ← getnum true [m1; m2];
      if (24 <? hr) || (60 <? mm) then None
      else if (sign =? 43)%N then Some ((hr * 60 + mm) * 60, r)
      else if (sign =? 45)%N then Some (- ((hr * 60 + mm) * 60), r)
      else None
  | _ => None
  end.

Definition date_of (y m d : Z) : option Z :=
  if (1 <=? m) && (m <=? 12) && (1 <=? d) && (d <=? daysIn y m) then Some (date_days y m d) else None.

Definition clock_of (h m s : Z) : option Z :=
  if (h <? 24) && (m <? 60) && (s <? 60) then Some (h * 3600 + m * 60 + s) else None.

(** [time.Parse] with the layout [time.RFC3339], which is what [Time.UnmarshalJSON]
    comes to: one digit is enough for the hour, and a comma may precede the fraction. *)
Definition parse_time (l : list N) : option time :=
  if negb (forallb is_digit (take 4 l)) || bool_decide (length (take 4 l) < 4)%nat then None
  else
    let y := Z.of_N (digits_value (take 4 l)) in
    l ← eat 45 (drop 4 l);
    '(m, l) ← getnum true l;
    l ← eat 45 l;
    '(d, l) ← getnum true l;
    l ← eat 84 l;
    '(hour, l) ← getnum false l;
    l ← eat 58 l;
    '(min, l) ← getnum true l;
    l ← eat 58 l;
    '(sec, l) ← getnum true l;
    let (ns, l) := parse_frac l in
    '(offset, l) ← parse_zone l;
    day ← date_of y m d;
    clock ← clock_of hour min sec;
    if bool_decide (l = []) then Some (day * Day + (clock - offset) * Second + ns) else None.

Example parse_time_zone :
  parse_time (bytes_of "2024-02-29T23:30:00.25+05:30") = parse_time (bytes_of "2024-02-29T18:00:00,250Z")
  ∧ parse_time (bytes_of "0001-01-01T00:00:00Z") = Some time_zero.
Proof. vm_compute. done. Qed.

Example parse_time_refused :
  omap parse_time (bytes_of <$> ["2023-02-29T00:00:00Z"; "2024-01-01T24:00:00Z"; "2024-01-01T00:00:60Z";
    "2024-01-01 00:00:00Z"; "2024-01-01T00:00:00"]) = [].
Proof. vm_compute. reflexivity. Qed.

Example format_time_example :
  (parse_time (bytes_of "2024-12-31T07:08:09.010Z") ≫= format_time) = Some (bytes_of "2024-12-31T07:08:09.01Z").
Proof. vm_compute. reflexivity. Qed.

(** ** Reading takes back what writing gives *)

Lemma is_leap_iff y : is_leap y = true ↔ y mod 4 = 0 ∧ (y mod 100 ≠ 0 ∨ y mod 400 = 0).
Proof. unfold is_leap. rw andb_true_iff orb_true_iff negb_true_iff. lia. Qed.

Lemma day_year_spec days y yday : day_year days = (y, yday) →
  days_before_year y + yday = days ∧ 0 <= yday < (if is_leap y then 366 else 365).
Proof.
  unfold day_year. intros [= Hy Hd].
  set (n400 := days / 146097) in *. set (r := days mod 146097) in *.
  assert (days = 146097 * n400 + r) as E by (apply Z.div_mod; lia).
  assert (0 <= r < 146097) as Hr by (apply Z.mod_pos_bound; lia). clearbody n400 r.
  set (n100 := Z.min 3 (r / 36524)) in *. set (r1 := r - 36524 * n100) in *.
  assert (0 <= n100 <= 3 ∧ 0 <= r1 ∧ (r1 < 36524 ∨ n100 = 3 ∧ r1 = 36524)) as H100 by lia.
  clearbody n100. set (n4 := r1 / 1461) in *. set (r2 := r1 mod 1461) in *.
  assert (r1 = 1461 * n4 + r2 ∧ 0 <= r2 < 1461 ∧ 0 <= n4 <= 24) as H4 by lia.
  clearbody n4 r2. set (n1 := Z.min 3 (r2 / 365)) in *.
  assert (0 <= n1 <= 3 ∧ 0 <= r2 - 365 * n1 ∧ (r2 - 365 * n1 < 365 ∨ n1 = 3 ∧ r2 - 365 * n1 = 365)) as H1 by lia.
  clearbody n1. subst r1.
  assert (is_leap y = true ↔ n1 = 3 ∧ (n4 ≠ 24 ∨ n100 = 3)) as Hleap.
  { rw is_leap_iff. subst y. split; lia. }
  split.
  - unfold days_before_year. subst y yday days.
    replace ((400 * n400 + 100 * n100 + 4 * n4 + n1 + 1 - 1) / 4) with (100 * n400 + 25 * n100 + n4) by lia.
    replace ((400 * n400 + 100 * n100 + 4 * n4 + n1 + 1 - 1) / 100) with (4 * n400 + n100) by lia.
    replace ((400 * n400 + 100 * n100 + 4 * n4 + n1 + 1 - 1) / 400) with n400 by lia. lia.
  - destruct (is_leap y); [lia|]. destruct (decide (n1 = 3)); [|lia].
    assert (n4 = 24 ∧ n100 ≠ 3) by (destruct (decide (n4 = 24)), (decide (n100 = 3)); naive_solver).
    lia.
Qed.

Lemma find_month_spec leap yday : 0 <= yday < (if leap : bool then 366 else 365) →
  let m := find_month leap 11 yday in
  1 <= m <= 12 ∧ days_before_month leap m <= yday < days_before_month leap (m + 1).
Proof.
  intros Hd. cbn [find_month].
  repeat match goal with |- context [if days_before_month leap ?m <=? yday then _ else _] =>
    let v := eval vm_compute in (days_before_month true m, days_before_month false m) in
    match v with (?a, ?b) =>
      replace (days_before_month leap m) with (if leap then a else b) by (by destruct leap);
      destruct (Z.leb_spec (if leap then a else b) yday);
      [split; [done|]; destruct leap; vm_compute days_before_month; lia|]
    end end.
  split; [done|]. destruct leap; vm_compute days_before_month; lia.
Qed.

Lemma month_le_31 leap m : 1 <= m <= 12 → days_before_month leap (m + 1) - days_before_month leap m <= 31.
Proof.
  intros Hm. assert (m = 1 ∨ m = 2 ∨ m = 3 ∨ m = 4 ∨ m = 5 ∨ m = 6 ∨ m = 7 ∨ m = 8 ∨ m = 9 ∨ m = 10 ∨ m = 11 ∨ m = 12)
    as Hcase by lia.
  destruct leap; repeat destruct Hcase as [->|Hcase]; subst; vm_compute; discriminate.
Qed.

Lemma date_of_civil days y m d : civil days = (y, m, d) → date_of y m d = Some days ∧ 1 <= m <= 12 ∧ 1 <= d <= 31.
Proof.
  unfold civil. destruct (day_year days) as [y' yday] eqn:E.
  pose proof (day_year_spec _ _ _ E) as [Ed Hy]. pose proof (find_month_spec _ _ Hy) as Hf.
  cbv zeta in Hf. generalize dependent (find_month (is_leap y') 11 yday). intros m' [Hm Hlt] [= -> -> <-].
  pose proof (month_le_31 (is_leap y) m Hm). split; [|lia].
  unfold date_of, daysIn, date_days.
  replace ((1 <=? m) && _ && _ && _) with true by lia. f_equal. lia.
Qed.

Lemma length_dec_digits w n : length (dec_digits w n) = w.
Proof. revert n. induction w as [|w IH]; intros n; simpl; [done|]. rw length_app IH /=. lia. Qed.

Lemma dec_digits_digit w n : forallb is_digit (dec_digits w n) = true.
Proof.
  revert n. induction w as [|w IH]; intros n; simpl; [done|]. rw forallb_app IH /=.
  unfold is_digit, in_range. lia.
Qed.

Lemma digits_value_snoc l b : digits_value (l ++ [b]) = (digits_value l * 10 + (b - 48))%N.
Proof. unfold digits_value. by rw fold_left_app. Qed.

Lemma digits_value_dec w n : (n < 10 ^ N.of_nat w)%N → digits_value (dec_digits w n) = n.
Proof.
  revert n. induction w as [|w IH]; intros n Hn; simpl.
  - simpl in Hn. unfold digits_value. simpl. lia.
  - rw Nat2N.inj_succ N.pow_succ_r' in Hn. rw digits_value_snoc IH; [|lia].
    apply N.Div0.div_lt_upper_bound. lia.
Qed.

Lemma getnum_two fixed z r : 0 <= z < 100 → getnum fixed (two z ++ r) = Some (z, r).
Proof.
  intros Hz. unfold getnum, two, dec_digits. simpl.
  assert (is_digit (48 + Z.to_N z / 10 mod 10) = true ∧ is_digit (48 + Z.to_N z mod 10) = true) as [-> ->]
    by (unfold is_digit, in_range; lia).
  simpl. do 2 f_equal. lia.
Qed.

Lemma eat_head c r : eat c (c :: r) = Some r.
Proof. unfold eat. by rw bool_decide_eq_true_2. Qed.

Lemma digits_value_zeros l k : digits_value (l ++ replicate k 48%N) = (digits_value l * 10 ^ N.of_nat k)%N.
Proof.
  induction k as [|k IH]; [simpl; rw app_nil_r; lia|].
  rw replicate_S_end app_assoc digits_value_snoc IH Nat2N.inj_succ N.pow_succ_r'. lia.
Qed.

Lemma trim_zeros_spec l : ∃ k, l = trim_zeros l ++ replicate k 48%N.
Proof.
  unfold trim_zeros.
  assert (∀ n l, ∃ k, l = replicate k 48%N ++ trim_while (λ l, match l with 48%N :: _ => 1 | _ => 0 end)%nat n l) as H.
  { clear l. induction n as [|n IH]; intros l; [by exists 0%nat|]. simpl.
    destruct (match l with 48%N :: _ => 1%nat | _ => 0%nat end) eqn:E; [by exists 0%nat|].
    destruct l as [|b l]; [done|]. 
    assert (b = 48%N) as -> by (repeat (case_match; try done)).
    destruct (IH l) as [k Hk]. exists (S k). 
    injection E as <-. simpl. f_equal. by rw drop_0. }
  destruct (H (length l) (rev l)) as [k Hk]. exists k.
  assert (rev (replicate k 48%N) = replicate k 48%N) as Hr.
  { clear. induction k as [|k IH]; [done|]. simpl. by rw IH -replicate_S_end. }
  apply (f_equal (@rev N)) in Hk. by rw rev_involutive rev_app_distr Hr in Hk.
Qed.

Lemma span_digits_all l c r : forallb is_digit l = true → is_digit c = false → span_digits (l ++ c :: r) = (l, c :: r).
Proof.
  intros Hl Hc. induction l as [|b l IH]; simpl in *; [by rw Hc|].
  apply andb_true_iff in Hl as [Hb Hl]. by rw Hb IH.
Qed.

Lemma parse_frac_trimmed n r : 0 <= n < Second →
  let frac := trim_zeros (dec_digits 9 (Z.to_N n)) in
  parse_frac ((if bool_decide (frac = []) then [] else 46%N :: frac) ++ 90%N :: r) = (n, 90%N :: r).
Proof.
  intros Hn frac. destruct (trim_zeros_spec (dec_digits 9 (Z.to_N n))) as [k Hk].
  assert (digits_value (dec_digits 9 (Z.to_N n)) = Z.to_N n) as Hv.
  { apply digits_value_dec. change (10 ^ N.of_nat 9)%N with 1000000000%N. unfold Second in Hn. lia. }
  assert (length frac + k = 9)%nat as Hlen.
  { apply (f_equal length) in Hk. rw length_dec_digits length_app length_replicate in Hk. fold frac in Hk. lia. }
  assert (forallb is_digit frac = true) as Hd.
  { pose proof (dec_digits_digit 9 (Z.to_N n)) as H. rw Hk forallb_app andb_true_iff in H. tauto. }
  rw Hk digits_value_zeros in Hv. fold frac in Hv. destruct (bool_decide_reflect (frac = [])) as [E|E].
  - rw E in Hv. unfold parse_frac. simpl. destruct (span_digits r). f_equal. unfold digits_value in Hv. simpl in Hv. lia.
  - simpl. rw (span_digits_all frac 90 r) // bool_decide_eq_false_2 //=. rw take_ge; [lia|].
    f_equal. replace (9 - Z.of_nat (length frac)) with (Z.of_nat k) by lia.
    apply (f_equal Z.of_N) in Hv. rw N2Z.inj_mul N2Z.inj_pow in Hv. rw nat_N_Z Z2N.id in Hv; lia.
Qed.

Lemma clock_of_parts s : 0 <= s < 86400 → clock_of (s / 3600) (s / 60 mod 60) (s mod 60) = Some s.
Proof. intros Hs. unfold clock_of. replace (_ && _ && _) with true by lia. f_equal. lia. Qed.

#[local] Opaque two dec_digits getnum parse_frac.

(** An instant is read back from its text, to the nanosecond. *)
Lemma parse_format_time t l : format_time t = Some l → parse_time l = Some t.
Proof.
  unfold format_time. destruct (civil (t / Day)) as [[y m] d] eqn:E.
  apply date_of_civil in E as (Hdate&Hm&Hd).
  destruct ((y <? 0) || (9999 <? y)) eqn:Hy; [done|].
  assert (0 <= y <= 9999) as [Hy0 Hy9] by (clear -Hy; lia). clear Hy. intros Hl. apply (inj Some) in Hl as <-.
  assert (0 <= t mod Day < Day ∧ 0 <= t mod Second < Second) as [Hday Hns]
    by (split; apply Z.mod_pos_bound; done).
  set (s := t mod Day / Second). assert (0 <= s < 86400) as Hs by (unfold s, Day, Hour, Minute, Second in *; lia).
  unfold parse_time. rw take_app_length' ?length_dec_digits // dec_digits_digit ?length_dec_digits.
  cbn [negb orb bool_decide decide_rel]. rw bool_decide_eq_false_2; [lia|].
  rw drop_app_length' ?length_dec_digits // digits_value_dec.
  { change (10 ^ N.of_nat 4)%N with 10000%N. clear -Hy0 Hy9. lia. }
  rw eat_head /=. do 5 (rw getnum_two /=; [lia|]).
  rw parse_frac_trimmed // Z2N.id //=. rw Hdate clock_of_parts //=.
  f_equal. clear. subst s. unfold Day, Hour, Minute, Second. lia.
Qed.
