(* ===== verification/EnvelopeCodec.v ===== *)
(** Messages as bytes: [MarshalEnvelope] and [UnmarshalEnvelope] of
    src/go/internal/queue/envelope.go, and the decoders of result events
    (src/go/internal/result/validation.go).  What the publisher writes is what a
    consumer reads. *)

From S2P Require Import Prelude GoStrings Json GoValue GoFloat GoTime Queue Canonical Upload Tokens JsonDecode Result IdentityExamples.
From stdpp Require Import pretty.
From Stdlib Require Import QArith ZifyBool ZifyN.

Open Scope Z_scope.

(** ** Times in JSON *)

(** [Time.MarshalJSON] and [Time.UnmarshalJSON]. *)
Definition json_time (t : time) : option json := JStr ∘ string_of_bytes <$> format_time t.

Definition dec_time : Dec time := λ v old,
  match v with JNull => Some old | JStr s => parse_time (bytes_of s) | _ => None end.

(** ** Writing *)

Definition envelope_json (e : Envelope) : option json :=
  occurredAt ← json_time (OccurredAt e);
  payload ← raw_value (Payload e);
  Some (JObj [("messageId", json_uuid (MessageID e)); ("messageType", JStr (MessageType e));
              ("schemaVersion", json_int (SchemaVersion e)); ("occurredAt", occurredAt);
              ("traceId", JStr (TraceID e)); ("correlationId", JStr (CorrelationID e));
              ("causationId", JStr (CausationID e)); ("payload", payload)]).

(** The payload is written from its value, as [json.Marshal] spelled it in
    [NewEnvelope].  An instant after the year 9999 has no text. *)
Definition MarshalEnvelope (e : Envelope) : res (list N) :=
  _ ← Envelope_Validate e;
  match envelope_json e with
  | Some v => Ok (json_marshal v)
  | None => Err (ErrText "Time.MarshalJSON: year outside of range [0,9999]")
  end.

(** ** Reading *)

(** The members of an object with the text each value has. *)
Fixpoint raw_members (fuel : nat) (l : list N) : option (list (string * RawMessage) * list N) :=
  match fuel with
  | O => None
  | S fuel =>
      l ← eat 34 (skip_ws l);
      '(k, r) ← parse_str l;
      r ← eat 58 (skip_ws r);
      let text := skip_ws r in
      '(v, r) ← parse_value (S (2 * length text)) 1 text;
      let raw := mkRaw (Z.of_nat (length text - length r)) (Some v) in
      match eat 44 (skip_ws r) with
      | Some r => '(ms, r) ← raw_members fuel r; Some ((k, raw) :: ms, r)
      | None => r ← eat 125 (skip_ws r); Some ([(k, raw)], r)
      end
  end.

(** A field of the envelope from the text of its value. *)
Definition RawDec (A : Type) := RawMessage → A → option A.

Definition of_json {A} (dec : Dec A) : RawDec A := λ raw old, v ← raw_value raw; dec v old.

Fixpoint dec_raw_members {A} (fields : list (string * RawDec A)) (l : list (string * RawMessage)) (old : A) : option A :=
  match l with
  | [] => Some old
  | (k, raw) :: l => dec ← find_field fields k; x ← dec raw old; dec_raw_members fields l x
  end.

Definition zero_envelope : Envelope := mkEnvelope uuid_nil "" 0 time_zero "" "" "" (mkRaw 0 None).

Section codec.
Context `{UuidParser}.

Definition envelope_fields : list (string * RawDec Envelope) := [
  ("messageId", of_json (field MessageID (λ v e, mkEnvelope v (MessageType e) (SchemaVersion e) (OccurredAt e) (TraceID e) (CorrelationID e) (CausationID e) (Payload e)) dec_uuid));
  ("messageType", of_json (field MessageType (λ v e, mkEnvelope (MessageID e) v (SchemaVersion e) (OccurredAt e) (TraceID e) (CorrelationID e) (CausationID e) (Payload e)) dec_string));
  ("schemaVersion", of_json (field SchemaVersion (λ v e, mkEnvelope (MessageID e) (MessageType e) v (OccurredAt e) (TraceID e) (CorrelationID e) (CausationID e) (Payload e)) (dec_int 64)));
  ("occurredAt", of_json (field OccurredAt (λ v e, mkEnvelope (MessageID e) (MessageType e) (SchemaVersion e) v (TraceID e) (CorrelationID e) (CausationID e) (Payload e)) dec_time));
  ("traceId", of_json (field TraceID (λ v e, mkEnvelope (MessageID e) (MessageType e) (SchemaVersion e) (OccurredAt e) v (CorrelationID e) (CausationID e) (Payload e)) dec_string));
  ("correlationId", of_json (field CorrelationID (λ v e, mkEnvelope (MessageID e) (MessageType e) (SchemaVersion e) (OccurredAt e) (TraceID e) v (CausationID e) (Payload e)) dec_string));
  ("causationId", of_json (field CausationID (λ v e, mkEnvelope (MessageID e) (MessageType e) (SchemaVersion e) (OccurredAt e) (TraceID e) (CorrelationID e) v (Payload e)) dec_string));
  ("payload", λ raw e, Some (mkEnvelope (MessageID e) (MessageType e) (SchemaVersion e) (OccurredAt e) (TraceID e) (CorrelationID e) (CausationID e) raw))].

(** The first value of the data is decoded; what follows it is not looked at. *)
Definition decode_envelope (data : list N) : option Envelope :=
  '(v, _) ← parse_value (S (2 * length data)) 0 data;
  match v with
  | JNull | JObj [] => Some zero_envelope
  | JObj _ =>
      l ← eat 123 (skip_ws data);
      '(ms, _) ← raw_members (length l) l;
      dec_raw_members envelope_fields ms zero_envelope
  | _ => None
  end.

Definition UnmarshalEnvelope (data : list N) : res Envelope :=
  if MaxEnvelopeBytes <? Z.of_nat (length data) then Err (ErrText "message exceeds 1048576 bytes")
  else match decode_envelope data with
       | None => Err (ErrText "decode message envelope")
       | Some envelope => _ ← Envelope_Validate envelope; Ok envelope
       end.

(** ** Result events *)

(** [decodeStrict]: the payload of a validated envelope is one JSON value. *)
Definition decode_strict {A} (dec : Dec A) (zero : A) (p : RawMessage) : option A := v ← raw_value p; dec v zero.

Definition dec_float : Dec Q := λ v old,
  match v with JNull => Some old | JNum t => fval <$> ParseFloat t | _ => None end.

Definition dec_strings : Dec (list string) := λ v old, default [] <$> dec_slice "" dec_string v (Some old).

Definition started_fields : list (string * Dec StartedEvent) := [
  ("jobId", field se_JobID (λ v e, mkStarted v (se_AttemptID e) (se_LeaseID e) (se_WorkerID e) (se_AttemptNumber e)) dec_uuid);
  ("attemptId", field se_AttemptID (λ v e, mkStarted (se_JobID e) v (se_LeaseID e) (se_WorkerID e) (se_AttemptNumber e)) dec_uuid);
  ("leaseId", field se_LeaseID (λ v e, mkStarted (se_JobID e) (se_AttemptID e) v (se_WorkerID e) (se_AttemptNumber e)) dec_uuid);
  ("workerId", field se_WorkerID (λ v e, mkStarted (se_JobID e) (se_AttemptID e) (se_LeaseID e) v (se_AttemptNumber e)) dec_uuid);
  ("attemptNumber", field se_AttemptNumber (λ v e, mkStarted (se_JobID e) (se_AttemptID e) (se_LeaseID e) (se_WorkerID e) v) (dec_int 64))].

Definition progressed_fields : list (string * Dec ProgressedEvent) :=
  let mk := mkProgressed in [
  ("jobId", field pe_JobID (λ v e, mk v (pe_AttemptID e) (pe_LeaseID e) (pe_Stage e) (pe_ProcessedRows e) (pe_EstimatedTotalRows e) (pe_ProgressPercent e) (pe_Throughput e) (pe_UpdatedAt e)) dec_uuid);
  ("attemptId", field pe_AttemptID (λ v e, mk (pe_JobID e) v (pe_LeaseID e) (pe_Stage e) (pe_ProcessedRows e) (pe_EstimatedTotalRows e) (pe_ProgressPercent e) (pe_Throughput e) (pe_UpdatedAt e)) dec_uuid);
  ("leaseId", field pe_LeaseID (λ v e, mk (pe_JobID e) (pe_AttemptID e) v (pe_Stage e) (pe_ProcessedRows e) (pe_EstimatedTotalRows e) (pe_ProgressPercent e) (pe_Throughput e) (pe_UpdatedAt e)) dec_uuid);
  ("stage", field pe_Stage (λ v e, mk (pe_JobID e) (pe_AttemptID e) (pe_LeaseID e) v (pe_ProcessedRows e) (pe_EstimatedTotalRows e) (pe_ProgressPercent e) (pe_Throughput e) (pe_UpdatedAt e)) dec_string);
  ("processedRows", field pe_ProcessedRows (λ v e, mk (pe_JobID e) (pe_AttemptID e) (pe_LeaseID e) (pe_Stage e) v (pe_EstimatedTotalRows e) (pe_ProgressPercent e) (pe_Throughput e) (pe_UpdatedAt e)) (dec_int 64));
  ("estimatedTotalRows", field pe_EstimatedTotalRows (λ v e, mk (pe_JobID e) (pe_AttemptID e) (pe_LeaseID e) (pe_Stage e) (pe_ProcessedRows e) v (pe_ProgressPercent e) (pe_Throughput e) (pe_UpdatedAt e)) (dec_ptr 0 (dec_int 64)));
  ("progressPercent", field pe_ProgressPercent (λ v e, mk (pe_JobID e) (pe_AttemptID e) (pe_LeaseID e) (pe_Stage e) (pe_ProcessedRows e) (pe_EstimatedTotalRows e) v (pe_Throughput e) (pe_UpdatedAt e)) dec_float);
  ("throughput", field pe_Throughput (λ v e, mk (pe_JobID e) (pe_AttemptID e) (pe_LeaseID e) (pe_Stage e) (pe_ProcessedRows e) (pe_EstimatedTotalRows e) (pe_ProgressPercent e) v (pe_UpdatedAt e)) dec_float);
  ("updatedAt", field pe_UpdatedAt (λ v e, mk (pe_JobID e) (pe_AttemptID e) (pe_LeaseID e) (pe_Stage e) (pe_ProcessedRows e) (pe_EstimatedTotalRows e) (pe_ProgressPercent e) (pe_Throughput e) v) dec_time)].

Definition succeeded_fields : list (string * Dec SucceededEvent) := [
  ("jobId", field ue_JobID (λ v e, mkSucceeded v (ue_AttemptID e) (ue_LeaseID e) (ue_WorkerID e) (ue_Artifacts e)) dec_uuid);
  ("attemptId", field ue_AttemptID (λ v e, mkSucceeded (ue_JobID e) v (ue_LeaseID e) (ue_WorkerID e) (ue_Artifacts e)) dec_uuid);
  ("leaseId", field ue_LeaseID (λ v e, mkSucceeded (ue_JobID e) (ue_AttemptID e) v (ue_WorkerID e) (ue_Artifacts e)) dec_uuid);
  ("workerId", field ue_WorkerID (λ v e, mkSucceeded (ue_JobID e) (ue_AttemptID e) (ue_LeaseID e) v (ue_Artifacts e)) dec_uuid);
  ("artifacts", field ue_Artifacts (λ v e, mkSucceeded (ue_JobID e) (ue_AttemptID e) (ue_LeaseID e) (ue_WorkerID e) v) dec_strings)].

Definition failure_fields : list (string * Dec FailureInfo) := [
  ("code", field fi_Code (λ v e, mkFailure v (fi_Message e) (fi_Retryable e) (fi_DiagnosticRef e)) dec_string);
  ("message", field fi_Message (λ v e, mkFailure (fi_Code e) v (fi_Retryable e) (fi_DiagnosticRef e)) dec_string);
  ("retryable", field fi_Retryable (λ v e, mkFailure (fi_Code e) (fi_Message e) v (fi_DiagnosticRef e)) dec_bool);
  ("diagnosticRef", field fi_DiagnosticRef (λ v e, mkFailure (fi_Code e) (fi_Message e) (fi_Retryable e) v) (dec_ptr "" dec_string))].

Definition failed_fields : list (string * Dec FailedEvent) := [
  ("jobId", field fe_JobID (λ v e, mkFailed v (fe_AttemptID e) (fe_LeaseID e) (fe_WorkerID e) (fe_Error e)) dec_uuid);
  ("attemptId", field fe_AttemptID (λ v e, mkFailed (fe_JobID e) v (fe_LeaseID e) (fe_WorkerID e) (fe_Error e)) dec_uuid);
  ("leaseId", field fe_LeaseID (λ v e, mkFailed (fe_JobID e) (fe_AttemptID e) v (fe_WorkerID e) (fe_Error e)) dec_uuid);
  ("workerId", field fe_WorkerID (λ v e, mkFailed (fe_JobID e) (fe_AttemptID e) (fe_LeaseID e) v (fe_Error e)) dec_uuid);
  ("error", field fe_Error (λ v e, mkFailed (fe_JobID e) (fe_AttemptID e) (fe_LeaseID e) (fe_WorkerID e) v) (dec_struct failure_fields))].

Definition cancelled_fields : list (string * Dec CancelledEvent) := [
  ("jobId", field ce_JobID (λ v e, mkCancelled v (ce_AttemptID e) (ce_LeaseID e) (ce_WorkerID e) (ce_Reason e)) dec_uuid);
  ("attemptId", field ce_AttemptID (λ v e, mkCancelled (ce_JobID e) v (ce_LeaseID e) (ce_WorkerID e) (ce_Reason e)) dec_uuid);
  ("leaseId", field ce_LeaseID (λ v e, mkCancelled (ce_JobID e) (ce_AttemptID e) v (ce_WorkerID e) (ce_Reason e)) dec_uuid);
  ("workerId", field ce_WorkerID (λ v e, mkCancelled (ce_JobID e) (ce_AttemptID e) (ce_LeaseID e) v (ce_Reason e)) dec_uuid);
  ("reason", field ce_Reason (λ v e, mkCancelled (ce_JobID e) (ce_AttemptID e) (ce_LeaseID e) (ce_WorkerID e) v) dec_string)].

Definition artifact_fields : list (string * Dec ArtifactCreatedEvent) :=
  let mk := mkArtifactCreated in [
  ("jobId", field ae_JobID (λ v e, mk v (ae_AttemptID e) (ae_LeaseID e) (ae_ArtifactID e) (ae_Kind e) (ae_ObjectKey e) (ae_SizeBytes e) (ae_ContentType e) (ae_ChecksumSHA256 e)) dec_uuid);
  ("attemptId", field ae_AttemptID (λ v e, mk (ae_JobID e) v (ae_LeaseID e) (ae_ArtifactID e) (ae_Kind e) (ae_ObjectKey e) (ae_SizeBytes e) (ae_ContentType e) (ae_ChecksumSHA256 e)) dec_uuid);
  ("leaseId", field ae_LeaseID (λ v e, mk (ae_JobID e) (ae_AttemptID e) v (ae_ArtifactID e) (ae_Kind e) (ae_ObjectKey e) (ae_SizeBytes e) (ae_ContentType e) (ae_ChecksumSHA256 e)) dec_uuid);
  ("artifactId", field ae_ArtifactID (λ v e, mk (ae_JobID e) (ae_AttemptID e) (ae_LeaseID e) v (ae_Kind e) (ae_ObjectKey e) (ae_SizeBytes e) (ae_ContentType e) (ae_ChecksumSHA256 e)) dec_uuid);
  ("kind", field ae_Kind (λ v e, mk (ae_JobID e) (ae_AttemptID e) (ae_LeaseID e) (ae_ArtifactID e) v (ae_ObjectKey e) (ae_SizeBytes e) (ae_ContentType e) (ae_ChecksumSHA256 e)) dec_string);
  ("objectKey", field ae_ObjectKey (λ v e, mk (ae_JobID e) (ae_AttemptID e) (ae_LeaseID e) (ae_ArtifactID e) (ae_Kind e) v (ae_SizeBytes e) (ae_ContentType e) (ae_ChecksumSHA256 e)) dec_string);
  ("sizeBytes", field ae_SizeBytes (λ v e, mk (ae_JobID e) (ae_AttemptID e) (ae_LeaseID e) (ae_ArtifactID e) (ae_Kind e) (ae_ObjectKey e) v (ae_ContentType e) (ae_ChecksumSHA256 e)) (dec_int 64));
  ("contentType", field ae_ContentType (λ v e, mk (ae_JobID e) (ae_AttemptID e) (ae_LeaseID e) (ae_ArtifactID e) (ae_Kind e) (ae_ObjectKey e) (ae_SizeBytes e) v (ae_ChecksumSHA256 e)) dec_string);
  ("checksumSha256", field ae_ChecksumSHA256 (λ v e, mk (ae_JobID e) (ae_AttemptID e) (ae_LeaseID e) (ae_ArtifactID e) (ae_Kind e) (ae_ObjectKey e) (ae_SizeBytes e) (ae_ContentType e) v) dec_string)].

Definition result_decoders : Decoders := {|
  dec_started := decode_strict (dec_struct started_fields) (mkStarted 0 0 0 0 0);
  dec_progressed := decode_strict (dec_struct progressed_fields) (mkProgressed 0 0 0 "" 0 None 0 0 time_zero);
  dec_succeeded := decode_strict (dec_struct succeeded_fields) (mkSucceeded 0 0 0 0 []);
  dec_failed := decode_strict (dec_struct failed_fields) (mkFailed 0 0 0 0 (mkFailure "" "" false None));
  dec_cancelled := decode_strict (dec_struct cancelled_fields) (mkCancelled 0 0 0 0 "");
  dec_artifact := decode_strict (dec_struct artifact_fields) (mkArtifactCreated 0 0 0 0 "" "" 0 "" "")
|}.
End codec.

(** ** Writing, then reading *)

Lemma skip_ws_marshal v r : json_wf v = true → skip_ws (json_marshal v ++ r) = json_marshal v ++ r.
Proof. intros Hv. destruct (marshal_head v Hv) as (b&bs&->&Hb&_). by apply skip_ws_head. Qed.

Lemma parse_marshaled_raw v rest : json_wf v = true → 1 + Z.of_nat (json_depth v) <= maxNestingDepth → stops rest →
  let text := json_marshal v ++ rest in
  parse_value (S (2 * length text)) 1 text = Some (v, rest)
  ∧ mkRaw (Z.of_nat (length text - length rest)) (Some v) = raw_of v.
Proof.
  intros Hv Hd Hs. cbv zeta. split.
  - apply parse_marshaled; [done..|]. rw length_app. lia.
  - unfold raw_of. f_equal. rw length_app. lia.
Qed.

Lemma raw_members_marshaled (l : list (string * json)) fuel rest :
  forallb (λ kv, utf8_valid (bytes_of kv.1) && json_wf kv.2) l = true → l ≠ [] →
  Forall (λ kv, 1 + Z.of_nat (json_depth kv.2) <= maxNestingDepth) l → (length l <= fuel)%nat →
  raw_members fuel (Json.join [44%N] (map (λ kv, quote kv.1 ++ 58%N :: json_marshal kv.2) l) ++ 125%N :: rest)
  = Some (map (λ kv, (kv.1, raw_of kv.2)) l, rest).
Proof.
  revert fuel. induction l as [|[k v] l IH]; [done|]. intros [|fuel] Hw _ Hd Hf; [simpl in Hf; lia|].
  cbn [forallb fst snd] in Hw. apply andb_prop in Hw as [[Hk Hv]%andb_prop Hl].
  apply list.Forall_cons in Hd as [Hdv Hdl]. cbn [snd] in Hdv.
  assert (∀ r, stops r → raw_members (S fuel) ((quote k ++ 58%N :: json_marshal v) ++ r) =
    match eat 44 (skip_ws r) with
    | Some r => '(ms, r) ← raw_members fuel r; Some ((k, raw_of v) :: ms, r)
    | None => r ← eat 125 (skip_ws r); Some ([(k, raw_of v)], r)
    end) as Hkey.
  { intros r Hr. unfold quote. cbn [app raw_members]. rw skip_ws_head //. cbn [eat].
    rw bool_decide_eq_true_2 //. cbn [mbind option_bind]. rw -!assoc_L. cbn [app].
    rw parse_str_quoted //. cbn [mbind option_bind]. rw skip_ws_head //. cbn [eat].
    rw bool_decide_eq_true_2 //. cbn [mbind option_bind]. rw skip_ws_marshal //.
    destruct (parse_marshaled_raw v r Hv Hdv Hr) as [Hp Hraw]. cbv zeta in *. rw Hp.
    cbn [mbind option_bind]. by rw Hraw. }
  destruct l as [|[k' v'] l].
  - cbn [map join fst snd]. rw Hkey; [by apply stops_punct; lia|done].
  - cbn [map fst snd]. rw join_cons -assoc_L Hkey; [apply stops_punct; lia|].
    cbn [app]. rw skip_ws_head //. cbn [eat]. rw bool_decide_eq_true_2 //.
    rw (IH fuel); [done|done|done|simpl in *; lia|done].
Qed.

Lemma join_length (sep : list N) (l : list (list N)) :
  Forall (λ x, x ≠ []) l → (length l <= length (Json.join sep l))%nat.
Proof.
  induction 1 as [|x l Hx Hl IH]; [done|]. destruct x as [|b x]; [done|].
  destruct l as [|y l]; [simpl; lia|]. rw join_cons !length_app. simpl in *. lia.
Qed.

(** ASCII text. *)
Lemma hex_digits_ascii n u : Forall (λ b, (b < 128)%N) (hex_digits n u).
Proof.
  revert u. induction n as [|n IH]; intros u; simpl; [done|].
  apply Forall_app. split; [done|]. constructor; [|done]. unfold hex_digit. case_match; lia.
Qed.

Lemma uuid_ascii u : Forall (λ b, (b < 128)%N) (bytes_of (uuid_string u)).
Proof.
  unfold uuid_string. rw bytes_of_string_of; [apply uuid_bytes_lt|]. unfold uuid_bytes, dashed.
  pose proof (hex_digits_ascii 32 u) as Hh.
  rw !Forall_app. split_and!; repeat first [apply Forall_take|apply Forall_drop|done|constructor].
Qed.

Lemma digits_ascii l : forallb is_digit l = true → Forall (λ b, (b < 128)%N) l.
Proof.
  rw forallb_forall. intros Hl. apply list.Forall_forall. intros b Hb%list_elem_of_In.
  specialize (Hl b Hb). unfold is_digit, in_range in Hl. lia.
Qed.

Lemma format_time_ascii t l : format_time t = Some l → Forall (λ b, (b < 128)%N) l.
Proof.
  unfold format_time. destruct (civil (t / Day)) as [[y m] d]. case_match; [done|].
  intros Hl. apply (inj Some) in Hl as <-. unfold two.
  assert (∀ w n, Forall (λ b, (b < 128)%N) (dec_digits w n)) as Hdec by (intros; apply digits_ascii, dec_digits_digit).
  rw !Forall_app. split_and!; try apply Hdec; try (repeat constructor; lia).
  case_bool_decide; [done|]. constructor; [lia|].
  destruct (trim_zeros_spec (dec_digits 9 (Z.to_N (t mod Second)))) as [k Hk].
  specialize (Hdec 9%nat (Z.to_N (t mod Second))). rw Hk in Hdec. by apply Forall_app in Hdec as [? _].
Qed.

Lemma json_time_reads t v : json_time t = Some v → json_wf v = true ∧ json_depth v = 0%nat ∧ ∀ old, dec_time v old = Some t.
Proof.
  unfold json_time. destruct (format_time t) as [l|] eqn:Ht; [|done]. intros [= <-].
  pose proof (format_time_ascii t l Ht) as Ha.
  assert (bytes_of (string_of_bytes l) = l) as Hb.
  { apply bytes_of_string_of. eapply list.Forall_impl; [exact Ha|]. simpl. lia. }
  simpl. rw Hb. split_and!; [by apply utf8_valid_ascii|done|]. intros _. by apply parse_format_time.
Qed.

Lemma find_field_at {A} (fields : list (string * A)) i k f :
  NoDup fields.*1 → fields !! i = Some (k, f) → find_field fields k = Some f.
Proof.
  intros Hnd Hi. unfold find_field.
  assert (assoc_first k fields = Some f) as ->; [|done].
  revert i Hi. induction fields as [|[k' f'] l IH]; [done|]. cbn [fmap list_fmap fst] in Hnd.
  apply NoDup_cons in Hnd as [Hk Hnd]. intros [|i]; simpl.
  - intros [= -> ->]. by rw bool_decide_eq_true_2.
  - intros Hi. rw bool_decide_eq_false_2; [|by eauto]. intros ->. apply Hk.
    apply list_elem_of_fmap. exists (k', f). split; [done|]. by apply list_elem_of_lookup_2 in Hi.
Qed.

Lemma dec_raw_step {A} i (fields : list (string * RawDec A)) k raw dec l old x :
  NoDup fields.*1 → fields !! i = Some (k, dec) → dec raw old = Some x →
  dec_raw_members fields ((k, raw) :: l) old = dec_raw_members fields l x.
Proof. intros Hnd Hi Hd. simpl. rw (find_field_at _ _ _ _ Hnd Hi). simpl. by rw Hd. Qed.

Lemma dec_json_field {A B} (get : A → B) (set : B → A → A) (dec : Dec B) v y old :
  dec v (get old) = Some y → of_json (field get set dec) (raw_of v) old = Some (set y old).
Proof. intros Hd. unfold of_json, field. simpl. by rw Hd. Qed.

Ltac read_back := cbn [MessageID MessageType SchemaVersion OccurredAt TraceID CorrelationID CausationID Payload].

Section roundtrip.
Context `{UuidParser}.

(** A decoded object of members that were written by [json.Marshal]. *)
Lemma decode_marshaled (l : list (string * json)) :
  json_wf (JObj l) = true → Z.of_nat (json_depth (JObj l)) <= maxNestingDepth → l ≠ [] →
  decode_envelope (json_marshal (JObj l)) =
  dec_raw_members envelope_fields (map (λ kv, (kv.1, raw_of kv.2)) l) zero_envelope.
Proof.
  intros Hw Hd Hne. unfold decode_envelope.
  pose proof (parse_marshaled (JObj l) Hw (S (2 * length (json_marshal (JObj l)))) 0 []) as Hp.
  rw app_nil_r in Hp. rw Hp; [lia|done|lia|]. cbn [mbind option_bind].
  destruct l as [|kv l]; [done|]. cbn [json_marshal app].
  rw skip_ws_head //. cbn [eat]. rw bool_decide_eq_true_2 //. cbn [mbind option_bind].
  rw raw_members_marshaled; [exact Hw|done| | |done].
  - cbn [json_depth] in Hd. apply list.Forall_forall. intros x Hx.
    assert (json_depth x.2 ≤ list_max (map (λ kv, json_depth kv.2) (kv :: l)))%nat; [|lia].
    apply list_max_elem. apply list_elem_of_fmap. eauto.
  - rw length_app. etrans; [|apply Nat.le_add_r]. etrans; [|apply join_length].
    + by rw length_map.
    + apply list.Forall_forall. intros x (y&->&_)%list_elem_of_fmap. unfold quote. done.
Qed.

Lemma unmarshal_marshal (e : Envelope) (obj : json) (body : list N) :
  (MessageID e < 2 ^ 128)%N → Payload e = raw_of obj → json_wf obj = true →
  Forall (λ s, utf8_valid (bytes_of s) = true) [MessageType e; TraceID e; CorrelationID e; CausationID e] →
  Z.of_nat (json_depth obj) < maxNestingDepth →
  MarshalEnvelope e = Ok body → Z.of_nat (length body) <= MaxEnvelopeBytes →
  UnmarshalEnvelope body = Ok e.
Proof.
  intros Hid Hp Hw Hutf Hd Hm Hlen. unfold MarshalEnvelope in Hm. apply res_bind_Ok in Hm as ([]&Hval&Hm).
  destruct (envelope_json e) as [v|] eqn:Hj; [|done]. injection Hm as <-.
  unfold UnmarshalEnvelope. destruct (Z.ltb_spec MaxEnvelopeBytes (Z.of_nat (length (json_marshal v)))); [lia|].
  assert (decode_envelope (json_marshal v) = Some e) as ->; [|by rw Hval].
  unfold envelope_json in Hj. destruct (json_time (OccurredAt e)) as [t|] eqn:Ht; [|done].
  rw Hp in Hj. cbn [mbind option_bind raw_of raw_value] in Hj. injection Hj as <-.
  apply Envelope_Validate_ok_iff in Hval as (_&_&Hver&_).
  destruct (json_time_reads _ _ Ht) as (Hwt&Hdt&Hread). rw Hver.
  apply list.Forall_cons in Hutf as [U1 Hutf]. apply list.Forall_cons in Hutf as [U2 Hutf].
  apply list.Forall_cons in Hutf as [U3 Hutf]. apply list.Forall_cons in Hutf as [U4 _].
  rw decode_marshaled.
  - cbn [json_wf forallb fst snd]. rw Hwt Hw. cbn [json_wf json_uuid json_int]. rw U1 U2 U3 U4.
    rw (utf8_valid_ascii _ (uuid_ascii (MessageID e))). vm_compute. reflexivity.
  - cbn [json_depth json_uuid json_int map snd]. rw Hdt. simpl. lia.
  - done.
  - cbn [map fst snd].
    assert (NoDup (envelope_fields.*1)) as Hnd by (apply (bool_decide_unpack _); vm_compute; exact I).
    erewrite (dec_raw_step 0); [|exact Hnd|reflexivity|apply dec_json_field; by apply uuid_Parse_String]; read_back.
    erewrite (dec_raw_step 1); [|exact Hnd|reflexivity|by apply dec_json_field]; read_back.
    erewrite (dec_raw_step 2); [|exact Hnd|reflexivity|apply dec_json_field; by vm_compute]; read_back.
    erewrite (dec_raw_step 3); [|exact Hnd|reflexivity|apply dec_json_field; apply Hread]; read_back.
    erewrite (dec_raw_step 4); [|exact Hnd|reflexivity|by apply dec_json_field]; read_back.
    erewrite (dec_raw_step 5); [|exact Hnd|reflexivity|by apply dec_json_field]; read_back.
    erewrite (dec_raw_step 6); [|exact Hnd|reflexivity|by apply dec_json_field]; read_back.
    erewrite (dec_raw_step 7); [|exact Hnd|reflexivity|reflexivity]; read_back.
    simpl. rw -Hp -Hver. by destruct e.
Qed.

(** C29. Messages survive the wire, up to the size limit.  Take an envelope whose
    message id is a UUID (128 bits), whose type and trace, correlation and causation
    ids are valid UTF-8, and whose payload [json.Marshal] wrote, nested less deep than
    the decoder's limit.  When [MarshalEnvelope] gives a body for it,
    [UnmarshalEnvelope] reads a body of at most [MaxEnvelopeBytes] as the same
    envelope: identifiers, instant to the nanosecond, trace context, payload and its
    size; and it refuses a longer body, which [MarshalEnvelope] itself does not. *)
Theorem envelope_roundtrip (e : Envelope) (obj : json) (body : list N) :
  (MessageID e < 2 ^ 128)%N → Payload e = raw_of obj → json_wf obj = true →
  Forall (λ s, utf8_valid (bytes_of s) = true) [MessageType e; TraceID e; CorrelationID e; CausationID e] →
  Z.of_nat (json_depth obj) < maxNestingDepth →
  MarshalEnvelope e = Ok body →
  (Z.of_nat (length body) <= MaxEnvelopeBytes → UnmarshalEnvelope body = Ok e)
  ∧ (MaxEnvelopeBytes < Z.of_nat (length body) →
     UnmarshalEnvelope body = Err (ErrText "message exceeds 1048576 bytes")).
Proof.
  intros. split; [by eapply unmarshal_marshal|]. intros Hl. unfold UnmarshalEnvelope.
  by apply Z.ltb_lt in Hl as ->.
Qed.
End roundtrip.

(** An example: the signal that a job was queued. *)
Definition example_envelope : Envelope :=
  mkEnvelope 5 MessageJobQueued 1 (63871200000 * Second + 123456000) "trace" "correlation" "cause"
    (raw_of (JObj [("jobId", json_uuid 7)])).

Lemma example_marshals : ∃ body, MarshalEnvelope example_envelope = Ok body ∧ Z.of_nat (length body) <= MaxEnvelopeBytes.
Proof. eexists. split; [vm_compute; reflexivity|vm_compute; discriminate]. Qed.

Lemma envelope_roundtrip_witness :
  ∃ body, MarshalEnvelope example_envelope = Ok body ∧ @UnmarshalEnvelope canonical_parser body = Ok example_envelope.
Proof.
  destruct example_marshals as (body&Hm&Hlen). exists body. split; [exact Hm|].
  apply (@envelope_roundtrip canonical_parser example_envelope (JObj [("jobId", json_uuid 7)]) body); [..|exact Hlen].
  - reflexivity.
  - reflexivity.
  - vm_compute. reflexivity.
  - repeat constructor.
  - vm_compute. reflexivity.
  - exact Hm.
Defined.
