(* ===== verification/WorkerEvents.v ===== *)
(** Worker events from the wire, src/go/internal/workerregistry/events.go: the decoding
    and validation of registrations and heartbeats, and [ApplyEnvelope] of
    repository.go.  Every row they lead to is one that the constraints of
    [processing_workers] accept. *)

From S2P Require Import Prelude GoStrings Json GoValue GoTime Queue JobModel Schema Sql WorkerRegistry Tokens JsonDecode IdentityExamples EnvelopeCodec.
From Stdlib Require Import ZifyBool ZifyN.

Open Scope Z_scope.

(** ** Payloads *)

Record registrationPayload := mkRegistrationPayload {
  rp_WorkerID : uuid; rp_InstanceID : string; rp_Hostname : string; rp_SupportedOperations : list string;
  rp_SoftwareVersion : string; rp_MaxConcurrency : Z; rp_StartedAt : time
}.

Record heartbeatPayload := mkHeartbeatPayload {
  hp_WorkerID : uuid; hp_InstanceID : string; hp_Hostname : string; hp_SupportedOperations : list string;
  hp_SoftwareVersion : string; hp_Status : string; hp_CurrentConcurrency : Z; hp_MaxConcurrency : Z;
  hp_CurrentJobIDs : list uuid; hp_ObservedAt : time
}.

(** ** Validation *)

(** The runes of a text below 32 or equal to 127 are single bytes. *)
Definition boundedText (value : string) (maximum : Z) : bool :=
  let trimmed := trim_space value in
  negb (bool_decide (trimmed = "")) && (go_len trimmed <=? maximum)
  && forallb (λ b, negb ((b <? 32)%N || (b =? 127)%N)) (bytes_of trimmed).

(** The loop over the operations refuses one that is not a name, and a second use of
    one. *)
Fixpoint distinct_operations (seen operations : list string) : bool :=
  match operations with
  | [] => true
  | operation :: operations =>
      let normalized := trim_space operation in
      operationPattern normalized && negb (bool_decide (normalized ∈ seen))
      && distinct_operations (normalized :: seen) operations
  end.

Definition validateIdentity (workerID : uuid) (instanceID hostname version : string) (operations : list string)
  (maxConcurrency : Z) : res unit :=
  if bool_decide (workerID = uuid_nil) then Err ErrInvalidWorkerEvent
  else if negb (boundedText instanceID 128) || negb (boundedText hostname 255) || negb (boundedText version 64)
  then Err ErrInvalidWorkerEvent
  else if (Z.of_nat (length operations) <? 1) || (64 <? Z.of_nat (length operations))
          || (maxConcurrency <? 1) || (128 <? maxConcurrency)
  then Err ErrInvalidWorkerEvent
  else guard_err (distinct_operations [] operations) ErrInvalidWorkerEvent.

Definition normalizeOperations (values : list string) : list string := map trim_space values.

(** [isHeartbeatStatus], with the status the text stands for. *)
Definition heartbeat_status (status : string) : option WorkerStatus :=
  assoc_first status [("STARTING", StatusStarting); ("READY", StatusReady); ("BUSY", StatusBusy);
                      ("DRAINING", StatusDraining); ("UNHEALTHY", StatusUnhealthy); ("OFFLINE", StatusOffline)].

(** ** Parsing *)

Section parse.
Context `{UuidParser}.

Definition registration_fields : list (string * Dec registrationPayload) :=
  let mk := mkRegistrationPayload in [
  ("workerId", field rp_WorkerID (λ v e, mk v (rp_InstanceID e) (rp_Hostname e) (rp_SupportedOperations e) (rp_SoftwareVersion e) (rp_MaxConcurrency e) (rp_StartedAt e)) dec_uuid);
  ("instanceId", field rp_InstanceID (λ v e, mk (rp_WorkerID e) v (rp_Hostname e) (rp_SupportedOperations e) (rp_SoftwareVersion e) (rp_MaxConcurrency e) (rp_StartedAt e)) dec_string);
  ("hostname", field rp_Hostname (λ v e, mk (rp_WorkerID e) (rp_InstanceID e) v (rp_SupportedOperations e) (rp_SoftwareVersion e) (rp_MaxConcurrency e) (rp_StartedAt e)) dec_string);
  ("supportedOperations", field rp_SupportedOperations (λ v e, mk (rp_WorkerID e) (rp_InstanceID e) (rp_Hostname e) v (rp_SoftwareVersion e) (rp_MaxConcurrency e) (rp_StartedAt e)) dec_strings);
  ("softwareVersion", field rp_SoftwareVersion (λ v e, mk (rp_WorkerID e) (rp_InstanceID e) (rp_Hostname e) (rp_SupportedOperations e) v (rp_MaxConcurrency e) (rp_StartedAt e)) dec_string);
  ("maxConcurrency", field rp_MaxConcurrency (λ v e, mk (rp_WorkerID e) (rp_InstanceID e) (rp_Hostname e) (rp_SupportedOperations e) (rp_SoftwareVersion e) v (rp_StartedAt e)) (dec_int 64));
  ("startedAt", field rp_StartedAt (λ v e, mk (rp_WorkerID e) (rp_InstanceID e) (rp_Hostname e) (rp_SupportedOperations e) (rp_SoftwareVersion e) (rp_MaxConcurrency e) v) dec_time)].

Definition dec_uuids : Dec (list uuid) := λ v old, default [] <$> dec_slice uuid_nil dec_uuid v (Some old).

Definition heartbeat_fields : list (string * Dec heartbeatPayload) :=
  let mk := mkHeartbeatPayload in [
  ("workerId", field hp_WorkerID (λ v e, mk v (hp_InstanceID e) (hp_Hostname e) (hp_SupportedOperations e) (hp_SoftwareVersion e) (hp_Status e) (hp_CurrentConcurrency e) (hp_MaxConcurrency e) (hp_CurrentJobIDs e) (hp_ObservedAt e)) dec_uuid);
  ("instanceId", field hp_InstanceID (λ v e, mk (hp_WorkerID e) v (hp_Hostname e) (hp_SupportedOperations e) (hp_SoftwareVersion e) (hp_Status e) (hp_CurrentConcurrency e) (hp_MaxConcurrency e) (hp_CurrentJobIDs e) (hp_ObservedAt e)) dec_string);
  ("hostname", field hp_Hostname (λ v e, mk (hp_WorkerID e) (hp_InstanceID e) v (hp_SupportedOperations e) (hp_SoftwareVersion e) (hp_Status e) (hp_CurrentConcurrency e) (hp_MaxConcurrency e) (hp_CurrentJobIDs e) (hp_ObservedAt e)) dec_string);
  ("supportedOperations", field hp_SupportedOperations (λ v e, mk (hp_WorkerID e) (hp_InstanceID e) (hp_Hostname e) v (hp_SoftwareVersion e) (hp_Status e) (hp_CurrentConcurrency e) (hp_MaxConcurrency e) (hp_CurrentJobIDs e) (hp_ObservedAt e)) dec_strings);
  ("softwareVersion", field hp_SoftwareVersion (λ v e, mk (hp_WorkerID e) (hp_InstanceID e) (hp_Hostname e) (hp_SupportedOperations e) v (hp_Status e) (hp_CurrentConcurrency e) (hp_MaxConcurrency e) (hp_CurrentJobIDs e) (hp_ObservedAt e)) dec_string);
  ("status", field hp_Status (λ v e, mk (hp_WorkerID e) (hp_InstanceID e) (hp_Hostname e) (hp_SupportedOperations e) (hp_SoftwareVersion e) v (hp_CurrentConcurrency e) (hp_MaxConcurrency e) (hp_CurrentJobIDs e) (hp_ObservedAt e)) dec_string);
  ("currentConcurrency", field hp_CurrentConcurrency (λ v e, mk (hp_WorkerID e) (hp_InstanceID e) (hp_Hostname e) (hp_SupportedOperations e) (hp_SoftwareVersion e) (hp_Status e) v (hp_MaxConcurrency e) (hp_CurrentJobIDs e) (hp_ObservedAt e)) (dec_int 64));
  ("maxConcurrency", field hp_MaxConcurrency (λ v e, mk (hp_WorkerID e) (hp_InstanceID e) (hp_Hostname e) (hp_SupportedOperations e) (hp_SoftwareVersion e) (hp_Status e) (hp_CurrentConcurrency e) v (hp_CurrentJobIDs e) (hp_ObservedAt e)) (dec_int 64));
  ("currentJobIds", field hp_CurrentJobIDs (λ v e, mk (hp_WorkerID e) (hp_InstanceID e) (hp_Hostname e) (hp_SupportedOperations e) (hp_SoftwareVersion e) (hp_Status e) (hp_CurrentConcurrency e) (hp_MaxConcurrency e) v (hp_ObservedAt e)) dec_uuids);
  ("observedAt", field hp_ObservedAt (λ v e, mk (hp_WorkerID e) (hp_InstanceID e) (hp_Hostname e) (hp_SupportedOperations e) (hp_SoftwareVersion e) (hp_Status e) (hp_CurrentConcurrency e) (hp_MaxConcurrency e) (hp_CurrentJobIDs e) v) dec_time)].

Definition decodeStrict {A} (fields : list (string * Dec A)) (zero : A) (payload : RawMessage) : res A :=
  match decode_strict (dec_struct fields) zero payload with Some x => Ok x | None => Err ErrInvalidWorkerEvent end.

Definition ParseRegistration (envelope : Envelope) : res Registration :=
  _ ← guard_err (bool_decide (MessageType envelope = MessageWorkerRegistered)) ErrInvalidWorkerEvent;
  payload ← decodeStrict registration_fields (mkRegistrationPayload 0 "" "" [] "" 0 time_zero) (Payload envelope);
  _ ← validateIdentity (rp_WorkerID payload) (rp_InstanceID payload) (rp_Hostname payload)
        (rp_SoftwareVersion payload) (rp_SupportedOperations payload) (rp_MaxConcurrency payload);
  _ ← guard_err (negb (bool_decide (rp_StartedAt payload = time_zero))) ErrInvalidWorkerEvent;
  mret (mkRegistration (rp_WorkerID payload) (trim_space (rp_InstanceID payload)) (trim_space (rp_Hostname payload))
    (normalizeOperations (rp_SupportedOperations payload)) (trim_space (rp_SoftwareVersion payload))
    (rp_MaxConcurrency payload) (rp_StartedAt payload)).

(** The set of current jobs is checked, and then no statement uses it. *)
Definition ParseHeartbeat (envelope : Envelope) : res Heartbeat :=
  _ ← guard_err (bool_decide (MessageType envelope = MessageWorkerHeartbeat)) ErrInvalidWorkerEvent;
  payload ← decodeStrict heartbeat_fields (mkHeartbeatPayload 0 "" "" [] "" "" 0 0 [] time_zero) (Payload envelope);
  _ ← validateIdentity (hp_WorkerID payload) (hp_InstanceID payload) (hp_Hostname payload)
        (hp_SoftwareVersion payload) (hp_SupportedOperations payload) (hp_MaxConcurrency payload);
  status ← match heartbeat_status (hp_Status payload) with Some s => Ok s | None => Err ErrInvalidWorkerEvent end;
  _ ← guard_err ((0 <=? hp_CurrentConcurrency payload) && (hp_CurrentConcurrency payload <=? hp_MaxConcurrency payload))
        ErrInvalidWorkerEvent;
  _ ← guard_err ((Z.of_nat (length (hp_CurrentJobIDs payload)) <=? 128)
                 && negb (bool_decide (hp_ObservedAt payload = time_zero))) ErrInvalidWorkerEvent;
  _ ← guard_err (negb (bool_decide (uuid_nil ∈ hp_CurrentJobIDs payload))) ErrInvalidWorkerEvent;
  mret (mkHeartbeat (hp_WorkerID payload) (trim_space (hp_InstanceID payload)) (trim_space (hp_Hostname payload))
    (normalizeOperations (hp_SupportedOperations payload)) (trim_space (hp_SoftwareVersion payload)) status
    (hp_CurrentConcurrency payload) (hp_MaxConcurrency payload) (hp_ObservedAt payload)).

Definition ApplyEnvelope (envelope : Envelope) : Tx DB unit :=
  if bool_decide (MessageType envelope = MessageWorkerRegistered) then
    registration ← lift_res (ParseRegistration envelope); ApplyRegistration registration
  else if bool_decide (MessageType envelope = MessageWorkerHeartbeat) then
    heartbeat ← lift_res (ParseHeartbeat envelope); ApplyHeartbeat heartbeat
  else fail ErrInvalidWorkerEvent.

(** ** The rows *)

Definition text_ok (s : string) (maximum : Z) : Prop :=
  1 <= go_len s <= maximum ∧ trim_space s = s ∧ Forall (λ b, 32 <= b ∧ b ≠ 127)%N (bytes_of s).

(** The CHECK constraints of [processing_workers], and more: names of operations are
    distinct and well formed, text is trimmed and free of control characters. *)
Record worker_checked (w : WorkerRow) : Prop := {
  wc_instance : text_ok (w_instance_id w) 128;
  wc_hostname : text_ok (w_hostname w) 255;
  wc_version : text_ok (w_software_version w) 64;
  wc_operations : (1 <= length (w_supported_operations w) <= 64)%nat;
  wc_names : Forall (λ op, operationPattern op = true) (w_supported_operations w);
  wc_distinct : NoDup (w_supported_operations w);
  wc_current : 0 <= w_current_concurrency w <= w_max_concurrency w;
  wc_max : 1 <= w_max_concurrency w <= 128
}.

Lemma boundedText_ok value maximum : boundedText value maximum = true → text_ok (trim_space value) maximum.
Proof.
  unfold boundedText. rw !andb_true_iff forallb_forall. intros [[Hne Hlen] Hb]. reflect_bool.
  split_and!; [|lia|apply trim_space_idem|].
  - pose proof (go_len_nonneg (trim_space value)). pose proof (go_len_0 (trim_space value)).
    destruct (decide (go_len (trim_space value) = 0)); [naive_solver|lia].
  - apply list.Forall_forall. intros b Hin%list_elem_of_In. specialize (Hb b Hin). lia.
Qed.

Lemma distinct_operations_ok seen operations : distinct_operations seen operations = true →
  Forall (λ op, operationPattern op = true) (normalizeOperations operations)
  ∧ NoDup (normalizeOperations operations) ∧ ∀ op, op ∈ normalizeOperations operations → op ∉ seen.
Proof.
  revert seen. induction operations as [|op ops IH]; intros seen; cbn [distinct_operations normalizeOperations map].
  - intros _. split_and!; [constructor|constructor|]. intros ? []%elem_of_nil.
  - rw !andb_true_iff negb_true_iff bool_decide_eq_false. intros [[Hp Hs] Hd].
    apply IH in Hd as (Hf&Hn&Hdis). split_and!; [by constructor| |].
    + constructor; [|done]. intros Hin. apply (Hdis _ Hin). by left.
    + intros x [->|Hx]%elem_of_cons; [done|]. intros Hxs. apply (Hdis _ Hx). by right.
Qed.

Lemma validateIdentity_ok id instance_ hostname version operations maximum u :
  validateIdentity id instance_ hostname version operations maximum = Ok u →
  text_ok (trim_space instance_) 128 ∧ text_ok (trim_space hostname) 255 ∧ text_ok (trim_space version) 64
  ∧ (1 <= length (normalizeOperations operations) <= 64)%nat ∧ 1 <= maximum <= 128
  ∧ Forall (λ op, operationPattern op = true) (normalizeOperations operations) ∧ NoDup (normalizeOperations operations).
Proof.
  unfold validateIdentity. case_bool_decide; [done|].
  destruct (boundedText instance_ 128) eqn:Hi, (boundedText hostname 255) eqn:Hh, (boundedText version 64) eqn:Hv;
    simpl; try done.
  case_match eqn:Hb; [done|]. intros (Hf&Hn&_)%guard_err_Ok%distinct_operations_ok.
  unfold normalizeOperations in *. rw length_map. split_and!; auto using boundedText_ok; lia.
Qed.

Lemma ParseRegistration_checked e r now old : ParseRegistration e = Ok r → worker_checked (register_row r now old).
Proof.
  unfold ParseRegistration. intros Hp. apply res_bind_Ok in Hp as (?&_&Hp). apply res_bind_Ok in Hp as (p&_&Hp).
  apply res_bind_Ok in Hp as (?&Hid&Hp). apply res_bind_Ok in Hp as (?&_&[= <-]).
  apply validateIdentity_ok in Hid as (?&?&?&?&?&?&?). split; simpl; auto; lia.
Qed.

Lemma ParseHeartbeat_checked e h now w : ParseHeartbeat e = Ok h → worker_checked w → worker_checked (heartbeat_row h now w).
Proof.
  unfold ParseHeartbeat. intros Hp Hw. apply res_bind_Ok in Hp as (?&_&Hp). apply res_bind_Ok in Hp as (p&_&Hp).
  apply res_bind_Ok in Hp as (?&Hid&Hp). apply res_bind_Ok in Hp as (?&_&Hp).
  apply res_bind_Ok in Hp as (?&Hc%guard_err_Ok&Hp). apply res_bind_Ok in Hp as (?&_&Hp).
  apply res_bind_Ok in Hp as (?&_&[= <-]).
  apply validateIdentity_ok in Hid as (?&?&?&?&?&?&?). destruct Hw. split; simpl; auto; lia.
Qed.

Definition workers_checked (d : DB) : Prop := map_Forall (λ _, worker_checked) (t_workers d).

(** What happens to the table: an event from the wire, or an assignment. *)
Inductive RegistryStep := FromWire (envelope : Envelope) | Assign (ttl : duration) (operations : list string) (now : time).

Definition registry_step (s : RegistryStep) (o : Oracle) (d : DB) : DB :=
  match s with
  | FromWire envelope => (transact (ApplyEnvelope envelope) o d).2
  | Assign ttl operations now => (transact (registry_SelectForLease ttl operations now) o d).2
  end.

Lemma alter_checked f k (m : gmap uuid WorkerRow) : (∀ w, worker_checked w → worker_checked (f w)) →
  map_Forall (λ _, worker_checked) m → map_Forall (λ _, worker_checked) (alter f k m).
Proof.
  intros Hf Hm i w. destruct (decide (k = i)) as [->|Hne].
  - rw lookup_alter_eq. intros (w0&Hw0&->)%fmap_Some. apply Hf. by apply (Hm i).
  - rw lookup_alter_ne //. apply Hm.
Qed.

Lemma registry_step_checked s o d : workers_checked d → workers_checked (registry_step s o d).
Proof.
  intros Hd. destruct s as [e|ttl ops now]; simpl.
  - apply (transact_wp o (ApplyEnvelope e) d (λ _ d', workers_checked d')); [done|].
    unfold ApplyEnvelope. wp_if; [|wp_if; [|wp_steps]]; wp_steps.
    + rename select (ParseRegistration e = Ok a) into Hr. unfold ApplyRegistration. wp_steps.
      intros i w. simpl. destruct (decide (rg_WorkerID a = i)) as [->|Hne];
        [rw lookup_partial_alter_eq|rw lookup_partial_alter_ne //; apply Hd].
      repeat case_match; intros [= <-]; [|by eapply Hd|]; by eapply ParseRegistration_checked.
    + rename select (ParseHeartbeat e = Ok a) into Hh. unfold ApplyHeartbeat. wp_steps.
      apply alter_checked; [|done]. intros w Hw. case_match; [|done]. by eapply ParseHeartbeat_checked.
  - apply (transact_wp o (registry_SelectForLease ttl ops now) d (λ _ d', workers_checked d')); [done|].
    unfold registry_SelectForLease. wp_steps. wp_if; wp_steps; [|done].
    apply alter_checked; [|done]. intros w' [????????]. by split.
Qed.

(** C35. The worker table stays within its constraints: whatever messages arrive, in
    whatever order, and whatever assignments happen in between, every row of
    [processing_workers] satisfies the CHECK constraints of the schema, so that no event
    fails on them, and its operations are distinct well-formed names. *)
Theorem worker_rows_checked (steps : list (RegistryStep * Oracle)) (d : DB) :
  workers_checked d → workers_checked (foldl (λ d so, registry_step so.1 so.2 d) d steps).
Proof.
  revert d. induction steps as [|[s o] steps IH]; intros d Hd; simpl; [done|]. by apply IH, registry_step_checked.
Qed.
End parse.

(** ** An example *)

Definition example_registration : Envelope :=
  mkEnvelope 5 MessageWorkerRegistered 1 (63871286400 * Second) "trace" "correlation" "cause"
    (raw_of (JObj [("workerId", json_uuid 9); ("instanceId", JStr " worker-1 "); ("hostname", JStr "node-a");
                   ("supportedOperations", JArr [JStr "PROFILE_DATASET"; JStr " VALIDATE_SCHEMA"]);
                   ("softwareVersion", JStr "1.4.0"); ("maxConcurrency", JNum "2");
                   ("startedAt", JStr "2024-12-31T23:00:00+01:00")])).

Definition example_heartbeat : Envelope :=
  mkEnvelope 6 MessageWorkerHeartbeat 1 (63871286400 * Second) "trace" "correlation" "cause"
    (raw_of (JObj [("workerId", json_uuid 9); ("instanceId", JStr "worker-1"); ("hostname", JStr "node-a");
                   ("supportedOperations", JArr [JStr "PROFILE_DATASET"]); ("softwareVersion", JStr "1.4.0");
                   ("status", JStr "READY"); ("currentConcurrency", JNum "1"); ("maxConcurrency", JNum "2");
                   ("currentJobIds", JArr [json_uuid 11]); ("observedAt", JStr "2024-12-31T22:00:05.5Z")])).

Definition example_oracle : Oracle := {|
  o_uuid n := N.of_nat (S n); o_time _ := 63871286400 * Second; o_sqlnow := 63871286400 * Second;
  o_locked _ := false; o_rand _ _ := 0
|}.

Definition example_steps : list (RegistryStep * Oracle) :=
  [(FromWire example_registration, example_oracle); (FromWire example_heartbeat, example_oracle);
   (Assign DefaultHeartbeatTTL ["PROFILE_DATASET"] (63871286401 * Second), example_oracle)].

(** The worker registers, reports ready, and is assigned. *)
Lemma example_worker_assigned :
  let d := foldl (λ d so, @registry_step canonical_parser so.1 so.2 d) empty_db example_steps in
  (λ w, (w_status w, w_instance_id w, w_last_assigned_at w)) <$> t_workers d !! 9%N
  = Some (StatusReady, "worker-1", Some (63871286401 * Second)).
Proof. vm_compute. reflexivity. Qed.

Lemma worker_rows_checked_witness :
  workers_checked (foldl (λ d so, @registry_step canonical_parser so.1 so.2 d) empty_db example_steps).
Proof. apply (@worker_rows_checked canonical_parser). intros k w [=]. Defined.
