(* ===== verification/MinIO.v ===== *)
(** The object store on MinIO, src/go/internal/storage/minio.go.  The client library is a
    record of its calls; the store decides which errors mean "not found", trims ETags,
    and walks through the pages of a part listing. *)

From S2P Require Import Prelude GoStrings Json Upload UploadModel Svc DatasetService MultipartService.

Open Scope Z_scope.

Definition operationTimeout : duration := 30 * Second.
Definition objectReadTimeout : duration := 30 * Minute.

(** ** The client, github.com/minio/minio-go/v7

    A call is given its number, since the remote changes between calls.  An error is
    known by the code [minio.ToErrorResponse] finds in it. *)

Record ObjectPart := mkObjectPart { op_PartNumber : Z; op_ETag : string; op_Size : Z }.

Record ListObjectPartsResult := mkListing {
  lr_ObjectParts : list ObjectPart; lr_IsTruncated : bool; lr_NextPartNumberMarker : Z
}.

Record ClientInfo := mkClientInfo { ci_Size : Z; ci_ETag : string; ci_ContentType : string }.

Record MinioClient := {
  mc_PutObject : nat → string → string → Reader → Z → string → nat * (ClientInfo + string);
  mc_StatObject : nat → string → string → ClientInfo + string;
  mc_GetObject : nat → string → string → Reader + string;
  mc_RemoveObject : nat → string → string → unit + string;
  mc_BucketExists : nat → string → bool + string;
  mc_NewMultipartUpload : nat → string → string → string → string + string;
  mc_Presign : nat → string → string → duration → Z → string → string + string;
  mc_ListObjectParts : nat → string → string → string → Z → Z → ListObjectPartsResult + string;
  mc_CompleteMultipartUpload : nat → string → string → string → list (Z * string) → string → ClientInfo + string;
  mc_AbortMultipartUpload : nat → string → string → string → unit + string
}.

(** ** The store *)

Record MinIOConfig := mkMinIOConfig {
  mi_Endpoint : string; mi_PublicEndpoint : string; mi_AccessKey : string; mi_SecretKey : string;
  mi_Secure : bool; mi_PublicSecure : bool; mi_Bucket : string
}.

Record MinIOStore := mkMinIOStore { ms_client : MinioClient; ms_presign : MinioClient; ms_bucket : string }.

(** [minio.NewCore] with an endpoint, credentials, TLS or not, and a region. *)
Definition NewCore := string → string → string → bool → string → option MinioClient.

Definition NewMinIO (newCore : NewCore) (config : MinIOConfig) : res MinIOStore :=
  if bool_decide (mi_Endpoint config = "") || bool_decide (mi_AccessKey config = "")
     || bool_decide (mi_SecretKey config = "") || bool_decide (mi_Bucket config = "")
  then Err (ErrText "MinIO endpoint, credentials, and bucket are required")
  else match newCore (mi_Endpoint config) (mi_AccessKey config) (mi_SecretKey config) (mi_Secure config) "" with
  | None => Err (ErrText "create MinIO client")
  | Some core =>
      if negb (bool_decide (trim_space (mi_PublicEndpoint config) = ""))
         && negb (bool_decide (trim_space (mi_PublicEndpoint config) = trim_space (mi_Endpoint config)))
      then match newCore (mi_PublicEndpoint config) (mi_AccessKey config) (mi_SecretKey config)
                   (mi_PublicSecure config) "us-east-1" with
           | None => Err (ErrText "create MinIO presign client")
           | Some public => Ok (mkMinIOStore core public (mi_Bucket config))
           end
      else Ok (mkMinIOStore core core (mi_Bucket config))
  end.

Definition wrapObjectError (operation key code : string) : GoError :=
  if bool_decide (code ∈ ["NoSuchKey"; "NoSuchObject"; "NotFound"]) then ErrObjectNotFound
  else ErrText (operation +:+ " object " +:+ key).

Section store.
Context (s : MinIOStore).
#[local] Abbreviation client := (ms_client s).
#[local] Abbreviation bucket := (ms_bucket s).

Definition MinIO_Put (n : nat) (key : string) (reader : Reader) (size : Z) (contentType : string) : nat * res ObjectInfo :=
  match mc_PutObject client n bucket key reader size contentType with
  | (consumed, inl info) => (consumed, Ok (mkObjectInfo key (ci_Size info) (ci_ETag info) contentType))
  | (consumed, inr _) => (consumed, Err (ErrText ("put object " +:+ key)))
  end.

Definition MinIO_Head (n : nat) (key : string) : res ObjectInfo :=
  match mc_StatObject client n bucket key with
  | inl info => Ok (mkObjectInfo key (ci_Size info) (ci_ETag info) (ci_ContentType info))
  | inr code => Err (wrapObjectError "head" key code)
  end.

(** The object is looked up at once, so that a missing one is an error of the call and
    not of the reader. *)
Definition MinIO_Get (n : nat) (key : string) : res Reader :=
  match mc_GetObject client n bucket key with
  | inr code => Err (wrapObjectError "get" key code)
  | inl object =>
      match mc_StatObject client n bucket key with
      | inr code => Err (wrapObjectError "stat" key code)
      | inl _ => Ok object
      end
  end.

Definition MinIO_Delete (n : nat) (key : string) : res unit :=
  match mc_RemoveObject client n bucket key with inl _ => Ok tt | inr _ => Err (ErrText ("delete object " +:+ key)) end.

Definition MinIO_Ping (n : nat) : res unit :=
  match mc_BucketExists client n bucket with
  | inr _ => Err (ErrText ("check MinIO bucket " +:+ bucket))
  | inl exists_ => guard_err exists_ (ErrText ("MinIO bucket " +:+ bucket +:+ " does not exist"))
  end.

Definition MinIO_InitiateMultipart (n : nat) (key contentType : string) : res string :=
  match mc_NewMultipartUpload client n bucket key contentType with
  | inl uploadID => Ok uploadID
  | inr _ => Err (ErrText ("initiate multipart object " +:+ key))
  end.

Definition MinIO_PresignPart (n : nat) (key uploadID : string) (partNumber : Z) (expires : duration) : res string :=
  if (partNumber <? 1) || (expires <=? 0) || (7 * 24 * Hour <? expires)
  then Err (ErrText "invalid multipart presign parameters")
  else match mc_Presign (ms_presign s) n bucket key expires partNumber uploadID with
       | inl url => Ok url
       | inr _ => Err (ErrText "presign multipart part")
       end.

Definition part_of (part : ObjectPart) : MultipartPart :=
  mkMultipartPart (op_PartNumber part) (trim_quotes (op_ETag part)) (op_Size part).

(** [calls] requests fit in the operation's timeout; the next one ends with the
    context's error. *)
Fixpoint list_parts (calls : nat) (n : nat) (key uploadID : string) (marker : Z) (parts : list MultipartPart)
  : res (list MultipartPart) :=
  match calls with
  | O => Err (ErrText ("list multipart parts for " +:+ key))
  | S calls =>
      match mc_ListObjectParts client n bucket key uploadID marker 1000 with
      | inr _ => Err (ErrText ("list multipart parts for " +:+ key))
      | inl result =>
          let parts := parts ++ map part_of (lr_ObjectParts result) in
          if negb (lr_IsTruncated result) || (lr_NextPartNumberMarker result <=? marker) then Ok parts
          else list_parts calls (S n) key uploadID (lr_NextPartNumberMarker result) parts
      end
  end.

Definition MinIO_ListMultipartParts (calls n : nat) (key uploadID : string) : res (list MultipartPart) :=
  list_parts calls n key uploadID 0 [].

Definition MinIO_GetMultipartPart (n : nat) (key uploadID : string) (partNumber : Z) : res MultipartPart :=
  if partNumber <? 1 then Err (ErrText "multipart part number must be positive")
  else match mc_ListObjectParts client n bucket key uploadID (partNumber - 1) 1 with
       | inr _ => Err (ErrText "get multipart part")
       | inl result =>
           match list_find (λ part, op_PartNumber part = partNumber) (lr_ObjectParts result) with
           | Some (_, part) => Ok (part_of part)
           | None => Err ErrMultipartPartNotFound
           end
       end.

Definition MinIO_CompleteMultipart (n : nat) (key uploadID : string) (parts : list MultipartPart) (contentType : string)
  : res ObjectInfo :=
  let completeParts := map (λ part, (mp_part_number part, trim_quotes (mp_etag part))) parts in
  match mc_CompleteMultipartUpload client n bucket key uploadID completeParts contentType with
  | inl info => Ok (mkObjectInfo key (ci_Size info) (ci_ETag info) contentType)
  | inr _ => Err (ErrText ("complete multipart object " +:+ key))
  end.

(** An upload the remote no longer knows counts as aborted. *)
Definition MinIO_AbortMultipart (n : nat) (key uploadID : string) : res unit :=
  match mc_AbortMultipartUpload client n bucket key uploadID with
  | inl _ => Ok tt
  | inr code => if bool_decide (code = "NoSuchUpload") then Ok tt else Err (ErrText ("abort multipart object " +:+ key))
  end.
End store.

(** ** A remote that lists the parts of an upload

    The S3 contract of ListParts: the parts above the marker in the order of their
    numbers, at most [max] of them; a listing with parts left over is marked as
    truncated and names its last part. *)

Definition listing (parts : list ObjectPart) (marker max : Z) : ListObjectPartsResult :=
  let visible := filter (λ p, marker < op_PartNumber p) parts in
  let page := take (Z.to_nat max) visible in
  mkListing page (max <? Z.of_nat (length visible)) (from_option op_PartNumber 0 (list.last page)).

Definition lists (c : MinioClient) (bucket key uploadID : string) (parts : list ObjectPart) : Prop :=
  ∀ n marker max, 0 <= marker → 1 <= max <= 1000 →
  mc_ListObjectParts c n bucket key uploadID marker max = inl (listing parts marker max).

Definition numbered (parts : list ObjectPart) : Prop :=
  StronglySorted (λ p q, op_PartNumber p < op_PartNumber q) parts ∧ Forall (λ p, 1 <= op_PartNumber p) parts.

Lemma filter_above pre suf marker :
  Forall (λ p, op_PartNumber p <= marker) pre → Forall (λ p, marker < op_PartNumber p) suf →
  filter (λ p, marker < op_PartNumber p) (pre ++ suf) = suf.
Proof.
  intros Hpre Hsuf. rw list.filter_app. induction Hpre as [|p pre Hp Hpre IH].
  - simpl. induction Hsuf as [|p suf Hp Hsuf IH]; [done|]. rw filter_cons_True //. simpl in *. by rw IH.
  - rw filter_cons_False //. lia.
Qed.

(** The number of the last part of a page separates what was listed from the rest. *)
Lemma sorted_at_last pre page suf p :
  StronglySorted (λ p q, op_PartNumber p < op_PartNumber q) (pre ++ page ++ suf) → list.last page = Some p →
  Forall (λ q, op_PartNumber q <= op_PartNumber p) (pre ++ page) ∧ Forall (λ q, op_PartNumber p < op_PartNumber q) suf.
Proof.
  intros Hs (page'&->)%last_Some. replace (pre ++ (page' ++ [p]) ++ suf) with ((pre ++ page') ++ [p] ++ suf) in Hs
    by (by rw -!app_assoc).
  pose proof (StronglySorted_app_1_r _ _ _ Hs) as Hr. split.
  - rw app_assoc. apply Forall_app. split; [|by repeat constructor]. apply list.Forall_forall. intros q Hq.
    pose proof (StronglySorted_app_1_elem_of _ _ _ q p Hs Hq ltac:(set_solver)). simpl in *. lia.
  - apply list.Forall_forall. intros q Hq. exact (StronglySorted_app_1_elem_of _ [p] suf p q Hr ltac:(set_solver) Hq).
Qed.

Section complete.
Context (s : MinIOStore) (key uploadID : string) (parts : list ObjectPart).
Context (Hlists : lists (ms_client s) (ms_bucket s) key uploadID parts) (Hnum : numbered parts).

Lemma list_parts_complete calls n pre suf marker :
  parts = pre ++ suf → 0 <= marker → Forall (λ p, op_PartNumber p <= marker) pre →
  Forall (λ p, marker < op_PartNumber p) suf → (length suf < 1000 * calls)%nat →
  list_parts s calls n key uploadID marker (map part_of pre) = Ok (map part_of parts).
Proof.
  revert n pre suf marker. induction calls as [|calls IH]; intros n pre suf marker E H0 Hpre Hsuf Hlen; [lia|].
  cbn [list_parts]. rw Hlists; [done|lia|]. unfold listing. cbv zeta. cbn [lr_ObjectParts lr_IsTruncated lr_NextPartNumberMarker].
  rw E filter_above //. change (Z.to_nat 1000) with 1000%nat. destruct (Z.ltb_spec 1000 (Z.of_nat (length suf))) as [Hlt|Hle].
  - destruct (list.last (take 1000 suf)) as [p|] eqn:Hp;
      [|apply last_None in Hp; apply (f_equal length) in Hp; rw length_take in Hp; cbn [length] in Hp; lia].
    destruct (sorted_at_last pre (take 1000 suf) (drop 1000 suf) p) as [H1 H2]; [|done|].
    { rw take_drop -E. apply Hnum. }
    assert (marker < op_PartNumber p) as Hm.
    { rw list.Forall_forall in Hsuf. apply Hsuf. apply last_Some_elem_of in Hp.
      rw -(take_drop 1000 suf). apply elem_of_app. by left. }
    cbn [from_option]. replace (op_PartNumber p <=? marker) with false by lia. cbn [negb orb].
    rw -map_app -E. apply (IH (S n) (pre ++ take 1000 suf) (drop 1000 suf)); [|lia|done|done|].
    + by rw -app_assoc take_drop.
    + rw length_drop. lia.
  - cbn [negb orb]. rw take_ge; [lia|]. by rw -map_app.
Qed.

Lemma numbered_at l1 p l2 : parts = l1 ++ p :: l2 →
  filter (λ q, op_PartNumber p - 1 < op_PartNumber q) parts = p :: l2 ∧ Forall (λ q, op_PartNumber q ≠ op_PartNumber p) l1.
Proof.
  intros E. destruct Hnum as [Hs _]. rw E in Hs.
  assert (Forall (λ q, op_PartNumber q < op_PartNumber p) l1) as H1.
  { apply list.Forall_forall. intros q Hq. exact (StronglySorted_app_1_elem_of _ _ _ q p Hs Hq ltac:(set_solver)). }
  pose proof (StronglySorted_app_1_r _ _ _ Hs) as H2. apply StronglySorted_inv in H2 as [_ H2]. split.
  - rw E. apply filter_above.
    + eapply list.Forall_impl; [exact H1|]. simpl. lia.
    + constructor; [lia|]. eapply list.Forall_impl; [exact H2|]. simpl. lia.
  - eapply list.Forall_impl; [exact H1|]. simpl. lia.
Qed.

Lemma get_part_listed n p : p ∈ parts → MinIO_GetMultipartPart s n key uploadID (op_PartNumber p) = Ok (part_of p).
Proof.
  intros Hp. destruct Hnum as [_ H1]. rw list.Forall_forall in H1. specialize (H1 p Hp).
  apply list_elem_of_split in Hp as (l1&l2&E). unfold MinIO_GetMultipartPart.
  replace (op_PartNumber p <? 1) with false by lia. rw Hlists; [lia|lia|]. unfold listing.
  destruct (numbered_at l1 p l2 E) as [-> _]. simpl. by rw decide_True.
Qed.

Lemma get_part_missing n number : 1 <= number → Forall (λ p, op_PartNumber p ≠ number) parts →
  MinIO_GetMultipartPart s n key uploadID number = Err ErrMultipartPartNotFound.
Proof.
  intros H1 Hno. unfold MinIO_GetMultipartPart. replace (number <? 1) with false by lia. rw Hlists; [lia|lia|].
  unfold listing. cbn [lr_ObjectParts]. rw (proj2 (list_find_None _ _)) //.
  apply Forall_take, list.Forall_forall. intros p [_ Hp]%list_elem_of_filter. rw list.Forall_forall in Hno. by apply Hno.
Qed.
End complete.

(** C36. The part listing a completion is checked against is complete: with a remote that
    follows the ListParts contract, [ListMultipartParts] returns after one request per
    thousand parts and gives every part of the upload once, in order, with its ETag
    unquoted, however many pages that takes; and [GetMultipartPart] gives the part of a
    number exactly when the listing has one. *)
Theorem ListMultipartParts_complete (s : MinIOStore) (key uploadID : string) (parts : list ObjectPart) (calls n : nat) :
  lists (ms_client s) (ms_bucket s) key uploadID parts → numbered parts → (length parts < 1000 * calls)%nat →
  MinIO_ListMultipartParts s calls n key uploadID = Ok (map part_of parts)
  ∧ ∀ m number, 1 <= number → MinIO_GetMultipartPart s m key uploadID number =
      match list_find (λ p, mp_part_number p = number) (map part_of parts) with
      | Some (_, part) => Ok part
      | None => Err ErrMultipartPartNotFound
      end.
Proof.
  intros Hl Hn Hc. split.
  - apply (list_parts_complete s key uploadID parts Hl Hn calls n [] parts 0); [done|lia|done| |done].
    eapply list.Forall_impl; [apply Hn|]. simpl. lia.
  - intros m number H1. destruct (list_find _ (map part_of parts)) as [[i part]|] eqn:Hf.
    + apply list_find_Some in Hf as (Hi&Hnum&_). apply list_elem_of_lookup_2 in Hi.
      apply list_elem_of_fmap in Hi as (p&->&Hp). rw -Hnum. by apply (get_part_listed s key uploadID parts Hl Hn).
    + apply (get_part_missing s key uploadID parts Hl); [done|]. apply list_find_None in Hf.
      rw list.Forall_forall in Hf. apply list.Forall_forall. intros p Hp.
      apply (Hf (part_of p)). apply list_elem_of_fmap. eauto.
Qed.

(** ** An example: three parts *)

Definition quoted (s : string) : string := string_of_bytes ([34%N] ++ bytes_of s ++ [34%N]).

Definition example_parts : list ObjectPart :=
  [mkObjectPart 1 (quoted "abc") 5242880; mkObjectPart 2 (quoted "def") 5242880; mkObjectPart 5 "ghi" 10].

Definition example_client : MinioClient := {|
  mc_PutObject _ _ _ r _ _ := (length (rd_bytes r), inr "AccessDenied");
  mc_StatObject _ _ _ := inr "NoSuchKey"; mc_GetObject _ _ _ := inr "NoSuchKey"; mc_RemoveObject _ _ _ := inl tt;
  mc_BucketExists _ _ := inl true; mc_NewMultipartUpload _ _ _ _ := inl "upload"; mc_Presign _ _ _ _ _ _ := inl "https://minio";
  mc_ListObjectParts _ _ _ _ marker max := inl (listing example_parts marker max);
  mc_CompleteMultipartUpload _ _ _ _ _ _ := inr "InvalidPart"; mc_AbortMultipartUpload _ _ _ _ := inr "NoSuchUpload"
|}.

Definition example_store : MinIOStore := mkMinIOStore example_client example_client "datasets".

Lemma ListMultipartParts_complete_witness :
  MinIO_ListMultipartParts example_store 1 0 "k" "u" = Ok [mkMultipartPart 1 "abc" 5242880; mkMultipartPart 2 "def" 5242880; mkMultipartPart 5 "ghi" 10]
  ∧ MinIO_GetMultipartPart example_store 3 "k" "u" 4 = Err ErrMultipartPartNotFound.
Proof.
  destruct (ListMultipartParts_complete example_store "k" "u" example_parts 1 0) as [Hl Hg].
  - intros n marker max _ _. reflexivity.
  - split; repeat constructor; simpl; lia.
  - simpl. lia.
  - split; [exact Hl|exact (Hg 3%nat 4 ltac:(lia))].
Defined.
