(* ===== verification/Topology.v ===== *)
(** Exchanges, queues and bindings, src/go/internal/queue/topology.go, with the routing
    of a topic exchange: which queue a message lands in, and where a rejected one goes. *)

From S2P Require Import Prelude GoStrings Json Queue.

Open Scope Z_scope.

Definition EventsExchange : string := "pipeforge.events".
Definition DeadLetterExchange : string := "pipeforge.dead-letter".

Record Exchange := mkExchange { ex_Name : string; ex_Kind : string }.
Record MQueue := mkMQueue { mq_Name : string; mq_DeadLetter : string }.
Record Binding := mkBinding { bd_Exchange : string; bd_Queue : string; bd_Key : string }.
Record Topology := mkTopology { Exchanges : list Exchange; Queues : list MQueue; Bindings : list Binding }.

Definition DefaultTopology : Topology := {|
  Exchanges := [mkExchange CommandsExchange "topic"; mkExchange EventsExchange "topic"; mkExchange DeadLetterExchange "topic"];
  Queues := [
    mkMQueue "processing.jobs" "processing.jobs.dlq";
    mkMQueue "processing.cancellations" "processing.cancellations.dlq";
    mkMQueue "control-plane.dispatch" "control-plane.dispatch.dlq";
    mkMQueue "control-plane.workers" "control-plane.workers.dlq";
    mkMQueue "control-plane.results" "control-plane.results.dlq";
    mkMQueue "audit.events" ""; mkMQueue "monitoring.events" "";
    mkMQueue "processing.jobs.dlq" ""; mkMQueue "processing.cancellations.dlq" "";
    mkMQueue "control-plane.dispatch.dlq" ""; mkMQueue "control-plane.workers.dlq" "";
    mkMQueue "control-plane.results.dlq" ""];
  Bindings := [
    mkBinding CommandsExchange "processing.jobs" "processing.job.requested";
    mkBinding CommandsExchange "processing.cancellations" "processing.job.cancel-requested";
    mkBinding CommandsExchange "control-plane.dispatch" "processing.job.queued";
    mkBinding EventsExchange "control-plane.workers" MessageWorkerRegistered;
    mkBinding EventsExchange "control-plane.workers" MessageWorkerHeartbeat;
    mkBinding EventsExchange "control-plane.results" MessageJobStarted;
    mkBinding EventsExchange "control-plane.results" MessageJobProgressed;
    mkBinding EventsExchange "control-plane.results" MessageJobSucceeded;
    mkBinding EventsExchange "control-plane.results" MessageJobFailed;
    mkBinding EventsExchange "control-plane.results" MessageJobCancelled;
    mkBinding EventsExchange "control-plane.results" "processing.artifact.created";
    mkBinding EventsExchange "audit.events" "audit.#";
    mkBinding EventsExchange "monitoring.events" "monitoring.#";
    mkBinding DeadLetterExchange "processing.jobs.dlq" "processing.jobs.dlq";
    mkBinding DeadLetterExchange "processing.cancellations.dlq" "processing.cancellations.dlq";
    mkBinding DeadLetterExchange "control-plane.dispatch.dlq" "control-plane.dispatch.dlq";
    mkBinding DeadLetterExchange "control-plane.workers.dlq" "control-plane.workers.dlq";
    mkBinding DeadLetterExchange "control-plane.results.dlq" "control-plane.results.dlq"]
|}.

(** ** The broker

    AMQP 0-9-1: declaring what exists with the same attributes is no change, with other
    attributes an error; a binding needs its exchange and its queue.  A queue's dead
    letters go to an exchange under a key. *)

Record BrokerConfig := mkBroker {
  bk_exchanges : list (string * string);
  bk_queues : list (string * option (string * string));
  bk_bindings : list Binding
}.

Definition declare {A} `{EqDecision A} (name : string) (attrs : A) (l : list (string * A)) : option (list (string * A)) :=
  match assoc_first name l with
  | None => Some (l ++ [(name, attrs)])
  | Some attrs' => if bool_decide (attrs' = attrs) then Some l else None
  end.

Definition ExchangeDeclare (name kind : string) (b : BrokerConfig) : option BrokerConfig :=
  l ← declare name kind (bk_exchanges b); Some (mkBroker l (bk_queues b) (bk_bindings b)).

Definition QueueDeclare (name : string) (dead : option (string * string)) (b : BrokerConfig) : option BrokerConfig :=
  l ← declare name dead (bk_queues b); Some (mkBroker (bk_exchanges b) l (bk_bindings b)).

#[export] Instance Binding_eq_dec : EqDecision Binding.
Proof. solve_decision. Defined.

Definition QueueBind (x : Binding) (b : BrokerConfig) : option BrokerConfig :=
  _ ← assoc_first (bd_Exchange x) (bk_exchanges b);
  _ ← assoc_first (bd_Queue x) (bk_queues b);
  Some (if bool_decide (x ∈ bk_bindings b) then b
        else mkBroker (bk_exchanges b) (bk_queues b) (bk_bindings b ++ [x])).

(** The three loops; [fails n] is the connection failing at the [n]th request.  Whatever
    was declared before an error stays declared. *)
Fixpoint declare_all {A} (step : A → BrokerConfig → option BrokerConfig) (message : string) (fails : nat → bool) (n : nat)
  (l : list A) (b : BrokerConfig) : res unit * BrokerConfig :=
  match l with
  | [] => (Ok tt, b)
  | x :: l =>
      match (if fails n then None else step x b) with
      | None => (Err (ErrText message), b)
      | Some b => declare_all step message fails (S n) l b
      end
  end.

Definition queue_arguments (q : MQueue) : option (string * string) :=
  if bool_decide (mq_DeadLetter q = "") then None else Some (DeadLetterExchange, mq_DeadLetter q).

Definition declareTopology (fails : nat → bool) (t : Topology) (b : BrokerConfig) : res unit * BrokerConfig :=
  match declare_all (λ e, ExchangeDeclare (ex_Name e) (ex_Kind e)) "declare exchange" fails 0 (Exchanges t) b with
  | (Ok _, b) =>
      let n := length (Exchanges t) in
      match declare_all (λ q, QueueDeclare (mq_Name q) (queue_arguments q)) "declare queue" fails n (Queues t) b with
      | (Ok _, b) => declare_all QueueBind "bind queue" fails (n + length (Queues t)) (Bindings t) b
      | r => r
      end
  | r => r
  end.

(** ** Topic routing *)

(** The words of a key, separated by dots. *)
Fixpoint split_words (cur : list N) (l : list N) : list (list N) :=
  match l with
  | [] => [rev cur]
  | b :: l => if (b =? 46)%N then rev cur :: split_words [] l else split_words (b :: cur) l
  end.

Definition words (s : string) : list (list N) := split_words [] (bytes_of s).

(** [*] stands for one word, [#] for any number of words. *)
Fixpoint topic_match (pattern key : list (list N)) : bool :=
  match pattern with
  | [] => match key with [] => true | _ => false end
  | p :: pattern =>
      if bool_decide (p = [35%N]) then
        (fix skip (key : list (list N)) : bool :=
           topic_match pattern key || match key with [] => false | _ :: key => skip key end) key
      else match key with
           | [] => false
           | w :: key => (bool_decide (p = [42%N]) || bool_decide (p = w)) && topic_match pattern key
           end
  end.

(** A queue gets one copy however many of its bindings match. *)
Definition route (b : BrokerConfig) (exchange key : string) : list string :=
  remove_dups (bd_Queue <$> filter (λ x, bd_Exchange x = exchange ∧ topic_match (words (bd_Key x)) (words key) = true)
                 (bk_bindings b)).

(** A delivery that is rejected without requeueing, or whose processing failed, goes
    where its queue's dead letters go. *)
Definition dead_letter (b : BrokerConfig) (queue : string) : list string :=
  match assoc_first queue (bk_queues b) with
  | Some (Some (exchange, key)) => route b exchange key
  | _ => []
  end.

(** ** The worker's own queues

    A worker declares two queues of its own and binds each to the key of its commands
    (docs/messaging/queue-topology.md). *)
Definition worker_queue (messageType : string) (w : uuid) : string :=
  (if bool_decide (messageType = MessageJobRequested) then "processing.jobs." else "processing.cancellations.")
  +:+ uuid_string w.

Definition worker_bindings (w : uuid) : list Binding :=
  (λ ty, mkBinding CommandsExchange (worker_queue ty w) (ty +:+ "." +:+ uuid_string w)) <$> [MessageJobRequested; MessageJobCancel].

Definition with_workers (ws : list uuid) (b : BrokerConfig) : BrokerConfig :=
  mkBroker (bk_exchanges b) (bk_queues b) (bk_bindings b ++ (ws ≫= worker_bindings)).

(** ** Lemmas *)

Definition literal (p : list (list N)) : Prop := Forall (λ w, w ≠ [35%N] ∧ w ≠ [42%N]) p.

Lemma topic_match_literal p k : literal p → topic_match p k = true ↔ p = k.
Proof.
  intros Hp. revert k. induction Hp as [|w p [H1 H2] Hp IH]; intros k; [by destruct k|].
  cbn [topic_match]. rw bool_decide_eq_false_2 //. destruct k as [|v k]; [done|].
  rw (bool_decide_eq_false_2 (w = [42%N])) // orb_false_l andb_true_iff bool_decide_eq_true IH. naive_solver.
Qed.

Lemma split_words_join cur l : join [46%N] (split_words cur l) = rev cur ++ l.
Proof.
  revert cur. induction l as [|b l IH]; intros cur; simpl; [by rw app_nil_r|].
  destruct (N.eqb_spec b 46) as [->|Hb].
  - specialize (IH []). destruct (split_words [] l) as [|x xs] eqn:E.
    + destruct l; simpl in E; [done|]. by case_match.
    + rw join_cons IH. done.
  - rw IH. simpl. by rw -app_assoc.
Qed.

Lemma words_inj s t : words s = words t → s = t.
Proof.
  unfold words. intros E. apply (f_equal (join [46%N])) in E.
  rw !split_words_join in E. simpl in E. by rw -(string_of_bytes_of s) -(string_of_bytes_of t) E.
Qed.

Lemma split_words_sub cur l w : w ∈ split_words cur l → ∀ b, b ∈ w → b ∈ cur ∨ b ∈ l.
Proof.
  revert cur. induction l as [|c l IH]; intros cur; cbn [split_words].
  - intros ->%list_elem_of_singleton b. rw !list_elem_of_In -in_rev. auto.
  - destruct (N.eqb_spec c 46) as [->|Hc].
    + intros [->|Hw]%elem_of_cons b Hb; [rw !list_elem_of_In -in_rev in Hb *; auto|].
      destruct (IH [] Hw b Hb) as [[]%elem_of_nil|]. right. by right.
    + intros Hw b Hb. destruct (IH _ Hw b Hb) as [[->|]%elem_of_cons|]; [right; by left|by left|right; by right].
Qed.

Lemma words_literal s : 35%N ∉ bytes_of s → 42%N ∉ bytes_of s → literal (words s).
Proof.
  intros H1 H2. apply list.Forall_forall. intros w Hw. split; intros ->.
  - destruct (split_words_sub _ _ _ Hw 35%N) as [[]%elem_of_nil|]; [by left|done].
  - destruct (split_words_sub _ _ _ Hw 42%N) as [[]%elem_of_nil|]; [by left|done].
Qed.

Lemma topic_match_key s k : 35%N ∉ bytes_of s → 42%N ∉ bytes_of s → (topic_match (words s) (words k) = true) ↔ s = k.
Proof. intros H1 H2. rw topic_match_literal; [by apply words_literal|]. split; [apply words_inj|by intros ->]. Qed.

Lemma uuid_no_wildcard u : (35%N ∉ bytes_of (uuid_string u)) ∧ (42%N ∉ bytes_of (uuid_string u)).
Proof.
  assert (Forall (λ b, (45 <= b)%N) (bytes_of (uuid_string u))) as H.
  { unfold uuid_string. rw bytes_of_string_of; [apply uuid_bytes_lt|].
    assert (∀ n v, Forall (λ b, (45 <= b)%N) (hex_digits n v)) as Hh.
    { induction n as [|n IH]; intros v; simpl; [done|]. apply Forall_app. split; [done|].
      constructor; [|done]. unfold hex_digit. case_match; lia. }
    unfold uuid_bytes, dashed. specialize (Hh 32%nat u).
    repeat (apply Forall_app; split); auto using Forall_take, Forall_drop; repeat constructor; lia. }
  rw list.Forall_forall in H. split; intros Hin%H; lia.
Qed.

Lemma worker_key_literal (ty : string) w : (ty = MessageJobRequested ∨ ty = MessageJobCancel) →
  literal (words (ty +:+ "." +:+ uuid_string w)).
Proof.
  intros Hty. destruct (uuid_no_wildcard w) as [H1 H2]. apply words_literal; rw !bytes_of_app !elem_of_app;
    destruct Hty as [->| ->]; (intros [H|[H|H]]; [revert H; by apply (bool_decide_unpack _)..|done]).
Qed.

(** The key of a worker's command is matched by its own binding and by no binding of
    another worker. *)
Lemma worker_key_match (ty ty' : string) w w' :
  (ty = MessageJobRequested ∨ ty = MessageJobCancel) → (ty' = MessageJobRequested ∨ ty' = MessageJobCancel) →
  (w < 2 ^ 128)%N → (w' < 2 ^ 128)%N →
  topic_match (words (ty' +:+ "." +:+ uuid_string w')) (words (ty +:+ "." +:+ uuid_string w)) = true ↔ ty' = ty ∧ w' = w.
Proof.
  intros Hty Hty' Hw Hw'. rw topic_match_literal; [by apply worker_key_literal|].
  split; [|by intros [-> ->]]. intros E%words_inj. apply routing_key_inj in E as [-> E]; [|done..].
  split; [done|]. by apply uuid_string_inj.
Qed.

(** ** The default topology *)

Definition declared : BrokerConfig := (declareTopology (λ _, false) DefaultTopology (mkBroker [] [] [])).2.

Definition result_types : list string :=
  [MessageJobStarted; MessageJobProgressed; MessageJobSucceeded; MessageJobFailed; MessageJobCancelled; MessageArtifactCreated].

Definition consumed_queues : list string :=
  ["processing.jobs"; "processing.cancellations"; "control-plane.dispatch"; "control-plane.workers"; "control-plane.results"].

(** Bindings of workers that do not match leave the route as it is. *)
Lemma route_shared ws exchange (key : string) :
  exchange ≠ CommandsExchange ∨ (∀ ty w, ty = MessageJobRequested ∨ ty = MessageJobCancel → ty +:+ "." +:+ uuid_string w ≠ key) →
  route (with_workers ws declared) exchange key = route declared exchange key.
Proof.
  intros Hne. unfold route. do 2 f_equal. unfold with_workers. cbn [bk_bindings]. rw list.filter_app.
  rw -{2}(app_nil_r (filter _ (bk_bindings declared))). f_equal.
  apply elem_of_nil_inv. intros x [[He Hm] Hx]%list_elem_of_filter.
  apply list_elem_of_bind in Hx as (w&Hx&_). apply list_elem_of_fmap in Hx as (ty&->&Hty). cbn [bd_Exchange bd_Key] in *.
  assert (ty = MessageJobRequested ∨ ty = MessageJobCancel) as Hty2 by (rw !elem_of_cons elem_of_nil in Hty; tauto).
  destruct Hne as [Hne|Hne]; [by apply Hne|]. apply (Hne ty w Hty2).
  apply topic_match_literal in Hm; [by apply words_inj|by apply worker_key_literal].
Qed.

Lemma declare_all_noop {A} (step : A → BrokerConfig → option BrokerConfig) message fails n l b :
  Forall (λ x, step x b = Some b) l → (declare_all step message fails n l b).2 = b.
Proof.
  intros Hl. revert n. induction Hl as [|x l Hx Hl IH]; intros n; [done|]. cbn [declare_all].
  destruct (fails n); [done|]. rw Hx. apply IH.
Qed.

(** Declaring what is declared changes nothing, whichever request fails. *)
Lemma declareTopology_again fails : (declareTopology fails DefaultTopology declared).2 = declared.
Proof.
  unfold declareTopology.
  pose proof (declare_all_noop (λ e, ExchangeDeclare (ex_Name e) (ex_Kind e)) "declare exchange" fails 0
    (Exchanges DefaultTopology) declared) as H1.
  destruct (declare_all _ "declare exchange" _ _ _ _) as [[|] b1]; cbn [snd] in *;
    (rw H1; [repeat (constructor; [vm_compute; reflexivity|]); constructor|]); [|done].
  pose proof (declare_all_noop (λ q, QueueDeclare (mq_Name q) (queue_arguments q)) "declare queue" fails
    (length (Exchanges DefaultTopology)) (Queues DefaultTopology) declared) as H2.
  destruct (declare_all _ "declare queue" _ _ _ _) as [[|] b2]; cbn [snd] in *;
    (rw H2; [repeat (constructor; [vm_compute; reflexivity|]); constructor|]); [|done].
  apply declare_all_noop. repeat (constructor; [vm_compute; reflexivity|]). constructor.
Qed.

Lemma assoc_first_elem {A} k (v : A) l : assoc_first k l = Some v → (k, v) ∈ l.
Proof.
  induction l as [|[k' v'] l IH]; [done|]. cbn [assoc_first]. case_bool_decide as Hk.
  - intros [= ->]. subst. by left.
  - intros E. right. by apply IH.
Qed.

(** Dead letters never go through the exchange of the commands. *)
Lemma dead_letter_shared ws q : dead_letter (with_workers ws declared) q = dead_letter declared q.
Proof.
  assert (Forall (λ qd, match qd.2 with Some (ex, _) => ex ≠ CommandsExchange | None => True end) (bk_queues declared)) as Hall
    by (vm_compute; repeat constructor; discriminate).
  unfold dead_letter. cbn [with_workers bk_queues]. destruct (assoc_first q (bk_queues declared)) as [[[ex key]|]|] eqn:E;
    [|reflexivity..]. apply route_shared. left. apply assoc_first_elem in E. rw list.Forall_forall in Hall. specialize (Hall _ E). exact Hall.
Qed.

Lemma dead_letters_kept :
  Forall (λ q, dead_letter declared q = [q +:+ ".dlq"] ∧ dead_letter declared (q +:+ ".dlq") = []) consumed_queues.
Proof. apply (bool_decide_unpack _). vm_compute. exact I. Qed.

Lemma singleton_dups (q : string) l : q ∈ l → (∀ x, x ∈ l → x = q) → remove_dups l = [q].
Proof.
  intros Hq Hall. pose proof (NoDup_remove_dups l) as Hnd.
  assert (∀ x, x ∈ remove_dups l ↔ x = q) as Hx by (intros x; rw elem_of_remove_dups; naive_solver).
  destruct (remove_dups l) as [|a [|b k]].
  - by apply (proj2 (Hx q) eq_refl), elem_of_nil in Hq || (exfalso; apply (not_elem_of_nil q); by apply Hx).
  - f_equal. apply Hx. by left.
  - exfalso. inversion_clear Hnd as [|? ? Hab _]. apply Hab. assert (a = q) as -> by (apply Hx; by left).
    assert (b = q) as -> by (apply Hx; right; by left). by left.
Qed.

(** The shared bindings of commands, and that their keys are literal. *)
Lemma shared_command_keys : Forall (λ x, bd_Exchange x = CommandsExchange →
  bd_Key x ∈ [MessageJobRequested; MessageJobCancel; MessageJobQueued]) (bk_bindings declared).
Proof. apply (bool_decide_unpack _). vm_compute. exact I. Qed.

Lemma command_types_literal :
  Forall (λ k, (35%N ∉ bytes_of k) ∧ (42%N ∉ bytes_of k)) [MessageJobRequested; MessageJobCancel; MessageJobQueued].
Proof. apply (bool_decide_unpack _). vm_compute. exact I. Qed.

(** A command for a worker matches none of the shared bindings. *)
Lemma shared_bindings_miss (ty : string) w x : (ty = MessageJobRequested ∨ ty = MessageJobCancel) →
  x ∈ bk_bindings declared → bd_Exchange x = CommandsExchange →
  topic_match (words (bd_Key x)) (words (ty +:+ "." +:+ uuid_string w)) = false.
Proof.
  intros Hty Hx He. apply not_true_is_false. intros Hm.
  pose proof shared_command_keys as Hk. rw list.Forall_forall in Hk. specialize (Hk x Hx He).
  pose proof command_types_literal as Hl. rw list.Forall_forall in Hl. destruct (Hl _ Hk) as [H1 H2].
  apply topic_match_key in Hm; [|done..]. apply (f_equal go_len) in Hm. rw !go_len_app go_len_uuid_string in Hm.
  rw !elem_of_cons in Hk.
  destruct Hty as [->| ->], Hk as [E|[E|[E|[]%elem_of_nil]]]; rw E in Hm; vm_compute in Hm; discriminate Hm.
Qed.

Lemma route_worker ws (ty : string) w :
  (ty = MessageJobRequested ∨ ty = MessageJobCancel) → Forall (λ w, (w < 2 ^ 128)%N) ws → w ∈ ws →
  route (with_workers ws declared) CommandsExchange (ty +:+ "." +:+ uuid_string w) = [worker_queue ty w].
Proof.
  intros Hty Hws Hw. rw list.Forall_forall in Hws. apply singleton_dups.
  - apply list_elem_of_fmap. exists (mkBinding CommandsExchange (worker_queue ty w) (ty +:+ "." +:+ uuid_string w)).
    split; [done|]. apply list_elem_of_filter. cbn [bd_Exchange bd_Key]. split.
    + split; [done|]. apply worker_key_match; auto.
    + apply elem_of_app. right. apply list_elem_of_bind. exists w. split; [|done].
      apply list_elem_of_fmap. exists ty. split; [done|]. rw !elem_of_cons. naive_solver.
  - intros q (x&->&[[He Hm] Hx]%list_elem_of_filter)%list_elem_of_fmap. apply elem_of_app in Hx as [Hx|Hx].
    { by rw (shared_bindings_miss ty w x Hty Hx He) in Hm. }
    apply list_elem_of_bind in Hx as (w'&Hx&Hw'). apply list_elem_of_fmap in Hx as (ty'&->&Hty').
    cbn [bd_Key bd_Queue] in *. rw !elem_of_cons in Hty'.
    apply worker_key_match in Hm as [-> ->]; [done|done|by destruct Hty' as [?|[?|[]%elem_of_nil]]; auto|by apply Hws..].
Qed.

(** C30. Messages land where they are read: declaring the default topology succeeds on an
    empty broker and, repeated, changes nothing, even when it is cut short.  With any
    set of workers that bound their own queues, a command addressed by [WorkerRoutingKey]
    reaches the queue of that worker and no other; the signal that a job was queued
    reaches the dispatcher only, result events the result consumer only, worker events
    the scheduler only; and a rejected delivery of any consumed queue goes to exactly
    that queue's dead-letter queue, which keeps it. *)
Theorem routing_exact (ws : list uuid) :
  Forall (λ w, (w < 2 ^ 128)%N) ws →
  let b := with_workers ws declared in
  (declareTopology (λ _, false) DefaultTopology (mkBroker [] [] [])).1 = Ok tt
  ∧ (∀ fails, (declareTopology fails DefaultTopology declared).2 = declared)
  ∧ (∀ ty w key, w ∈ ws → WorkerRoutingKey ty w = Ok key → route b CommandsExchange key = [worker_queue ty w])
  ∧ route b CommandsExchange MessageJobQueued = ["control-plane.dispatch"]
  ∧ Forall (λ ty, route b EventsExchange ty = ["control-plane.results"]) result_types
  ∧ Forall (λ ty, route b EventsExchange ty = ["control-plane.workers"]) [MessageWorkerRegistered; MessageWorkerHeartbeat]
  ∧ Forall (λ q, dead_letter b q = [q +:+ ".dlq"] ∧ dead_letter b (q +:+ ".dlq") = []) consumed_queues.
Proof.
  intros Hws b. split_and!.
  - vm_compute. reflexivity.
  - apply declareTopology_again.
  - intros ty w key Hw Hk. unfold WorkerRoutingKey in Hk. repeat case_bool_decide; try done.
    injection Hk as <-. by apply route_worker.
  - unfold b. rw route_shared; [right|by vm_compute].
    intros ty w Hty E%(f_equal go_len). rw !go_len_app go_len_uuid_string in E. destruct Hty as [->| ->]; vm_compute in E; done.
  - repeat constructor; unfold b; (rw route_shared; [by left|by vm_compute]).
  - repeat constructor; unfold b; (rw route_shared; [by left|by vm_compute]).
  - eapply list.Forall_impl; [exact dead_letters_kept|]. intros q Hq. unfold b.
    pose proof (dead_letter_shared ws q) as E1. pose proof (dead_letter_shared ws (q +:+ ".dlq")) as E2.
    destruct Hq as [H1 H2]. split; [exact (eq_trans E1 H1)|exact (eq_trans E2 H2)].
Qed.

Lemma routing_exact_witness :
  route (with_workers [7%N; 9%N] declared) CommandsExchange MessageJobQueued = ["control-plane.dispatch"].
Proof. apply (routing_exact [7%N; 9%N]). repeat constructor. Defined.
