(* ===== verification/Publisher.v ===== *)
(** The RabbitMQ publisher, src/go/internal/queue/rabbitmq.go and confirm.go: a connection
    that is opened on demand, at most two attempts to publish, and publisher confirms.
    The connection library answers what it answers; an acknowledgement is the broker's
    word that it has the message. *)

From S2P Require Import Prelude GoStrings Json Queue Canonical Upload Tokens JsonDecode IdentityExamples EnvelopeCodec Topology Outbox.

Open Scope Z_scope.

Definition DefaultConfirmTimeout : duration := 10 * Second.

Definition ErrPublisherNack : GoError := ErrText "RabbitMQ publisher confirm was negative".
Definition ErrPublisherClosed : GoError := ErrText "RabbitMQ publisher is closed".

Record PublisherConfig := mkPublisherConfig {
  pc_URL : string; pc_ConfirmTimeout : duration; pc_DialTimeout : duration; pc_MaxMessageSize : Z
}.

Definition PublisherConfig_validate (c : PublisherConfig) : res unit :=
  _ ← guard_err (negb (bool_decide (pc_URL c = ""))) (ErrText "RabbitMQ URL is required");
  _ ← guard_err (0 <? pc_ConfirmTimeout c) (ErrText "RabbitMQ confirm timeout must be positive");
  _ ← guard_err (0 <? pc_DialTimeout c) (ErrText "RabbitMQ dial timeout must be positive");
  guard_err ((1 <=? pc_MaxMessageSize c) && (pc_MaxMessageSize c <=? MaxEnvelopeBytes))
    (ErrText "RabbitMQ max message size must be between 1 and 1048576").

(** The publisher holds a channel and a connection, or neither. *)
Record Publisher := mkPublisher { pb_config : PublisherConfig; pb_connected : bool; pb_closed : bool }.

(** ** The connection, github.com/rabbitmq/amqp091-go *)

(** Opening a connection: dialling, the channel, the confirm mode. *)
Inductive DialAnswer := DialOk | DialFails | ChannelFails | ConfirmFails.

(** What becomes of one publishing: the call fails, or a confirmation comes or does not
    come in time.  [taken] says whether the broker has the message all the same; an
    acknowledgement means that it has. *)
Inductive PublishAnswer :=
  | PublishFails (taken : bool)
  | ConfirmAck
  | ConfirmNack (taken : bool)
  | NoConfirm (taken : bool).

(** The answers to the attempts of one call. *)
Record Attempt := mkAttempt { at_closed : bool; at_dial : DialAnswer; at_publish : PublishAnswer }.

Definition taken (a : PublishAnswer) : bool :=
  match a with ConfirmAck => true | PublishFails t | ConfirmNack t | NoConfirm t => t end.

(** What [waitForConfirmation] returns: the confirmation, and whether there is one. *)
Definition waitForConfirmation (a : PublishAnswer) : bool * bool :=
  match a with ConfirmAck => (true, true) | ConfirmNack _ => (false, true) | _ => (false, false) end.

(** A message as the broker gets it: where to, and the body. *)
Definition Wire : Type := string * string * list N.

(** ** Operations *)

(** [Dial] refuses a timeout that is not positive before it dials. *)
Definition Dial (timeout : duration) (a : DialAnswer) : res unit :=
  if timeout <=? 0 then Err (ErrText "RabbitMQ dial timeout must be positive")
  else match a with DialFails => Err (ErrText "dial RabbitMQ") | _ => Ok tt end.

Definition connectLocked (p : Publisher) (a : DialAnswer) : res unit * Publisher :=
  if pb_closed p then (Err ErrPublisherClosed, p)
  else match Dial (pc_DialTimeout (pb_config p)) a with
       | Err e => (Err e, p)
       | Ok _ =>
           match a with
           | ChannelFails => (Err (ErrText "open RabbitMQ channel"), p)
           | ConfirmFails => (Err (ErrText "enable RabbitMQ publisher confirms"), p)
           | _ => (Ok tt, mkPublisher (pb_config p) true (pb_closed p))
           end
       end.

Definition resetLocked (p : Publisher) : Publisher := mkPublisher (pb_config p) false (pb_closed p).

Definition NewPublisher (config : PublisherConfig) (a : DialAnswer) : res Publisher :=
  let confirm := if bool_decide (pc_ConfirmTimeout config = 0) then DefaultConfirmTimeout else pc_ConfirmTimeout config in
  let config := mkPublisherConfig (pc_URL config) confirm
    (if bool_decide (pc_DialTimeout config = 0) then confirm else pc_DialTimeout config)
    (if bool_decide (pc_MaxMessageSize config = 0) then MaxEnvelopeBytes else pc_MaxMessageSize config) in
  _ ← PublisherConfig_validate config;
  match connectLocked (mkPublisher config false false) a with
  | (Ok _, p) => Ok p
  | (Err e, _) => Err e
  end.

(** A connection is opened when there is none or it was lost. *)
Definition ensure_connected (p : Publisher) (a : Attempt) : res unit * Publisher :=
  if negb (pb_connected p) || at_closed a then connectLocked (resetLocked p) (at_dial a) else (Ok tt, p).

(** The loop over the attempts; the last one reports its error. *)
Fixpoint publish_loop (attempts : list Attempt) (msg : Wire) (p : Publisher) (broker : list Wire)
  : res unit * Publisher * list Wire :=
  match attempts with
  | [] => (Err (ErrText "RabbitMQ publish failed"), p, broker)
  | a :: attempts =>
      match ensure_connected p a with
      | (Err e, p) => (Err e, p, broker)
      | (Ok _, p) =>
          let broker := if taken (at_publish a) then broker ++ [msg] else broker in
          match at_publish a with
          | PublishFails _ =>
              let p := resetLocked p in
              match attempts with
              | [] => (Err (ErrText "publish RabbitMQ message"), p, broker)
              | _ => publish_loop attempts msg p broker
              end
          | answer =>
              let (ack, ok) := waitForConfirmation answer in
              if ok && ack then (Ok tt, p, broker)
              else
                let p := resetLocked p in
                if ok && negb ack then (Err ErrPublisherNack, p, broker)
                else match attempts with
                     | [] => (Err (ErrText "RabbitMQ publisher confirmation timed out or connection closed"), p, broker)
                     | _ => publish_loop attempts msg p broker
                     end
          end
      end
  end.

Definition Publish (exchange routingKey : string) (envelope : Envelope) (first second : Attempt) (p : Publisher)
  (broker : list Wire) : res unit * Publisher * list Wire :=
  match MarshalEnvelope envelope with
  | Err e => (Err e, p, broker)
  | Ok body =>
      if pc_MaxMessageSize (pb_config p) <? Z.of_nat (length body)
      then (Err (ErrText "message exceeds configured limit"), p, broker)
      else if bool_decide (exchange = "") || bool_decide (routingKey = "")
      then (Err (ErrText "RabbitMQ exchange and routing key are required"), p, broker)
      else if pb_closed p then (Err ErrPublisherClosed, p, broker)
      else publish_loop [first; second] (exchange, routingKey, body) p broker
  end.

(** [cancelled] is [ctx.Err() != nil]. *)
Definition DeclareTopology (cancelled : bool) (t : Topology) (a : Attempt) (fails : nat → bool) (p : Publisher) (b : BrokerConfig)
  : res unit * Publisher * BrokerConfig :=
  if cancelled then (Err (ErrText "context canceled"), p, b)
  else if pb_closed p then (Err ErrPublisherClosed, p, b)
  else match ensure_connected p a with
       | (Err e, p) => (Err e, p, b)
       | (Ok _, p) =>
           match declareTopology fails t b with
           | (Err e, b) => (Err e, resetLocked p, b)
           | (Ok _, b) => (Ok tt, p, b)
           end
       end.

Definition Publisher_Close (p : Publisher) : Publisher := mkPublisher (pb_config p) (pb_connected p) true.

(** ** Properties *)

Lemma ensure_connected_ok p a r p' : ensure_connected p a = (r, p') →
  pb_closed p' = pb_closed p ∧ pb_config p' = pb_config p ∧ (r = Ok tt → pb_connected p' = true).
Proof.
  unfold ensure_connected, connectLocked, resetLocked. destruct p as [c conn closed]. cbn [pb_connected pb_closed pb_config].
  destruct conn; repeat case_match; intros [= <- <-]; done.
Qed.

(** What the attempts leave at the broker, and the state of the publisher. *)
Record published (attempts : nat) (msg : Wire) (p : Publisher) (broker : list Wire) (r : res unit) (p' : Publisher)
  (broker' : list Wire) (n : nat) : Prop := {
  pub_at_most : (n <= attempts)%nat;
  pub_copies : broker' = broker ++ replicate n msg;
  pub_ok : r = Ok tt → (1 <= n)%nat ∧ pb_connected p' = true;
  pub_closed : pb_closed p' = pb_closed p;
  pub_config : pb_config p' = pb_config p
}.

Lemma published_more k attempts msg p p1 broker r p' broker' n : (k <= 1)%nat →
  pb_closed p1 = pb_closed p → pb_config p1 = pb_config p →
  published attempts msg p1 (broker ++ replicate k msg) r p' broker' n →
  published (S attempts) msg p broker r p' broker' (k + n).
Proof.
  intros Hk Hc Hcfg [H1 H2 H3 H4 H5]. split; [lia| | |congruence..].
  - by rw H2 replicate_add app_assoc.
  - intros Hr. destruct (H3 Hr). split; [lia|done].
Qed.

Lemma publish_loop_published attempts msg p broker r p' broker' : publish_loop attempts msg p broker = (r, p', broker') →
  ∃ n, published (length attempts) msg p broker r p' broker' n.
Proof.
  revert p broker. induction attempts as [|a attempts IH]; intros p broker; cbn [publish_loop].
  - intros [= <- <- <-]. exists 0%nat. by split; rw ?app_nil_r.
  - destruct (ensure_connected p a) as [[[]|e] p1] eqn:Hens; pose proof (ensure_connected_ok _ _ _ _ Hens) as (Hc&Hcfg&Hconn);
      [|intros [= <- <- <-]; exists 0%nat; split; rw ?app_nil_r //; lia].
    set (k := if taken (at_publish a) then 1%nat else 0%nat).
    assert (k <= 1)%nat as Hk by (unfold k; case_match; lia).
    replace (if taken (at_publish a) then broker ++ [msg] else broker) with (broker ++ replicate k msg)
      by (unfold k; case_match; simpl; rw ?app_nil_r //).
    assert (∀ (q : Publisher) (res : res unit), pb_closed q = pb_closed p1 → pb_config q = pb_config p1 →
      (res = Ok tt → k = 1%nat ∧ pb_connected q = true) →
      published (S (length attempts)) msg p broker res q (broker ++ replicate k msg) k) as Hend.
    { intros q res Hq1 Hq2 Hok. split; [lia|done| |congruence..]. intros Hr. destruct (Hok Hr). split; [lia|done]. }
    assert (∀ out, publish_loop attempts msg (resetLocked p1) (broker ++ replicate k msg) = out → out = (r, p', broker') →
      ∃ n, published (S (length attempts)) msg p broker r p' broker' n) as Hmore.
    { intros out Hout ->. destruct (IH _ _ Hout) as [n Hn]. exists (k + n)%nat.
      apply (published_more k _ _ _ (resetLocked p1)); [exact Hk|exact Hc|exact Hcfg|exact Hn]. }
    destruct (at_publish a) as [t| |t|t] eqn:Ha; cbn [waitForConfirmation andb negb].
    1,4: destruct attempts as [|a2 attempts];
      [intros [= <- <- <-]; exists k; by apply Hend|intros Hout; by eapply Hmore].
    + intros [= <- <- <-]. exists k. apply Hend; [done..|]. intros _. split; [done|by apply Hconn].
    + intros [= <- <- <-]. exists k. by apply Hend.
Qed.

(** C21. Publishing is at least once: whatever the connection does, a [Publish] that
    reports success has handed the broker the message, one or two copies of it, exactly
    the bytes of a valid envelope within the size limit; a failed one has handed over at
    most two copies and nothing else; and one on a closed publisher, or of an envelope
    that is not valid or too large, nothing at all. *)
Theorem Publish_at_least_once exchange routingKey envelope first second p broker r p' broker' :
  Publish exchange routingKey envelope first second p broker = (r, p', broker') →
  ∃ n, (n <= 2)%nat
    ∧ (r = Ok tt → (1 <= n)%nat)
    ∧ (pb_closed p = true ∨ Envelope_Validate envelope ≠ Ok tt → n = 0%nat ∧ r ≠ Ok tt)
    ∧ (n = 0%nat → broker' = broker)
    ∧ ((1 <= n)%nat → ∃ body, MarshalEnvelope envelope = Ok body ∧ Z.of_nat (length body) <= pc_MaxMessageSize (pb_config p)
       ∧ broker' = broker ++ replicate n (exchange, routingKey, body))
    ∧ pb_closed p' = pb_closed p ∧ pb_config p' = pb_config p.
Proof.
  unfold Publish. destruct (MarshalEnvelope envelope) as [body|e] eqn:Hm.
  2: { intros [= <- <- <-]. exists 0%nat. split_and!; try done; lia. }
  assert (Envelope_Validate envelope = Ok tt) as Hval.
  { unfold MarshalEnvelope in Hm. by apply res_bind_Ok in Hm as ([]&?&_). }
  destruct (Z.ltb_spec (pc_MaxMessageSize (pb_config p)) (Z.of_nat (length body))).
  { intros [= <- <- <-]. exists 0%nat. split_and!; try done; lia. }
  destruct (_ || _). { intros [= <- <- <-]. exists 0%nat. split_and!; try done; lia. }
  destruct (pb_closed p) eqn:Hcl. { intros [= <- <- <-]. exists 0%nat. split_and!; try done; lia. }
  intros (n&[H1 H2 H3 H4 H5])%publish_loop_published. exists n. split_and!.
  - done.
  - intros Hr. by apply H3.
  - intros [?|?]; congruence.
  - intros ->. by rw H2 app_nil_r.
  - intros Hn. exists body. split_and!; [done|lia|done].
  - congruence.
  - done.
Qed.

(** The outcome the dispatcher of the outbox acts on: it takes a message to be with the
    broker exactly when it is. *)
Definition outcome (r : res unit) (copies : nat) : PublishOutcome :=
  match r with
  | Ok _ => Confirmed
  | Err _ => match copies with O => Lost "publish" | _ => Unconfirmed "publish" end
  end.

Lemma outcome_broker r n (msg : Wire) broker w : (r = Ok tt → (1 <= n)%nat) →
  w ∈ broker ++ replicate n msg ↔ w ∈ broker ∨ (w = msg ∧ ∀ err, outcome r n ≠ Lost err).
Proof.
  intros Hr. rw elem_of_app elem_of_replicate. destruct r as [[]|e], n; simpl; try (specialize (Hr eq_refl)); naive_solver lia.
Qed.

(** Every copy the broker gets from a publisher with valid limits is read by the
    consumers as the envelope that was published. *)
Lemma published_readable `{UuidParser} exchange routingKey e obj first second p broker r p' broker' w :
  pc_MaxMessageSize (pb_config p) <= MaxEnvelopeBytes →
  (MessageID e < 2 ^ 128)%N → Payload e = raw_of obj → json_wf obj = true →
  Forall (λ s, utf8_valid (bytes_of s) = true) [MessageType e; TraceID e; CorrelationID e; CausationID e] →
  Z.of_nat (json_depth obj) < maxNestingDepth →
  Publish exchange routingKey e first second p broker = (r, p', broker') → w ∈ broker' →
  w ∈ broker ∨ (w.1 = (exchange, routingKey) ∧ UnmarshalEnvelope w.2 = Ok e).
Proof.
  intros Hmax Hid Hp Hw Hutf Hd Hpub. unfold Publish in Hpub. destruct (MarshalEnvelope e) as [body|] eqn:Hm; [|naive_solver].
  destruct (Z.ltb_spec (pc_MaxMessageSize (pb_config p)) (Z.of_nat (length body))); [naive_solver|].
  destruct (_ || _); [naive_solver|]. destruct (pb_closed p); [naive_solver|].
  apply publish_loop_published in Hpub as (n&[_ -> _ _ _]). rw elem_of_app elem_of_replicate.
  intros [?|[-> _]]; [by left|right]. split; [done|]. eapply unmarshal_marshal; [done..|]. simpl. lia.
Qed.

(** ** An example: the first confirmation is lost, the second attempt succeeds *)

Definition example_publisher : Publisher :=
  mkPublisher (mkPublisherConfig "amqp://localhost" DefaultConfirmTimeout DefaultConfirmTimeout MaxEnvelopeBytes) false false.

Definition example_publish : res unit * Publisher * list Wire :=
  Publish CommandsExchange MessageJobQueued example_envelope (mkAttempt false DialOk (NoConfirm true))
    (mkAttempt false DialOk ConfirmAck) example_publisher [].

Lemma example_publish_twice : example_publish.1.1 = Ok tt ∧ length example_publish.2 = 2%nat.
Proof. vm_compute. done. Qed.

Lemma Publish_at_least_once_witness : ∃ n, (1 <= n <= 2)%nat ∧ length example_publish.2 = n.
Proof.
  destruct example_publish_twice as [Hr Hlen]. unfold example_publish in *.
  destruct (Publish CommandsExchange MessageJobQueued example_envelope (mkAttempt false DialOk (NoConfirm true))
    (mkAttempt false DialOk ConfirmAck) example_publisher []) as [[r p'] broker'] eqn:E.
  destruct (Publish_at_least_once _ _ _ _ _ _ _ _ _ _ E) as (n&H2&H1&_&H0&Hn&_).
  cbn [fst snd] in *. specialize (H1 Hr). destruct (Hn H1) as (body&_&_&Hb). exists n. split; [lia|].
  rw Hb. simpl. apply length_replicate.
Defined.
