(* ===== verification/OutboxRuns.v ===== *)
(** What is marked published was sent: the transactions of leases and of the worker
    registry add pending messages only, so that together with the dispatcher every
    message marked published has reached the broker. *)

From S2P Require Import Prelude GoStrings Retry Json Queue JobModel Schema Sql Outbox JobStore WorkerRegistry Authz Lease Result Dlq.
From S2P Require Import Lifecycle Refinement System Logs Scheduler.

Open Scope Z_scope.

(** Rows are stored under their identifier, and published ones have been sent. *)
Definition outbox_inv (d : DB) (broker : list (string * string * Envelope)) : Prop := outbox_wf d ∧ published_delivered d broker.

Lemma outbox_inv_same d d' broker : t_outbox d' = t_outbox d → outbox_inv d broker → outbox_inv d' broker.
Proof. unfold outbox_inv, outbox_wf, published_delivered. by intros ->. Qed.

Lemma outbox_inv_insert d row k broker :
  o_id row = k → o_state row = OutboxPending → outbox_inv d broker → outbox_inv (on_outbox (insert k row) d) broker.
Proof.
  unfold outbox_inv, outbox_wf, published_delivered. intros Hk Hp [Hwf Hd]. simpl.
  split; intros k' r; rw lookup_insert_Some; intros [[<- <-]|[_ Hr]]; [done|by apply Hwf|by rw Hp|by eapply Hd].
Qed.

Definition keeps_outbox {A} (m : Tx DB A) : Prop :=
  ∀ o w broker, outbox_inv (st w) broker → wp o m (λ _ w', outbox_inv (st w') broker) w.

Lemma keeps_outbox_bind {A B} (m : Tx DB A) (f : A → Tx DB B) :
  keeps_outbox m → (∀ a, keeps_outbox (f a)) → keeps_outbox (m ≫= f).
Proof.
  intros Hm Hf o w broker Hw. apply wp_bind. eapply wp_mono; [|by apply Hm]. intros a w' Hw'. by apply Hf.
Qed.

Lemma keeps_outbox_transact {A} (m : Tx DB A) o d broker :
  keeps_outbox m → outbox_inv d broker → outbox_inv (transact m o d).2 broker.
Proof. intros Hm Hd. apply (transact_wp o m d (λ _ d', outbox_inv d' broker)); [done|]. by apply (Hm o (mkWorld d 0)). Qed.

Ltac same_outbox := cbn [st]; repeat first
  [ assumption
  | apply outbox_inv_insert; [assumption|assumption|]
  | match goal with |- outbox_inv (_ ?d) _ => apply (outbox_inv_same d); [reflexivity|] end ].

Section outbox.
Context `{!Enqueuer, !WorkerSelector}.

Lemma Select_outbox c : keeps_outbox (Select c).
Proof. intros o w broker Hw. unfold Select, SelectQueued. wp_auto; same_outbox. Qed.

Lemma Acquire_outbox c command : keeps_outbox (Acquire c command).
Proof.
  intros o w broker Hw. unfold Acquire, lockLeaseCandidate. wp_go. apply wp_SelectForLease. intros r f n1 _.
  unfold assignLease, lease_quota, enqueueAcquireCommand, newAcquireCommand. wp_auto; same_outbox.
Qed.

Lemma expireOne_outbox c item now r : keeps_outbox (expireOne c item now r).
Proof.
  intros o w broker Hw. unfold expireOne, expire_cancelled, expire_retry, expire_dead_letter, enqueueRetry,
    insert_dead_letter. wp_auto; same_outbox.
Qed.

Lemma sweep_loop_outbox c now items r : keeps_outbox (sweep_loop c now items r).
Proof.
  revert r. induction items as [|item items IH]; intros r; simpl; [by intros o w|].
  apply keeps_outbox_bind; [apply expireOne_outbox|apply IH].
Qed.

Lemma SweepExpired_outbox c limit : keeps_outbox (SweepExpired c limit).
Proof. intros o w broker Hw. unfold SweepExpired. wp_go. by apply (sweep_loop_outbox _ _ _ _ o (mkWorld (st w) _)). Qed.

Lemma worker_event_outbox e : keeps_outbox (apply_worker_event e).
Proof. intros o w broker Hw. destruct e; simpl; unfold ApplyRegistration, ApplyHeartbeat; wp_auto; same_outbox. Qed.

Lemma dispatch_loop_outbox cfg lease env cancelled i queued rep d broker :
  outbox_inv d broker → outbox_inv (dispatch_loop cfg lease env cancelled i queued rep d).1.2 broker.
Proof.
  revert i rep d. induction queued as [|item queued IH]; intros i rep d Hd; simpl; [done|]. case_match; [done|].
  pose proof (keeps_outbox_transact (Acquire cfg (mkAcquire (j_id (qj_Job item)) lease)) (env i) d broker (Acquire_outbox _ _) Hd) as Ha.
  destruct (transact _ (env i) d) as [r d']. by apply IH.
Qed.
End outbox.

Lemma alter_outbox_wf f id d : (∀ r, o_id (f r) = o_id r) → outbox_wf d → outbox_wf (on_outbox (alter f id) d).
Proof.
  intros Hf Hd k r. simpl. destruct (decide (id = k)) as [->|Hne].
  - rw lookup_alter_eq. intros (r0&Hr0&->)%fmap_Some. rw Hf. by apply Hd.
  - rw lookup_alter_ne //. apply Hd.
Qed.

Lemma dispatch_one_wf c publish o now m s :
  1 <= DispMaxAttempts c → outbox_wf (ds_db s) → outbox_wf (ds_db (dispatch_one c publish o now m s)).
Proof.
  intros Hc Hs. assert (∀ err s, outbox_wf (ds_db s) → outbox_wf (ds_db (dispatch_failure c o now m err s))) as Hfail.
  { clear s Hs. intros err s Hs. unfold dispatch_failure. rw MarkRetry_run //.
    destruct (holds_lease _ _ _); [|done]. by apply alter_outbox_wf. }
  unfold dispatch_one. destruct (publish m); [|by apply Hfail..].
  rw MarkPublished_run. destruct (holds_lease _ _ _); [|done]. by apply alter_outbox_wf.
Qed.

Lemma Dispatch_outbox c publish o now limit d broker : 1 <= DispMaxAttempts c → outbox_inv d broker →
  let s := (Dispatch c publish o now limit d broker).2 in outbox_inv (ds_db s) (ds_broker s).
Proof.
  intros Hc [Hwf Hd]. unfold Dispatch. case_match; [done|].
  destruct (transact _ o d) as [[ms|] d1] eqn:E; [|apply transact_err in E as ->; by split].
  pose proof (claimed_inv _ _ _ _ _ _ _ _ Hwf Hd E) as H0. pose proof (Claim_wf _ _ _ _ _ _ _ Hwf E) as Hw.
  split; [|by destruct (dispatch_fold_inv c publish o now _ _ _ Hc H0)].
  clear H0 E. revert Hw. set (s := mkDispatchState d1 _ _). change d1 with (ds_db s). generalize s. clear s.
  induction ms as [|m ms IH]; intros s Hs; simpl; [done|]. by apply IH, dispatch_one_wf.
Qed.
