(* ===== verification/SchedulerProcess.v ===== *)
(** The scheduler process, src/go/cmd/scheduler: the cycles of scheduler_loop.go, what it
    does with a delivery (scheduler_delivery.go, worker_delivery.go) and the loop that
    serves them in any order. *)

From S2P Require Import Prelude GoStrings Retry Json Queue JobModel Schema Sql Outbox JobStore WorkerRegistry Authz Lease Result Dlq.
From S2P Require Import Lifecycle Refinement System Logs JobProps Scheduler SchedulerProps OutboxRuns.
From S2P Require Import Sha256 Upload UploadModel Svc DatasetStore SessionStore UploadSys UploadProps DatasetService MultipartService CompleteService SvcLogic UploadVerify UploadRequests.
From S2P Require Import Tokens JsonDecode IdentityExamples EnvelopeCodec WorkerEvents.

Open Scope Z_scope.

(** ** The process *)

Definition dispatchQueue : string := "control-plane.dispatch".
Definition workerEventsQueue : string := "control-plane.workers".
Definition queuedJobMessageType : string := MessageJobQueued.

Record schedulerRuntime := mkSchedulerRuntime {
  rt_scheduler : SchedulerConfig; rt_lease : LeaseConfig; rt_dispatchLease : duration;
  rt_outbox : DispatcherConfig; rt_outboxBatch : Z;
  rt_multipart : MultipartConfig; rt_cleanupLimit : Z; rt_sweepLimit : Z; rt_heartbeatTTL : duration
}.

(** The tables, the object storage and the broker. *)
Record SchedState := mkSchedState { ss_db : DB; ss_uploads : SWorld; ss_broker : list (string * string * Envelope) }.

(** What one round of the loop meets: the clock, the oracles of its transactions, the
    faults of the database, the answers of the broker and of the object store, whether
    its context is cancelled. *)
Record CycleEnv := mkCycleEnv {
  ce_now : time; ce_oracle : Oracle; ce_outbox : Oracle; ce_acquire : nat → Oracle; ce_cancelled : nat → bool;
  ce_publish : Message → PublishOutcome; ce_uploads : SEnv; ce_fault : nat → Fault; ce_attempt : nat → Oracle
}.

(** Delays of the attempts to store a worker event. *)
Definition workerEventRetryDelays : list duration := [100 * 1000000; 500 * 1000000; Second].

Section process.
Context `{!UuidParser, !Enqueuer, !WorkerSelector} (r : schedulerRuntime).

(** *** Cycles *)

Definition dispatchEligible (e : CycleEnv) (s : SchedState) : res unit * SchedState :=
  let (out, d) := SchedulerDispatch (rt_scheduler r) (rt_lease r) (rt_dispatchLease r) (ce_oracle e) (ce_acquire e)
                    (ce_cancelled e) (ss_db s) in
  let s := mkSchedState d (ss_uploads s) (ss_broker s) in
  match out with
  | Err err => (Err err, s)
  | Ok (report, completed) =>
      if negb completed then (Err (ErrText "context canceled"), s)
      else if bool_decide (sr_Failures report = []) then (Ok tt, s)
      else (Err (ErrText "lease acquisition had failures"), s)
  end.

Definition dispatchOutbox (e : CycleEnv) (s : SchedState) : res unit * SchedState :=
  let (out, ds) := Dispatch (rt_outbox r) (ce_publish e) (ce_outbox e) (ce_now e) (rt_outboxBatch r) (ss_db s) (ss_broker s) in
  let s := mkSchedState (ds_db ds) (ss_uploads s) (ds_broker ds) in
  match out with
  | Err err => (Err err, s)
  | Ok report => if bool_decide (Failures report = 0%nat) then (Ok tt, s) else (Err (ErrText "outbox dispatch had failures"), s)
  end.

(** The sweep of expired leases comes after the clean-up of uploads, and only when that
    had no failure. *)
Definition runMaintenance (e : CycleEnv) (s : SchedState) : res unit * SchedState :=
  let (cleanup, u) := CleanupExpired (rt_multipart r) (rt_cleanupLimit r) (ce_uploads e) (ss_uploads s) in
  let s := mkSchedState (ss_db s) u (ss_broker s) in
  match cleanup with
  | SErr _ => (Err (ErrText "multipart cleanup"), s)
  | SOk report =>
      if negb (bool_decide (cr_failures report = [])) then (Err (ErrText "multipart cleanup had failures"), s)
      else let (out, d) := transact (SweepExpired (rt_lease r) (rt_sweepLimit r)) (ce_oracle e) (ss_db s) in
           (match out with Ok _ => Ok tt | Err err => Err err end, mkSchedState d (ss_uploads s) (ss_broker s))
  end.

(** *** Signals that a job was queued *)

Definition decodeQueuedJobSignal (payload : RawMessage) : res uuid :=
  match decode_strict (dec_struct [("jobId", field (λ u, u) (λ v _, v) dec_uuid)]) uuid_nil payload with
  | Some jobID => if bool_decide (jobID = uuid_nil) then Err (ErrText "jobId must be a non-zero UUID") else Ok jobID
  | None => Err (ErrText "payload must contain exactly one JSON object")
  end.

Definition processDelivery (body : list N) (e : CycleEnv) (s : SchedState) : res unit * SchedState :=
  match (envelope ← UnmarshalEnvelope body;
         _ ← guard_err (bool_decide (MessageType envelope = queuedJobMessageType)) (ErrText "unexpected scheduler message type");
         decodeQueuedJobSignal (Payload envelope)) with
  | Err err => (Err err, s)
  | Ok _ =>
      match dispatchEligible e s with
      | (Err err, s) => (Err err, s)
      | (Ok _, s) => dispatchOutbox e s
      end
  end.

Definition settle {S} (out : res unit * S) : Disposition * S :=
  match out with (Ok _, s) => (Acked, s) | (Err _, s) => (DeadLetteredDelivery, s) end.

Definition handleDelivery (body : list N) (e : CycleEnv) (s : SchedState) : Disposition * SchedState :=
  settle (processDelivery body e s).

(** *** Worker events *)

(** One attempt to store the event; a fault may strike before or during the commit. *)
Definition store_event (envelope : Envelope) (e : CycleEnv) (n : nat) (d : DB) : res unit * DB :=
  match ce_fault e n with
  | NoFault => transact (ApplyEnvelope envelope) (ce_attempt e n) d
  | Refused => (Err (ErrText "begin transaction"), d)
  | CommitUnknown => (Err (ErrText "commit transaction"), (transact (ApplyEnvelope envelope) (ce_attempt e n) d).2)
  end.

(** The number of attempts made comes last. *)
Fixpoint applyWorkerEnvelopeWithRetry (envelope : Envelope) (e : CycleEnv) (delays : list duration) (attempt : nat) (d : DB)
  : res unit * DB * nat :=
  match store_event envelope e attempt d with
  | (Ok _, d) => (Ok tt, d, S attempt)
  | (Err err, d) =>
      if bool_decide (err = ErrInvalidWorkerEvent) then (Err err, d, S attempt)
      else match delays with
           | [] => (Err err, d, S attempt)
           | delay :: delays =>
               if (0 <? delay) && ce_cancelled e attempt then (Err (ErrText "context canceled"), d, S attempt)
               else applyWorkerEnvelopeWithRetry envelope e delays (S attempt) d
           end
  end.

Definition processWorkerDelivery (body : list N) (e : CycleEnv) (d : DB) : res unit * DB * nat :=
  match (envelope ← UnmarshalEnvelope body;
         _ ← guard_err (bool_decide (MessageType envelope = MessageWorkerRegistered ∨ MessageType envelope = MessageWorkerHeartbeat))
               (ErrText "unexpected worker event type");
         mret envelope) with
  | Err err => (Err err, d, 0%nat)
  | Ok envelope => applyWorkerEnvelopeWithRetry envelope e workerEventRetryDelays 0 d
  end.

Definition handleWorkerDelivery (body : list N) (e : CycleEnv) (s : SchedState) : Disposition * SchedState :=
  let '(out, d, _) := processWorkerDelivery body e (ss_db s) in
  settle (out, mkSchedState d (ss_uploads s) (ss_broker s)).

(** *** The loop *)

Inductive LoopEvent :=
  | Delivery (body : list N)
  | WorkerDelivery (body : list N)
  | DispatchTick
  | OutboxTick
  | MaintenanceTick.

(** Errors of a cycle are logged. *)
Definition serve_event (ev : LoopEvent) (e : CycleEnv) (s : SchedState) : option Disposition * SchedState :=
  match ev with
  | Delivery body => let (x, s) := handleDelivery body e s in (Some x, s)
  | WorkerDelivery body => let (x, s) := handleWorkerDelivery body e s in (Some x, s)
  | DispatchTick => (None, (dispatchEligible e s).2)
  | OutboxTick => (None, (dispatchOutbox e s).2)
  | MaintenanceTick => (None, (runMaintenance e s).2)
  end.

Definition runStartup (e : nat → CycleEnv) (s : SchedState) : SchedState :=
  let s := (dispatchOutbox (e 0%nat) s).2 in
  let s := (dispatchEligible (e 1%nat) s).2 in
  let s := (dispatchOutbox (e 2%nat) s).2 in
  (runMaintenance (e 3%nat) s).2.

(** A run: before each event other processes commit their own work. *)
Record Round := mkRound { ro_event : LoopEvent; ro_env : CycleEnv; ro_others : DB → DB }.

Definition run_round (ro : Round) (s : SchedState) : SchedState :=
  (serve_event (ro_event ro) (ro_env ro) (mkSchedState (ro_others ro (ss_db s)) (ss_uploads s) (ss_broker s))).2.

Definition run_process (start : nat → CycleEnv) (rounds : list Round) (s : SchedState) : SchedState :=
  foldl (λ s ro, run_round ro s) (runStartup start s) rounds.

(** ** The process is a client of the system *)

Lemma dispatch_one_steps c publish o now m s : rtc transition (ds_db s) (ds_db (dispatch_one c publish o now m s)).
Proof.
  assert (∀ err s, rtc transition (ds_db s) (ds_db (dispatch_failure c o now m err s))) as Hfail.
  { clear s. intros err s. unfold dispatch_failure. set (next := now + _).
    pose proof (tr_command (ds_db s) (CmdPublishFailed (m_ID m) (m_LeaseToken m) next err (DispMaxAttempts c)) o) as Ht.
    simpl in Ht. destruct (transact _ o (ds_db s)) as [[]]; simpl in *; by apply rtc_once. }
  unfold dispatch_one. destruct (publish m).
  - pose proof (tr_command (ds_db s) (CmdPublished (m_ID m) (m_LeaseToken m) now) o) as Ht. simpl in Ht.
    cbn [deliver ds_db]. destruct (transact _ o (ds_db s)) as [[]]; simpl in *; by apply rtc_once.
  - apply Hfail.
  - apply (Hfail err (deliver m s)).
Qed.

Lemma Dispatch_steps c publish o now limit d broker : rtc transition d (ds_db (Dispatch c publish o now limit d broker).2).
Proof.
  unfold Dispatch. case_match; [done|].
  pose proof (tr_command d (CmdClaim now (LeaseDuration c) limit) o) as Ht. simpl in Ht.
  destruct (transact _ o d) as [[ms|] d1]; simpl in *; [|by apply rtc_once]. eapply rtc_l; [done|].
  set (s := mkDispatchState d1 _ _). change d1 with (ds_db s). generalize s. clear s Ht.
  induction ms as [|m ms IH]; intros s; simpl; [done|]. etrans; [apply dispatch_one_steps|apply IH].
Qed.

Lemma dispatch_one_broker c publish o now m s : ds_broker s `prefix_of` ds_broker (dispatch_one c publish o now m s).
Proof.
  assert (∀ err s, ds_broker (dispatch_failure c o now m err s) = ds_broker s) as Hfail.
  { clear s. intros err s. unfold dispatch_failure. by destruct (transact _ o (ds_db s)) as [[]]. }
  unfold dispatch_one. destruct (publish m).
  - cbn [deliver ds_db]. destruct (transact _ o (ds_db s)) as [[]]; simpl; by apply prefix_app_r.
  - by rw Hfail.
  - rw Hfail. by apply prefix_app_r.
Qed.

Lemma Dispatch_broker c publish o now limit d broker : broker `prefix_of` ds_broker (Dispatch c publish o now limit d broker).2.
Proof.
  unfold Dispatch. case_match; [done|]. destruct (transact _ o d) as [[ms|] d1]; simpl; [|done].
  set (s := mkDispatchState d1 _ _). change broker with (ds_broker s). generalize s. clear s.
  induction ms as [|m ms IH]; intros s; simpl; [done|]. etrans; [apply dispatch_one_broker|apply IH].
Qed.

Lemma dispatchOutbox_steps e s :
  rtc transition (ss_db s) (ss_db (dispatchOutbox e s).2) ∧ ss_uploads (dispatchOutbox e s).2 = ss_uploads s
  ∧ ss_broker s `prefix_of` ss_broker (dispatchOutbox e s).2.
Proof.
  unfold dispatchOutbox.
  pose proof (Dispatch_steps (rt_outbox r) (ce_publish e) (ce_outbox e) (ce_now e) (rt_outboxBatch r) (ss_db s) (ss_broker s)) as Hs.
  pose proof (Dispatch_broker (rt_outbox r) (ce_publish e) (ce_outbox e) (ce_now e) (rt_outboxBatch r) (ss_db s) (ss_broker s)) as Hb.
  destruct (Dispatch _ _ _ _ _ _ _) as [[rep|] ds]; simpl in *; [case_bool_decide|]; done.
Qed.

Lemma dispatchEligible_steps e s : reachable (ss_db s) →
  rtc transition (ss_db s) (ss_db (dispatchEligible e s).2) ∧ ss_uploads (dispatchEligible e s).2 = ss_uploads s
  ∧ ss_broker (dispatchEligible e s).2 = ss_broker s.
Proof.
  intros Hd. unfold dispatchEligible. destruct (SchedulerDispatch _ _ _ _ _ _ _) as [[[rep completed]|err] d'] eqn:E.
  - destruct (Dispatch_accounts _ _ _ _ _ _ _ _ _ _ Hd E) as [Hs _]. simpl. repeat case_match; done.
  - simpl. split; [|done]. unfold SchedulerDispatch in E. case_match; [by simplify_eq|].
    destruct (transact (Select _) _ _) as [[q|] d1] eqn:Hq; [by repeat case_match|]. simplify_eq.
    by apply transact_err in Hq as ->.
Qed.

Context `{!PgCollation}.

Lemma runMaintenance_steps e s : rely (ce_uploads e) →
  rtc transition (ss_db s) (ss_db (runMaintenance e s).2)
  ∧ rtc ustep (sw_db (ss_uploads s)) (sw_db (ss_uploads (runMaintenance e s).2))
  ∧ ss_broker (runMaintenance e s).2 = ss_broker s.
Proof.
  intros He. unfold runMaintenance.
  destruct (sound_CleanupExpired (rt_multipart r) (rt_cleanupLimit r) (ce_uploads e) (ss_uploads s) He) as [Hu _].
  destruct (CleanupExpired _ _ _ _) as [[rep|l] u]; simpl in *; [|done]. case_match; [done|].
  pose proof (tr_command (ss_db s) (CmdSweep (rt_lease r) (rt_sweepLimit r)) (ce_oracle e)) as Ht. simpl in Ht.
  destruct (transact _ _ (ss_db s)) as [out d]. simpl in *. split; [by apply rtc_once|done].
Qed.

Lemma ApplyEnvelope_transition envelope o d : rtc transition d (transact (ApplyEnvelope envelope) o d).2.
Proof.
  unfold ApplyEnvelope. case_bool_decide; [|case_bool_decide; [|done]].
  - destruct (ParseRegistration envelope) as [g|] eqn:E.
    + apply rtc_once. exact (tr_command d (CmdWorker (Registered g)) o).
    + unfold transact, mbind, tx_bind, lift_res. done.
  - destruct (ParseHeartbeat envelope) as [g|] eqn:E.
    + apply rtc_once. exact (tr_command d (CmdWorker (Beat g)) o).
    + unfold transact, mbind, tx_bind, lift_res. done.
Qed.

Lemma store_event_steps envelope e n d : rtc transition d (store_event envelope e n d).2.
Proof. unfold store_event. case_match; [apply ApplyEnvelope_transition|done|apply ApplyEnvelope_transition]. Qed.
(** What every step of the process may do to what it shares. *)
Definition advances (s s' : SchedState) : Prop :=
  rtc transition (ss_db s) (ss_db s') ∧ rtc ustep (sw_db (ss_uploads s)) (sw_db (ss_uploads s'))
  ∧ ss_broker s `prefix_of` ss_broker s'.

#[local] Instance advances_preorder : PreOrder advances.
Proof.
  split; [intros s; split_and!; done|]. intros s1 s2 s3 (Ha&Hb&Hc) (Ha'&Hb'&Hc'). split_and!; by etrans.
Qed.

Lemma advances_reachable s s' : reachable (ss_db s) → advances s s' → reachable (ss_db s').
Proof. intros Hr (Ht&_). by eapply reachable_rtc. Qed.

Lemma dispatchOutbox_advances e s : advances s (dispatchOutbox e s).2.
Proof. destruct (dispatchOutbox_steps e s) as (Ht&Hu&Hb). split_and!; [done|by rw Hu|done]. Qed.

Lemma dispatchEligible_advances e s : reachable (ss_db s) → advances s (dispatchEligible e s).2.
Proof. intros (Ht&Hu&Hb)%(dispatchEligible_steps e). split_and!; [done|by rw Hu|by rw Hb]. Qed.

Lemma runMaintenance_advances e s : rely (ce_uploads e) → advances s (runMaintenance e s).2.
Proof. intros (Ht&Hu&Hb)%(runMaintenance_steps e s). split_and!; [done..|by rw Hb]. Qed.

Lemma applyWorkerEnvelope_steps envelope e delays n d :
  rtc transition d (applyWorkerEnvelopeWithRetry envelope e delays n d).1.2.
Proof.
  revert n d. induction delays as [|x delays IH]; intros n d; simpl;
    pose proof (store_event_steps envelope e n d) as Hs; destruct (store_event envelope e n d) as [[]]; simpl in *; [done|by case_match|done|].
  case_bool_decide; [done|]. case_match; [done|]. by etrans.
Qed.

Lemma serve_event_advances ev e s :
  reachable (ss_db s) → rely (ce_uploads e) → advances s (serve_event ev e s).2.
Proof.
  intros Hr He. destruct ev; simpl.
  - unfold handleDelivery, processDelivery. destruct (_ ≫= _); simpl; [|reflexivity].
    pose proof (dispatchEligible_advances e s Hr) as Ha. destruct (dispatchEligible e s) as [[] s1]; simpl in *; [|done].
    pose proof (dispatchOutbox_advances e s1) as Hb. destruct (dispatchOutbox e s1) as [[] s2]; simpl in *; by etrans.
  - unfold handleWorkerDelivery, processWorkerDelivery. destruct (_ ≫= _) as [envelope|]; [|destruct s; simpl; reflexivity].
    pose proof (applyWorkerEnvelope_steps envelope e workerEventRetryDelays 0 (ss_db s)) as Hs.
    destruct (applyWorkerEnvelopeWithRetry _ _ _ _ _) as [[[] d] n]; simpl in *; split_and!; done.
  - by apply dispatchEligible_advances.
  - apply dispatchOutbox_advances.
  - by apply runMaintenance_advances.
Qed.

(** *** Messages marked published *)

Definition sent (s : SchedState) : Prop := outbox_inv (ss_db s) (ss_broker s).

Lemma dispatchOutbox_sent e s : 1 <= DispMaxAttempts (rt_outbox r) → sent s → sent (dispatchOutbox e s).2.
Proof.
  intros Hc Hs. unfold dispatchOutbox.
  pose proof (Dispatch_outbox (rt_outbox r) (ce_publish e) (ce_outbox e) (ce_now e) (rt_outboxBatch r) _ _ Hc Hs) as Hd.
  destruct (Dispatch _ _ _ _ _ _ _) as [[rep|] ds]; simpl in *; [case_bool_decide|]; done.
Qed.

Lemma dispatchEligible_sent e s : sent s → sent (dispatchEligible e s).2.
Proof.
  intros Hs. unfold dispatchEligible, SchedulerDispatch. destruct (_ <=? 0); [done|].
  pose proof (keeps_outbox_transact _ (ce_oracle e) _ _ (Select_outbox (rt_scheduler r)) Hs) as Hd.
  destruct (transact (Select _) _ _) as [[queued|err] d1]; [|done]. simpl in Hd.
  pose proof (dispatch_loop_outbox (rt_lease r) (rt_dispatchLease r) (ce_acquire e) (ce_cancelled e) 0 queued
    (mkSchedulerReport (Z.of_nat (length queued)) 0 0 []) d1 (ss_broker s) Hd) as Hl.
  destruct (dispatch_loop _ _ _ _ _ _ _ _) as [[rep d2] completed]. simpl in *. repeat case_match; done.
Qed.

Lemma runMaintenance_sent e s : sent s → sent (runMaintenance e s).2.
Proof.
  intros Hs. unfold runMaintenance. destruct (CleanupExpired _ _ _ _) as [[rep|l] u]; simpl; [|done]. case_match; [done|].
  pose proof (keeps_outbox_transact _ (ce_oracle e) _ _ (SweepExpired_outbox (rt_lease r) (rt_sweepLimit r)) Hs) as Hd.
  by destruct (transact _ _ (ss_db s)).
Qed.

Lemma ApplyEnvelope_outbox envelope : keeps_outbox (ApplyEnvelope envelope).
Proof. intros o w broker Hw. unfold ApplyEnvelope, ApplyRegistration, ApplyHeartbeat. wp_auto; same_outbox. Qed.

Lemma store_event_outbox envelope e n d broker : outbox_inv d broker → outbox_inv (store_event envelope e n d).2 broker.
Proof.
  intros Hd. unfold store_event. case_match; [|done|];
    exact (keeps_outbox_transact _ _ _ _ (ApplyEnvelope_outbox envelope) Hd).
Qed.

Lemma applyWorkerEnvelope_outbox envelope e delays n d broker :
  outbox_inv d broker → outbox_inv (applyWorkerEnvelopeWithRetry envelope e delays n d).1.2 broker.
Proof.
  revert n d. induction delays as [|x delays IH]; intros n d Hd; simpl;
    pose proof (store_event_outbox envelope e n d broker Hd) as Hs; destruct (store_event envelope e n d) as [[]]; simpl in *;
    [done|by case_match|done|].
  case_bool_decide; [done|]. case_match; [done|]. by apply IH.
Qed.

Lemma serve_event_sent ev e s : 1 <= DispMaxAttempts (rt_outbox r) → sent s → sent (serve_event ev e s).2.
Proof.
  intros Hc Hs. destruct ev; simpl; [| |by apply dispatchEligible_sent|by apply dispatchOutbox_sent|by apply runMaintenance_sent].
  - unfold handleDelivery, processDelivery. destruct (_ ≫= _); simpl; [|done].
    pose proof (dispatchEligible_sent e s Hs) as Ha. destruct (dispatchEligible e s) as [[] s1]; simpl in *; [|done].
    pose proof (dispatchOutbox_sent e s1 Hc Ha) as Hb. by destruct (dispatchOutbox e s1) as [[] s2].
  - unfold handleWorkerDelivery, processWorkerDelivery. destruct (_ ≫= _) as [envelope|]; [|by destruct s].
    pose proof (applyWorkerEnvelope_outbox envelope e workerEventRetryDelays 0 _ _ Hs) as Hd.
    by destruct (applyWorkerEnvelopeWithRetry _ _ _ _ _) as [[[] d] n].
Qed.

(** Other processes take transitions of the system, and steps of the upload side. They
    publish nothing. *)
Definition round_ok (ro : Round) : Prop :=
  (∀ d, rtc transition d (ro_others ro d)) ∧ rely (ce_uploads (ro_env ro))
  ∧ ∀ d broker, outbox_inv d broker → outbox_inv (ro_others ro d) broker.

Lemma runStartup_advances start s :
  reachable (ss_db s) → (∀ n, rely (ce_uploads (start n))) → advances s (runStartup start s).
Proof.
  intros Hr He. unfold runStartup.
  pose proof (dispatchOutbox_advances (start 0%nat) s) as Ha. set (s1 := (dispatchOutbox _ s).2) in *.
  assert (reachable (ss_db s1)) as Hr1 by by eapply advances_reachable.
  etrans; [exact Ha|]. etrans; [by apply (dispatchEligible_advances (start 1%nat))|].
  etrans; [apply (dispatchOutbox_advances (start 2%nat))|by apply runMaintenance_advances].
Qed.

Lemma run_round_advances ro s : reachable (ss_db s) → round_ok ro → advances s (run_round ro s).
Proof.
  intros Hr (Ho&He&_). unfold run_round. set (s1 := mkSchedState _ _ _).
  assert (advances s s1) as Ha by (split_and!; simpl; done).
  etrans; [exact Ha|]. apply serve_event_advances; [by eapply advances_reachable|done].
Qed.

Lemma run_process_advances start rounds s :
  reachable (ss_db s) → (∀ n, rely (ce_uploads (start n))) → Forall round_ok rounds → advances s (run_process start rounds s).
Proof.
  intros Hr He Hro. unfold run_process. etrans; [by apply runStartup_advances|].
  assert (reachable (ss_db (runStartup start s))) as Hr' by (eapply advances_reachable; [done|by apply runStartup_advances]).
  revert Hr'. generalize (runStartup start s). induction Hro as [|ro rounds Hok _ IH]; intros s1 Hr1; simpl; [done|].
  pose proof (run_round_advances ro s1 Hr1 Hok) as Ha. etrans; [exact Ha|]. apply IH. by eapply advances_reachable.
Qed.

Lemma run_process_sent start rounds s :
  1 <= DispMaxAttempts (rt_outbox r) → Forall round_ok rounds → sent s → sent (run_process start rounds s).
Proof.
  intros Hc Hro Hs. unfold run_process.
  assert (sent (runStartup start s)) as Hs'.
  { unfold runStartup. apply runMaintenance_sent, dispatchOutbox_sent, dispatchEligible_sent, dispatchOutbox_sent; done. }
  revert Hs'. generalize (runStartup start s). induction Hro as [|ro rounds (_&_&Ho) _ IH]; intros s1 Hs1; simpl; [done|].
  apply IH, serve_event_sent; [done|]. by apply (Ho _ (ss_broker s1)).
Qed.

(** ** Theorems *)

(** C10. Whatever the scheduler process is given to do, in whatever order: deliveries of any
    bytes on either queue, ticks, failing clean-ups, publishes that are refused, lost or
    unconfirmed, transactions that fail, cancellation, other processes committing between
    its events (transitions of the system and upload steps; they publish nothing, as only
    the scheduler runs a dispatcher); from its start the job database stays one the system can reach, a job is
    never lost and keeps its owner, the upload tables stay consistent, finished versions
    keep their content, nothing sent to the broker is taken back, and every message the
    outbox has marked published is among what was sent. *)
Theorem scheduler_run_safe start rounds s :
  reachable (ss_db s) → upload_inv (sw_db (ss_uploads s)) → sent s → 1 <= DispMaxAttempts (rt_outbox r) →
  (∀ n, rely (ce_uploads (start n))) → Forall round_ok rounds →
  let s' := run_process start rounds s in
  reachable (ss_db s') ∧ upload_inv (sw_db (ss_uploads s'))
  ∧ (∀ j r, t_jobs (ss_db s) !! j = Some r →
       ∃ r', t_jobs (ss_db s') !! j = Some r' ∧ j_owner_user_id r' = j_owner_user_id r)
  ∧ (∀ k v, u_versions (sw_db (ss_uploads s)) !! k = Some v → dv_state v ≠ VersionUploading →
       u_versions (sw_db (ss_uploads s')) !! k = Some v)
  ∧ ss_broker s `prefix_of` ss_broker s' ∧ published_delivered (ss_db s') (ss_broker s').
Proof.
  intros Hr Hu Hsent Hc He Hro s'. destruct (run_process_advances start rounds s Hr He Hro) as (Ht&Hs&Hb).
  split_and!; [..|done|by apply (run_process_sent start rounds s Hc Hro Hsent)].
  - by eapply reachable_rtc.
  - by eapply usteps_inv.
  - intros j row Hj. destruct (job_survives _ _ j row (reachable_ok _ Hr) Ht Hj) as (row'&?&_&?). by exists row'.
  - intros k v Hk Hv. by eapply versions_finished.
Qed.

(** A lease whose worker has gone is only taken back by the maintenance cycle, and the
    cycle stops before the sweep whenever the clean-up of multipart uploads fails for one
    session: the job tables then keep every expired lease. Only a clean-up without a
    failure is followed by the sweep. *)
Lemma cleanup_failure_blocks_sweep e s :
  let cleanup := (CleanupExpired (rt_multipart r) (rt_cleanupLimit r) (ce_uploads e) (ss_uploads s)).1 in
  let (out, s') := runMaintenance e s in
  if match cleanup with SOk report => bool_decide (cr_failures report = []) | SErr _ => false end
  then ss_db s' = (transact (SweepExpired (rt_lease r) (rt_sweepLimit r)) (ce_oracle e) (ss_db s)).2
  else (∃ err, out = Err err) ∧ ss_db s' = ss_db s.
Proof.
  unfold runMaintenance. destruct (CleanupExpired _ _ _ _) as [[report|l] u]; simpl; [|by eauto].
  case_bool_decide; simpl; [|by eauto]. by destruct (transact _ _ _).
Qed.

(** ** Worker events are settled once stored *)

(** An event that reaches the database is stored, or it is invalid. *)
Definition only_invalid {A} (x : res A) : Prop := ∀ err, x = Err err → err = ErrInvalidWorkerEvent.

Lemma only_invalid_bind {A B} (x : res A) (f : A → res B) :
  only_invalid x → (∀ a, only_invalid (f a)) → only_invalid (x ≫= f).
Proof. intros Hx Hf err. destruct x as [a|e]; [apply Hf|]. intros [= ->]. by apply Hx. Qed.

Lemma only_invalid_guard b : only_invalid (guard_err b ErrInvalidWorkerEvent).
Proof. intros err. destruct b; [done|]. by intros [= <-]. Qed.

Ltac only_invalid :=
  repeat first
    [ apply only_invalid_guard
    | apply only_invalid_bind; [|intros ?]
    | progress case_match
    | by intros ? [= <-]
    | done ].

Lemma ParseRegistration_invalid envelope : only_invalid (ParseRegistration envelope).
Proof. unfold ParseRegistration, decodeStrict, validateIdentity. only_invalid. Qed.

Lemma ParseHeartbeat_invalid envelope : only_invalid (ParseHeartbeat envelope).
Proof. unfold ParseHeartbeat, decodeStrict, validateIdentity. only_invalid. Qed.

Lemma validateEventTimestamp_invalid now t : only_invalid (validateEventTimestamp now t).
Proof. unfold validateEventTimestamp. only_invalid. Qed.

(** A check in front of a transaction body decides its errors. *)
Lemma transact_lift_invalid {A B} (x : res A) (f : A → Tx DB B) o d :
  only_invalid x → (∀ a, only_invalid (transact (f a) o d).1) → only_invalid (transact (lift_res x ≫= f) o d).1.
Proof.
  unfold transact, mbind, tx_bind, lift_res. intros Hx Hf err. destruct x as [a|y]; simpl; [apply Hf|].
  intros [= <-]. by apply Hx.
Qed.

Lemma stamped_invalid (t : time) (f : time → DB → DB) o d :
  only_invalid (transact (now ← time_now; _ ← lift_res (validateEventTimestamp now t); modify (f now)) o d).1.
Proof.
  unfold transact, mbind, tx_bind, lift_res, time_now. intros err. simpl.
  match goal with |- context [validateEventTimestamp ?now t] => pose proof (validateEventTimestamp_invalid now t) as Ht end.
  destruct (validateEventTimestamp _ _) as [?|y]; [done|]. intros [= <-]. by apply Ht.
Qed.

Lemma ApplyEnvelope_invalid envelope o d : only_invalid (transact (ApplyEnvelope envelope) o d).1.
Proof.
  unfold ApplyEnvelope, ApplyRegistration, ApplyHeartbeat. case_bool_decide; [|case_bool_decide; [|by intros ? [= <-]]].
  - apply transact_lift_invalid; [apply ParseRegistration_invalid|]. intros g. apply (stamped_invalid _ (λ now, _)).
  - apply transact_lift_invalid; [apply ParseHeartbeat_invalid|]. intros g. apply (stamped_invalid _ (λ now, _)).
Qed.

Lemma store_event_quiet envelope e n d : ce_fault e n = NoFault →
  store_event envelope e n d = transact (ApplyEnvelope envelope) (ce_attempt e n) d.
Proof. unfold store_event. by intros ->. Qed.

Lemma store_event_faulty envelope e n d : ce_fault e n ≠ NoFault →
  ∃ err d', store_event envelope e n d = (Err err, d') ∧ err ≠ ErrInvalidWorkerEvent.
Proof. unfold store_event. intros Hf. case_match; [done|..]; by do 2 eexists. Qed.

(** What one attempt leaves open: a fault of the database, and a wait that is not
    cut short, lead to the next one. *)
Definition tried_again (e : CycleEnv) (n : nat) : Prop := ce_fault e n ≠ NoFault ∧ ce_cancelled e n = false.

(** The attempt at which the retries end: it meets no fault, and its answer is the
    answer; or it meets one, and it was the last or the wait after it is cancelled. *)
Lemma retry_settles envelope e delays n d :
  Forall (λ x, 0 < x) delays →
  ∃ k d0 out, (k <= length delays)%nat ∧ (∀ i, (i < k)%nat → tried_again e (n + i)) ∧ rtc transition d d0
    ∧ applyWorkerEnvelopeWithRetry envelope e delays n d = (out, (store_event envelope e (n + k) d0).2, S (n + k))
    ∧ match ce_fault e (n + k)%nat with
      | NoFault => out = (store_event envelope e (n + k) d0).1
      | _ => (k = length delays ∨ ce_cancelled e (n + k)%nat = true) ∧ ∃ err, out = Err err
      end.
Proof.
  revert n d. induction delays as [|x delays IH]; intros n d Hpos.
  all: assert (ce_fault e n = NoFault ∨ ce_fault e n ≠ NoFault) as [Hf|Hf] by (destruct (ce_fault e n); auto); [
    exists 0%nat, d, (store_event envelope e n d).1; rw Nat.add_0_r Hf; split_and!; [lia..|done| |done]; simpl;
    rw (store_event_quiet envelope e n d Hf); pose proof (ApplyEnvelope_invalid envelope (ce_attempt e n) d) as Hv;
    destruct (transact _ _ _) as [[[]|err] d']; [done|]; by rw (Hv err eq_refl)|].
  all: destruct (store_event_faulty envelope e n d Hf) as (err&d1&E&Hne).
  - exists 0%nat, d, (Err err). rw Nat.add_0_r E. simpl. rw E bool_decide_eq_false_2 //.
    split_and!; [lia..|done|done|]. destruct (ce_fault e n); [done|by eauto..].
  - apply list.Forall_cons in Hpos as [Hx Hpos]. destruct (ce_cancelled e n) eqn:Hc.
    + exists 0%nat, d, (Err (ErrText "context canceled")). rw Nat.add_0_r E. simpl.
      rw E bool_decide_eq_false_2 // Hc andb_true_r. assert ((0 <? x) = true) as -> by lia.
      split_and!; [lia..|done|done|]. destruct (ce_fault e n); [done|by eauto..].
    + destruct (IH (S n) d1 Hpos) as (k&d0&out&Hk&Hi&Hs&Happ&Hm).
      pose proof (store_event_steps envelope e n d) as Hs1. rw E in Hs1. simpl in Hs1.
      exists (S k), d0, out. rw -Nat.add_succ_comm. split_and!; [simpl; lia| |by etrans| |].
      * intros [|i] Hlt; [by rw Nat.add_0_r|]. rw -Nat.add_succ_comm. apply Hi. lia.
      * simpl. by rw E bool_decide_eq_false_2 // Hc andb_false_r.
      * simpl in Hm |- *. destruct (ce_fault e (S (n + k))); [done|..]; destruct Hm as [[->|?] ?]; auto.
Qed.

(** C26. A worker event is acknowledged exactly when it was stored by a transaction that
    committed and answered. An envelope of a worker type is tried k + 1 times, at most
    four; every attempt before the last met a fault of the database, and the wait
    after it was not cancelled. When the last attempt meets no fault its answer settles
    the delivery: acknowledged when the event was applied, dead-lettered, with no
    effect, when it is invalid. When it meets a fault, it is the fourth or the context
    is cancelled in the wait after it, and the delivery is dead-lettered. The database
    is as the last attempt left it. *)
Theorem worker_delivery_settled body envelope e s :
  UnmarshalEnvelope body = Ok envelope →
  MessageType envelope = MessageWorkerRegistered ∨ MessageType envelope = MessageWorkerHeartbeat →
  ∃ k d0, (k <= 3)%nat ∧ (∀ i, (i < k)%nat → tried_again e i) ∧ rtc transition (ss_db s) d0
    ∧ (processWorkerDelivery body e (ss_db s)).2 = S k
    ∧ ss_db (handleWorkerDelivery body e s).2 = (store_event envelope e k d0).2
    ∧ match ce_fault e k with
      | NoFault =>
          let (out, d') := transact (ApplyEnvelope envelope) (ce_attempt e k) d0 in
          ss_db (handleWorkerDelivery body e s).2 = d'
          ∧ match out with
            | Ok _ => (handleWorkerDelivery body e s).1 = Acked
            | Err err => err = ErrInvalidWorkerEvent ∧ d' = d0 ∧ (handleWorkerDelivery body e s).1 = DeadLetteredDelivery
            end
      | _ => (k = 3%nat ∨ ce_cancelled e k = true) ∧ (handleWorkerDelivery body e s).1 = DeadLetteredDelivery
      end.
Proof.
  intros Hb Ht. unfold handleWorkerDelivery.
  assert (processWorkerDelivery body e (ss_db s) = applyWorkerEnvelopeWithRetry envelope e workerEventRetryDelays 0 (ss_db s)) as ->.
  { unfold processWorkerDelivery. rw Hb. unfold mbind, res_mbind. cbn [res_bind]. by case_bool_decide. }
  destruct (retry_settles envelope e workerEventRetryDelays 0 (ss_db s)) as (k&d0&out&Hk&Hi&Hs&->&Hm); [by repeat constructor|].
  exists k, d0. do 4 (split; [done|]). simpl in Hm |- *. split; [by destruct out|].
  destruct (ce_fault e k) eqn:Hf; [|by destruct Hm as [? [err ->]]..].
  rw (store_event_quiet envelope e k d0 Hf) in Hm |- *. pose proof (ApplyEnvelope_invalid envelope (ce_attempt e k) d0) as Hv.
  destruct (transact _ _ d0) as [[[]|err] d'] eqn:E; simpl in Hm; subst out; [done|].
  split; [done|]. split_and!; [by apply Hv|by eapply transact_err|done].
Qed.
End process.

(** ** Runs *)

#[local] Existing Instance ascii_collation.
#[local] Existing Instance canonical_parser.
#[local] Instance process_selector : WorkerSelector := registry_selector DefaultHeartbeatTTL.

Definition example_runtime : schedulerRuntime :=
  mkSchedulerRuntime ex_scheduler System.ex_lease_config DefaultLeaseDuration Outbox.ex_config 10
    UploadRequests.ex_config 10 10 DefaultHeartbeatTTL.

(** Clean-up meets an object store that answers [abort]; publishing is confirmed. *)
Definition example_cycle (base : N) (abort : res unit) (fault : nat → Fault) : CycleEnv :=
  mkCycleEnv 1000 (System.ex_env base 1000) (System.ex_env (base + 40) 1000) (λ n, System.ex_env (base + 50 * N.of_nat (S n)) 1000) (λ _, false)
    (λ _, Confirmed) (UploadRequests.ex_env abort) fault (λ n, example_oracle).

(** A job was queued, an upload is open. *)
Definition example_state : SchedState := mkSchedState (ex_run 1) (UploadRequests.ex_world ex_registered) [].

Definition example_rounds : list Round := [
  mkRound (Delivery [0%N]) (example_cycle 9000 (Ok tt) (λ _, NoFault)) id;
  mkRound DispatchTick (example_cycle 10000 (Ok tt) (λ _, NoFault)) id;
  mkRound MaintenanceTick (example_cycle 11000 (Err (ErrText "unreachable")) (λ _, Refused)) id ].

Lemma example_rounds_ok : Forall round_ok example_rounds.
Proof.
  repeat (constructor; [split; [intros d; apply rtc_refl|split; [apply UploadRequests.ex_env_rely|intros d broker Hd; exact Hd]]|]).
  constructor.
Qed.

Lemma example_sent : sent example_state.
Proof.
  assert (map_Forall (λ k row, o_id row = k ∧ o_state row ≠ OutboxPublished) (t_outbox (ex_run 1))) as Hm.
  { apply (bool_decide_unpack _). vm_compute. exact I. }
  split; [intros k row Hk; by apply (Hm k row)|]. intros k row Hk Hp. by destruct (Hm k row Hk).
Qed.

Definition example_start (n : nat) : CycleEnv := example_cycle (1000 * N.of_nat (S n)) (Ok tt) (λ _, NoFault).

(** The start dispatches the creation signal, leases the job and dispatches its command. *)
Lemma example_run_broker :
  length (ss_broker (run_process example_runtime example_start example_rounds example_state)) = 2%nat.
Proof. vm_compute. reflexivity. Qed.

Lemma scheduler_run_safe_witness :
  let s' := run_process example_runtime example_start example_rounds example_state in
  reachable (ss_db s') ∧ upload_inv (sw_db (ss_uploads s')) ∧ length (ss_broker s') = 2%nat.
Proof.
  destruct (scheduler_run_safe example_runtime example_start example_rounds example_state) as (Hr&Hu&_).
  - apply ex_run_reachable.
  - by apply ex_inv.
  - exact example_sent.
  - simpl. lia.
  - intros n. apply UploadRequests.ex_env_rely.
  - exact example_rounds_ok.
  - split; [exact Hr|split; [exact Hu|exact example_run_broker]].
Defined.

Definition example_body : list N := match MarshalEnvelope example_registration with Ok b => b | Err _ => [] end.

Lemma example_body_reads : UnmarshalEnvelope example_body = Ok example_registration.
Proof. vm_compute. reflexivity. Qed.

(** The commit of the first attempt fails without an answer, the second attempt stores the event. *)
Definition example_faulty : CycleEnv := example_cycle 100 (Ok tt) (λ n, if bool_decide (n = 0%nat) then CommitUnknown else NoFault).

Lemma example_faulty_settled :
  (handleWorkerDelivery example_body example_faulty example_state).1 = Acked
  ∧ (processWorkerDelivery example_body example_faulty (ss_db example_state)).2 = 2%nat.
Proof. vm_compute. split; reflexivity. Qed.

Lemma worker_delivery_settled_witness :
  (handleWorkerDelivery example_body example_faulty example_state).1 = Acked
  ∧ ∃ k, (k <= 3)%nat ∧ ce_fault example_faulty k = NoFault
    ∧ (processWorkerDelivery example_body example_faulty (ss_db example_state)).2 = S k.
Proof.
  split; [apply example_faulty_settled|].
  destruct (worker_delivery_settled example_body example_registration example_faulty example_state) as (k&d0&Hk&Hi&_&Hn&_&Hm).
  - exact example_body_reads.
  - left. reflexivity.
  - exists k. split; [exact Hk|split; [|exact Hn]]. destruct (ce_fault example_faulty k) eqn:E; [done|..].
    all: destruct k as [|k]; [destruct Hm as [[H|H] _]; discriminate H|discriminate E].
Defined.
