(* ===== verification/Startup.v ===== *)
(** Start-up: the components of the API process (src/go/cmd/api/main.go) and the scheduler
    process (src/go/cmd/scheduler/scheduler_runtime.go) built from the configuration
    (src/go/internal/platform/config), and what an accepted configuration gives them. *)

From S2P Require Import Prelude GoStrings Json Queue Retry GoTime Outbox WorkerRegistry Lease Scheduler.
From S2P Require Import Upload UploadModel Svc DatasetStore SessionStore DatasetService MultipartService Tokens IdentityService.
From S2P Require Import RateLimit Http MinIO Topology Publisher Config SchedulerProcess.
From Stdlib Require Import ZifyBool.

Open Scope Z_scope.

(** ** Components *)

Definition dataset_NewService (maxUploadBytes : Z) : res DatasetServiceConfig :=
  if maxUploadBytes <=? 0 then Err (ErrText "dataset service is not configured") else Ok (mkDatasetServiceConfig maxUploadBytes).

Definition multipart_NewService (config : MultipartConfig) : res MultipartConfig :=
  _ ← MultipartService.Config_validate config; Ok config.

Definition scheduler_NewDispatcher (leaseDuration : duration) : res duration :=
  if leaseDuration <=? 0 then Err (ErrText "scheduler dispatcher requires selector, acquirer, and lease duration")
  else Ok leaseDuration.

Definition minio_config (c : Config) (bucket : string) : MinIOConfig :=
  mkMinIOConfig (cf_MinIOEndpoint c) (cf_MinIOPublicEndpoint c) (cf_MinIOAccessKey c) (cf_MinIOSecretKey c)
    (cf_MinIOSecure c) (cf_MinIOPublicSecure c) bucket.

Definition multipart_config (c : Config) : MultipartConfig :=
  mkMultipartConfig (cf_MultipartPartSize c) (cf_MultipartMaxParts c) (cf_MultipartMaxBytes c)
    (cf_MultipartSessionTTL c) (cf_MultipartURLTTL c) (cf_MultipartCompletionGrace c).

Definition lease_DefaultConfig : LeaseConfig :=
  mkLeaseConfig DefaultLeaseDuration DefaultRenewalWindow DefaultSweepBatchLimit DefaultPolicy.

(** ** The API process *)

Record ApiComponents := mkApiComponents {
  api_Identity : IdentityService; api_DatasetStore : MinIOStore; api_ArtifactStore : MinIOStore;
  api_Dataset : DatasetServiceConfig; api_Multipart : MultipartConfig; api_AuthRateLimiter : AuthRateLimiter
}.

Section startup.
Context (newCore : NewCore) (cfg : Config).

(** [run], up to the router. *)
Definition api_components : res ApiComponents :=
  identityService ← NewIdentityService (cf_JWTSigningKey cfg) (cf_AccessTokenTTL cfg) (cf_RefreshTokenTTL cfg);
  datasetObjectStore ← NewMinIO newCore (minio_config cfg (cf_DatasetBucket cfg));
  artifactObjectStore ← NewMinIO newCore (minio_config cfg (cf_ArtifactBucket cfg));
  datasetService ← dataset_NewService (cf_MaxUploadBytes cfg);
  multipartService ← multipart_NewService (multipart_config cfg);
  authRateLimiter ← NewAuthRateLimiter (mkAuthRateLimitConfig (cf_AuthRateLimitPerMinute cfg) (cf_AuthRateLimitBurst cfg)
    (cf_AuthRateLimitMaxClients cfg) (cf_AuthRateLimitEntryTTL cfg));
  mret (mkApiComponents identityService datasetObjectStore artifactObjectStore datasetService multipartService authRateLimiter).

(** ** The scheduler process *)

(** Everything before the broker is contacted. *)
Definition scheduler_parts : res (duration * LeaseConfig * duration) :=
  let leaseConfig := mkLeaseConfig (cf_LeaseDuration cfg) (cf_LeaseRenewalWindow cfg) (cf_LeaseSweepLimit cfg)
    (lc_RetryPolicy lease_DefaultConfig) in
  ttl ← registry_ttl (cf_WorkerHeartbeatTTL cfg);
  leaseRepository ← NewLeaseRepository leaseConfig;
  dispatcher ← scheduler_NewDispatcher (cf_LeaseDuration cfg);
  mret (ttl, leaseRepository, dispatcher).

(** Everything after the topology was declared. *)
Definition scheduler_services : res (DispatcherConfig * MinIOStore * MultipartConfig) :=
  outboxDispatcher ← NewDispatcher (mkDispatcherConfig 0 0 0);
  objectStore ← NewMinIO newCore (minio_config cfg (cf_DatasetBucket cfg));
  multipartService ← multipart_NewService (multipart_config cfg);
  mret (outboxDispatcher, objectStore, multipartService).

(** The broker answers [dial] when the publisher connects and [again] when the topology is
    declared, where [fails] says which declarations it refuses. *)
Definition newSchedulerRuntime (dial : DialAnswer) (cancelled : bool) (again : Attempt) (fails : nat → bool) (b : BrokerConfig)
  : res (schedulerRuntime * Publisher) * BrokerConfig :=
  match scheduler_parts with
  | Err e => (Err e, b)
  | Ok (ttl, leaseRepository, dispatcher) =>
      match NewPublisher (mkPublisherConfig (cf_RabbitMQURL cfg) (cf_ShutdownTimeout cfg) (cf_ShutdownTimeout cfg) 0) dial with
      | Err e => (Err e, b)
      | Ok publisher =>
          match DeclareTopology cancelled DefaultTopology again fails publisher b with
          | (Err e, _, b) => (Err (ErrText "declare scheduler topology"), b)
          | (Ok _, publisher, b) =>
              (services ← scheduler_services;
               let '(outboxDispatcher, _, multipartService) := services in
               Ok (mkSchedulerRuntime (NewScheduler (mkSchedulerConfig (cf_SchedulerBatchSize cfg) 0)) leaseRepository dispatcher
                     outboxDispatcher (cf_OutboxBatchSize cfg) multipartService (cf_MultipartCleanupLimit cfg)
                     (cf_LeaseSweepLimit cfg) ttl, publisher), b)
          end
      end
  end.
End startup.

(** ** An accepted configuration *)

Lemma blank_nonempty s : blank s = false → s ≠ "".
Proof. unfold blank. intros Hb ->. by apply bool_decide_eq_false in Hb. Qed.

(** The errors of the MinIO client library, and those of the connection to the broker. *)
Definition minio_refused : list GoError := [ErrText "create MinIO client"; ErrText "create MinIO presign client"].
Definition broker_refused : list GoError :=
  [ErrText "dial RabbitMQ"; ErrText "open RabbitMQ channel"; ErrText "enable RabbitMQ publisher confirms";
   ErrText "declare scheduler topology"].

(** A complete configuration is refused by the client library only. *)
Lemma NewMinIO_accepts (newCore : NewCore) mc :
  mi_Endpoint mc ≠ "" → mi_AccessKey mc ≠ "" → mi_SecretKey mc ≠ "" → mi_Bucket mc ≠ "" →
  match NewMinIO newCore mc with
  | Ok s => ms_bucket s = mi_Bucket mc
  | Err err => err ∈ minio_refused
      ∧ ¬ (is_Some (newCore (mi_Endpoint mc) (mi_AccessKey mc) (mi_SecretKey mc) (mi_Secure mc) "")
           ∧ is_Some (newCore (mi_PublicEndpoint mc) (mi_AccessKey mc) (mi_SecretKey mc) (mi_PublicSecure mc) "us-east-1"))
  end.
Proof.
  intros He Ha Hs Hb. unfold NewMinIO. rw (bool_decide_eq_false_2 _ He) (bool_decide_eq_false_2 _ Ha) (bool_decide_eq_false_2 _ Hs) (bool_decide_eq_false_2 _ Hb) /=.
  destruct (newCore (mi_Endpoint mc) _ _ _ _); [|split; [set_solver|by intros [[? ?] _]]].
  destruct (_ && _); [|done]. destruct (newCore (mi_PublicEndpoint mc) _ _ _ _); [done|].
  split; [set_solver|by intros [_ [? ?]]].
Qed.

(** The bounds of an accepted configuration, one by one. *)
Ltac limits c :=
  match goal with H : limits_invalid c = false |- _ => unfold limits_invalid in H; rw !orb_false_iff in H; destruct_and! end.

Section accepted.
Context (newCore : NewCore) (c : Config) (Hv : Config_validate c = Ok tt).

(** What the MinIO client library is asked to connect to. *)
Definition endpoints_accepted : Prop :=
  is_Some (newCore (cf_MinIOEndpoint c) (cf_MinIOAccessKey c) (cf_MinIOSecretKey c) (cf_MinIOSecure c) "")
  ∧ is_Some (newCore (cf_MinIOPublicEndpoint c) (cf_MinIOAccessKey c) (cf_MinIOSecretKey c) (cf_MinIOPublicSecure c) "us-east-1").

Lemma multipart_accepts : multipart_NewService (multipart_config c) = Ok (multipart_config c).
Proof using Hv.
  destruct (validate_limits c Hv) as (_&Hl&_&_&_&_&_&_&_&Hb1&Hb2). limits c.
  unfold multipart_NewService, MultipartService.Config_validate, multipart_config, minimumPartSize, maximumPartSize, maximumURLTTL.
  cbn [PartSize MaxParts MaxBytes SessionTTL PartURLTTL CompletionGrace].
  repeat match goal with |- context [if ?b then Err _ else _] => replace b with false by (symmetry; rw ?orb_false_iff; split_and?; lia) end.
  reflexivity.
Qed.

(** A chain of checks that are all false. *)
Ltac passes := repeat match goal with |- context [if ?b then Err _ else _] =>
  replace b with false by (symmetry; rw ?orb_false_iff; split_and?; lia) end.

Lemma store_accepts bucket : bucket ≠ "" →
  match NewMinIO newCore (minio_config c bucket) with
  | Ok s => ms_bucket s = bucket
  | Err err => err ∈ minio_refused ∧ ¬ endpoints_accepted
  end.
Proof using Hv.
  destruct (validate_limits c Hv) as (_&_&_&He&Ha&Hs&_). intros Hb.
  apply (NewMinIO_accepts newCore (minio_config c bucket)); simpl; auto using blank_nonempty.
Qed.

Definition api_ready (api : ApiComponents) : Prop :=
  ms_bucket (api_DatasetStore api) = cf_DatasetBucket c ∧ ms_bucket (api_ArtifactStore api) = cf_ArtifactBucket c
  ∧ 0 < MaxUploadBytes (api_Dataset api) ∧ api_Multipart api = multipart_config c ∧ validateService (api_Identity api) = Ok tt.

Lemma api_accepts :
  match api_components newCore c with
  | Ok api => api_ready api
  | Err err => err ∈ minio_refused ∧ ¬ endpoints_accepted
  end.
Proof using Hv.
  destruct (validate_limits c Hv) as (Hk&Hl&_&_&_&_&Hd&Ha&_). limits c.
  pose proof (store_accepts (cf_DatasetBucket c) (blank_nonempty _ Hd)) as Hds.
  pose proof (store_accepts (cf_ArtifactBucket c) (blank_nonempty _ Ha)) as Has.
  unfold api_components, NewIdentityService, dataset_NewService, NewAuthRateLimiter.
  cbn [RequestsPerMinute Burst MaxClients EntryTTL]. passes. cbn [mbind res_mbind res_bind].
  destruct (NewMinIO newCore (minio_config c (cf_DatasetBucket c))) as [ds|]; [|done]. cbn [res_bind].
  destruct (NewMinIO newCore (minio_config c (cf_ArtifactBucket c))) as [arts|]; [|done]. cbn [res_bind].
  rw multipart_accepts. unfold api_ready. cbn. split_and!; [done|done|lia|done|].
  unfold validateService. cbn [is_RefreshTokenTTL]. by replace (cf_RefreshTokenTTL c <=? 0) with false by lia.
Qed.

Lemma parts_accept : ∃ parts, scheduler_parts c = Ok parts
  ∧ parts = (cf_WorkerHeartbeatTTL c, mkLeaseConfig (cf_LeaseDuration c) (cf_LeaseRenewalWindow c) (cf_LeaseSweepLimit c) DefaultPolicy, cf_LeaseDuration c).
Proof using Hv.
  destruct (validate_limits c Hv) as (_&Hl&_). limits c.
  unfold scheduler_parts, registry_ttl, NewLeaseRepository, validateConfig, normalizeDuration, scheduler_NewDispatcher, lease_DefaultConfig.
  unfold MaxHeartbeatTTL, MaxLeaseDuration, MaxSweepBatchLimit.
  cbn [lc_LeaseDuration lc_RenewalWindow lc_SweepLimit lc_RetryPolicy].
  rw !(bool_decide_eq_false_2 (cf_WorkerHeartbeatTTL c = 0)); [lia..|]. rw !(bool_decide_eq_false_2 (cf_LeaseDuration c = 0)); [lia..|].
  rw !(bool_decide_eq_false_2 (cf_LeaseRenewalWindow c = 0)); [lia..|]. rw !(bool_decide_eq_false_2 (cf_LeaseSweepLimit c = 0)); [lia..|].
  passes. eexists. split; [|reflexivity]. reflexivity.
Qed.

Lemma publisher_accepts dial :
  match NewPublisher (mkPublisherConfig (cf_RabbitMQURL c) (cf_ShutdownTimeout c) (cf_ShutdownTimeout c) 0) dial with
  | Ok p => pb_connected p = true ∧ pb_closed p = false
  | Err err => err ∈ broker_refused ∧ dial ≠ DialOk
  end.
Proof using Hv.
  destruct (validate_limits c Hv) as (_&Hl&Hmq%blank_nonempty&_). limits c.
  unfold NewPublisher, PublisherConfig_validate. cbn [pc_URL pc_ConfirmTimeout pc_DialTimeout pc_MaxMessageSize].
  rw !(bool_decide_eq_false_2 (cf_ShutdownTimeout c = 0)); [lia..|]. rw (bool_decide_eq_false_2 _ Hmq).
  replace (0 <? cf_ShutdownTimeout c) with true by lia. unfold connectLocked, Dial. cbn [pb_closed pb_config pc_DialTimeout].
  replace (cf_ShutdownTimeout c <=? 0) with false by lia.
  destruct dial; cbn; [done|split; [set_solver|done]..].
Qed.

Lemma services_accept :
  match scheduler_services newCore c with
  | Ok (outbox, _, multipart) => outbox = mkDispatcherConfig DefaultLease DefaultRetry 5 ∧ multipart = multipart_config c
  | Err err => err ∈ minio_refused ∧ ¬ endpoints_accepted
  end.
Proof using Hv.
  destruct (validate_limits c Hv) as (_&_&_&_&_&_&Hd&_).
  pose proof (store_accepts (cf_DatasetBucket c) (blank_nonempty _ Hd)) as Hds. unfold scheduler_services.
  cbn [mbind res_mbind res_bind NewDispatcher]. destruct (NewMinIO _ _) as [ds|]; [|done]. by rw multipart_accepts.
Qed.

(** The scheduler runtime has the configured limits, within the bounds its calls check. *)
Definition runtime_ready (rt : schedulerRuntime) (p : Publisher) : Prop :=
  pb_connected p = true
  ∧ 1 <= DispMaxAttempts (rt_outbox rt) ∧ 1 <= rt_outboxBatch rt <= 1000 ∧ 1 <= rt_cleanupLimit rt <= 1000 ∧ 1 <= rt_sweepLimit rt <= 1000
  ∧ sc_BatchSize (rt_scheduler rt) = cf_SchedulerBatchSize c ∧ rt_dispatchLease rt = lc_LeaseDuration (rt_lease rt)
  ∧ MultipartService.Config_validate (rt_multipart rt) = Ok tt.

(** A declared topology leaves the publisher connected. *)
Lemma DeclareTopology_connected cancelled t a fails p b u p' b' :
  DeclareTopology cancelled t a fails p b = (Ok u, p', b') → pb_connected p' = true.
Proof.
  unfold DeclareTopology, ensure_connected, connectLocked. destruct cancelled, (pb_closed p); [done..|].
  destruct (pb_connected p) eqn:Hc, (at_closed a); cbn; try (destruct (declareTopology _ _ _) as [[]]; intros [= _ <- _]; done);
    (destruct (pb_closed p); [done|]; destruct (Dial _ _); [|done]; destruct (at_dial a); try done;
     destruct (declareTopology _ _ _) as [[]]; by intros [= _ <- _]).
Qed.

Lemma runtime_accepts dial cancelled again fails b :
  match (newSchedulerRuntime newCore c dial cancelled again fails b).1 with
  | Ok (rt, p) => runtime_ready rt p
  | Err err => err ∈ minio_refused ∧ ¬ endpoints_accepted ∨ err ∈ broker_refused
  end.
Proof using Hv.
  destruct (parts_accept) as (parts&Ep&->). pose proof (publisher_accepts dial) as Hp. pose proof services_accept as Hs.
  destruct (validate_limits c Hv) as (_&Hlim&_). limits c.
  unfold newSchedulerRuntime. rw Ep. destruct (NewPublisher _ _) as [p|]; [|right; apply Hp].
  destruct (DeclareTopology _ _ _ _ _ _) as [[[u|] p'] b'] eqn:Ed; [|right; set_solver].
  apply DeclareTopology_connected in Ed. cbn [fst]. destruct (scheduler_services _ _) as [[[outbox store] multi]|err]; [|by left].
  destruct Hs as [-> ->]. pose proof multipart_accepts as Hm. apply res_bind_Ok in Hm as ([]&Hm&_).
  unfold runtime_ready. cbn. split_and!; try lia; try done.
  unfold NewScheduler. cbn [sc_BatchSize]. by replace (cf_SchedulerBatchSize c <? 1) with false by lia.
Qed.
End accepted.

(** A broker on which nothing was declared, or everything. *)
Definition fresh_broker : BrokerConfig := mkBroker [] [] [].

Lemma declare_accepts b : b = fresh_broker ∨ b = declared →
  declareTopology (λ _, false) DefaultTopology b = (Ok tt, declared).
Proof. intros [->| ->]; vm_compute; reflexivity. Qed.

(** With endpoints the library accepts, and a broker that accepts the connection and
    the declarations, both processes start. *)
Lemma start_accepted newCore c b :
  Config_validate c = Ok tt → endpoints_accepted newCore c → b = fresh_broker ∨ b = declared →
  (∃ api, api_components newCore c = Ok api)
  ∧ ∃ rt p, newSchedulerRuntime newCore c DialOk false (mkAttempt false DialOk ConfirmAck) (λ _, false) b = (Ok (rt, p), declared).
Proof.
  intros Hv Hep Hb. split.
  { pose proof (api_accepts newCore c Hv) as Ha. destruct (api_components newCore c) as [api|]; [by exists api|]. by destruct Ha. }
  destruct (parts_accept c Hv) as (parts&Ep&->).
  pose proof (publisher_accepts c Hv DialOk) as Hp. pose proof (services_accept newCore c Hv) as Hs.
  unfold newSchedulerRuntime. rw Ep. destruct (NewPublisher _ _) as [p|]; [|by destruct Hp]. destruct Hp as [Hc Hcl].
  unfold DeclareTopology. rw Hcl. unfold ensure_connected. rw Hc. cbn [negb orb at_closed]. rw (declare_accepts b Hb).
  destruct (scheduler_services newCore c) as [[[outbox store] multi]|]; [by eexists _, _|by destruct Hs].
Qed.

(** C33. A configuration that loads is one no component refuses.  Building the API's
    components from it can fail only with an error of the MinIO client library, and
    building the scheduler runtime only with such an error or one of the broker (the
    connection, or the declaration of the topology); whatever these answer.  When the
    construction succeeds, the components have the configured limits, inside the
    bounds their calls check, so that no cycle fails for its batch size.  It does
    succeed when the library accepts the configured endpoints (the configuration only
    checks that the endpoint is not blank) and the broker accepts the connection and
    the declarations, with nothing declared before or everything.  The tickers are positive,
    the signing key has at least 32 bytes, and outside development every secret is the
    one of the environment.  In whatever order the two maps of settings are visited,
    the same configuration is loaded. *)
Theorem loaded_config_starts (newCore : NewCore) getenv durations integers c :
  durations ≡ₚ http_durations → integers ≡ₚ http_integers → Load getenv durations integers = Ok c →
  match api_components newCore c with
  | Ok api => api_ready c api
  | Err err => err ∈ minio_refused ∧ ¬ endpoints_accepted newCore c
  end
  ∧ (∀ dial cancelled again fails b,
       match (newSchedulerRuntime newCore c dial cancelled again fails b).1 with
       | Ok (rt, p) => runtime_ready c rt p
       | Err err => err ∈ minio_refused ∧ ¬ endpoints_accepted newCore c ∨ err ∈ broker_refused
       end)
  ∧ (∀ b, endpoints_accepted newCore c → b = fresh_broker ∨ b = declared →
       (∃ api, api_components newCore c = Ok api)
       ∧ ∃ rt p, newSchedulerRuntime newCore c DialOk false (mkAttempt false DialOk ConfirmAck) (λ _, false) b = (Ok (rt, p), declared))
  ∧ 0 < cf_SchedulerDispatchInterval c ∧ 0 < cf_OutboxDispatchInterval c ∧ 0 < cf_MaintenanceInterval c
  ∧ 32 <= go_len (cf_JWTSigningKey c)
  ∧ (cf_Environment c ≠ "development" →
     cf_JWTSigningKey c = getenv "JWT_SIGNING_KEY" ∧ cf_MinIOAccessKey c = getenv "MINIO_ACCESS_KEY"
     ∧ cf_MinIOSecretKey c = getenv "MINIO_SECRET_KEY" ∧ cf_RabbitMQURL c = getenv "RABBITMQ_URL")
  ∧ ∀ durations' integers', durations' ≡ₚ http_durations → integers' ≡ₚ http_integers →
     Load getenv durations' integers' = Ok c.
Proof.
  intros Hd Hi Hl. pose proof (Load_valid _ _ _ _ Hl) as Hv. split; [by apply api_accepts|].
  split; [by intros; apply runtime_accepts|]. split; [by intros; apply start_accepted|].
  destruct (validate_limits c Hv) as (Hk&Hlim&_). limits c. split_and!; try lia.
  - apply Load_rest in Hl as (?&?&?&?&Hl). apply load_rest_Ok in Hl as (_&He&_&Hj&Ha&Hs&_&_&Hq). rw He. intros Hne.
    rw Hj Ha Hs Hq. unfold secret. by rw bool_decide_eq_false_2.
  - intros d' i' Hd' Hi'. by apply (Load_order getenv durations d' integers i').
Qed.

(** An empty environment is a development one. *)
Definition development : string → string := λ _, "".

Lemma development_loads : ∃ c, Load development http_durations http_integers = Ok c ∧ cf_Environment c = "development".
Proof.
  destruct (Load development http_durations http_integers) as [c|] eqn:E; [|vm_compute in E; discriminate].
  exists c. split; [reflexivity|]. vm_compute in E. injection E as <-. reflexivity.
Qed.

Lemma loaded_config_starts_witness :
  ∃ c api, Load development http_durations http_integers = Ok c
    ∧ api_components (λ _ _ _ _ _, Some example_client) c = Ok api.
Proof.
  destruct development_loads as (c&Hl&_).
  destruct (loaded_config_starts (λ _ _ _ _ _, Some example_client) development http_durations http_integers c)
    as (_&_&Hstart&_).
  - reflexivity.
  - reflexivity.
  - exact Hl.
  - destruct (Hstart fresh_broker) as [[api Hapi] _]; [split; by eexists|by left|].
    exists c, api. split; [exact Hl|exact Hapi].
Defined.
