(* ===== verification/Migrations.v ===== *)
(** The migrations runner, src/go/internal/platform/migrations/migrator.go: the embedded
    files become a list in version order, and each is applied in a transaction that holds
    an advisory lock, by as many processes at a time as are started. *)

From S2P Require Import Prelude GoStrings Json Queue GoValue JobModel Schema Sql Config Svc.
From Stdlib Require Import ZifyBool ZifyN.

Open Scope Z_scope.

(** ** Files *)

Record Migration := mkMigration { mg_Version : Z; mg_Name : string; mg_SQL : string }.

(** An entry of the embedded directory; [None] when the file cannot be read. *)
Record Entry := mkEntry { en_Name : string; en_IsDir : bool; en_File : option string }.

Definition name_byte (b : N) : bool := is_lower b || is_digit b || N.eqb b 95.

(** [migrationNamePattern], [^(\d{6})_([a-z0-9_]+)\.sql$]: the first group. *)
Definition match_name (name : string) : option (list N) :=
  let b := bytes_of name in
  let digits := take 6 b in
  let rest := drop 7 b in
  let stem := take (length rest - 4) rest in
  if bool_decide (length digits = 6%nat) && forallb is_digit digits && bool_decide (b !! 6%nat = Some 95%N)
     && bool_decide (drop (length rest - 4) rest = bytes_of ".sql") && negb (bool_decide (stem = [])) && forallb name_byte stem
  then Some digits else None.

(** One round of the loop over the entries. *)
Definition load_entry (entry : Entry) : res (option Migration) :=
  if en_IsDir entry then Ok None else
  match match_name (en_Name entry) with
  | None => Err (ErrText "migration filename must match NNNNNN_name.sql")
  | Some digits =>
      match ParseUint 64 digits with
      | None => Err (ErrText "migration filename has invalid version")
      | Some version =>
          if version =? 0 then Err (ErrText "migration filename has invalid version") else
          match en_File entry with
          | None => Err (ErrText "read migration")
          | Some sql => Ok (Some (mkMigration version (en_Name entry) sql))
          end
      end
  end.

Fixpoint duplicate_version (loaded : list Migration) : bool :=
  match loaded with
  | x :: (y :: _) as rest => (mg_Version x =? mg_Version y) || duplicate_version rest
  | _ => false
  end.

Definition Migrations_Load (entries : list Entry) : res (list Migration) :=
  loaded ← mapM load_entry entries;
  let loaded := sort_by (λ x y, mg_Version x <? mg_Version y) (omap id loaded) in
  if duplicate_version loaded then Err (ErrText "duplicate migration version") else Ok loaded.

(** ** The database *)

Section apply.
(** The rest of the database, and what a script does to it: it may fail. *)
Context {Schema : Type} (run_script : string → Schema → option Schema).

Record MDB := mkMDB { md_schema : Schema; md_versions : option (gmap Z string) }.

Definition create_table (d : MDB) : MDB := mkMDB (md_schema d) (Some (default ∅ (md_versions d))).

(** The transaction of one migration. The lock makes it the only one; a fault strikes
    before the commit, or the answer to the commit is lost. *)
Definition applyOne (fault : Fault) (m : Migration) (d : MDB) : res unit * MDB :=
  match md_versions d with
  | None => (Err (ErrText "check migration"), d)
  | Some versions =>
      let committed (d' : MDB) :=
        match fault with
        | NoFault => (Ok tt, d')
        | Refused => (Err (ErrText "begin migration"), d)
        | CommitUnknown => (Err (ErrText "commit migration"), d')
        end in
      if bool_decide (is_Some (versions !! mg_Version m)) then committed d
      else match run_script (trim_space (mg_SQL m)) (md_schema d) with
           | None => (Err (ErrText "apply migration"), d)
           | Some schema => committed (mkMDB schema (Some (<[mg_Version m := mg_Name m]> versions)))
           end
  end.

Fixpoint apply_all (faults : nat → Fault) (n : nat) (ms : list Migration) (d : MDB) : res unit * MDB :=
  match ms with
  | [] => (Ok tt, d)
  | m :: ms =>
      match applyOne (faults n) m d with
      | (Err e, d) => (Err e, d)
      | (Ok _, d) => apply_all faults (S n) ms d
      end
  end.

Definition Apply (entries : list Entry) (faults : nat → Fault) (d : MDB) : res unit * MDB :=
  match Migrations_Load entries with
  | Err e => (Err e, d)
  | Ok loaded =>
      match faults 0%nat with
      | NoFault => apply_all faults 1 loaded (create_table d)
      | Refused => (Err (ErrText "create schema_migrations"), d)
      | CommitUnknown => (Err (ErrText "create schema_migrations"), create_table d)
      end
  end.

(** *** Several processes *)

(** A process that is still to apply [rest], or has stopped with an error. *)
Inductive Runner := Running (rest : list Migration) | Stopped.

Record MWorld := mkMWorld { mw_db : MDB; mw_runners : list Runner }.

(** Process [i] takes its next transaction. *)
Definition mig_step (w : MWorld) (a : nat * Fault) : MWorld :=
  match mw_runners w !! a.1 with
  | Some (Running (m :: rest)) =>
      let (r, d) := applyOne a.2 m (mw_db w) in
      mkMWorld d (<[a.1 := match r with Ok _ => Running rest | Err _ => Stopped end]> (mw_runners w))
  | _ => w
  end.

(** [n] processes that have loaded [ms], and the turns they take. *)
Definition run_migrations (ms : list Migration) (n : nat) (turns : list (nat * Fault)) (d : MDB) : MWorld :=
  foldl mig_step (mkMWorld (create_table d) (replicate n (Running ms))) turns.

(** ** What a loaded list is *)

#[local] Instance version_strict : StrictWeak (λ x y, mg_Version x <? mg_Version y).
Proof. split; intros; lia. Qed.

Definition version_lt (x y : Migration) : Prop := mg_Version x < mg_Version y.

#[local] Instance version_lt_trans : Transitive version_lt.
Proof. intros x y z. unfold version_lt. lia. Qed.

Lemma distinct_sorted ms :
  StronglySorted (before (λ x y, mg_Version x <? mg_Version y)) ms → duplicate_version ms = false → StronglySorted version_lt ms.
Proof.
  induction 1 as [|x ms Hs IH Hx]; intros Hd; [constructor|].
  apply Sorted_StronglySorted; [apply _|]. destruct ms as [|y ms]; [repeat constructor|].
  simpl in Hd. apply orb_false_iff in Hd as [Hne Hd]. constructor; [by apply StronglySorted_Sorted, IH|].
  constructor. inversion Hx as [|? ? Hb _]; subst. unfold before, version_lt in *. lia.
Qed.

Lemma Load_sorted entries ms : Migrations_Load entries = Ok ms → StronglySorted version_lt ms.
Proof.
  unfold Migrations_Load. intros Hl. apply res_bind_Ok in Hl as (l&_&Hl). destruct (duplicate_version _) eqn:Hd; [done|]. injection Hl as <-.
  apply distinct_sorted; [apply (sort_by_StronglySorted _)|exact Hd].
Qed.

(** ** The database after the first migrations *)

Definition record_versions (l : list Migration) : gmap Z string :=
  foldl (λ acc m, <[mg_Version m := mg_Name m]> acc) ∅ l.

Definition run_scripts (l : list Migration) (s : Schema) : option Schema :=
  foldl (λ acc m, s ← acc; run_script (trim_space (mg_SQL m)) s) (Some s) l.

(** The first [k] migrations of [ms] have been applied to [s0], each once and in order. *)
Definition applied (ms : list Migration) (s0 : Schema) (k : nat) (d : MDB) : Prop :=
  run_scripts (take k ms) s0 = Some (md_schema d) ∧ md_versions d = Some (record_versions (take k ms)).

Lemma record_versions_snoc l m : record_versions (l ++ [m]) = <[mg_Version m := mg_Name m]> (record_versions l).
Proof. unfold record_versions. by rw foldl_app. Qed.

Lemma record_versions_is_Some l v : is_Some (record_versions l !! v) ↔ ∃ m, m ∈ l ∧ mg_Version m = v.
Proof.
  induction l as [|m l IH] using rev_ind.
  - split; [intros []; done|]. intros (m&Hm&_). set_solver.
  - rw record_versions_snoc lookup_insert_is_Some'. rw IH. set_solver.
Qed.

Lemma take_drop_S {A} (l : list A) i x rest : drop i l = x :: rest → take (S i) l = take i l ++ [x] ∧ drop (S i) l = rest ∧ (i < length l)%nat.
Proof.
  intros E. assert (l !! i = Some x) as Hx by (rw -(Nat.add_0_r i) -lookup_drop E; done).
  split_and!; [by apply take_S_r| |by eapply lookup_lt_Some].
  by rw -Nat.add_1_r -drop_drop E.
Qed.

Lemma run_scripts_snoc l m s : run_scripts (l ++ [m]) s = (s ← run_scripts l s; run_script (trim_space (mg_SQL m)) s).
Proof. unfold run_scripts. by rw foldl_app. Qed.

(** A migration that was applied is found in the table, the next one is not. *)
Lemma applied_version ms s0 k d i m rest :
  StronglySorted version_lt ms → applied ms s0 k d → (k <= length ms)%nat → drop i ms = m :: rest →
  bool_decide (is_Some (record_versions (take k ms) !! mg_Version m)) = bool_decide (i < k)%nat.
Proof.
  intros Hs _ Hk E. apply bool_decide_ext. rw record_versions_is_Some.
  assert (ms !! i = Some m) as Hm by (rw -(Nat.add_0_r i) -lookup_drop E; done). split.
  - intros (m'&(j&Hj)%list_elem_of_lookup_1&Hv). apply lookup_take_Some in Hj as [Hj Hjk].
    destruct (decide (j = i)) as [->|Hne]; [done|].
    destruct (decide (i < k)%nat) as [|Hik]; [done|]. assert (j < i)%nat as Hlt by lia.
    exfalso. assert (version_lt m' m) as Hmm; [|unfold version_lt in *; lia].
    rw -(take_drop i ms) in Hs. apply (StronglySorted_app_1_elem_of _ _ _ m' m Hs); [|rw E; by left].
    apply list_elem_of_lookup_2 with j. by apply lookup_take_Some.
  - intros Hik. exists m. split; [|done]. apply list_elem_of_lookup_2 with i. by apply lookup_take_Some.
Qed.

(** One transaction of a process that has passed the first [i] migrations. *)
Lemma applyOne_applied ms s0 k d i m rest fault r d' :
  StronglySorted version_lt ms → applied ms s0 k d → (i <= k <= length ms)%nat → drop i ms = m :: rest →
  applyOne fault m d = (r, d') →
  ∃ k', (k <= k' <= length ms)%nat ∧ applied ms s0 k' d' ∧ (r = Ok tt → (S i <= k')%nat).
Proof.
  intros Hs Ha Hk E. destruct (take_drop_S _ _ _ _ E) as (Ht&_&Hlt). unfold applyOne.
  destruct Ha as [Hr Hv] eqn:Heq. clear Heq. rw Hv.
  rw (applied_version ms s0 k d i m rest) //; [lia|]. case_bool_decide as Hik.
  { intros Hf. exists k. assert (d' = d) as -> by (destruct fault; congruence). split; [lia|split; [done|lia]]. }
  assert (k = i) as -> by lia. destruct (run_script _ _) as [schema|] eqn:Hscript.
  - assert (applied ms s0 (S i) (mkMDB schema (Some (<[mg_Version m := mg_Name m]> (record_versions (take i ms)))))) as Ha'.
    { split; simpl; rw Ht; [rw run_scripts_snoc Hr /=; done|by rw record_versions_snoc]. }
    destruct fault; intros [= <- <-]; [exists (S i)|exists i|exists (S i)]; (split; [lia|split; [done|intros; done || lia]]).
  - intros [= <- <-]. exists i. split; [lia|split; [done|done]].
Qed.

Definition runner_at (ms : list Migration) (k : nat) (r : Runner) : Prop :=
  match r with Running rest => ∃ i, (i <= k)%nat ∧ rest = drop i ms | Stopped => True end.

Lemma runner_at_mono ms k k' r : (k <= k')%nat → runner_at ms k r → runner_at ms k' r.
Proof. intros Hk. destruct r as [rest|]; [|done]. intros (i&Hi&->). exists i. split; [lia|done]. Qed.

Definition mig_inv (ms : list Migration) (s0 : Schema) (k0 : nat) (w : MWorld) : Prop :=
  ∃ k, (k0 <= k <= length ms)%nat ∧ applied ms s0 k (mw_db w) ∧ Forall (runner_at ms k) (mw_runners w).

Lemma mig_step_inv ms s0 k0 w a : StronglySorted version_lt ms → mig_inv ms s0 k0 w → mig_inv ms s0 k0 (mig_step w a).
Proof.
  intros Hs (k&Hk&Ha&Hr). unfold mig_step. destruct (mw_runners w !! a.1) as [[[|m rest]|]|] eqn:Hi; try (by exists k).
  pose proof (list.Forall_lookup_1 _ _ _ _ Hr Hi) as (i&Hik&E).
  destruct (applyOne a.2 m (mw_db w)) as [r d'] eqn:Ho.
  destruct (applyOne_applied ms s0 k _ i m rest _ _ _ Hs Ha ltac:(lia) (eq_sym E) Ho) as (k'&Hk'&Ha'&Hok).
  exists k'. split; [lia|split; [done|]]. simpl. apply list.Forall_insert.
  - eapply list.Forall_impl; [exact Hr|]. intros r0. apply runner_at_mono. lia.
  - destruct r as [[]|]; [|done]. exists (S i). split; [by apply Hok|]. by destruct (take_drop_S _ _ _ _ (eq_sym E)) as (_&->&_).
Qed.

Lemma run_migrations_inv ms s0 k0 n turns d : StronglySorted version_lt ms → (k0 <= length ms)%nat →
  applied ms s0 k0 (create_table d) → mig_inv ms s0 k0 (run_migrations ms n turns d).
Proof.
  intros Hs Hk Ha. unfold run_migrations.
  assert (mig_inv ms s0 k0 (mkMWorld (create_table d) (replicate n (Running ms)))) as H0.
  { exists k0. split; [lia|split; [done|]]. apply list.Forall_replicate. exists 0%nat. split; [lia|done]. }
  revert H0. generalize (mkMWorld (create_table d) (replicate n (Running ms))).
  induction turns as [|a turns IH]; intros w Hw; simpl; [done|]. by apply IH, mig_step_inv.
Qed.

(** One process by itself. *)
Lemma apply_all_applied ms s0 faults n k d i : StronglySorted version_lt ms → applied ms s0 k d → (i <= k <= length ms)%nat →
  ∃ k', (k <= k' <= length ms)%nat ∧ applied ms s0 k' (apply_all faults n (drop i ms) d).2
    ∧ ((apply_all faults n (drop i ms) d).1 = Ok tt → k' = length ms).
Proof.
  intros Hs. remember (drop i ms) as rest eqn:E. revert n k d i E. induction rest as [|m rest IH]; intros n k d i E Ha Hk; simpl.
  - exists k. split; [lia|split; [done|]]. intros _. apply (f_equal length) in E. rw length_drop /= in E. lia.
  - destruct (applyOne (faults n) m d) as [r d'] eqn:Ho.
    destruct (applyOne_applied ms s0 k d i m rest _ _ _ Hs Ha Hk (eq_sym E) Ho) as (k'&Hk'&Ha'&Hok).
    destruct r as [[]|err]; [|exists k'; split; [lia|split; [done|done]]].
    destruct (IH (S n) k' d' (S i)) as (k''&Hk''&Ha''&Hall); [|done| |].
    + by destruct (take_drop_S _ _ _ _ (eq_sym E)) as (_&->&_).
    + specialize (Hok eq_refl). lia.
    + exists k''. split; [lia|split; [done|done]].
Qed.

Lemma apply_all_again ms s0 n d i : StronglySorted version_lt ms → applied ms s0 (length ms) d → (i <= length ms)%nat →
  apply_all (λ _, NoFault) n (drop i ms) d = (Ok tt, d).
Proof.
  intros Hs Ha. remember (drop i ms) as rest eqn:E. revert n i E. induction rest as [|m rest IH]; intros n i E Hi; simpl; [done|].
  destruct (take_drop_S _ _ _ _ (eq_sym E)) as (_&E'&Hlt). unfold applyOne. destruct Ha as [Hr Hv]. rw Hv.
  rw (applied_version ms s0 (length ms) d i m rest) //. rw bool_decide_eq_true_2 //. by apply (IH (S n) (S i)).
Qed.

(** C27. However many processes run the migrations at once, whatever order they take their
    turns in and whichever transactions fail or are cut off at the commit, the database
    is at every moment the result of running a first part of the migrations in version
    order, each exactly once, and the table records exactly these; a process that
    reports success leaves all of them applied, nothing applied is undone, and running the
    migrations again does nothing. *)
Theorem migrations_exactly_once entries ms s0 k0 n turns d :
  Migrations_Load entries = Ok ms → (k0 <= length ms)%nat → applied ms s0 k0 (create_table d) →
  let w := run_migrations ms n turns d in
  StronglySorted version_lt ms
  ∧ (∃ k, (k0 <= k <= length ms)%nat ∧ applied ms s0 k (mw_db w) ∧ (Running [] ∈ mw_runners w → k = length ms))
  ∧ (∀ faults, (Apply entries faults d).1 = Ok tt → applied ms s0 (length ms) (Apply entries faults d).2)
  ∧ (k0 = length ms → Apply entries (λ _, NoFault) d = (Ok tt, create_table d)).
Proof.
  intros Hl Hk Ha. pose proof (Load_sorted _ _ Hl) as Hs. split; [done|]. unfold Apply. rw Hl.
  split; [|split; [|intros ->; apply (apply_all_again ms s0 1 _ 0); [done|done|lia]]].
  2:{ intros faults. destruct (faults 0%nat); [|done..]. intros Hok.
      destruct (apply_all_applied ms s0 faults 1 k0 (create_table d) 0 Hs Ha) as (k&_&Ha'&Hall); [lia|]. by rw -(Hall Hok). }
  destruct (run_migrations_inv ms s0 k0 n turns d Hs Hk Ha) as (k&Hk'&Ha'&Hr). exists k. split; [lia|split; [done|]].
  rw list.Forall_forall in Hr. intros (i&Hi&E)%Hr. apply (f_equal length) in E. rw length_drop /= in E. lia.
Qed.
End apply.

(** ** The repository's migrations

    Their scripts are not run here: the schema is the list of scripts that ran. *)

Definition embedded : list Entry := map (λ name, mkEntry name false (Some name)) [
  "000001_initial.sql"; "000002_identity.sql"; "000003_datasets.sql"; "000004_multipart_uploads.sql"; "000005_messaging.sql";
  "000006_multipart_operation_fencing.sql"; "000007_jobs.sql"; "000008_quality_rules.sql"; "000009_results_inbox_artifacts.sql";
  "000010_leases_retries_dlq.sql"; "000011_progress_cancellation.sql"; "000012_worker_registry.sql"].

Definition log_script (sql : string) (log : list string) : option (list string) := Some (log ++ [sql]).

Definition embedded_loaded : list Migration := match Migrations_Load embedded with Ok ms => ms | Err _ => [] end.

Lemma embedded_loads : Migrations_Load embedded = Ok embedded_loaded ∧ length embedded_loaded = 12%nat.
Proof. vm_compute. split; reflexivity. Qed.

(** Two processes, of which one loses its connection at the second commit. *)
Lemma migrations_exactly_once_witness :
  let d := mkMDB [] None in
  let w := run_migrations log_script embedded_loaded 2 ([(0%nat, NoFault); (1%nat, NoFault); (0%nat, CommitUnknown)] ++ replicate 11 (1%nat, NoFault)) d in
  applied log_script embedded_loaded [] 12 (mw_db w) ∧ mw_runners w = [Stopped; Running []].
Proof.
  intros d w. assert (mw_runners w = [Stopped; Running []]) as Hr by (vm_compute; reflexivity). split; [|exact Hr].
  destruct (migrations_exactly_once log_script embedded embedded_loaded [] 0 2
    ([(0%nat, NoFault); (1%nat, NoFault); (0%nat, CommitUnknown)] ++ replicate 11 (1%nat, NoFault)) d)
    as (_&(k&_&Ha&Hk)&_).
  - apply embedded_loads.
  - lia.
  - split; reflexivity.
  - assert (k = 12%nat) as ->; [|exact Ha]. rewrite <- (proj2 embedded_loads). apply Hk.
    change (Running [] ∈ mw_runners w). rw Hr. right. left.
Defined.
